(* ===== verification/_CoqProject ===== *)
-Q . S2P
Prelude.v
GoLib.v
JamNatural.v
JamCodec.v
JamSafety.v
JamRoundtrip.v
JamTheorems.v
PvmMemory.v
PvmMemoryProps.v
PvmOpcodes.v
PvmProgram.v
PvmInstance.v
PvmMutations.v
PvmStep.v
PvmInvoke.v
PvmLogic.v
PvmTriples.v
PvmSafety.v
PvmRun.v
PvmProgramProps.v
PvmAlu.v
PvmDemo.v
PvmMemoryTheorems.v
PvmTheorems.v
JamTime.v
Shuffle.v
Mmr.v
Trie.v
TrieMerkle.v
TrieDb.v
MerkleTheorems.v
Grid.v
Blocks.v
Services.v
Accumulation.v
AccumulationRun.v
Safrole.v
SafroleProps.v
SafroleTheorems.v
BlockSeal.v
BlockSealTheorems.v
Bandersnatch.v
BandersnatchTheorems.v
Disputes.v
DisputesTheorems.v
Reports.v
ReportsProps.v
ReportsTheorems.v
Guarantees.v
GuaranteesTheorems.v
BinaryTree.v
History.v
HistoryTheorems.v
HostCalls.v
HostAccumulate.v
AccumulateInvoke.v
AccumulationTheorems.v
Transition.v
HostProps.v
HostLogic.v
HostRun.v
HostEval.v
TransitionTheorems.v
HostTheorems.v
AccumulationResults.v
Work.v
HostRefine.v
Refinement.v
RefineLogic.v
RefineTheorems.v
ErasureCoding.v
ErasureTheorems.v
WorkResults.v
WorkTheorems.v
StateSerialization.v
StateTheorems.v
Chain.v
ChainTheorems.v
Network.v
NetworkTheorems.v
