(* ===== verification/Prelude.v ===== *)
(** * Strawberry

    A model of Strawberry, a JAM client in Go, and the theorems that say what its
    core does.  The files follow the repository's packages; a definition has the
    name of the Go function or type it models where that name is free, and a
    loop or a branch of a long function that became a definition of its own has a
    lower-case name with underscores.

    ** The program

    A JAM node takes blocks and applies [UpdateState]
    ([internal/statetransition]) to its state.  The state holds validators and the
    tickets of the block lottery (Safrole), reports of work done on cores,
    judgements, the recent history, and services with their accounts.  Blocks,
    reports and state components are encoded with the JAM codec
    ([pkg/serialization/codec/jam]), hashed, and committed to with Merkle
    structures ([internal/merkle]).  The code of services runs on the PVM
    ([internal/polkavm]), a gas-metered register machine.

    ** Conventions

    A fixed-width integer is a [Z] whose wrap-around is written out ([uint32],
    [int64], ...: GoLib); a byte string is a list of [Z].  A call has the outcomes
    of [res] below: a value, an error, or a runtime panic; index and slice
    expressions panic out of range ([go_index], [go_slice]).  A nil pointer is
    [None].  Go maps are [gmap], sets are [gset]; where the iteration order of a
    map could matter the order is an argument.  Machine code and stateful loops
    pass their state explicitly.  Hash functions, signatures, the VRF, the
    key-value store and the host are parameters, with the laws that a theorem
    needs as hypotheses or as a class ([ArkLaws], [BandersnatchLaws], [StoreLaws],
    [PebbleLaws], [ReliableQuic]).

    The maps of accounts are shared between the contexts of an invocation, and by
    the goroutines of an accumulation: host calls and accumulation run on a heap of
    maps (HostCalls), into which [UpdateState] loads the maps of the state and from
    which it reads those of the new one.  A goroutine of [ParallelDelta] is one step,
    the invocation with the critical section after it; the order of the goroutines
    and that of the iteration over the services are given ([Choices]).  Interleaved
    accesses of two invocations to one map, which Go leaves undefined, are not
    modelled.

    ** Files

    - Prelude, GoLib: outcomes of calls, integers, slices.
    - JamNatural, JamCodec: [general_natural.go], [trivial_natural.go],
      [encode.go], [decode.go] over a universe of Go types.  JamSafety, JamRoundtrip:
      lemmas; JamTheorems: theorems.
    - PvmMemory ([common.go], [initialisation.go]), PvmOpcodes
      ([instruction_codes.go], [instructions.go]), PvmProgram ([program.go]),
      PvmInstance ([instance.go]), PvmMutations ([mutations.go]), PvmStep
      ([step.go]), PvmInvoke ([invocations.go]).  PvmLogic is a small program
      logic for steps; PvmTriples, PvmSafety, PvmRun, PvmProgramProps, PvmAlu,
      PvmMemoryProps: lemmas; PvmDemo: concrete programs; PvmMemoryTheorems,
      PvmTheorems: theorems.
    - JamTime: [internal/jamtime].  Shuffle:
      [internal/common/shuffling.go].
    - Mmr ([mountain_ranges]), Trie ([merkle/trie]), BinaryTree
      ([merkle/binary_tree]); TrieMerkle, TrieDb: the abstract trie and
      lemmas; MerkleTheorems, BinaryTree: theorems.
    - Grid: [internal/validator].
    - Blocks: [internal/block], [internal/state/types.go], constants, and the JAM
      types of headers and reports.  Services:
      [internal/service].
    - Accumulation: the queue of reports, selection by gas, the critical section of
      [ParallelDelta] and the merge of its results.  AccumulationRun: lemmas,
      and critical sections as a step relation; AccumulationTheorems.
      AccumulationResults: the functions on accumulation results, services and gas
      that [UpdateState] does not use, with their theorems.
    - Safrole: [internal/safrole] and [UpdateSafroleState]; SafroleProps,
      SafroleTheorems.  BlockSeal, BlockSealTheorems: [state/block_seal.go].
      Bandersnatch ([internal/crypto/bandersnatch] and the C interface of
      [bandersnatch/src/lib.rs], and the functions of Safrole that use a ring
      verifier, with the library's state), BandersnatchTheorems.
    - Disputes, DisputesTheorems: [CalculateNewJudgements].  Reports,
      ReportsProps, ReportsTheorems: assurances, guarantors and assignments.
      Guarantees, GuaranteesTheorems: the state record and
      [ValidateExtrinsicGuarantees].  History, HistoryTheorems: recent blocks,
      authorizer pools, statistics, preimages.
    - Transition, TransitionTheorems: [UpdateState], one block and sequences of
      blocks.
    - HostCalls, HostAccumulate, HostRefine: the host functions of
      [internal/polkavm/host_call], general, for accumulation and for refinement.
      AccumulateInvoke: [accumulate.go], [on_transfer.go], and on top of them
      [Delta1], [ParallelDelta], [SequentialDelta] and
      [CalculateWorkReportsAndAccumulate]; Refinement: [internal/refine],
      [internal/authorization].  HostProps, HostLogic, HostRun,
      HostEval, RefineLogic: a small program logic for host functions and lemmas;
      HostTheorems, RefineTheorems: theorems.
    - Work ([internal/work]), WorkResults ([internal/work/results]), WorkTheorems.
      ErasureCoding ([internal/erasurecoding] and the C interface of
      [erasurecoding/src/lib.rs]), ErasureTheorems.
    - StateSerialization ([internal/state/merkle]), StateTheorems.
    - Chain: [pkg/db/pebble], [internal/store/chain.go] and
      [internal/chain/service.go]; ChainTheorems.  Network: [pkg/network], from
      protocol identifiers and certificates to block requests, peers, nodes and
      transports; NetworkTheorems.

    ** What the theorems show

    - Codec: round trips of values and naturals, into fresh and used variables and
      behind pointers, no panic on any input, independence of the map order; where
      encoding crashes.
    - PVM: each instruction's effect, gas, control flow and exit reasons; the
      machine invariant; protection of memory; termination of runs and of serving
      host calls; layouts; where loading and steps go wrong.
    - Merkle structures: [Merklize] refines the Patricia trie, its root binds the
      entries, the database refines a store of the trie's nodes; mountain ranges
      refine binary counters; traces prove leaves.
    - Time and shuffle: conversions without loss, permutations.
    - Safrole and sealing: the update cannot panic, tickets, epoch changes; blocks
      sealed by a current validator verify.
    - Bandersnatch: the wrapper and the C interface implement the VRF that sealing
      assumes; the ticket contest over the library is that of the Safrole model and
      frees what it allocates; a ticket from its ring signature to the seal of a
      block; the ring size is fixed once.
    - Disputes, assurances, guarantees: what an accepted extrinsic does, and what
      it must satisfy.
    - Accumulation: selection by gas; for given results of the invocations, all
      orders of the critical sections agree; queue and history; gas shared among
      services within the limit.
    - Transition: the invariant of the state under blocks, through the invocations
      of services and all orders of goroutines; no report stays on its core for more
      than five blocks.
    - Host calls: what each kind may change, gas, termination of invocations for
      transfers, authorization and refinement; storage round trips;
      requests for preimages as a state machine; inner machines as a finite map.
      An invocation may also panic the process, which the theorems say.
    - Work: the checks of packages, the shape of evaluated reports, credentials.
      Erasure coding: any 342 of 1023 shards give the data back.
    - State serialization: for states whose entries have different keys everything
      can be read back, for every order of map iteration, and the root is that of the
      Patricia trie of the entries.
    - Chain service: the known leaves are the tips of the stored tree, finality
      along a chain, and how it can move back; requests for sequences of blocks.
    - Network: block requests from end to end, protocol identifiers, names and keys
      of certificates, the set of peers, what a handshake guarantees on either side;
      nodes start, accept loops stop.
    - Departures from the comments (the equations they cite) are theorems, too:
      arithmetic of the PVM, tickets that are lost, a seal that is refused, early
      and missing requests, reports with dependencies are never accumulated, the
      queue is overwritten,
      an assurance counts twice, the lookup anchor's comparison, statistics that
      never rotate, what [UpdateState] leaves out.

    ** Bounds

    Functions whose recursion is not structural take a bound on calls or turns and
    return [None] when it is used up; theorems give a sufficient one.  [Invoke]
    needs gas + 1 turns, since every step costs gas; [InvokeHostCall] one call
    more than the gas; [Merklize] 257 nested calls, one per bit of a 256-bit key
    and one more; [Append] one call more than there are peaks and [SuperPeak]
    likewise; [DeriveIndex] one try more than there are services;
    [accumulationPriority] two; [SequentialDelta] takes at least one report per call,
    and [UpdateState] has one bound for this and for its invocations, whose gas a
    transfer with a negative limit can raise: the theorems on it speak about runs
    that end; a whole program run needs one call and one turn more than its gas, and an
    inner machine as many turns as the gas it is given.  [GetBlockSequence] needs
    two turns more than the blocks it may return, an iterator one turn more than its
    entries, and the walk back to the finalized header as many turns as there are
    generations in between.  The loops that accept connections and
    streams need one turn more than they are given outcomes before their context
    ends.  Loops with a fixed bound have it as fuel (nine lengths of a natural, the
    blobs of a tree, the turns of a [uint16] loop).

    ** Not modelled

    Pebble, QUIC, TLS and X.509 are foreign libraries and parameters, with the laws
    of the classes [PebbleLaws] and [ReliableQuic]; the cancellation of contexts is
    an outcome that loops are given.  Likewise the hash functions, Ed25519, the
    curve arithmetic and proofs of [ark_ec_vrfs] (class [ArkLaws]) and the
    Reed-Solomon arithmetic are parameters.  Loading shared libraries, log output,
    test utilities and the integration-test constants are left out. *)
From stdpp Require Export base numbers list list_numbers gmap strings.
From Stdlib Require Export ZArith Lia.

#[global] Open Scope Z_scope.

(** ** Outcomes of Go calls

    A Go function that returns [(T, error)] has three outcomes: a value with a
    nil error, an error, or a runtime panic (index or slice bounds out of
    range, [makeslice] out of range, stack overflow) which takes the process
    down unless it is recovered.  No code modelled here calls [recover]. *)
Inductive res (E A : Type) : Type :=
| Ok (a : A)
| Err (e : E)
| RuntimePanic.
Arguments Ok {E A} _.
Arguments Err {E A} _.
Arguments RuntimePanic {E A}.

Declare Scope go_scope.
Delimit Scope go_scope with go.

Definition rbind {E A B} (c : res E A) (k : A → res E B) : res E B :=
  match c with
  | Ok a => k a
  | Err e => Err e
  | RuntimePanic => RuntimePanic
  end.

Notation "'let!' x ':=' c 'in' k" := (rbind c (λ x, k))
  (at level 10, x pattern, c at level 100, k at level 200) : go_scope.
#[global] Open Scope go_scope.

(** Replaces the error of a failed call ([fmt.Errorf] wrapping, or
    [ErrPanicf(err.Error())]). *)
Definition map_err {E F A} (f : E → F) (c : res E A) : res F A :=
  match c with
  | Ok a => Ok a
  | Err e => Err (f e)
  | RuntimePanic => RuntimePanic
  end.

Lemma rbind_Ok_inv {E A B} (c : res E A) (k : A → res E B) b :
  rbind c k = Ok b → ∃ a, c = Ok a ∧ k a = Ok b.
Proof. destruct c; simpl; intros; simplify_eq; eauto. Qed.

Lemma rbind_Ok {E A B} (a : A) (k : A → res E B) : rbind (Ok a) k = k a.
Proof. reflexivity. Qed.

Lemma rbind_assoc {E A B C} (c : res E A) (f : A → res E B) (g : B → res E C) :
  rbind (rbind c f) g = rbind c (λ a, rbind (f a) g).
Proof. by destruct c. Qed.

Lemma map_err_Ok_inv {E F A} (f : E → F) (c : res E A) a : map_err f c = Ok a → c = Ok a.
Proof. destruct c; simpl; intros; by simplify_eq. Qed.

(** [go_inv] takes apart the hypothesis that a chain of calls succeeded. *)
Ltac go_inv :=
  repeat match goal with
  | H : rbind _ _ = Ok _ |- _ => apply rbind_Ok_inv in H as (? & ? & H)
  | H : map_err _ _ = Ok _ |- _ => apply map_err_Ok_inv in H
  | H : Ok _ = Ok _ |- _ => progress simplify_eq
  | p : _ * _ |- _ => destruct p
  end.
