(* ===== verification/GoLib.v ===== *)
(** * The Go language and standard library, as far as the sources use them

    Fixed-width integers are elements of [Z] with the conversion written out
    where Go converts; slices are lists; [math/bits], [bytes.Buffer] and the
    parts of [math/big] the interpreter calls are executable functions. *)
From S2P Require Export Prelude.

(** ** Fixed-width integers *)

(** Conversion to an unsigned [w]-bit integer, and to a signed one. *)
Definition wrapU (w x : Z) : Z := x `mod` 2 ^ w.
Definition wrapS (w x : Z) : Z := (x + 2 ^ (w - 1)) `mod` 2 ^ w - 2 ^ (w - 1).

Definition uint8 : Z → Z := wrapU 8.
Definition uint16 : Z → Z := wrapU 16.
Definition uint32 : Z → Z := wrapU 32.
Definition uint64 : Z → Z := wrapU 64.
Definition int8 : Z → Z := wrapS 8.
Definition int16 : Z → Z := wrapS 16.
Definition int32 : Z → Z := wrapS 32.
Definition int64 : Z → Z := wrapS 64.

Definition inU (w x : Z) : Prop := 0 ≤ x < 2 ^ w.
Definition inS (w x : Z) : Prop := - 2 ^ (w - 1) ≤ x < 2 ^ (w - 1).

(** Shifts: the count is unsigned and may exceed the width, in which case the
    bits are shifted out one by one (Go has no undefined shift). *)
Definition go_shl (w x s : Z) : Z := if s <? w then Z.shiftl x s else 0.
Definition go_shr (w x s : Z) : Z :=
  if s <? w then Z.shiftr x s else if x <? 0 then -1 else 0.

(** ** Slices *)

Definition len {A} (l : list A) : Z := Z.of_nat (length l).

(** [l[i]] *)
Definition go_index {E A} (l : list A) (i : Z) : res E A :=
  if i <? 0 then RuntimePanic
  else match l !! Z.to_nat i with Some a => Ok a | None => RuntimePanic end.

(** [l[i] = a] *)
Definition go_update {E A} (l : list A) (i : Z) (a : A) : res E (list A) :=
  if (0 <=? i) && (i <? len l) then Ok (<[Z.to_nat i := a]> l) else RuntimePanic.

(** [l[lo:hi]], for a slice whose capacity is its length *)
Definition go_slice {E A} (l : list A) (lo hi : Z) : res E (list A) :=
  if (0 <=? lo) && (lo <=? hi) && (hi <=? len l)
  then Ok (take (Z.to_nat (hi - lo)) (drop (Z.to_nat lo) l))
  else RuntimePanic.

(** [l[lo:]] *)
Definition go_slice_from {E A} (l : list A) (lo : Z) : res E (list A) :=
  go_slice l lo (len l).

(** [make([]T, n)]: the runtime refuses a slice of more than [maxAlloc] bytes
    (2^48 on 64-bit platforms); running out of physical memory below that bound
    is not modelled. *)
Definition maxAlloc : Z := 2 ^ 48.
Definition go_make {E A} (elemSize : Z) (n : Z) (zero : A) : res E (list A) :=
  if (0 <=? n) && (n * elemSize <=? maxAlloc)
  then Ok (replicate (Z.to_nat n) zero)
  else RuntimePanic.

(** [copy(dst, src)]: the new contents of [dst]. *)
Definition go_copy {A} (dst src : list A) : list A :=
  take (length dst) src ++ drop (length src) dst.

(** ** [math/bits] *)

Definition OnesCount (w x : Z) : Z :=
  foldr (λ i acc, bool_to_Z (Z.testbit x i) + acc) 0 (seqZ 0 w).
Definition OnesCount64 : Z → Z := OnesCount 64.
Definition OnesCount32 : Z → Z := OnesCount 32.

(** The number of bits needed to represent [x] ([bits.Len64]). *)
Definition Len64 (x : Z) : Z := if x =? 0 then 0 else Z.log2 x + 1.
Definition LeadingZeros (w x : Z) : Z := w - Len64 x.
Definition LeadingZeros64 : Z → Z := LeadingZeros 64.
Definition LeadingZeros32 : Z → Z := LeadingZeros 32.
Definition LeadingZeros8 : Z → Z := LeadingZeros 8.

Fixpoint first_set (x i : Z) (n : nat) : Z :=
  match n with
  | O => i
  | S n => if Z.testbit x i then i else first_set x (i + 1) n
  end.
Definition TrailingZeros64 (x : Z) : Z := first_set x 0 64.
Definition TrailingZeros32 (x : Z) : Z := first_set x 0 32.

(** [bits.RotateLeft64(x, k)]: [s := uint(k) & (n - 1); x<<s | x>>(n-s)] *)
Definition RotateLeft (w x k : Z) : Z :=
  let s := Z.land (uint64 k) (w - 1) in
  Z.lor (wrapU w (go_shl w x s)) (go_shr w x (w - s)).
Definition RotateLeft64 : Z → Z → Z := RotateLeft 64.
Definition RotateLeft32 : Z → Z → Z := RotateLeft 32.

Definition ReverseBytes64 (x : Z) : Z :=
  little_endian_to_Z 8 (rev (Z_to_little_endian 8 8 x)).

(** [big.Int.Int64]: the low 64 bits of the magnitude, with the sign. *)
Definition big_Int64 (x : Z) : Z :=
  let v := int64 (Z.abs x `mod` 2 ^ 64) in
  if x <? 0 then int64 (- v) else v.

(** ** [bytes.Buffer] as an [io.Reader]

    The state is what is left to read.  [Read(p)] fills a prefix of [p]: a short
    read is not an error, but a read of a non-empty [p] from an empty buffer
    is [io.EOF]. *)
Definition buf_read {E} (eof : E) (n : Z) (buf : list Z) : res E (list Z * list Z) :=
  match buf with
  | [] => if n =? 0 then Ok ([], []) else Err eof
  | _ => Ok (go_copy (replicate (Z.to_nat n) 0) (take (Z.to_nat n) buf),
             drop (Z.to_nat n) buf)
  end.

(** ** Lemmas on integers *)

Lemma wrapU_range w x : 0 ≤ w → inU w (wrapU w x).
Proof. intros. apply Z.mod_pos_bound. by apply Z.pow_pos_nonneg. Qed.

Lemma wrapU_id w x : inU w x → wrapU w x = x.
Proof. apply Z.mod_small. Qed.

Lemma wrapU_idemp w x : 0 ≤ w → wrapU w (wrapU w x) = wrapU w x.
Proof. intros. by apply wrapU_id, wrapU_range. Qed.

Lemma wrapS_range w x : 0 < w → inS w (wrapS w x).
Proof.
  intros. unfold inS, wrapS.
  pose proof (Z.mod_pos_bound (x + 2 ^ (w - 1)) (2 ^ w) ltac:(apply Z.pow_pos_nonneg; lia)).
  replace (2 ^ w) with (2 * 2 ^ (w - 1)) in * by (rewrite <- Z.pow_succ_r by lia; f_equal; lia).
  lia.
Qed.

Lemma wrapS_id w x : 0 < w → inS w x → wrapS w x = x.
Proof.
  intros Hw [H1 H2]. unfold wrapS. rewrite Z.mod_small; [lia|].
  replace (2 ^ w) with (2 * 2 ^ (w - 1)) by (rewrite <- Z.pow_succ_r by lia; f_equal; lia).
  lia.
Qed.

(** Signed and unsigned conversions only depend on the value modulo [2 ^ w]. *)
Lemma wrapU_wrapS w x : 0 < w → wrapU w (wrapS w x) = wrapU w x.
Proof.
  intros. unfold wrapU, wrapS.
  rewrite Zminus_mod_idemp_l. f_equal. lia.
Qed.

Lemma wrapS_wrapU w x : 0 ≤ w → wrapS w (wrapU w x) = wrapS w x.
Proof. intros. unfold wrapU, wrapS. by rewrite Zplus_mod_idemp_l. Qed.

Lemma wrapU_wrapU w v x : 0 ≤ w ≤ v → wrapU w (wrapU v x) = wrapU w x.
Proof.
  intros. unfold wrapU. apply Z.mod_mod_divide.
  exists (2 ^ (v - w)). rewrite <- Z.pow_add_r by lia. f_equal. lia.
Qed.

Lemma wrapU_eq_mod w x y : (x - y) `mod` 2 ^ w = 0 → 0 ≤ w → wrapU w x = wrapU w y.
Proof.
  intros H Hw. unfold wrapU.
  assert (0 < 2 ^ w) by (apply Z.pow_pos_nonneg; lia).
  apply Z.mod_divide in H as [k Hk]; [|lia].
  replace x with (y + k * 2 ^ w) by lia. apply Z.mod_add. lia.
Qed.

Lemma wrapU_small_iff w x : 0 ≤ w → wrapU w x = x ↔ inU w x.
Proof. intros. split; [intros <-; by apply wrapU_range | apply wrapU_id]. Qed.

Lemma len_nonneg {A} (l : list A) : 0 ≤ len l.
Proof. unfold len. lia. Qed.

Lemma len_app {A} (l k : list A) : len (l ++ k) = len l + len k.
Proof. unfold len. rewrite length_app. lia. Qed.

Lemma len_replicate {A} n (x : A) : len (replicate n x) = Z.of_nat n.
Proof. unfold len. by rewrite length_replicate. Qed.

(** Masking with an all-ones constant is reduction modulo a power of two. *)
Lemma wrapU_land_ones w x : 0 ≤ w → wrapU w x = Z.land x (Z.ones w).
Proof. intros. symmetry. by apply Z.land_ones. Qed.

Lemma wrapU_lor w x y : 0 ≤ w → wrapU w (Z.lor x y) = Z.lor (wrapU w x) (wrapU w y).
Proof. intros. by rewrite !wrapU_land_ones, Z.land_lor_distr_l. Qed.

Lemma wrapU_go_shl w x s : 0 ≤ w → 0 ≤ s → wrapU w (go_shl w x s) = wrapU w (Z.shiftl x s).
Proof.
  intros. unfold go_shl. destruct (Z.ltb_spec s w) as [|Hs]; [done|].
  unfold wrapU. rewrite Z.mod_0_l by (apply Z.pow_nonzero; lia).
  rewrite Z.shiftl_mul_pow2 by lia. symmetry. apply Z.mod_divide; [apply Z.pow_nonzero; lia|].
  exists (x * 2 ^ (s - w)). rewrite <- Z.mul_assoc, <- Z.pow_add_r by lia.
  do 2 f_equal. lia.
Qed.

Lemma go_shr_small w x s : 0 ≤ w → inU w x → 0 ≤ s → go_shr w x s = Z.shiftr x s.
Proof.
  intros Hw [H1 H2] Hs. unfold go_shr. destruct (Z.ltb_spec s w); [done|].
  rewrite (proj2 (Z.ltb_ge x 0)) by lia. rewrite Z.shiftr_div_pow2 by lia.
  symmetry. apply Z.div_small. split; [lia|].
  eapply Z.lt_le_trans; [done|]. by apply Z.pow_le_mono_r.
Qed.

(** Splitting a number at a bit position and joining the halves again. *)
Lemma lor_split_at x k :
  0 ≤ k → Z.lor (x `mod` 2 ^ k) (Z.shiftl (Z.shiftr x k) k) = x.
Proof.
  intros. rewrite <- Z.land_ones by lia. apply Z.bits_inj'. intros n Hn.
  rewrite Z.lor_spec, Z.land_spec, Z.testbit_ones_nonneg, Z.shiftl_spec by lia.
  destruct (Z.ltb_spec n k).
  - rewrite (Z.testbit_neg_r _ (n - k)) by lia. by rewrite andb_true_r, orb_false_r.
  - rewrite andb_false_r, Z.shiftr_spec by lia. simpl. f_equal. lia.
Qed.

Lemma le_bytes_lookup m x i :
  0 ≤ m → Z.of_nat i < m →
  Z_to_little_endian m 8 x !! i = Some (Z.land (Z.shiftr x (8 * Z.of_nat i)) (Z.ones 8)).
Proof.
  intros. apply Z_to_little_endian_lookup_Some; [lia..|]. split; [done|].
  do 2 f_equal. lia.
Qed.

Lemma uint64_small x : 0 ≤ x < 2 ^ 64 → uint64 x = x.
Proof. apply wrapU_id. Qed.

Lemma go_slice_ok {E A} (l : list A) lo hi :
  0 ≤ lo ≤ hi → hi ≤ len l →
  @go_slice E A l lo hi = Ok (take (Z.to_nat (hi - lo)) (drop (Z.to_nat lo) l)).
Proof.
  intros. unfold go_slice.
  by rewrite (proj2 (Z.leb_le 0 lo)), (proj2 (Z.leb_le lo hi)), (proj2 (Z.leb_le hi (len l))) by lia.
Qed.

Lemma go_slice_panic {E A} (l : list A) lo hi :
  lo < 0 ∨ hi < lo ∨ len l < hi → @go_slice E A l lo hi = RuntimePanic.
Proof.
  intros H. unfold go_slice.
  destruct (Z.leb_spec 0 lo), (Z.leb_spec lo hi), (Z.leb_spec hi (len l)); simpl; try done; lia.
Qed.

Lemma go_index_Ok {E A} (l : list A) i a :
  @go_index E A l i = Ok a → 0 ≤ i ∧ l !! Z.to_nat i = Some a.
Proof.
  unfold go_index. destruct (Z.ltb_spec i 0); [done|].
  destruct (l !! Z.to_nat i) eqn:H'; [|done]. by intros [= ->].
Qed.

Lemma go_index_not_Err {E A} (l : list A) i e : @go_index E A l i ≠ Err e.
Proof. unfold go_index. by destruct (i <? 0), (l !! Z.to_nat i). Qed.

Lemma go_index_not_panic {E A} (l : list A) i :
  0 ≤ i < len l → @go_index E A l i ≠ RuntimePanic.
Proof.
  unfold len. intros H. unfold go_index. rewrite (proj2 (Z.ltb_ge i 0)) by lia.
  destruct (lookup_lt_is_Some_2 l (Z.to_nat i)) as [v ->]; [lia|done].
Qed.

Lemma go_index_panic {E A} (l : list A) i : i < 0 ∨ len l ≤ i → @go_index E A l i = RuntimePanic.
Proof.
  intros Hi. unfold go_index. destruct (Z.ltb_spec i 0); [done|].
  rewrite lookup_ge_None_2; [done|]. unfold len in Hi. lia.
Qed.

Lemma go_index_lookup {E A} (l : list A) i a :
  0 ≤ i → l !! Z.to_nat i = Some a → @go_index E A l i = Ok a.
Proof. intros Hi Ha. unfold go_index. rewrite (proj2 (Z.ltb_ge i 0)) by lia. by rewrite Ha. Qed.

Lemma go_update_ok {E A} (l : list A) i a :
  0 ≤ i < len l → @go_update E A l i a = Ok (<[Z.to_nat i := a]> l).
Proof.
  intros H. unfold go_update. by rewrite (proj2 (Z.leb_le 0 i)), (proj2 (Z.ltb_lt i _)) by lia.
Qed.

Lemma uint32_small n : 0 ≤ n < 2 ^ 32 → uint32 n = n.
Proof. intros. by apply wrapU_id. Qed.

Lemma go_make_small {E A} s n (z : A) :
  0 ≤ n → n * s ≤ maxAlloc → @go_make E A s n z = Ok (replicate (Z.to_nat n) z).
Proof.
  intros. unfold go_make. by rewrite (proj2 (Z.leb_le 0 n)), (proj2 (Z.leb_le (n * s) _)).
Qed.

#[global] Arguments wrapU : simpl never.
#[global] Arguments wrapS : simpl never.
#[global] Arguments uint8 : simpl never.
#[global] Arguments uint16 : simpl never.
#[global] Arguments uint32 : simpl never.
#[global] Arguments uint64 : simpl never.
#[global] Arguments int8 : simpl never.
#[global] Arguments int16 : simpl never.
#[global] Arguments int32 : simpl never.
#[global] Arguments int64 : simpl never.
#[global] Arguments go_shl : simpl never.
#[global] Arguments go_shr : simpl never.
#[global] Arguments go_make : simpl never.
#[global] Arguments go_slice : simpl never.
#[global] Arguments go_index : simpl never.
#[global] Arguments go_update : simpl never.
#[global] Arguments len : simpl never.
