(* ===== verification/JamNatural.v ===== *)
(** * Naturals of the JAM codec

    [pkg/serialization/codec/jam]: fixed-width little-endian naturals
    ([trivial_natural.go]), the variable-length general encoding
    ([general_natural.go]), its reader [decodeUint] ([decode.go]) and the error
    values ([errors.go]). *)
From S2P Require Export GoLib.

(** The error values of the package; those built with [fmt.Errorf] from a
    format carry the wrapped error. *)
Inductive jam_error : Type :=
| ErrFirstByteNineByteSerialization
| ErrInvalidPointer
| ErrDecodingBool
| ErrExceedingByteArrayLimit
| ErrUnsupportedEnumTypeValue
| ErrUnknownEnumTypeValue
| ErrUnsupportedType
| ErrReadingBytes (e : jam_error)
| ErrReadingByte (e : jam_error)
| ErrDecodingUint (e : jam_error)
| ErrEncodingMapFieldKeyType
| ErrUnsupportedArrayType
| ErrDecodingMapLength (e : jam_error)
| ErrDecodingMapKey (e : jam_error)
| ErrDecodingMapValue (e : jam_error)
| ErrEncodingStructField (field : string) (e : jam_error)
| ErrDecodingStructField (field : string) (e : jam_error)
| EOF
| ErrUnexpectedEOF.

#[export] Instance jam_error_eq_dec : EqDecision jam_error.
Proof. solve_decision. Defined.

(** ** [trivial_natural.go] *)

Definition serializeTrivialNatural (x l : Z) : list Z :=
  (λ i, uint8 (Z.land (go_shr 64 x (8 * i)) 255)) <$> seqZ 0 l.

(** The loop [*u |= T(serialized[i]) << (8 * i)] at result width [w]. *)
Fixpoint deserializeTrivialNatural_loop (w i : Z) (serialized : list Z) (u : Z) : Z :=
  match serialized with
  | [] => u
  | b :: rest =>
      deserializeTrivialNatural_loop w (i + 1) rest
        (Z.lor u (wrapU w (go_shl w (wrapU w b) (8 * i))))
  end.

Definition deserializeTrivialNatural (w : Z) (serialized : list Z) : Z :=
  deserializeTrivialNatural_loop w 0 serialized 0.

(** ** [general_natural.go] *)

(** [for l = 0; l < 8; l++ { if x < (1 << (7 * (l + 1))) { break } }] *)
Fixpoint naturalLength_loop (x l : Z) (fuel : nat) : Z :=
  match fuel with
  | O => l
  | S fuel =>
      if l <? 8 then
        if x <? go_shl 64 1 (7 * (l + 1)) then l else naturalLength_loop x (l + 1) fuel
      else l
  end.

Definition naturalLength (x : Z) : Z := naturalLength_loop x 0 9.

Definition serializeUint64 (x : Z) : list Z :=
  let l := naturalLength x in
  let prefix :=
    if l <? 8
    then uint8 ((256 - go_shl 64 1 (8 - l)) + Z.land (go_shr 64 x (8 * l)) 255)
    else 255 in
  prefix :: ((λ i, uint8 (Z.land (go_shr 64 x (8 * i)) 255)) <$> seqZ 0 l).

(** [for i := uint8(0); i < l; i++ { *u |= uint64(serialized[i+1]) << (8 * i) }] *)
Fixpoint deserializeUint64_loop (serialized : list Z) (l i u : Z) (fuel : nat)
  : res jam_error Z :=
  match fuel with
  | O => Ok u
  | S fuel =>
      if i <? l then
        let! b := go_index serialized (i + 1) in
        deserializeUint64_loop serialized l (i + 1) (Z.lor u (uint64 (go_shl 64 b (8 * i)))) fuel
      else Ok u
  end.

Definition deserializeUint64WithLength (serialized : list Z) (l : Z) : res jam_error Z :=
  let n := len serialized in
  if n =? 0 then Ok 0
  else if n >? 8 then
    let! b0 := go_index serialized 0 in
    if negb (b0 =? 255) then Err ErrFirstByteNineByteSerialization
    else let! body := go_slice serialized 1 9 in Ok (little_endian_to_Z 8 body)
  else
    let! u := deserializeUint64_loop serialized l 0 0 (Z.to_nat l) in
    let! b0 := go_index serialized 0 in
    Ok (Z.lor u (uint64 (go_shl 64 (Z.land b0 (go_shr 8 255 l)) (8 * l)))).

(** ** Reading from the underlying buffer ([decode.go]) *)

(** A decoding action: the bytes left to read in, the value and the bytes still
    left out. *)
Abbreviation reader A := (list Z → res jam_error (A * list Z)).

Definition read (n : Z) : reader (list Z) := buf_read EOF n.

Definition ReadOctet : reader Z := λ buf,
  let! (b, buf) := read 1 buf in
  let! b0 := go_index b 0 in Ok (b0, buf).

Definition decodeUint : reader Z := λ buf,
  let! (prefix, buf) := map_err ErrReadingByte (ReadOctet buf) in
  let l := LeadingZeros8 (uint8 (Z.lnot prefix)) in
  let! (tail, buf) := map_err ErrReadingBytes (read l buf) in
  let! v := map_err ErrDecodingUint (deserializeUint64WithLength (prefix :: tail) l) in
  Ok (v, buf).

(** ** Little-endian lemmas *)

Definition is_byte (b : Z) : Prop := inU 8 b.
Abbreviation bytes_ok := (Forall is_byte).

Lemma uint8_land_255 x : uint8 (Z.land x 255) = Z.land x (Z.ones 8).
Proof.
  change 255 with (Z.ones 8). rewrite <- wrapU_land_ones by lia. by apply wrapU_idemp.
Qed.

Lemma byte_fmap_le x l :
  inU 64 x → 0 ≤ l →
  ((λ i, uint8 (Z.land (go_shr 64 x (8 * i)) 255)) <$> seqZ 0 l) = Z_to_little_endian l 8 x.
Proof.
  intros Hx Hl. apply list_eq. intros i. rewrite list_lookup_fmap.
  destruct (decide (Z.of_nat i < l)) as [Hi|Hi].
  - rewrite lookup_seqZ_lt by done. simpl. rewrite le_bytes_lookup by lia.
    rewrite uint8_land_255. rewrite go_shr_small by (done || lia). done.
  - rewrite lookup_seqZ_ge by lia. symmetry. apply lookup_ge_None.
    pose proof (length_Z_to_little_endian l 8 x Hl). lia.
Qed.

Lemma serializeTrivialNatural_le x l :
  inU 64 x → 0 ≤ l → serializeTrivialNatural x l = Z_to_little_endian l 8 x.
Proof. apply byte_fmap_le. Qed.

Lemma deserialize_loop_le w i bs u :
  0 ≤ w → 0 ≤ i →
  deserializeTrivialNatural_loop w i bs u =
  Z.lor u (wrapU w (Z.shiftl (little_endian_to_Z 8 (wrapU w <$> bs)) (8 * i))).
Proof.
  intros Hw. revert i u. induction bs as [|b bs IH]; intros i u Hi; simpl.
  - rewrite Z.shiftl_0_l. unfold wrapU. rewrite Z.mod_0_l by (apply Z.pow_nonzero; lia).
    by rewrite Z.lor_0_r.
  - rewrite IH by lia. rewrite <- Z.lor_assoc. f_equal.
    rewrite Z.shiftl_lor, Z.shiftl_shiftl, wrapU_lor by lia.
    rewrite wrapU_go_shl by lia. do 2 f_equal. f_equal. lia.
Qed.

Lemma bytes_ok_wrapU w bs : 8 ≤ w → bytes_ok bs → wrapU w <$> bs = bs.
Proof.
  intros Hw. induction 1 as [|b bs [H1 H2] Hbs IH]; [done|]. rewrite fmap_cons, IH. f_equal.
  apply wrapU_id. split; [lia|]. eapply Z.lt_le_trans; [done|]. by apply Z.pow_le_mono_r.
Qed.

(** Reading back a byte string as a [w]-bit natural. *)
Lemma deserializeTrivialNatural_le w bs :
  8 ≤ w → bytes_ok bs →
  deserializeTrivialNatural w bs = wrapU w (little_endian_to_Z 8 bs).
Proof.
  intros Hw Hbs. unfold deserializeTrivialNatural.
  rewrite deserialize_loop_le by lia. rewrite bytes_ok_wrapU by done.
  rewrite Z.lor_0_l. change (8 * 0) with 0. by rewrite Z.shiftl_0_r.
Qed.

Lemma le_bytes_ok l x : 0 ≤ l → bytes_ok (Z_to_little_endian l 8 x).
Proof. intros. apply Z_to_little_endian_bound; lia. Qed.

Lemma le_value_bound bs :
  bytes_ok bs → 0 ≤ little_endian_to_Z 8 bs < 2 ^ (8 * len bs).
Proof.
  intros H. rewrite Z.mul_comm. unfold len. apply little_endian_to_Z_bound; [lia|done].
Qed.

Lemma len_le l x : 0 ≤ l → len (Z_to_little_endian l 8 x) = l.
Proof. intros. unfold len. by apply length_Z_to_little_endian. Qed.

(** ** Exact reads *)

Lemma read_exact n bs rest : len bs = n → read n (bs ++ rest) = Ok (bs, rest).
Proof.
  unfold len. intros <-. unfold read, buf_read.
  assert (∀ l : list Z, go_copy (replicate (length bs) 0) l = take (length bs) l ++
    drop (length l) (replicate (length bs) 0)) as Hc.
  { intros l. unfold go_copy. by rewrite length_replicate. }
  destruct (bs ++ rest) as [|b l] eqn:E.
  - apply app_nil in E as [-> ->]. done.
  - rewrite <- E. rewrite Nat2Z.id, take_app_length, drop_app_length, Hc.
    rewrite take_ge by done. rewrite drop_ge by (rewrite length_replicate; done).
    by rewrite app_nil_r.
Qed.

Lemma ReadOctet_cons b rest : ReadOctet (b :: rest) = Ok (b, rest).
Proof.
  unfold ReadOctet. change (b :: rest) with ([b] ++ rest). by rewrite read_exact.
Qed.

(** ** The general natural encoding *)

Lemma go_shl_1 w s : 0 ≤ s < w → go_shl w 1 s = 2 ^ s.
Proof.
  intros. unfold go_shl. rewrite (proj2 (Z.ltb_lt s w)) by lia.
  by rewrite Z.shiftl_1_l.
Qed.

Lemma naturalLength_loop_spec x l fuel :
  0 ≤ l ≤ 8 → 8 - l < Z.of_nat fuel → (0 < l → 2 ^ (7 * l) ≤ x) →
  let r := naturalLength_loop x l fuel in
  0 ≤ r ≤ 8 ∧ (r < 8 → x < 2 ^ (7 * (r + 1))) ∧ (0 < r → 2 ^ (7 * r) ≤ x).
Proof.
  revert l. induction fuel as [|fuel IH]; intros l Hl Hf Hx; [lia|]. simpl.
  destruct (Z.ltb_spec l 8) as [Hl8|Hl8]; [|split_and!; (done || lia)].
  rewrite go_shl_1 by lia. destruct (Z.ltb_spec x (2 ^ (7 * (l + 1)))); [split_and!; (done || lia)|].
  apply IH; [lia|lia|done].
Qed.

Lemma naturalLength_spec x :
  let l := naturalLength x in
  0 ≤ l ≤ 8 ∧ (l < 8 → x < 2 ^ (7 * (l + 1))) ∧ (0 < l → 2 ^ (7 * l) ≤ x).
Proof. by apply naturalLength_loop_spec. Qed.

(** The bits of [x] above its little-endian bytes fit beside the prefix. *)
Lemma natural_high_bits x l :
  0 ≤ x → 0 ≤ l < 8 → x < 2 ^ (7 * (l + 1)) → 0 ≤ Z.shiftr x (8 * l) < 2 ^ (7 - l).
Proof.
  intros. rewrite Z.shiftr_div_pow2 by lia. split; [apply Z.div_pos; lia|].
  apply Z.div_lt_upper_bound; [lia|]. rewrite <- Z.pow_add_r by lia.
  by replace (8 * l + (7 - l)) with (7 * (l + 1)) by lia.
Qed.

(** The prefix of an [l]-byte body is [256 - 2^(8-l) + h] for the high bits [h],
    and reading it recovers [l] from the leading ones and [h] from the rest. *)
Definition natural_prefix (l h : Z) : Z := 256 - 2 ^ (8 - l) + h.

Lemma natural_prefix_range l h :
  0 ≤ l < 8 → 0 ≤ h < 2 ^ (7 - l) → 0 ≤ natural_prefix l h < 256 - 2 ^ (7 - l).
Proof.
  intros Hl Hh. unfold natural_prefix.
  replace (2 ^ (8 - l)) with (2 * 2 ^ (7 - l)) by (rewrite <- Z.pow_succ_r by lia; f_equal; lia).
  assert (2 ^ (7 - l) ≤ 2 ^ 7) by (apply Z.pow_le_mono_r; lia).
  change (2 ^ 7) with 128 in *. lia.
Qed.

Lemma LeadingZeros8_prefix l h :
  0 ≤ l < 8 → 0 ≤ h < 2 ^ (7 - l) →
  LeadingZeros8 (uint8 (Z.lnot (natural_prefix l h))) = l.
Proof.
  intros Hl Hh. pose proof (natural_prefix_range l h Hl Hh) as Hp.
  assert (uint8 (Z.lnot (natural_prefix l h)) = 255 - natural_prefix l h) as ->.
  { unfold uint8, wrapU, Z.lnot. change (2 ^ 8) with 256.
    rewrite <- (Z.mod_add _ 1) by lia. rewrite Z.mod_small by lia. lia. }
  unfold LeadingZeros8, LeadingZeros, Len64.
  assert (0 < 2 ^ (7 - l)) by (apply Z.pow_pos_nonneg; lia).
  destruct (Z.eqb_spec (255 - natural_prefix l h) 0); [lia|].
  rewrite (Z.log2_unique _ (7 - l)); [lia|lia|].
  unfold natural_prefix in *. replace (Z.succ (7 - l)) with (8 - l) by lia.
  replace (2 ^ (8 - l)) with (2 * 2 ^ (7 - l)) by (rewrite <- Z.pow_succ_r by lia; f_equal; lia).
  lia.
Qed.

Lemma natural_prefix_low l h :
  0 ≤ l < 8 → 0 ≤ h < 2 ^ (7 - l) →
  Z.land (natural_prefix l h) (go_shr 8 255 l) = h.
Proof.
  intros Hl Hh. rewrite go_shr_small by (done || lia).
  change 255 with (Z.ones 8). rewrite Z.shiftr_div_pow2, Z.ones_div_pow2 by lia.
  rewrite Z.land_ones by lia. unfold natural_prefix.
  replace (256 - 2 ^ (8 - l) + h) with (h + (2 ^ l - 1) * 2 ^ (8 - l)).
  2:{ rewrite Z.mul_sub_distr_r, <- Z.pow_add_r by lia.
      replace (l + (8 - l)) with 8 by lia. change (2 ^ 8) with 256. lia. }
  rewrite Z.mod_add by (apply Z.pow_nonzero; lia). apply Z.mod_small.
  split; [lia|]. eapply Z.lt_le_trans; [apply Hh|]. apply Z.pow_le_mono_r; lia.
Qed.

Lemma deserializeUint64_loop_eq p bs i u n :
  len bs = i + Z.of_nat n → 0 ≤ i →
  deserializeUint64_loop (p :: bs) (len bs) i u n =
  Ok (deserializeTrivialNatural_loop 64 i (uint64 <$> drop (Z.to_nat i) bs) u).
Proof.
  revert i u. induction n as [|n IH]; intros i u Hn Hi; simpl.
  - rewrite drop_ge by (unfold len in *; lia). done.
  - rewrite (proj2 (Z.ltb_lt i (len bs))) by lia. unfold go_index.
    rewrite (proj2 (Z.ltb_ge (i + 1) 0)) by lia.
    replace (Z.to_nat (i + 1)) with (S (Z.to_nat i)) by lia. simpl.
    destruct (bs !! Z.to_nat i) as [b|] eqn:E.
    2:{ apply lookup_ge_None in E. unfold len in *. lia. }
    cbn [rbind]. rewrite IH by lia. rewrite (drop_S _ _ _ E), fmap_cons. simpl.
    replace (Z.to_nat (i + 1)) with (S (Z.to_nat i)) by lia.
    do 3 f_equal. unfold uint64. rewrite !wrapU_go_shl by lia.
    rewrite !Z.shiftl_mul_pow2 by lia. unfold wrapU.
    by rewrite Z.mod_mod, Zmult_mod_idemp_l by done.
Qed.

Lemma deserializeUint64WithLength_short p bs l :
  len bs = l → l < 8 → bytes_ok bs →
  deserializeUint64WithLength (p :: bs) l =
  Ok (Z.lor (little_endian_to_Z 8 bs)
        (uint64 (Z.shiftl (Z.land p (go_shr 8 255 l)) (8 * l)))).
Proof.
  intros <- Hl Hbs. pose proof (len_nonneg bs). unfold deserializeUint64WithLength.
  replace (len (p :: bs)) with (len bs + 1) by (unfold len; simpl; lia).
  destruct (Z.eqb_spec (len bs + 1) 0); [lia|].
  destruct (Z.gtb_spec (len bs + 1) 8); [lia|].
  rewrite deserializeUint64_loop_eq by lia. cbn [rbind].
  change (Z.to_nat 0) with O. rewrite drop_0. unfold uint64 at 1.
  rewrite bytes_ok_wrapU by (lia || done).
  change (go_index (p :: bs) 0) with (@Ok jam_error _ p). cbn [rbind].
  change (deserializeTrivialNatural_loop 64 0 bs 0) with (deserializeTrivialNatural 64 bs).
  rewrite deserializeTrivialNatural_le by (lia || done). unfold uint64.
  rewrite wrapU_go_shl by lia. do 2 f_equal. apply wrapU_id.
  pose proof (le_value_bound bs Hbs) as Hb. split; [lia|].
  eapply Z.lt_le_trans; [apply Hb|]. apply Z.pow_le_mono_r; lia.
Qed.

(** Splitting the value into its body bytes and the high bits of the prefix. *)
Lemma serializeUint64_short x :
  inU 64 x → naturalLength x < 8 →
  serializeUint64 x =
  natural_prefix (naturalLength x) (Z.shiftr x (8 * naturalLength x))
    :: Z_to_little_endian (naturalLength x) 8 x.
Proof.
  intros Hx Hl8. destruct (naturalLength_spec x) as (Hl & Hlt & _). specialize (Hlt Hl8).
  unfold serializeUint64. cbv zeta. rewrite byte_fmap_le by (done || lia).
  rewrite (proj2 (Z.ltb_lt _ _) Hl8). f_equal.
  pose proof (natural_high_bits x (naturalLength x) (proj1 Hx) ltac:(lia) Hlt) as Hh.
  pose proof (natural_prefix_range (naturalLength x) _ ltac:(lia) Hh) as Hp.
  assert (0 < 2 ^ (7 - naturalLength x)) by (apply Z.pow_pos_nonneg; lia).
  rewrite go_shl_1, go_shr_small by (done || lia).
  change 255 with (Z.ones 8). rewrite Z.land_ones by lia.
  rewrite (Z.mod_small (Z.shiftr _ _)).
  - apply wrapU_id. unfold natural_prefix in *. change (2 ^ 8) with 256. split; lia.
  - split; [lia|]. eapply Z.lt_le_trans; [apply Hh|]. apply Z.pow_le_mono_r; lia.
Qed.

Lemma serializeUint64_long x :
  inU 64 x → naturalLength x = 8 → serializeUint64 x = 255 :: Z_to_little_endian 8 8 x.
Proof.
  intros Hx Hl. unfold serializeUint64. cbv zeta. rewrite Hl.
  by rewrite byte_fmap_le by (done || lia).
Qed.

(** Decoding the encoding of any 64-bit natural, followed by anything, gives the
    natural back and leaves what followed. *)
Lemma decodeUint_serializeUint64 x rest :
  inU 64 x → decodeUint (serializeUint64 x ++ rest) = Ok (x, rest).
Proof.
  intros Hx. destruct (naturalLength_spec x) as (Hl & Hlt & _).
  unfold decodeUint. destruct (decide (naturalLength x = 8)) as [H8|H8].
  - rewrite serializeUint64_long by done. cbn [app].
    rewrite ReadOctet_cons. cbn [map_err rbind].
    change (LeadingZeros8 (uint8 (Z.lnot 255))) with 8.
    rewrite read_exact by (by rewrite len_le). cbn [map_err rbind].
    unfold deserializeUint64WithLength.
    rewrite (eq_refl : len (255 :: Z_to_little_endian 8 8 x) = 9).
    change (9 =? 0) with false. change (9 >? 8) with true. cbv iota.
    change (go_index (255 :: Z_to_little_endian 8 8 x) 0) with (@Ok jam_error _ 255).
    cbn [rbind]. change (negb (255 =? 255)) with false. cbv iota.
    change (go_slice (255 :: Z_to_little_endian 8 8 x) 1 9)
      with (@Ok jam_error _ (Z_to_little_endian 8 8 x)).
    cbn [rbind map_err]. rewrite little_endian_to_Z_to_little_endian by lia.
    do 2 f_equal. by apply Z.mod_small.
  - specialize (Hlt ltac:(lia)).
    pose proof (natural_high_bits x (naturalLength x) (proj1 Hx) ltac:(lia) Hlt) as Hh.
    rewrite serializeUint64_short by (done || lia). cbn [app].
    rewrite ReadOctet_cons. cbn [map_err rbind].
    rewrite LeadingZeros8_prefix by (done || lia).
    rewrite read_exact by (apply len_le; lia). cbn [map_err rbind].
    rewrite deserializeUint64WithLength_short
      by first [apply len_le; lia | apply le_bytes_ok; lia | lia].
    rewrite natural_prefix_low by (done || lia). cbn [map_err rbind].
    rewrite little_endian_to_Z_to_little_endian by lia.
    replace (naturalLength x * 8) with (8 * naturalLength x) by lia.
    unfold uint64. rewrite wrapU_id; [by rewrite lor_split_at by lia|].
    rewrite Z.shiftl_mul_pow2, Z.shiftr_div_pow2 by lia. destruct Hx.
    pose proof (Z.mul_div_le x (2 ^ (8 * naturalLength x)) ltac:(apply Z.pow_pos_nonneg; lia)).
    split; [|lia]. apply Z.mul_nonneg_nonneg; [apply Z.div_pos|]; lia.
Qed.

(** The encoding has between one and nine bytes, and no shorter body has room
    for the value: [l] body bytes exactly when [2^(7l) <= x < 2^(7(l+1))]. *)
Lemma serializeUint64_length x :
  len (serializeUint64 x) = 1 + naturalLength x.
Proof.
  destruct (naturalLength_spec x) as (Hl & _). unfold serializeUint64, len. simpl.
  rewrite length_fmap, length_seqZ. lia.
Qed.

Lemma serializeUint64_bytes_ok x : inU 64 x → bytes_ok (serializeUint64 x).
Proof.
  intros Hx. destruct (naturalLength_spec x) as (Hl & _).
  unfold serializeUint64. cbv zeta. rewrite byte_fmap_le by (done || lia).
  constructor; [|apply le_bytes_ok; lia].
  destruct (_ <? 8); [by apply wrapU_range|done].
Qed.

#[global] Arguments serializeUint64 : simpl never.
#[global] Arguments decodeUint : simpl never.
#[global] Arguments serializeTrivialNatural : simpl never.
#[global] Arguments deserializeTrivialNatural : simpl never.
#[global] Arguments read : simpl never.
#[global] Arguments ReadOctet : simpl never.
