(* ===== verification/JamCodec.v ===== *)
(** * The reflective JAM codec

    [pkg/serialization/codec/jam/encode.go] and [decode.go] dispatch on the
    dynamic type of a Go value.  [gotype] is the universe of the types they
    distinguish, [goval] the values; [marshal] and [unmarshal] follow the two
    type switches. *)
From S2P Require Export JamNatural.

(** ** Types and values *)

(** The primitive kinds of [reflect]. *)
Inductive kind : Type :=
| Bool | Int | Int8 | Int16 | Int32 | Int64 | Uint | Uint8 | Uint16 | Uint32 | Uint64.

#[export] Instance kind_eq_dec : EqDecision kind.
Proof. solve_decision. Defined.

(** A struct field's [jam] tag: absent, ["-"], or ["length=n"]. *)
Inductive jam_tag : Type := NoTag | TagSkip | TagLength (n : Z).

Record field_info : Type := FieldInfo {
  field_name : string;
  field_exported : bool;
  field_tag : jam_tag;
}.

(** The induction principles of the nested types are stated by hand below. *)
Unset Elimination Schemes.

Inductive gotype : Type :=
| TPrim (named : bool) (k : kind)     (* [named]: declared with [type T uint32] *)
| TBytes                              (* [[]byte] *)
| TBits                               (* [BitSequence] *)
| TPublicKey                          (* [ed25519.PublicKey] *)
| TPtr (t : gotype)
| TSlice (t : gotype)
| TArray (n : nat) (t : gotype)
| TStruct (fs : list (field_info * gotype))
| TMap (kt vt : gotype)
| TEnum (unknown : jam_error) (alts : list (option gotype))
                                      (* an [EnumType]: what [ValueAt] returns *)
| TOther.                             (* strings, floats, channels, ... *)

Inductive goval : Type :=
| VBool (b : bool)
| VNum (z : Z)
| VBytes (bs : list Z)
| VBits (bs : list bool)
| VNil
| VPtr (v : goval)
| VSeq (vs : list goval)              (* slices, arrays, struct fields *)
| VMap (kvs : list (goval * goval))   (* in any order, the keys distinct *)
| VEnum (index : Z) (v : option goval).

Set Elimination Schemes.

(** The value of a freshly declared variable. *)
Fixpoint zero_value (t : gotype) : goval :=
  match t with
  | TPrim _ Bool => VBool false
  | TPrim _ _ => VNum 0
  | TBytes | TPublicKey => VBytes []
  | TBits => VBits []
  | TPtr _ | TEnum _ _ | TOther => VNil
  | TSlice _ => VSeq []
  | TArray n t => VSeq (replicate n (zero_value t))
  | TStruct fs => VSeq (map (λ '(_, t), zero_value t) fs)
  | TMap _ _ => VMap []
  end.

(** ** Encoding ([encode.go]) *)

Definition encodeUint (i : Z) : list Z := serializeUint64 i.
Definition encodeLength (l : Z) : list Z := encodeUint (uint64 l).

Definition encodeBool (l : bool) : list Z := if l then [1] else [0].

Definition encodeBytes (b : list Z) : list Z := encodeLength (len b) ++ b.

(** [for i, b := range bitSequence { if b { bb[i/8] |= byte(1 << (i % 8)) } }] *)
Fixpoint encodeBits_loop (i : Z) (bs : list bool) (bb : list Z) : res jam_error (list Z) :=
  match bs with
  | [] => Ok bb
  | b :: rest =>
      let! bb :=
        (if b then
           let! old := go_index bb (i / 8) in
           go_update bb (i / 8) (Z.lor old (uint8 (Z.shiftl 1 (i `mod` 8))))
         else Ok bb) in
      encodeBits_loop (i + 1) rest bb
  end.

Definition encodeBits (bitSequence : list bool) : res jam_error (list Z) :=
  let length0 := len bitSequence / 8 in
  let length := if (0 <? len bitSequence) && (length0 `mod` 8 =? 0)
                then length0 + 1 else length0 in
  let! bb := go_make 1 length 0 in
  let! bb := encodeBits_loop 0 bitSequence bb in
  Ok (encodeLength length ++ bb).

Definition writePointerMarker (isNil : bool) : list Z := if isNil then [0] else [1].

(** [IntLength] *)
Definition IntLength (k : kind) : res jam_error Z :=
  match k with
  | Uint8 | Int8 => Ok 1
  | Uint16 | Int16 => Ok 2
  | Uint32 | Int32 => Ok 4
  | Uint64 | Int64 => Ok 8
  | _ => Err ErrUnsupportedType
  end.

Definition is_unsigned (k : kind) : bool :=
  match k with Uint | Uint8 | Uint16 | Uint32 | Uint64 => true | _ => false end.

(** [encodeFixedWidth(i, l)]: unsigned integers and pointers to them. *)
Definition encodeFixedWidth (t : gotype) (v : goval) (l : Z) : res jam_error (list Z) :=
  match t, v with
  | TPtr _, VNil => Ok (writePointerMarker true)
  | TPtr (TPrim _ k), VPtr (VNum x) =>
      if is_unsigned k then Ok (writePointerMarker false ++ serializeTrivialNatural x l)
      else Err ErrUnsupportedType
  | TPrim _ k, VNum x =>
      if is_unsigned k then Ok (serializeTrivialNatural x l) else Err ErrUnsupportedType
  | _, _ => Err ErrUnsupportedType
  end.

(** [marshal] on primitive kinds.  A named type is not matched by the type
    switch of [marshal], so [handleReflectTypes] converts it to its underlying
    type in [encodeCustomPrimitive] and calls [marshal] again.  The unnamed
    signed types of fixed width are not matched either: they take the same path
    and come back unchanged.  [stack] counts the nested calls the goroutine
    stack has room for. *)
Fixpoint marshal_prim (stack : nat) (named : bool) (k : kind) (v : goval)
  : res jam_error (list Z) :=
  match stack with
  | O => RuntimePanic
  | S stack =>
      if named then marshal_prim stack false k v
      else
        match k, v with
        | Int, VNum z => Ok (encodeUint (uint64 z))
        | Uint, VNum z => Ok (encodeUint z)
        | (Uint8 | Uint16 | Uint32 | Uint64), VNum z =>
            let! l := IntLength k in encodeFixedWidth (TPrim false k) v l
        | Bool, VBool b => Ok (encodeBool b)
        | (Int8 | Int16 | Int32 | Int64), VNum _ => marshal_prim stack false k v
        | _, _ => Err ErrUnsupportedType
        end
  end.

(** Two nested calls are enough for every kind [marshal] supports. *)
Definition stackDepth : nat := 16.
#[global] Arguments marshal_prim : simpl never.

(** Encoding the elements of a sequence one after the other. *)
Fixpoint encode_all {A} (f : A → res jam_error (list Z)) (vs : list A) : res jam_error (list Z) :=
  match vs with
  | [] => Ok []
  | v :: vs => let! b := f v in let! bs := encode_all f vs in Ok (b ++ bs)
  end.

(** [compareByteArrays]: lexicographic order of two byte arrays. *)
Fixpoint bytes_less (a b : list Z) : bool :=
  match a, b with
  | _, [] => false
  | [], _ :: _ => true
  | x :: a, y :: b => if x <? y then true else if y <? x then false else bytes_less a b
  end.

Definition reflectToByteSlice (v : goval) : list Z :=
  match v with
  | VSeq vs => map (λ w, match w with VNum z => uint8 z | _ => 0 end) vs
  | _ => []
  end.

Definition num_of (v : goval) : Z := match v with VNum z => z | _ => 0 end.
Definition bool_of (v : goval) : bool := match v with VBool b => b | _ => false end.

(** The comparison [sortMapKeys] selects for the kind of the keys. *)
Definition key_less (kt : gotype) : res jam_error (goval → goval → bool) :=
  match kt with
  | TPrim _ Bool => Ok (λ a b, negb (bool_of a) && bool_of b)
  | TPrim _ _ => Ok (λ a b, num_of a <? num_of b)
  | TArray _ (TPrim _ Uint8) =>
      Ok (λ a b, bytes_less (reflectToByteSlice a) (reflectToByteSlice b))
  | TArray _ _ => Err ErrUnsupportedArrayType
  | _ => Err ErrEncodingMapFieldKeyType
  end.

(** [sort.Slice]: the keys of a map are distinct, so every sorting algorithm
    returns the same list. *)
Fixpoint insert_by {A} (less : A → A → bool) (x : A) (l : list A) : list A :=
  match l with
  | [] => [x]
  | y :: l => if less y x then y :: insert_by less x l else x :: y :: l
  end.
Definition sort_by {A} (less : A → A → bool) (l : list A) : list A :=
  foldr (insert_by less) [] l.

Definition less_on_key (less : goval → goval → bool) (p q : goval * goval) : bool :=
  less p.1 q.1.

(** The composite encoders, over the recursive call [m] to [marshal]. *)
Section encoders.
Context (m : gotype → goval → res jam_error (list Z)).

Definition encodeSlice (t : gotype) (vs : list goval) : res jam_error (list Z) :=
  let! b := encode_all (m t) vs in Ok (encodeLength (len vs) ++ b).

Definition encodeArray (t : gotype) (vs : list goval) : res jam_error (list Z) :=
  encode_all (m t) vs.

Definition encodeMap (kt vt : gotype) (kvs : list (goval * goval)) : res jam_error (list Z) :=
  match kvs with
  | [] => Ok (encodeLength 0)
  | _ =>
      let! less := key_less kt in
      let! b := encode_all (λ kv : goval * goval,
                  let! bk := m kt kv.1 in
                  let! bv := m vt kv.2 in Ok (bk ++ bv))
                  (sort_by (less_on_key less) kvs) in
      Ok (encodeLength (len kvs) ++ b)
  end.

Fixpoint encodeStruct (fs : list (field_info * gotype)) (vs : list goval)
  : res jam_error (list Z) :=
  match fs, vs with
  | (i, t) :: fs, v :: vs =>
      if field_exported i then
        match field_tag i with
        | TagSkip => encodeStruct fs vs
        | TagLength n =>
            let! b := map_err (ErrEncodingStructField (field_name i)) (encodeFixedWidth t v n) in
            let! bs := encodeStruct fs vs in Ok (b ++ bs)
        | NoTag =>
            let! b := map_err (ErrEncodingStructField (field_name i)) (m t v) in
            let! bs := encodeStruct fs vs in Ok (b ++ bs)
        end
      else encodeStruct fs vs
  | _, _ => Ok []
  end.

(** The payload of an enum value: [value] at alternative [n]. *)
Fixpoint encodeEnumValue (alts : list (option gotype)) (n : nat) (v : goval)
  : res jam_error (list Z) :=
  match alts, n with
  | Some t :: _, O => m t v
  | _ :: alts, S n => encodeEnumValue alts n v
  | _, _ => Err ErrUnsupportedEnumTypeValue
  end.

Definition encodeEnumType (alts : list (option gotype)) (v : goval) : res jam_error (list Z) :=
  match v with
  | VEnum index None => Ok [uint8 index]
  | VEnum index (Some v) =>
      let! b := encodeEnumValue alts (Z.to_nat index) v in Ok (uint8 index :: b)
  | _ => Err ErrUnsupportedEnumTypeValue
  end.
End encoders.

(** [marshal] and [handleReflectTypes].  A pair of a type and a value of another
    type does not exist in Go; it is given an error here. *)
Fixpoint marshal (t : gotype) (v : goval) {struct t} : res jam_error (list Z) :=
  match t, v with
  | TPrim named k, _ => marshal_prim stackDepth named k v
  | TBytes, VBytes b => Ok (encodeBytes b)
  | TBits, VBits b => encodeBits b
  | TPublicKey, VBytes b => Ok b
  (* a pointer to an enum has [IndexValue] in its method set too: no marker *)
  | TPtr (TEnum _ _), VNil => RuntimePanic
  | TPtr ((TEnum _ _) as t), VPtr v => marshal t v
  | TPtr _, VNil => Ok (writePointerMarker true)
  | TPtr t, VPtr v => let! b := marshal t v in Ok (writePointerMarker false ++ b)
  | TSlice t, VSeq vs => encodeSlice marshal t vs
  | TArray _ t, VSeq vs => encodeArray marshal t vs
  | TStruct fs, VSeq vs => encodeStruct marshal fs vs
  | TMap kt vt, VMap kvs => encodeMap marshal kt vt kvs
  | TEnum _ alts, _ => encodeEnumType marshal alts v
  | _, _ => Err ErrUnsupportedType
  end.

(** [Marshal] *)
Definition Marshal (t : gotype) (v : goval) : res jam_error (list Z) := marshal t v.

(** ** Decoding ([decode.go]) *)

Definition decodeLength : reader Z := λ buf, map_err ErrDecodingUint (decodeUint buf).

Definition decodeBool : reader goval := λ buf,
  let! (rb, buf) := ReadOctet buf in
  if rb =? 0 then Ok (VBool false, buf)
  else if rb =? 1 then Ok (VBool true, buf)
  else Err ErrDecodingBool.

Definition MaxUint32 : Z := 2 ^ 32 - 1.

Definition decodeBytesFixedLength (length : Z) : reader (list Z) := λ buf,
  if length >? MaxUint32 then Err ErrExceedingByteArrayLimit
  else
    let! b := go_make 1 length 0 in
    if length >? 0 then read length buf else Ok (b, buf).

Definition decodeBytes : reader (list Z) := λ buf,
  let! (length, buf) := decodeLength buf in decodeBytesFixedLength length buf.

(** Bit [i] of the sequence is bit [i % 8] of byte [i / 8]. *)
Definition bits_of_bytes (bb : list Z) : list bool :=
  (λ i, let pow2 := uint8 (Z.shiftl 1 (i `mod` 8)) in
        Z.land (bb !!! Z.to_nat (i / 8)) pow2 =? pow2) <$> seqZ 0 (len bb * 8).

(** The result for a destination whose previous contents are [v]. *)
Definition decodeBitsFixedLength (v : list bool) (bytesLength : Z) : reader (list bool) := λ buf,
  if bytesLength >? MaxUint32 then Err ErrExceedingByteArrayLimit
  else
    let! bb := go_make 1 bytesLength 0 in
    let! (bb, buf) := read bytesLength buf in
    if bytesLength =? 0 then Ok (v, buf) else Ok (bits_of_bytes bb, buf).

Definition decodeBits : reader (list bool) := λ buf,
  let! (length, buf) := decodeLength buf in decodeBitsFixedLength [] length buf.

Definition readPointerMarker : reader bool := λ buf,
  let! (marker, buf) := read 1 buf in
  let! m := go_index marker 0 in
  if m =? 0 then Ok (true, buf) else if m =? 1 then Ok (false, buf) else Err ErrInvalidPointer.

(** [decodeFixedWidth] on an integer of kind [k]. *)
Definition decodeFixedWidth_prim (k : kind) (length : Z) : reader goval := λ buf,
  let! bb := go_make 1 length 0 in
  let! (buf0, rest) := map_err ErrReadingByte (read length buf) in
  match k with
  | Uint8 => Ok (VNum (deserializeTrivialNatural 8 buf0), rest)
  | Uint16 => Ok (VNum (deserializeTrivialNatural 16 buf0), rest)
  | Uint32 => Ok (VNum (deserializeTrivialNatural 32 buf0), rest)
  | Uint64 => Ok (VNum (deserializeTrivialNatural 64 buf0), rest)
  | Int8 => Ok (VNum (int8 (deserializeTrivialNatural 8 buf0)), rest)
  | Int16 => Ok (VNum (int16 (deserializeTrivialNatural 16 buf0)), rest)
  | Int32 => Ok (VNum (int32 (deserializeTrivialNatural 32 buf0)), rest)
  | Int64 => Ok (VNum (int64 (deserializeTrivialNatural 64 buf0)), rest)
  | _ => Err ErrUnsupportedType
  end.

Definition decodeFixedWidth (t : gotype) (length : Z) : reader goval := λ buf,
  match t with
  | TPtr t =>
      let! (isNil, buf) := readPointerMarker buf in
      if (isNil : bool) then Ok (VNil, buf)
      else match t with
           | TPrim _ k => let! (v, buf) := decodeFixedWidth_prim k length buf in Ok (VPtr v, buf)
           | _ => let! (_, _) := map_err ErrReadingByte (read length buf) in Err ErrUnsupportedType
           end
  | TPrim _ k => decodeFixedWidth_prim k length buf
  | _ => let! (_, _) := map_err ErrReadingByte (read length buf) in Err ErrUnsupportedType
  end.

(** [unmarshal] on primitive kinds; [decodeCustomPrimitive] decodes a named type
    as its underlying type. *)
Definition unmarshal_prim (k : kind) : reader goval := λ buf,
  match k with
  | Int => let! (v, buf) := decodeUint buf in Ok (VNum (int64 v), buf)
  | Uint => let! (v, buf) := decodeUint buf in Ok (VNum v, buf)
  | Bool => decodeBool buf
  | _ => let! l := IntLength k in decodeFixedWidth_prim k l buf
  end.

(** [io.ReadFull]: all of the bytes or an error. *)
Definition readFull (n : Z) : reader (list Z) := λ buf,
  if n <=? len buf then read n buf
  else if len buf =? 0 then Err EOF else Err ErrUnexpectedEOF.

Definition Ed25519PublicSize : Z := 32.

Fixpoint decode_n (f : reader goval) (n : nat) : reader (list goval) := λ buf,
  match n with
  | O => Ok ([], buf)
  | S n => let! (v, buf) := f buf in let! (vs, buf) := decode_n f n buf in Ok (v :: vs, buf)
  end.

(** Equality of map keys. *)
Fixpoint goval_eqb (a b : goval) : bool :=
  let fix all2 (xs ys : list goval) : bool :=
    match xs, ys with
    | [], [] => true
    | x :: xs, y :: ys => goval_eqb x y && all2 xs ys
    | _, _ => false
    end in
  match a, b with
  | VBool x, VBool y => Bool.eqb x y
  | VNum x, VNum y => x =? y
  | VSeq xs, VSeq ys => all2 xs ys
  | _, _ => false
  end.

(** [tempMap.SetMapIndex(key, value)] *)
Fixpoint map_set (k v : goval) (kvs : list (goval * goval)) : list (goval * goval) :=
  match kvs with
  | [] => [(k, v)]
  | (k', v') :: kvs => if goval_eqb k k' then (k', v) :: kvs else (k', v') :: map_set k v kvs
  end.

Fixpoint decodeMap_loop (fk fv : reader goval) (n : nat) (kvs : list (goval * goval))
  : reader (list (goval * goval)) := λ buf,
  match n with
  | O => Ok (kvs, buf)
  | S n =>
      let! (k, buf) := map_err ErrDecodingMapKey (fk buf) in
      let! (v, buf) := map_err ErrDecodingMapValue (fv buf) in
      decodeMap_loop fk fv n (map_set k v kvs) buf
  end.

(** The composite decoders, over the recursive call [u] to [unmarshal]. *)
Section decoders.
Context (u : gotype → reader goval).

Definition decodePointer (t : gotype) : reader goval := λ buf,
  let! (isNil, buf) := readPointerMarker buf in
  if (isNil : bool) then Ok (VNil, buf)
  else let! (v, buf) := u t buf in Ok (VPtr v, buf).

Definition decodeSlice (t : gotype) : reader goval := λ buf,
  let! (l, buf) := decodeLength buf in
  let! (vs, buf) := decode_n (u t) (Z.to_nat l) buf in Ok (VSeq vs, buf).

Definition decodeArray (n : nat) (t : gotype) : reader goval := λ buf,
  let! (vs, buf) := decode_n (u t) n buf in Ok (VSeq vs, buf).

(** The capacity [reflect.MakeMapWithSize] is given is a hint: it sizes the first
    allocation and decides neither the entries nor an error. *)
Definition decodeMap (kt vt : gotype) : reader goval := λ buf,
  let! (length, buf) := map_err ErrDecodingMapLength (decodeLength buf) in
  let! (kvs, buf) := decodeMap_loop (u kt) (u vt) (Z.to_nat length) [] buf in
  Ok (VMap kvs, buf).

(** One field of a fresh struct; a field that is skipped keeps its zero value. *)
Definition decodeField (i : field_info) (t : gotype) : reader goval := λ buf,
  if field_exported i then
    match field_tag i with
    | TagSkip => Ok (zero_value t, buf)
    | TagLength n =>
        map_err (ErrEncodingStructField (field_name i)) (decodeFixedWidth t n buf)
    | NoTag => map_err (ErrDecodingStructField (field_name i)) (u t buf)
    end
  else Ok (zero_value t, buf).

Fixpoint decodeStruct (fs : list (field_info * gotype)) : reader (list goval) := λ buf,
  match fs with
  | [] => Ok ([], buf)
  | (i, t) :: fs =>
      let! (v, buf) := decodeField i t buf in
      let! (vs, buf) := decodeStruct fs buf in Ok (v :: vs, buf)
  end.

Fixpoint decodeEnumValue (unknown : jam_error) (alts : list (option gotype)) (n : nat) (b : Z)
  : reader goval := λ buf,
  match alts, n with
  | None :: _, O => Ok (VEnum b None, buf)
  | Some t :: _, O => let! (v, buf) := u t buf in Ok (VEnum b (Some v), buf)
  | _ :: alts, S n => decodeEnumValue unknown alts n b buf
  | [], _ => Err unknown
  end.

Definition decodeEnum (unknown : jam_error) (alts : list (option gotype)) : reader goval :=
  λ buf,
  let! (b, buf) := ReadOctet buf in decodeEnumValue unknown alts (Z.to_nat b) b buf.
End decoders.

Fixpoint unmarshal (t : gotype) {struct t} : reader goval := λ buf,
  match t with
  | TPrim _ k => unmarshal_prim k buf
  | TBytes => let! (b, buf) := decodeBytes buf in Ok (VBytes b, buf)
  | TBits => let! (b, buf) := decodeBits buf in Ok (VBits b, buf)
  | TPublicKey => let! (b, buf) := readFull Ed25519PublicSize buf in Ok (VBytes b, buf)
  | TPtr t => decodePointer unmarshal t buf
  | TSlice t => decodeSlice unmarshal t buf
  | TArray n t => decodeArray unmarshal n t buf
  | TStruct fs => let! (vs, buf) := decodeStruct unmarshal fs buf in Ok (VSeq vs, buf)
  | TMap kt vt => decodeMap unmarshal kt vt buf
  | TEnum unknown alts => decodeEnum unmarshal unknown alts buf
  | TOther => Err ErrUnsupportedType
  end.

(** [unmarshal] writes into its destination.  Slices, arrays, maps, enums and
    primitives are decoded into a fresh value which replaces the old one; a
    struct is filled field by field, so that the skipped and unexported fields
    keep what the destination [dst] held, and a pointer that is not nil is
    followed.  [restore t dst v] is the destination after the fresh value [v] of
    type [t] was written to it. *)
Fixpoint restore (t : gotype) (dst v : goval) {struct t} : goval :=
  let fix restore_fields (fs : list (field_info * gotype)) (ds vs : list goval) : list goval :=
    match fs, ds, vs with
    | (i, t) :: fs, d :: ds, v :: vs =>
        (if field_exported i then
           match field_tag i with
           | TagSkip => d
           | TagLength _ => v
           | NoTag => restore t d v
           end
         else d) :: restore_fields fs ds vs
    | _, _, _ => vs
    end in
  match t, dst, v with
  | TPtr t, VPtr d, VPtr v => VPtr (restore t d v)
  | TStruct fs, VSeq ds, VSeq vs => VSeq (restore_fields fs ds vs)
  | _, _, _ => v
  end.

(** [unmarshal(indirect(dstv))]: [indirect] follows the pointers at the top of
    the destination, allocating where one is nil and reading nothing, and the
    value below them is decoded. *)
Fixpoint unmarshal_indirect (t : gotype) (data : list Z) (dst : goval) : res jam_error goval :=
  match t with
  | TPtr t =>
      let d := match dst with VPtr d => d | _ => zero_value t end in
      let! v := unmarshal_indirect t data d in Ok (VPtr v)
  | _ => let! (v, _) := unmarshal t data in Ok (restore t dst v)
  end.

(** [Unmarshal(data, &dst)], where [dst] is the destination's present value:
    empty input leaves it alone, bytes after the value are ignored. *)
Definition Unmarshal (t : gotype) (data : list Z) (dst : goval) : res jam_error goval :=
  match data with
  | [] => Ok dst
  | _ => unmarshal_indirect t data dst
  end.

(** A destination without skipped fields or pointers keeps nothing. *)
Lemma Unmarshal_prim named k data dst :
  Unmarshal (TPrim named k) data dst =
  match data with [] => Ok dst | _ => let! (v, _) := unmarshal (TPrim named k) data in Ok v end.
Proof. by destruct data. Qed.

#[global] Arguments decodeLength : simpl never.
#[global] Arguments encodeLength : simpl never.
#[global] Arguments readPointerMarker : simpl never.
#[global] Arguments readFull : simpl never.
#[global] Arguments decodeFixedWidth_prim : simpl never.
