(* ===== verification/JamSafety.v ===== *)
(** * The decoder on arbitrary input

    [unmarshal] returns a value or an error on every byte string: no index, slice
    or allocation in the decoder can panic, whatever the input says about
    lengths.  Before that, sorting map keys. *)
From S2P Require Export JamCodec.

(** ** Sorting map keys

    [sort_by] with a comparison that is a strict total order on the keys: the
    result is a permutation of the input and does not depend on its order, so a
    Go map has one encoding although [reflect.MapKeys] lists the keys in an
    unspecified order. *)
Section sorting.
Context {A K : Type} (key : A → K) (less : A → A → bool) (D : A → Prop).
Hypothesis less_irrefl : ∀ x y, D x → D y → key x = key y → less x y = false.
Hypothesis less_trans : ∀ x y z, D x → D y → D z →
  less x y = true → less y z = true → less x z = true.
Hypothesis less_total : ∀ x y, D x → D y →
  less x y = true ∨ key x = key y ∨ less y x = true.
(** Elements with the same key compare alike. *)
Hypothesis less_key_l : ∀ x y z, D x → D y → D z → key x = key y → less x z = less y z.
Hypothesis less_key_r : ∀ x y z, D x → D y → D z → key x = key y → less z x = less z y.

Lemma insert_by_perm x l : insert_by less x l ≡ₚ x :: l.
Proof.
  induction l as [|y l IH]; simpl; [done|]. destruct (less y x); [|done].
  rewrite IH. constructor.
Qed.

Lemma sort_by_perm l : sort_by less l ≡ₚ l.
Proof.
  induction l as [|x l IH]; simpl; [done|]. unfold sort_by in *. simpl.
  by rewrite insert_by_perm, IH.
Qed.

(** [z < y] and not [z < x] put [x] before [y]. *)
Lemma less_of_not x y z :
  D x → D y → D z → less z y = true → less z x = false → less x y = true.
Proof.
  intros Hx Hy Hz Hzy Hzx. destruct (less_total z x) as [H|[H|H]]; [done|done|congruence| |].
  - by rewrite <- (less_key_l z x) by done.
  - by apply (less_trans x z y).
Qed.

Lemma less_asym x y : D x → D y → less x y = true → less y x = false.
Proof.
  intros Hx Hy Hxy. destruct (less y x) eqn:Hyx; [|done].
  rewrite <- (less_irrefl x x) by done. symmetry. by apply (less_trans x y x).
Qed.

Lemma insert_by_comm_lt x y l :
  D x → D y → Forall D l → less x y = true →
  insert_by less x (insert_by less y l) = insert_by less y (insert_by less x l).
Proof.
  intros Hx Hy Hl Hxy. induction Hl as [|z l Hz Hl IH]; simpl.
  - by rewrite Hxy, (less_asym x y).
  - destruct (less z y) eqn:Hzy, (less z x) eqn:Hzx; simpl;
      rewrite ?Hzy, ?Hzx, ?Hxy, ?(less_asym x y) by done; simpl; rewrite ?Hzy; [by f_equal|done| |done].
    rewrite (less_trans z x y) in Hzy by done. done.
Qed.

Lemma insert_by_comm x y l :
  D x → D y → Forall D l → key x ≠ key y →
  insert_by less x (insert_by less y l) = insert_by less y (insert_by less x l).
Proof.
  intros Hx Hy Hl Hne. destruct (less_total x y) as [H|[H|H]]; [done|done| |done|].
  - by apply insert_by_comm_lt.
  - symmetry. by apply insert_by_comm_lt.
Qed.

Lemma sort_by_D l : Forall D l → Forall D (sort_by less l).
Proof. intros. by rewrite sort_by_perm. Qed.

Lemma sort_by_perm_eq l k :
  l ≡ₚ k → Forall D l → NoDup (map key l) → sort_by less l = sort_by less k.
Proof.
  induction 1 as [|x l k Hp IH|x y l|l k j Hp IH Hp' IH']; intros HD Hnd; [done| | |].
  - inversion HD; inversion Hnd; subst. unfold sort_by in *. simpl. by rewrite IH.
  - inversion HD as [|?? Hy HD']; inversion HD'; subst. unfold sort_by. simpl.
    apply insert_by_comm; [done|done| |].
    + by apply sort_by_D.
    + inversion Hnd; subst. set_solver.
  - rewrite IH by done. apply IH'; [by rewrite <- Hp|].
    by rewrite <- (Permutation_map key Hp).
Qed.
End sorting.

(** ** Induction over types *)

Definition alt_holds (P : gotype → Prop) (o : option gotype) : Prop :=
  match o with Some t => P t | None => True end.

Section gotype_ind.
Context (P : gotype → Prop).
Hypothesis HPrim : ∀ named k, P (TPrim named k).
Hypothesis HBytes : P TBytes.
Hypothesis HBits : P TBits.
Hypothesis HPublicKey : P TPublicKey.
Hypothesis HPtr : ∀ t, P t → P (TPtr t).
Hypothesis HSlice : ∀ t, P t → P (TSlice t).
Hypothesis HArray : ∀ n t, P t → P (TArray n t).
Hypothesis HStruct : ∀ fs, Forall (λ f, P f.2) fs → P (TStruct fs).
Hypothesis HMap : ∀ kt vt, P kt → P vt → P (TMap kt vt).
Hypothesis HEnum : ∀ unknown alts,
  Forall (alt_holds P) alts → P (TEnum unknown alts).
Hypothesis HOther : P TOther.

Fixpoint gotype_ind (t : gotype) : P t :=
  match t with
  | TPrim named k => HPrim named k
  | TBytes => HBytes
  | TBits => HBits
  | TPublicKey => HPublicKey
  | TPtr t => HPtr t (gotype_ind t)
  | TSlice t => HSlice t (gotype_ind t)
  | TArray n t => HArray n t (gotype_ind t)
  | TStruct fs =>
      HStruct fs
        ((fix go fs : Forall (λ f, P f.2) fs :=
            match fs with
            | [] => Forall_nil_2 _
            | (i, t) :: fs => Forall_cons_2 _ (i, t) fs (gotype_ind t) (go fs)
            end) fs)
  | TMap kt vt => HMap kt vt (gotype_ind kt) (gotype_ind vt)
  | TEnum unknown alts =>
      HEnum unknown alts
        ((fix go alts : Forall (alt_holds P) alts :=
            match alts with
            | [] => Forall_nil_2 _
            | o :: alts =>
                Forall_cons_2 _ o alts
                  (match o return alt_holds P o with Some t => gotype_ind t | None => I end)
                  (go alts)
            end) alts)
  | TOther => HOther
  end.
End gotype_ind.

(** ** Safe readers *)

(** [f] does not panic and leaves bytes behind. *)
Definition reader_safe {A} (f : reader A) : Prop :=
  ∀ buf, bytes_ok buf →
  match f buf with Ok (_, rest) => bytes_ok rest | Err _ => True | RuntimePanic => False end.

Create HintDb jam discriminated.

(** ** Combinators *)

Lemma safe_bind {A B} (f : reader A) (g : A → reader B) :
  reader_safe f → (∀ a, reader_safe (g a)) →
  reader_safe (λ buf, let! (a, buf) := f buf in g a buf).
Proof.
  intros Hf Hg buf Hb. specialize (Hf buf Hb). destruct (f buf) as [[a rest]| |]; simpl; [|done..].
  by apply Hg.
Qed.

Lemma safe_ret {A} (a : A) : reader_safe (λ buf, Ok (a, buf)).
Proof. by intros buf Hb. Qed.

Lemma safe_err {A} e : reader_safe (λ _, @Err jam_error (A * list Z) e).
Proof. done. Qed.

Lemma safe_map_err {A} h (f : reader A) : reader_safe f → reader_safe (λ buf, map_err h (f buf)).
Proof. intros Hf buf Hb. specialize (Hf buf Hb). by destruct (f buf). Qed.

Lemma safe_if {A} (b : bool) (f g : reader A) :
  reader_safe f → reader_safe g → reader_safe (λ buf, if b then f buf else g buf).
Proof. by destruct b. Qed.

#[export] Hint Resolve safe_bind safe_ret safe_err safe_map_err safe_if : jam.

(** ** Reading *)

Lemma buf_read_length {E} (eof : E) n buf d rest :
  0 ≤ n → buf_read eof n buf = Ok (d, rest) → len d = n.
Proof.
  intros Hn. unfold buf_read. destruct buf as [|b buf].
  - destruct (Z.eqb_spec n 0) as [->|]; [|done]. by intros [= <- <-].
  - intros [= <- <-]. unfold go_copy, len.
    rewrite length_app, length_take, length_drop, length_replicate, length_take. lia.
Qed.

Lemma buf_read_bytes {E} (eof : E) n buf d rest :
  bytes_ok buf → buf_read eof n buf = Ok (d, rest) → bytes_ok d ∧ bytes_ok rest.
Proof.
  intros Hb. unfold buf_read. destruct buf as [|b buf].
  - destruct (n =? 0); [|done]. intros [= <- <-]. by split.
  - intros [= <- <-]. split; [|by apply Forall_drop]. apply Forall_app.
    split; [by apply Forall_take, Forall_take|]. by apply Forall_drop, Forall_replicate.
Qed.

Lemma safe_read n : reader_safe (read n).
Proof.
  intros buf Hb. destruct (read n buf) as [[d rest]| |] eqn:Hr; [|done|].
  - by destruct (buf_read_bytes _ _ _ _ _ Hb Hr).
  - unfold read, buf_read in Hr. by destruct buf; [destruct (n =? 0)|].
Qed.

(** A continuation may rely on what [read] returns. *)
Lemma safe_read_bind {B} h n (g : list Z → reader B) :
  0 ≤ n → (∀ d, len d = n → bytes_ok d → reader_safe (g d)) →
  reader_safe (λ buf, let! (d, buf) := map_err h (read n buf) in g d buf).
Proof.
  intros Hn Hg buf Hb. pose proof (safe_read n buf Hb) as Hs.
  destruct (read n buf) as [[d rest]| |] eqn:Hr; simpl; [|done..].
  apply Hg; [by eapply buf_read_length| |done]. by destruct (buf_read_bytes _ _ _ _ _ Hb Hr).
Qed.

Lemma map_err_id {E A} (c : res E A) : map_err (λ e, e) c = c.
Proof. by destruct c. Qed.

Lemma safe_read_bind' {B} n (g : list Z → reader B) :
  0 ≤ n → (∀ d, len d = n → bytes_ok d → reader_safe (g d)) →
  reader_safe (λ buf, let! (d, buf) := read n buf in g d buf).
Proof.
  intros Hn Hg buf. rewrite <- (map_err_id (read n buf)). by apply (safe_read_bind (λ e, e)).
Qed.

Lemma ReadOctet_inv buf b rest :
  bytes_ok buf → ReadOctet buf = Ok (b, rest) → is_byte b ∧ bytes_ok rest.
Proof.
  intros Hb H. unfold ReadOctet in H. go_inv. match goal with H : read _ _ = _ |- _ =>
    destruct (buf_read_bytes _ _ _ _ _ Hb H) as [Hd Hr] end.
  match goal with H : go_index _ _ = _ |- _ => apply go_index_Ok in H as [_ Hg] end.
  split; [|done]. exact (Forall_lookup_1 _ _ _ _ Hd Hg).
Qed.

Lemma safe_ReadOctet : reader_safe ReadOctet.
Proof.
  apply safe_read_bind'; [lia|]. intros d Hl Hd buf Hb.
  destruct (go_index d 0) as [b| |] eqn:Hi; simpl; [done|done|].
  apply go_index_not_panic in Hi; [done|]. lia.
Qed.

(** ** Naturals *)

Lemma deserializeUint64_loop_safe s l i u n :
  0 ≤ i → l < len s → deserializeUint64_loop s l i u n ≠ RuntimePanic.
Proof.
  intros Hi Hl. revert i u Hi. induction n as [|n IH]; intros i u Hi; simpl; [done|].
  destruct (Z.ltb_spec i l); [|done]. destruct (go_index s (i + 1)) eqn:Hg; simpl; [|done|].
  - apply IH. lia.
  - apply go_index_not_panic in Hg; [done|]. lia.
Qed.

Lemma deserializeUint64WithLength_safe p tail l :
  0 ≤ l ≤ 8 → len tail = l → deserializeUint64WithLength (p :: tail) l ≠ RuntimePanic.
Proof.
  intros Hl Ht. assert (len (p :: tail) = 1 + l) as Hn by (unfold len in *; simpl; lia).
  unfold deserializeUint64WithLength. cbv zeta. rewrite Hn.
  destruct (Z.eqb_spec (1 + l) 0); [lia|]. destruct (Z.gtb_spec (1 + l) 8).
  - cbn [go_index]. simpl. destruct (negb _); [done|]. rewrite go_slice_ok; [done|lia|].
    rewrite Hn. lia.
  - destruct (deserializeUint64_loop _ _ _ _ _) eqn:Hd; simpl; [done|done|].
    by apply deserializeUint64_loop_safe in Hd; [|lia|lia].
Qed.

Lemma LeadingZeros8_range x : inU 8 x → 0 ≤ LeadingZeros8 x ≤ 8.
Proof.
  intros Hx. unfold LeadingZeros8, LeadingZeros, Len64, inU in *. destruct (Z.eqb_spec x 0); [lia|].
  assert (Z.log2 x < 8) by (apply Z.log2_lt_pow2; lia). pose proof (Z.log2_nonneg x). lia.
Qed.

Lemma safe_decodeUint : reader_safe decodeUint.
Proof.
  unfold decodeUint. apply (safe_bind (λ buf, map_err ErrReadingByte (ReadOctet buf))).
  { apply safe_map_err, safe_ReadOctet. }
  intros p. cbv zeta. pose proof (LeadingZeros8_range (uint8 (Z.lnot p))) as Hl.
  set (l := LeadingZeros8 _) in *. apply safe_read_bind; [apply Hl; by apply wrapU_range|].
  intros tail Ht _ buf Hb. destruct (deserializeUint64WithLength _ _) eqn:Hd; simpl; [done|done|].
  apply deserializeUint64WithLength_safe in Hd; [done| |done]. apply Hl. by apply wrapU_range.
Qed.

Lemma safe_decodeLength : reader_safe decodeLength.
Proof. apply safe_map_err, safe_decodeUint. Qed.

(** ** Primitive values *)

Lemma safe_decodeFixedWidth_prim k l :
  0 ≤ l ≤ maxAlloc → reader_safe (decodeFixedWidth_prim k l).
Proof.
  intros Hl buf Hb. unfold decodeFixedWidth_prim. rewrite go_make_small by lia. cbn [rbind].
  pose proof (safe_read l buf Hb) as Hr. destruct (read l buf) as [[d rest]| |]; simpl; [|done..].
  by destruct k.
Qed.

Lemma safe_readPointerMarker : reader_safe readPointerMarker.
Proof.
  apply safe_read_bind'; [lia|]. intros d Hl Hd buf Hb.
  destruct (go_index d 0) as [b| |] eqn:Hi; simpl; [|done|].
  - by destruct (b =? 0), (b =? 1).
  - apply go_index_not_panic in Hi; [done|]. lia.
Qed.

Lemma safe_decodeBool : reader_safe decodeBool.
Proof.
  apply (safe_bind ReadOctet); [apply safe_ReadOctet|]. intros b.
  repeat apply safe_if; auto with jam.
Qed.

Lemma safe_unmarshal_prim k : reader_safe (unmarshal_prim k).
Proof.
  destruct k; cbn [unmarshal_prim IntLength rbind];
    try apply safe_decodeFixedWidth_prim; try (unfold maxAlloc; lia).
  - apply safe_decodeBool.
  - apply (safe_bind decodeUint); [apply safe_decodeUint|]. intros. apply safe_ret.
  - apply (safe_bind decodeUint); [apply safe_decodeUint|]. intros. apply safe_ret.
Qed.

(** Lengths are naturals. *)
Lemma deserializeUint64_loop_nonneg s l i u n v :
  0 ≤ u → deserializeUint64_loop s l i u n = Ok v → 0 ≤ v.
Proof.
  revert i u. induction n as [|n IH]; intros i u Hu; simpl; [by intros [= <-]|].
  destruct (i <? l); [|by intros [= <-]]. intros (b & _ & H)%rbind_Ok_inv. apply IH in H; [done|].
  apply Z.lor_nonneg. split; [done|]. by apply (wrapU_range 64).
Qed.

Lemma decodeUint_nonneg buf v rest :
  bytes_ok buf → decodeUint buf = Ok (v, rest) → 0 ≤ v.
Proof.
  intros Hb H. unfold decodeUint in H. go_inv.
  match goal with H : ReadOctet _ = _ |- _ => destruct (ReadOctet_inv _ _ _ Hb H) as [_ Hr] end.
  match goal with H : read _ _ = Ok (?t, _) |- _ =>
    destruct (buf_read_bytes _ _ _ _ _ Hr H) as [Ht _] end.
  match goal with H : deserializeUint64WithLength _ _ = _ |- _ =>
    unfold deserializeUint64WithLength in H; rename H into Hd end.
  cbv zeta in Hd. destruct (_ =? 0); [by simplify_eq|]. destruct (_ >? 8).
  - apply rbind_Ok_inv in Hd as (b0 & _ & Hd). destruct (negb _); [done|].
    apply rbind_Ok_inv in Hd as (body & Hs & [= <-]). unfold go_slice in Hs.
    destruct (_ && _); [|done]. injection Hs as <-. apply le_value_bound.
    apply Forall_take. exact Ht.
  - apply rbind_Ok_inv in Hd as (u & Hu & Hd). apply rbind_Ok_inv in Hd as (b0 & _ & [= <-]).
    apply deserializeUint64_loop_nonneg in Hu; [|done]. apply Z.lor_nonneg. split; [done|].
    by apply (wrapU_range 64).
Qed.

Lemma safe_length_bind {B} (g : Z → reader B) :
  (∀ l, 0 ≤ l → reader_safe (g l)) → reader_safe (λ buf, let! (l, buf) := decodeLength buf in g l buf).
Proof.
  intros Hg buf Hb. pose proof (safe_decodeLength buf Hb) as Hl.
  destruct (decodeLength buf) as [[l rest]| |] eqn:H; simpl; [|done..]. apply Hg; [|done].
  apply map_err_Ok_inv in H. exact (decodeUint_nonneg _ _ _ Hb H).
Qed.

Lemma safe_decodeBytesFixedLength l : 0 ≤ l → reader_safe (decodeBytesFixedLength l).
Proof.
  intros Hl. unfold decodeBytesFixedLength. destruct (Z.gtb_spec l MaxUint32); [apply safe_err|].
  rewrite go_make_small by (unfold maxAlloc, MaxUint32 in *; lia).
  apply safe_if; [apply safe_read|apply safe_ret].
Qed.

Lemma safe_decodeBitsFixedLength v l : 0 ≤ l → reader_safe (decodeBitsFixedLength v l).
Proof.
  intros Hl. unfold decodeBitsFixedLength. destruct (Z.gtb_spec l MaxUint32); [apply safe_err|].
  rewrite go_make_small by (unfold maxAlloc, MaxUint32 in *; lia).
  apply safe_read_bind'; [done|]. intros. apply safe_if; apply safe_ret.
Qed.

Lemma safe_readFull n : reader_safe (readFull n).
Proof.
  intros buf Hb. unfold readFull. destruct (n <=? len buf); [by apply safe_read|].
  by destruct (len buf =? 0).
Qed.

(** ** Composite values *)

(** The [length] tags of a type are lengths of slices. *)
Fixpoint fields_tags_ok (P : gotype → Prop) (fs : list (field_info * gotype)) : Prop :=
  match fs with
  | [] => True
  | (i, t) :: fs =>
      match field_tag i with TagLength n => 0 ≤ n ≤ maxAlloc | _ => True end ∧ P t ∧
      fields_tags_ok P fs
  end.
Fixpoint alts_tags_ok (P : gotype → Prop) (alts : list (option gotype)) : Prop :=
  match alts with
  | [] => True
  | o :: alts => match o with Some t => P t | None => True end ∧ alts_tags_ok P alts
  end.
Fixpoint tags_ok (t : gotype) : Prop :=
  match t with
  | TPtr t | TSlice t | TArray _ t => tags_ok t
  | TStruct fs => fields_tags_ok tags_ok fs
  | TMap kt vt => tags_ok kt ∧ tags_ok vt
  | TEnum _ alts => alts_tags_ok tags_ok alts
  | _ => True
  end.

Section composite.
Context (u : gotype → reader goval).

Lemma safe_decode_n f n : reader_safe f → reader_safe (decode_n f n).
Proof.
  intros Hf. induction n as [|n IH]; cbn [decode_n]; [apply safe_ret|].
  apply safe_bind; [done|]. intros v. apply safe_bind; [done|]. intros vs. apply safe_ret.
Qed.

Lemma safe_decodeMap_loop fk fv n kvs :
  reader_safe fk → reader_safe fv → reader_safe (decodeMap_loop fk fv n kvs).
Proof.
  intros Hk Hv. revert kvs. induction n as [|n IH]; intros kvs; cbn [decodeMap_loop];
    [apply safe_ret|].
  apply (safe_bind (λ buf, map_err ErrDecodingMapKey (fk buf))); [by apply safe_map_err|].
  intros k. apply (safe_bind (λ buf, map_err ErrDecodingMapValue (fv buf))); [by apply safe_map_err|].
  intros v. apply IH.
Qed.

Lemma safe_decodeFixedWidth t l : 0 ≤ l ≤ maxAlloc → reader_safe (decodeFixedWidth t l).
Proof.
  intros Hl. assert (reader_safe (λ buf, let! (_, _) := map_err ErrReadingByte (read l buf) in
    @Err _ (goval * list Z) ErrUnsupportedType)) as Hbad.
  { apply safe_read_bind; [lia|]. intros. apply safe_err. }
  destruct t as [named k| | | |t| | | | | |]; cbn [decodeFixedWidth]; try done.
  - by apply safe_decodeFixedWidth_prim.
  - apply safe_bind; [apply safe_readPointerMarker|]. intros b. apply safe_if; [apply safe_ret|].
    destruct t; try done. apply safe_bind; [by apply safe_decodeFixedWidth_prim|].
    intros v. apply safe_ret.
Qed.

Lemma safe_decodeStruct fs :
  (∀ i t, (i, t) ∈ fs → reader_safe (u t)) →
  fields_tags_ok (λ _, True) fs → reader_safe (decodeStruct u fs).
Proof.
  intros Hu. induction fs as [|[i t] fs IH]; cbn [decodeStruct fields_tags_ok]; [intros; apply safe_ret|].
  intros (Htag & _ & Hfs). apply safe_bind.
  - unfold decodeField. apply safe_if; [|apply safe_ret].
    destruct (field_tag i); [|apply safe_ret|]; apply safe_map_err.
    + apply (Hu i). by left.
    + by apply safe_decodeFixedWidth.
  - intros v. apply safe_bind; [|intros; apply safe_ret]. apply IH; [|done].
    intros j t' Hin. apply (Hu j). by right.
Qed.

Lemma safe_decodeEnumValue unknown alts n b :
  (∀ t, Some t ∈ alts → reader_safe (u t)) → reader_safe (decodeEnumValue u unknown alts n b).
Proof.
  revert n. induction alts as [|o alts IH]; intros n Hu; destruct n; cbn [decodeEnumValue];
    try apply safe_err.
  - destruct o as [t|]; [|apply safe_ret]. apply safe_bind; [|intros; apply safe_ret].
    apply Hu. by left.
  - destruct o; apply IH; intros; apply Hu; by right.
Qed.
End composite.

Lemma fields_tags_ok_split P fs :
  fields_tags_ok P fs → fields_tags_ok (λ _, True) fs ∧ ∀ i t, (i, t) ∈ fs → P t.
Proof.
  induction fs as [|[i t] fs IH]; simpl.
  { split; [done|]. intros i t Hin. by apply elem_of_nil in Hin. }
  intros (Ht & HP & Hfs). destruct (IH Hfs) as [H1 H2]. split_and!; [done..|].
  intros j t' [[= -> ->]|Hin]%elem_of_cons; [done|]. by apply (H2 j).
Qed.

Lemma alts_tags_ok_in P alts t : alts_tags_ok P alts → Some t ∈ alts → P t.
Proof.
  induction alts as [|o alts IH]; simpl; [intros _ Hin; by apply elem_of_nil in Hin|].
  intros [Ho Ha] [<-|Hin]%elem_of_cons; [done|by apply IH].
Qed.

(** The whole decoder. *)
Lemma safe_unmarshal t : tags_ok t → reader_safe (unmarshal t).
Proof.
  induction t as [named k| | | |t IH|t IH|n t IH|fs IH|kt vt IHk IHv|unknown alts IH|]
    using gotype_ind; intros Ht; cbn [unmarshal tags_ok] in *.
  - apply safe_unmarshal_prim.
  - apply safe_bind; [|intros; apply safe_ret]. apply safe_length_bind. intros.
    by apply safe_decodeBytesFixedLength.
  - apply safe_bind; [|intros; apply safe_ret]. apply safe_length_bind. intros.
    by apply safe_decodeBitsFixedLength.
  - apply safe_bind; [apply safe_readFull|intros; apply safe_ret].
  - unfold decodePointer. apply safe_bind; [apply safe_readPointerMarker|]. intros b.
    apply safe_if; [apply safe_ret|]. apply safe_bind; [auto|intros; apply safe_ret].
  - unfold decodeSlice. apply safe_length_bind. intros.
    apply safe_bind; [by apply safe_decode_n, IH|intros; apply safe_ret].
  - unfold decodeArray. apply safe_bind; [by apply safe_decode_n, IH|intros; apply safe_ret].
  - apply fields_tags_ok_split in Ht as [Htags Hts]. apply safe_bind; [|intros; apply safe_ret].
    apply safe_decodeStruct; [|done]. intros i t Hin. rewrite Forall_forall in IH.
    apply (IH (i, t) Hin). by apply (Hts i).
  - destruct Ht as [Hk Hv]. unfold decodeMap.
    apply (safe_bind (λ buf, map_err ErrDecodingMapLength (decodeLength buf))).
    { apply safe_map_err, safe_decodeLength. }
    intros l. apply safe_bind; [|intros; apply safe_ret].
    by apply safe_decodeMap_loop; [apply IHk|apply IHv].
  - unfold decodeEnum. apply safe_bind; [apply safe_ReadOctet|]. intros b.
    apply safe_decodeEnumValue. intros t Hin. rewrite Forall_forall in IH.
    apply (IH (Some t) Hin). by eapply alts_tags_ok_in.
  - apply safe_err.
Qed.
