(* ===== verification/JamRoundtrip.v ===== *)
(** * Round trips of the JAM codec

    Decoding what [marshal] wrote gives the value back, up to the order of map
    entries and to struct fields that are not encoded. *)
From S2P Require Export JamSafety.

(** ** Bit sequences *)

Lemma land_pow2_eqb b k :
  0 ≤ k → (Z.land b (2 ^ k) =? 2 ^ k) = Z.testbit b k.
Proof.
  intros Hk. destruct (Z.testbit b k) eqn:E.
  - apply Z.eqb_eq, Z.bits_inj'. intros n Hn. rewrite Z.land_spec.
    rewrite Z.pow2_bits_eqb by done. destruct (Z.eqb_spec k n) as [->|]; [by rewrite E|].
    by rewrite andb_false_r.
  - apply Z.eqb_neq. intros H.
    assert (Z.testbit (Z.land b (2 ^ k)) k = Z.testbit (2 ^ k) k) as H' by by rewrite H.
    rewrite Z.land_spec, E, Z.pow2_bits_true in H' by done. done.
Qed.

Lemma uint8_shiftl_1 k : 0 ≤ k < 8 → uint8 (Z.shiftl 1 k) = 2 ^ k.
Proof.
  intros. rewrite Z.shiftl_1_l. apply wrapU_id. split; [apply Z.pow_nonneg; lia|].
  apply Z.pow_lt_mono_r; lia.
Qed.

Lemma bits_of_bytes_lookup bb i :
  Z.of_nat i < len bb * 8 →
  bits_of_bytes bb !! i =
  Some (Z.testbit (bb !!! Z.to_nat (Z.of_nat i / 8)) (Z.of_nat i `mod` 8)).
Proof.
  intros Hi. unfold bits_of_bytes. rewrite list_lookup_fmap, lookup_seqZ_lt by done.
  cbn [fmap option_fmap option_map]. rewrite Z.add_0_l.
  pose proof (Z.mod_pos_bound (Z.of_nat i) 8 ltac:(lia)) as Hm.
  rewrite uint8_shiftl_1 by done. by rewrite land_pow2_eqb by apply Hm.
Qed.

Lemma len_bits_of_bytes bb : len (bits_of_bytes bb) = 8 * len bb.
Proof. unfold bits_of_bytes, len. rewrite length_fmap, length_seqZ. lia. Qed.

(** The bit of the sequence at position [j], false beyond its end. *)
Definition bit_at (bs : list bool) (j : Z) : bool := default false (bs !! Z.to_nat j).
Definition byte_bit (bb : list Z) (j : Z) : bool :=
  Z.testbit (bb !!! Z.to_nat (j / 8)) (j `mod` 8).

Lemma encodeBits_loop_spec bs i bb :
  0 ≤ i → i + len bs ≤ 8 * len bb →
  ∃ bb', encodeBits_loop i bs bb = Ok bb' ∧ length bb' = length bb ∧
    ∀ j, 0 ≤ j < 8 * len bb →
      byte_bit bb' j = byte_bit bb j || (if i <=? j then bit_at bs (j - i) else false).
Proof.
  revert i bb. induction bs as [|b bs IH]; intros i bb Hi Hl; simpl.
  { exists bb. split_and!; [done..|]. intros j Hj. unfold bit_at. rewrite lookup_nil.
    simpl. by destruct (i <=? j); rewrite orb_false_r. }
  assert (len (b :: bs) = len bs + 1) as Hlen by (unfold len; simpl; lia).
  assert (0 ≤ i / 8 < len bb) as Hi8.
  { split; [apply Z.div_pos; lia|]. apply Z.div_lt_upper_bound; [lia|].
    pose proof (len_nonneg bs). lia. }
  assert (∃ bb1, (if b then let! old := go_index bb (i / 8) in
             go_update bb (i / 8) (Z.lor old (uint8 (Z.shiftl 1 (i `mod` 8)))) else Ok bb)
             = @Ok jam_error _ bb1 ∧ length bb1 = length bb ∧
             ∀ j, 0 ≤ j < 8 * len bb → byte_bit bb1 j = byte_bit bb j || (b && (j =? i)))
    as (bb1 & -> & Hlen1 & Hbb1).
  { destruct b; cycle 1.
    { exists bb. split_and!; [done..|]. intros. simpl. by rewrite orb_false_r. }
    unfold go_index, go_update.
    rewrite (proj2 (Z.ltb_ge _ _)) by lia.
    destruct (lookup_lt_is_Some_2 bb (Z.to_nat (i / 8))) as [old Hold].
    { unfold len in *. lia. }
    rewrite Hold. cbn [rbind]. rewrite (proj2 (Z.leb_le 0 (i / 8))), (proj2 (Z.ltb_lt (i / 8) _)) by lia.
    eexists. split; [done|]. split; [apply length_insert|]. intros j Hj. simpl.
    pose proof (Z.mod_pos_bound i 8 ltac:(lia)). pose proof (Z.mod_pos_bound j 8 ltac:(lia)).
    rewrite uint8_shiftl_1 by done. unfold byte_bit.
    destruct (decide (j / 8 = i / 8)) as [Heq|Hne].
    - rewrite Heq, list_lookup_total_insert_eq by (unfold len in *; lia).
      rewrite (list_lookup_total_correct _ _ _ Hold), Z.lor_spec, Z.pow2_bits_eqb by lia.
      f_equal. destruct (Z.eqb_spec (i `mod` 8) (j `mod` 8)) as [He|He];
        destruct (Z.eqb_spec j i) as [Hji|Hji]; subst; try done.
      exfalso. apply Hji. rewrite (Z.div_mod j 8), (Z.div_mod i 8) by lia. by rewrite Heq, He.
    - assert (0 ≤ j / 8) by (apply Z.div_pos; lia).
      rewrite list_lookup_total_insert_ne by lia.
      destruct (Z.eqb_spec j i) as [->|]; [done|]. by rewrite orb_false_r. }
  cbn [rbind]. destruct (IH (i + 1) bb1) as (bb' & Hbb' & Hlen' & Hspec).
  { lia. }
  { unfold len in *. rewrite Hlen1. lia. }
  exists bb'. split_and!; [done | congruence |]. intros j Hj.
  rewrite Hspec by (unfold len in *; rewrite Hlen1; lia).
  rewrite Hbb1 by done. rewrite <- orb_assoc. f_equal.
  destruct (Z.leb_spec i j), (Z.leb_spec (i + 1) j); [| | lia |].
  - replace (j =? i) with false by (symmetry; apply Z.eqb_neq; lia).
    rewrite andb_false_r. simpl. unfold bit_at.
    replace (Z.to_nat (j - i)) with (S (Z.to_nat (j - (i + 1)))) by lia. done.
  - replace j with i by lia. rewrite Z.eqb_refl, andb_true_r, orb_false_r.
    unfold bit_at. by replace (i - i) with 0 by lia.
  - replace (j =? i) with false by (symmetry; apply Z.eqb_neq; lia).
    by rewrite andb_false_r.
Qed.

Lemma byte_bit_zeros n j : 0 ≤ j < 8 * Z.of_nat n → byte_bit (replicate n 0) j = false.
Proof.
  intros. unfold byte_bit. rewrite lookup_total_replicate_2.
  - apply Z.testbit_0_l.
  - assert (j / 8 < Z.of_nat n) by (apply Z.div_lt_upper_bound; lia). lia.
Qed.

Lemma byte_bit_ext bb bs :
  len bs = 8 * len bb → (∀ j, 0 ≤ j < 8 * len bb → byte_bit bb j = bit_at bs j) →
  bits_of_bytes bb = bs.
Proof.
  intros Hl H. apply list_eq. intros i. destruct (decide (Z.of_nat i < len bb * 8)).
  - rewrite bits_of_bytes_lookup by done. fold (byte_bit bb (Z.of_nat i)).
    rewrite H by lia. unfold bit_at. rewrite Nat2Z.id.
    destruct (lookup_lt_is_Some_2 bs i) as [b ->]; [unfold len in *; lia|done].
  - rewrite !lookup_ge_None_2; [done| |].
    + unfold len in *. lia.
    + pose proof (len_bits_of_bytes bb). unfold len in *. lia.
Qed.

Definition bits_encodable (bs : list bool) : Prop :=
  len bs = 0 ∨ ∃ k, len bs = 8 * k ∧ k `mod` 8 ≠ 0 ∧ k ≤ MaxUint32.

Lemma encodeBits_ok bs :
  bits_encodable bs →
  ∃ k bb, encodeBits bs = Ok (encodeLength k ++ bb) ∧ len bb = k ∧ 0 ≤ k ≤ MaxUint32 ∧
    (if k =? 0 then [] else bits_of_bytes bb) = bs.
Proof.
  intros [H0|(k & Hk & Hmod & Hmax)]; unfold encodeBits.
  { destruct bs; [|unfold len in H0; simpl in H0; lia].
    exists 0, []. split_and!; try done. }
  pose proof (len_nonneg bs).
  assert (0 < k) by (destruct (decide (k = 0)) as [->|]; [done|lia]).
  rewrite Hk, Z.mul_comm, Z.div_mul by done.
  rewrite (proj2 (Z.eqb_neq (k `mod` 8) 0)), andb_false_r by done. cbv zeta.
  unfold go_make. assert (k ≤ maxAlloc) by (unfold MaxUint32, maxAlloc in *; lia).
  rewrite (proj2 (Z.leb_le 0 k)), (proj2 (Z.leb_le (k * 1) maxAlloc)) by lia. cbn [andb rbind].
  destruct (encodeBits_loop_spec bs 0 (replicate (Z.to_nat k) 0)) as (bb & Hbb & Hlen & Hspec).
  { done. }
  { unfold len. rewrite length_replicate. unfold len in *. lia. }
  rewrite Hbb. cbn [rbind]. rewrite length_replicate in Hlen.
  exists k, bb. split_and!; try done; try lia.
  { unfold len. lia. }
  rewrite (proj2 (Z.eqb_neq k 0)) by lia. apply byte_bit_ext; [unfold len in *; lia|].
  intros j Hj. rewrite Hspec by (unfold len in *; rewrite length_replicate; lia).
  rewrite byte_bit_zeros by (unfold len in *; lia).
  rewrite (proj2 (Z.leb_le 0 j)) by lia. simpl. by rewrite Z.sub_0_r.
Qed.

(** A set bit beyond the bytes [encodeBits] allocated is an index out of range. *)
Lemma encodeBits_loop_panic bs i bb j :
  0 ≤ i → bs !! j = Some true → len bb ≤ (i + Z.of_nat j) / 8 →
  encodeBits_loop i bs bb = RuntimePanic.
Proof.
  revert i j bb. induction bs as [|b bs IH]; intros i j bb Hi Hj Hlen; [done|]. simpl.
  assert (0 ≤ i / 8) by (apply Z.div_pos; lia).
  destruct j as [|j]; simpl in Hj.
  - simplify_eq. rewrite Z.add_0_r in Hlen. unfold go_index.
    rewrite (proj2 (Z.ltb_ge _ _)) by lia.
    by rewrite lookup_ge_None_2 by (unfold len in *; lia).
  - replace (i + Z.of_nat (S j)) with (i + 1 + Z.of_nat j) in Hlen by lia.
    destruct b; [|by apply (IH _ j); [lia|done|done]].
    unfold go_index at 1. rewrite (proj2 (Z.ltb_ge _ _)) by lia.
    destruct (bb !! Z.to_nat (i / 8)) as [old|]; [|done]. cbn [rbind]. unfold go_update.
    destruct (_ && _); [|done]. cbn [rbind]. apply (IH _ j); [lia|done|].
    unfold len in *. by rewrite length_insert.
Qed.

(** ** Typed values *)

Definition kind_range (k : kind) (z : Z) : Prop :=
  match k with
  | Bool => False
  | Int | Int64 => inS 64 z
  | Int8 => inS 8 z
  | Int16 => inS 16 z
  | Int32 => inS 32 z
  | Uint | Uint64 => inU 64 z
  | Uint8 => inU 8 z
  | Uint16 => inU 16 z
  | Uint32 => inU 32 z
  end.

Definition is_enum (t : gotype) : Prop := match t with TEnum _ _ => True | _ => False end.

(** The kinds [marshal] can write: every one but the signed fixed-width kinds. *)
Definition kind_encodable (k : kind) : Prop :=
  match k with Int8 | Int16 | Int32 | Int64 => False | _ => True end.

(** The kinds of a field with a [length] tag that can be written and read. *)
Definition kind_fixed (k : kind) : Prop :=
  match k with Uint8 | Uint16 | Uint32 | Uint64 => True | _ => False end.

Definition field_encoded (i : field_info) : bool :=
  field_exported i && match field_tag i with TagSkip => false | _ => true end.

(** The Go types for which encoding and decoding are inverse; [P] is the
    recursive call. *)
Fixpoint fields_encodable (P : gotype → Prop) (fs : list (field_info * gotype)) : Prop :=
  match fs with
  | [] => True
  | (i, t) :: fs =>
      (if field_encoded i then
         match field_tag i with
         | TagLength n =>
             match t with
             | TPrim _ k | TPtr (TPrim _ k) => kind_fixed k ∧ 0 ≤ n ≤ maxAlloc
             | _ => False
             end
         | _ => P t
         end
       else True) ∧ fields_encodable P fs
  end.

Fixpoint alts_encodable (P : gotype → Prop) (alts : list (option gotype)) : Prop :=
  match alts with
  | [] => True
  | o :: alts => match o with Some t => P t | None => True end ∧ alts_encodable P alts
  end.

Fixpoint encodable (t : gotype) : Prop :=
  match t with
  | TPrim _ k => kind_encodable k
  | TBytes | TBits | TPublicKey => True
  | TPtr t => encodable t ∧ ¬ is_enum t
  | TSlice t | TArray _ t => encodable t
  | TStruct fs => fields_encodable encodable fs
  | TMap kt vt =>
      encodable kt ∧ encodable vt ∧ match key_less kt with Ok _ => True | _ => False end
  | TEnum _ alts => alts_encodable encodable alts ∧ (length alts ≤ 256)%nat
  | TOther => False
  end.

(** The number a tagged field holds, or points to, fits [n] bytes. *)
Definition tag_fits (n : Z) (v : goval) : Prop :=
  match v with VPtr v => num_of v < 2 ^ (8 * n) | _ => num_of v < 2 ^ (8 * n) end.

(** The values a Go variable of the type can hold, within the codec's limits:
    byte strings of less than [2^32] bytes, bit sequences of a length
    [encodeBits] supports, and a tagged field that fits its [length]. *)
Fixpoint fields_typed (W : gotype → goval → Prop) (fs : list (field_info * gotype))
    (vs : list goval) : Prop :=
  match fs, vs with
  | [], [] => True
  | (i, t) :: fs, v :: vs =>
      W t v ∧
      match field_tag i with TagLength n => tag_fits n v | _ => True end ∧
      fields_typed W fs vs
  | _, _ => False
  end.

Fixpoint alt_typed (W : gotype → goval → Prop) (alts : list (option gotype)) (n : nat)
    (v : option goval) : Prop :=
  match alts, n with
  | o :: _, O =>
      match o, v with
      | None, None => True
      | Some t, Some v => W t v
      | _, _ => False
      end
  | _ :: alts, S n => alt_typed W alts n v
  | [], _ => False
  end.

Fixpoint well_typed (t : gotype) (v : goval) {struct t} : Prop :=
  match t, v with
  | TPrim _ Bool, VBool _ => True
  | TPrim _ k, VNum z => kind_range k z
  | TBytes, VBytes b => len b ≤ MaxUint32
  | TBits, VBits b => bits_encodable b
  | TPublicKey, VBytes b => len b = Ed25519PublicSize
  | TPtr t, VNil => True
  | TPtr t, VPtr v => well_typed t v
  | TSlice t, VSeq vs => Forall (well_typed t) vs ∧ inU 64 (len vs)
  | TArray n t, VSeq vs => Forall (well_typed t) vs ∧ length vs = n
  | TStruct fs, VSeq vs => fields_typed well_typed fs vs
  | TMap kt vt, VMap kvs =>
      Forall (λ kv, well_typed kt kv.1 ∧ well_typed vt kv.2) kvs ∧
      NoDup (map fst kvs) ∧ inU 64 (len kvs)
  | TEnum _ alts, VEnum i v => 0 ≤ i ∧ alt_typed well_typed alts (Z.to_nat i) v
  | _, _ => False
  end.

(** What decoding the encoding gives: map entries in key order, and fields that
    are not encoded at their zero value. *)
Fixpoint fields_canon (C : gotype → goval → goval) (fs : list (field_info * gotype))
    (vs : list goval) : list goval :=
  match fs, vs with
  | (i, t) :: fs, v :: vs =>
      (if field_encoded i then
         match field_tag i with TagLength _ => v | _ => C t v end
       else zero_value t) :: fields_canon C fs vs
  | _, _ => []
  end.

Fixpoint alt_canon (C : gotype → goval → goval) (alts : list (option gotype)) (n : nat)
    (v : goval) : goval :=
  match alts, n with
  | Some t :: _, O => C t v
  | _ :: alts, S n => alt_canon C alts n v
  | _, _ => v
  end.

Definition sorted_entries (kt : gotype) (kvs : list (goval * goval)) : list (goval * goval) :=
  match key_less kt with
  | Ok less => sort_by (less_on_key less) kvs
  | _ => kvs
  end.

Fixpoint canon (t : gotype) (v : goval) {struct t} : goval :=
  match t, v with
  | TPtr t, VPtr v => VPtr (canon t v)
  | (TSlice t | TArray _ t), VSeq vs => VSeq (map (canon t) vs)
  | TStruct fs, VSeq vs => VSeq (fields_canon canon fs vs)
  | TMap kt vt, VMap kvs =>
      VMap (map (λ kv, (kv.1, canon vt kv.2)) (sorted_entries kt kvs))
  | TEnum _ alts, VEnum i (Some v) => VEnum i (Some (alt_canon canon alts (Z.to_nat i) v))
  | _, _ => v
  end.

(** ** The round trip, operation by operation *)

(** [codes enc dec a]: the encoder succeeds, and the decoder reads what it wrote
    as [a], whatever follows. *)
Definition codes {A} (enc : res jam_error (list Z)) (dec : reader A) (a : A) : Prop :=
  ∃ bs, enc = Ok bs ∧ ∀ rest, dec (bs ++ rest) = Ok (a, rest).

Lemma codes_intro {A} bs (dec : reader A) a :
  (∀ rest, dec (bs ++ rest) = Ok (a, rest)) → codes (Ok bs) dec a.
Proof. intros. by exists bs. Qed.

Lemma decodeLength_encodeLength n rest :
  inU 64 n → decodeLength (encodeLength n ++ rest) = Ok (n, rest).
Proof.
  intros. unfold decodeLength, encodeLength, encodeUint, uint64. rewrite wrapU_id by done.
  by rewrite decodeUint_serializeUint64.
Qed.

Definition kind_width (k : kind) : Z :=
  match k with Uint8 => 8 | Uint16 => 16 | Uint32 => 32 | _ => 64 end.

Lemma kind_fixed_range k x : kind_fixed k → kind_range k x → inU (kind_width k) x ∧ inU 64 x.
Proof. destruct k; simpl; unfold inU; intros; try done; lia. Qed.

Lemma decodeFixedWidth_prim_serialize k x l rest :
  kind_fixed k → kind_range k x → 0 ≤ l ≤ maxAlloc → x < 2 ^ (8 * l) →
  decodeFixedWidth_prim k l (serializeTrivialNatural x l ++ rest) = Ok (VNum x, rest).
Proof.
  intros Hk Hx Hl Hxl. destruct (kind_fixed_range k x Hk Hx) as [Hw H64].
  unfold decodeFixedWidth_prim. rewrite serializeTrivialNatural_le by (done || lia).
  rewrite go_make_small by (unfold maxAlloc in *; lia). cbn [rbind].
  rewrite read_exact by (apply len_le; lia). cbn [map_err rbind].
  assert (∀ w, 8 ≤ w → inU w x →
    deserializeTrivialNatural w (Z_to_little_endian l 8 x) = x) as Hd.
  { intros w Hw8 Hxw. rewrite deserializeTrivialNatural_le by (done || apply le_bytes_ok; lia).
    rewrite little_endian_to_Z_to_little_endian by lia.
    rewrite (Z.mod_small x); [by apply wrapU_id|]. rewrite Z.mul_comm. destruct Hxw. lia. }
  destruct k; try done; by rewrite Hd by (done || lia).
Qed.

Lemma marshal_prim_roundtrip named k v :
  kind_encodable k → well_typed (TPrim named k) v →
  codes (marshal (TPrim named k) v) (unmarshal (TPrim named k)) v.
Proof.
  intros Hk Hv.
  assert (marshal (TPrim named k) v = marshal_prim 2 false k v) as ->.
  { destruct k; try contradiction; destruct named, v; reflexivity. }
  destruct k, v; simpl in Hv; try done.
  - apply codes_intro. intros rest. change (decodeBool (encodeBool b ++ rest) = Ok (VBool b, rest)).
    unfold decodeBool. destruct b; cbn [encodeBool app]; by rewrite ReadOctet_cons.
  - apply codes_intro. intros rest. cbn [unmarshal]. unfold unmarshal_prim, encodeUint.
    rewrite decodeUint_serializeUint64 by (by apply wrapU_range). cbn [rbind].
    unfold int64, uint64. rewrite wrapS_wrapU by lia. by rewrite wrapS_id.
  - apply codes_intro. intros rest. cbn [unmarshal]. unfold unmarshal_prim, encodeUint.
    by rewrite decodeUint_serializeUint64.
  - apply codes_intro. intros. by apply (decodeFixedWidth_prim_serialize Uint8); [..|apply Hv].
  - apply codes_intro. intros. by apply (decodeFixedWidth_prim_serialize Uint16); [..|apply Hv].
  - apply codes_intro. intros. by apply (decodeFixedWidth_prim_serialize Uint32); [..|apply Hv].
  - apply codes_intro. intros. by apply (decodeFixedWidth_prim_serialize Uint64); [..|apply Hv].
Qed.

Lemma encode_all_decode_n {A} (f : A → res jam_error (list Z)) (g : reader goval)
    (h : A → goval) (vs : list A) :
  Forall (λ v, codes (f v) g (h v)) vs →
  codes (encode_all f vs) (decode_n g (length vs)) (map h vs).
Proof.
  induction 1 as [|v vs (b & Hb & Hdec) Hvs (bs & Hbs & IH)]; simpl.
  - by apply codes_intro.
  - exists (b ++ bs). rewrite Hb, Hbs. split; [done|]. intros rest.
    rewrite <- app_assoc, Hdec. cbn [rbind]. by rewrite IH.
Qed.

Lemma readPointerMarker_write b rest :
  readPointerMarker (writePointerMarker b ++ rest) = Ok (b, rest).
Proof. unfold readPointerMarker. rewrite read_exact by (by destruct b). by destruct b. Qed.

(** A field with a [length] tag: a number, or a pointer to one. *)
Lemma tagged_roundtrip t v n :
  match t with
  | TPrim _ k | TPtr (TPrim _ k) => kind_fixed k ∧ 0 ≤ n ≤ maxAlloc
  | _ => False
  end →
  well_typed t v → tag_fits n v → codes (encodeFixedWidth t v n) (decodeFixedWidth t n) v.
Proof.
  assert (∀ k, kind_fixed k → is_unsigned k = true) as Hu by (by intros []).
  intros He Hw Hf. destruct t as [named k| | | |t| | | | | |]; try done.
  - destruct He as [Hk Hn]. destruct v as [|z| | | | | | |]; try (destruct k; done).
    simpl. rewrite (Hu k Hk). apply codes_intro. intros rest.
    apply decodeFixedWidth_prim_serialize; [done|by destruct k|done|done].
  - destruct t as [named k| | | | | | | | | |]; try done. destruct He as [Hk Hn].
    destruct v as [| | | | |v| | |]; try (destruct k; done).
    + apply codes_intro. intros rest. unfold decodeFixedWidth. by rewrite readPointerMarker_write.
    + destruct v as [|z| | | | | | |]; try (destruct k; done). cbn [encodeFixedWidth]. rewrite (Hu k Hk).
      apply codes_intro. intros rest. rewrite <- app_assoc. unfold decodeFixedWidth.
      rewrite readPointerMarker_write. cbn [rbind].
      rewrite decodeFixedWidth_prim_serialize; [done|done|by destruct k|done|done].
Qed.

Lemma encodeStruct_roundtrip fs vs :
  Forall (λ f, encodable f.2 → ∀ v, well_typed f.2 v →
            codes (marshal f.2 v) (unmarshal f.2) (canon f.2 v)) fs →
  fields_encodable encodable fs → fields_typed well_typed fs vs →
  codes (encodeStruct marshal fs vs) (decodeStruct unmarshal fs) (fields_canon canon fs vs).
Proof.
  intros HF. revert vs. induction HF as [|[i t] fs Ht HF IH]; intros [|v vs] He Hw; try done.
  { by apply codes_intro. }
  simpl in He, Hw, Ht. destruct He as [He Hes], Hw as (Hwv & Hwt & Hws).
  destruct (IH vs Hes Hws) as (bs & Hbs & Hdec). simpl. unfold decodeField, field_encoded in *.
  destruct (field_exported i); simpl in *; cycle 1.
  { exists bs. split; [done|]. intros rest. cbn [rbind]. by rewrite Hdec. }
  destruct (field_tag i) as [| |n]; simpl in *.
  - destruct (Ht He v Hwv) as (b & Hb & Hbdec). exists (b ++ bs). rewrite Hb, Hbs.
    split; [done|]. intros rest. rewrite <- app_assoc, Hbdec. cbn [map_err rbind]. by rewrite Hdec.
  - exists bs. split; [done|]. intros rest. cbn [rbind]. by rewrite Hdec.
  - destruct (tagged_roundtrip t v n) as (b & Hb & Hbdec); [done..|]. exists (b ++ bs).
    rewrite Hb, Hbs. split; [done|]. intros rest. rewrite <- app_assoc, Hbdec.
    cbn [map_err rbind]. by rewrite Hdec.
Qed.

Lemma encodeEnumValue_roundtrip unknown alts n v b :
  Forall (alt_holds (λ t, encodable t → ∀ v, well_typed t v →
            codes (marshal t v) (unmarshal t) (canon t v))) alts →
  alts_encodable encodable alts → alt_typed well_typed alts n (Some v) →
  codes (encodeEnumValue marshal alts n v) (decodeEnumValue unmarshal unknown alts n b)
    (VEnum b (Some (alt_canon canon alts n v))).
Proof.
  intros HF. revert n. induction HF as [|o alts Ho HF IH]; intros n He Hv; [done|].
  destruct He as [He Hes]. destruct n as [|n]; [|destruct o; by apply IH].
  destruct o as [t|]; [|done]. destruct (Ho He v Hv) as (bs & Hbs & Hdec).
  exists bs. split; [done|]. intros rest. simpl. by rewrite Hdec.
Qed.

Lemma decodeEnumValue_none unknown alts n b buf :
  alt_typed well_typed alts n None →
  decodeEnumValue unmarshal unknown alts n b buf = Ok (VEnum b None, buf).
Proof.
  revert n. induction alts as [|o alts IH]; intros n Hv; [done|].
  destruct n as [|n]; [by destruct o|]. destruct o; by apply IH.
Qed.

Lemma alt_typed_lt W alts n v : alt_typed W alts n v → (n < length alts)%nat.
Proof.
  revert n. induction alts as [|o alts IH]; intros [|n] H; simpl in *; try done; [lia|].
  apply IH in H. lia.
Qed.

(** *** Maps *)

(** A comparison that is a strict total order on the keys of a type. *)
Record key_order (less : goval → goval → bool) (D : goval → Prop) : Prop := KeyOrder {
  ko_irrefl : ∀ x, D x → less x x = false;
  ko_trans : ∀ x y z, D x → D y → D z → less x y = true → less y z = true → less x z = true;
  ko_total : ∀ x y, D x → D y → less x y = true ∨ x = y ∨ less y x = true;
}.

Lemma bytes_less_irrefl a : bytes_less a a = false.
Proof. induction a as [|x a IH]; simpl; [done|]. by rewrite Z.ltb_irrefl. Qed.

Lemma bytes_less_trans a b c :
  bytes_less a b = true → bytes_less b c = true → bytes_less a c = true.
Proof.
  revert b c. induction a as [|x a IH]; intros [|y b] [|z c]; simpl; try done.
  destruct (Z.ltb_spec x y), (Z.ltb_spec y z), (Z.ltb_spec x z),
    (Z.ltb_spec y x), (Z.ltb_spec z y), (Z.ltb_spec z x); try done; try lia. apply IH.
Qed.

Lemma bytes_less_total a b :
  bytes_less a b = true ∨ a = b ∨ bytes_less b a = true.
Proof.
  revert b. induction a as [|x a IH]; intros [|y b]; simpl; auto.
  destruct (Z.ltb_spec x y), (Z.ltb_spec y x); auto.
  assert (x = y) as -> by lia. destruct (IH b) as [?|[->|?]]; auto.
Qed.

(** The bytes of an array key determine the key. *)
Lemma reflectToByteSlice_inj named n v w :
  well_typed (TArray n (TPrim named Uint8)) v → well_typed (TArray n (TPrim named Uint8)) w →
  reflectToByteSlice v = reflectToByteSlice w → v = w.
Proof.
  destruct v as [| | | | | |vs| |], w as [| | | | | |ws| |]; try done. simpl.
  intros [Hv _] [Hw _]. intros Heq. f_equal. revert ws Hw Heq.
  induction Hv as [|v vs Hv Hvs IH]; intros [|w ws] Hw Heq; try done.
  inversion Hw as [|? ? Hw1 Hws]; subst. simpl in Heq. injection Heq as Hx Heq.
  f_equal; [|by apply IH]. destruct v, w; try done. simpl in *. unfold uint8 in Hx.
  by rewrite !wrapU_id in Hx by done; subst.
Qed.

Lemma key_less_order kt less :
  key_less kt = Ok less → key_order less (well_typed kt).
Proof.
  destruct kt as [named k| | | | | |n [named k| | | | | | | | | |]| | | |]; try done; intros H.
  - destruct k; simplify_eq/=; constructor; try (intros []; simpl; intros; try done; lia);
      try (intros [] [] []; simpl; intros; try done; lia);
      try (intros [] []; simpl; intros; try done; rewrite !Z.ltb_lt;
           match goal with |- _ ∨ VNum ?a = VNum ?b ∨ _ =>
             destruct (Z.lt_trichotomy a b) as [?|[->|?]]; auto end).
    + intros [[]| | | | | | | |]; done.
    + intros [[]| | | | | | | |] [[]| | | | | | | |] [[]| | | | | | | |]; done.
    + intros [[]| | | | | | | |] [[]| | | | | | | |]; simpl; auto; done.
  - destruct k; simplify_eq/=. constructor.
    + intros x _. apply bytes_less_irrefl.
    + intros x y z _ _ _. apply bytes_less_trans.
    + intros x y Hx Hy.
      destruct (bytes_less_total (reflectToByteSlice x) (reflectToByteSlice y)) as [?|[?|?]]; auto.
      right. left. by apply (reflectToByteSlice_inj named n).
Qed.

Lemma goval_eqb_seq vs ws :
  Forall (λ v, ∃ z, v = VNum z) vs → Forall (λ v, ∃ z, v = VNum z) ws →
  goval_eqb (VSeq vs) (VSeq ws) = true → vs = ws.
Proof.
  intros Hv. revert ws. induction Hv as [|? vs [z ->] Hvs IH]; intros [|w ws] Hw Heq; try done.
  inversion Hw as [|? ? [z' ->] Hws]; subst. cbn in Heq. apply andb_true_iff in Heq as [E1 E2].
  apply Z.eqb_eq in E1 as ->. f_equal. by apply IH.
Qed.

Lemma goval_eqb_key kt less x y :
  key_less kt = Ok less → well_typed kt x → well_typed kt y →
  goval_eqb x y = true → x = y.
Proof.
  destruct kt as [named k| | | | | |n [named k| | | | | | | | | |]| | | |]; try done;
    intros _ Hx Hy Heq.
  - destruct k, x, y; try done; simpl in Heq;
      first [by apply Z.eqb_eq in Heq as -> | by apply eqb_prop in Heq as ->].
  - assert (∀ v, well_typed (TPrim named k) v → k ≠ Bool → ∃ z, v = VNum z) as Hnum.
    { intros v Hv Hk. destruct k, v; try done; eauto. }
    destruct (decide (k = Bool)) as [->|Hk].
    + destruct x as [| | | | | |vs| |], y as [| | | | | |ws| |]; try done. f_equal.
      destruct Hx as [Hx _], Hy as [Hy _]. revert ws Hy Heq.
      induction Hx as [|v vs Hv Hvs IH]; intros [|w ws] Hw Heq; try done.
      inversion Hw; subst. cbn in Heq. apply andb_true_iff in Heq as [E1 E2].
      f_equal; [|by apply IH]. destruct v, w; try done. by apply eqb_prop in E1 as ->.
    + destruct x as [| | | | | |vs| |], y as [| | | | | |ws| |]; try done. f_equal.
      destruct Hx as [Hx _], Hy as [Hy _].
      apply goval_eqb_seq; [| |done]; eapply Forall_impl; eauto.
Qed.

Lemma canon_key kt less x : key_less kt = Ok less → canon kt x = x.
Proof.
  destruct kt as [named k| | | | | |n [named k| | | | | | | | | |]| | | |]; try done; intros _.
  destruct x as [| | | | | |vs| |]; simpl; try done. f_equal.
  induction vs as [|v vs IH]; simpl; [done|]. by rewrite IH.
Qed.

Lemma map_set_fresh k v kvs :
  Forall (λ kv, goval_eqb k kv.1 = false) kvs → map_set k v kvs = kvs ++ [(k, v)].
Proof. induction 1 as [|[k' v'] kvs Hk H IH]; simpl in *; [done|]. by rewrite Hk, IH. Qed.

Lemma decodeMap_loop_roundtrip kt vt less es acc :
  key_less kt = Ok less →
  Forall (λ kv, well_typed kt kv.1) acc → Forall (λ kv, well_typed kt kv.1) es →
  NoDup (map fst acc ++ map fst es) →
  Forall (λ kv, codes (marshal kt kv.1) (unmarshal kt) kv.1 ∧
                codes (marshal vt kv.2) (unmarshal vt) (canon vt kv.2)) es →
  codes (encode_all (λ kv : goval * goval, let! bk := marshal kt kv.1 in
                       let! bv := marshal vt kv.2 in Ok (bk ++ bv)) es)
        (decodeMap_loop (unmarshal kt) (unmarshal vt) (length es) acc)
        (acc ++ map (λ kv, (kv.1, canon vt kv.2)) es).
Proof.
  intros Hless. revert acc. induction es as [|[k v] es IH]; intros acc Hacc Hes Hnd HF; simpl.
  { apply codes_intro. intros. by rewrite app_nil_r. }
  inversion HF as [|? ? [(bk & Hbk & Hdk) (bv & Hbv & Hdv)] HF']; subst. simpl in *.
  inversion Hes as [|? ? Hk Hes']; subst. simpl in *.
  assert (map_set k (canon vt v) acc = acc ++ [(k, canon vt v)]) as Hset.
  { apply map_set_fresh. apply Forall_forall. intros [k' v'] Hin. simpl.
    destruct (goval_eqb k k') eqn:E; [exfalso|done].
    rewrite Forall_forall in Hacc.
    apply (goval_eqb_key kt less) in E; [|done|done|by apply (Hacc _ Hin)]. subst k'.
    apply NoDup_app in Hnd as (_ & Hdisj & _). apply (Hdisj k); [|set_solver].
    apply list_elem_of_In, in_map_iff. exists (k, v'). split; [done|].
    by apply list_elem_of_In. }
  destruct (IH (acc ++ [(k, canon vt v)])) as (bs & Hbs & Hdec); [| |clear Hset|done|].
  { apply Forall_app. split; [done|]. by constructor. }
  { done. }
  { rewrite map_app. simpl. by rewrite <- app_assoc. }
  exists ((bk ++ bv) ++ bs). rewrite Hbk, Hbv, Hbs. split; [done|]. intros rest.
  rewrite <- !app_assoc, Hdk. cbn [map_err rbind]. rewrite Hdv. cbn [map_err rbind].
  rewrite Hset, Hdec. by rewrite <- app_assoc.
Qed.

Lemma marshal_ptr t v :
  ¬ is_enum t →
  marshal (TPtr t) (VPtr v) = let! b := marshal t v in Ok (writePointerMarker false ++ b).
Proof. intros H. destruct t; try (cbn [marshal]; reflexivity). by destruct H. Qed.

Lemma marshal_ptr_nil t : ¬ is_enum t → marshal (TPtr t) VNil = Ok (writePointerMarker true).
Proof. intros H. destruct t; try (cbn [marshal]; reflexivity). by destruct H. Qed.

(** The empty map needs no special case when the key type is supported. *)
Lemma encodeMap_eq m kt vt less kvs :
  key_less kt = Ok less →
  encodeMap m kt vt kvs =
  let! b := encode_all (λ kv : goval * goval, let! bk := m kt kv.1 in
              let! bv := m vt kv.2 in Ok (bk ++ bv)) (sort_by (less_on_key less) kvs) in
  Ok (encodeLength (len kvs) ++ b).
Proof. intros Hl. unfold encodeMap. destruct kvs; [done|]. by rewrite Hl. Qed.

Lemma marshal_map_roundtrip kt vt kvs :
  (∀ v, well_typed kt v → codes (marshal kt v) (unmarshal kt) (canon kt v)) →
  (∀ v, well_typed vt v → codes (marshal vt v) (unmarshal vt) (canon vt v)) →
  match key_less kt with Ok _ => True | _ => False end →
  well_typed (TMap kt vt) (VMap kvs) →
  codes (marshal (TMap kt vt) (VMap kvs)) (unmarshal (TMap kt vt)) (canon (TMap kt vt) (VMap kvs)).
Proof.
  intros Hk Hv Hless (Htyped & Hnd & Hlen). cbn [marshal unmarshal canon]. unfold sorted_entries.
  destruct (key_less kt) as [less| |] eqn:Hl; [|done|done].
  set (es := sort_by (less_on_key less) kvs).
  assert (es ≡ₚ kvs) as Hperm by apply sort_by_perm.
  destruct (decodeMap_loop_roundtrip kt vt less es []) as (bs & Hbs & Hdec).
  { done. }
  { constructor. }
  { rewrite Hperm. eapply Forall_impl; [done|]. by intros kv [H1 _]. }
  { simpl. by rewrite (Permutation_map fst Hperm). }
  { rewrite Hperm. eapply Forall_impl; [done|]. intros kv [H1 H2]. simpl. split; [|by apply Hv].
    pose proof (Hk _ H1) as Hc. by rewrite (canon_key kt less) in Hc. }
  exists (encodeLength (len kvs) ++ bs). split.
  { rewrite (encodeMap_eq _ _ _ less) by done. fold es. by rewrite Hbs. }
  intros rest. unfold decodeMap. rewrite <- app_assoc, decodeLength_encodeLength by done.
  cbn [map_err rbind]. unfold len. rewrite Nat2Z.id, <- (Permutation_length Hperm).
  by rewrite Hdec.
Qed.

(** One lemma per composite kind; the recursive cases take the round trip of the
    components as a hypothesis. *)
Definition roundtrips (t : gotype) : Prop :=
  ∀ v, well_typed t v → codes (marshal t v) (unmarshal t) (canon t v).

Lemma bytes_roundtrip : roundtrips TBytes.
Proof.
  intros v Hv. destruct v as [| |b| | | | | |]; try done. apply codes_intro. intros rest.
  cbn [unmarshal]. unfold encodeBytes, decodeBytes. rewrite <- app_assoc. pose proof (len_nonneg b).
  simpl in Hv. rewrite decodeLength_encodeLength by (unfold MaxUint32, inU in *; lia).
  cbn [rbind]. unfold decodeBytesFixedLength. destruct (Z.gtb_spec (len b) MaxUint32); [lia|].
  rewrite go_make_small by (unfold MaxUint32, maxAlloc in *; lia). cbn [rbind].
  destruct (Z.gtb_spec (len b) 0); [by rewrite read_exact|].
  destruct b; [done|]. unfold len in *. simpl in *. lia.
Qed.

Lemma bits_roundtrip : roundtrips TBits.
Proof.
  intros v Hv. destruct v as [| | |b| | | | |]; try done. simpl in Hv.
  destruct (encodeBits_ok b Hv) as (k & bb & Hbb & Hk & Hmax & Hbits).
  exists (encodeLength k ++ bb). split; [done|]. intros rest. cbn [unmarshal].
  unfold decodeBits. rewrite <- app_assoc.
  rewrite decodeLength_encodeLength by (unfold MaxUint32, inU in *; lia). cbn [rbind].
  unfold decodeBitsFixedLength. destruct (Z.gtb_spec k MaxUint32); [lia|].
  rewrite go_make_small by (unfold MaxUint32, maxAlloc in *; lia). cbn [rbind].
  rewrite read_exact by done. cbn [rbind]. simpl. rewrite <- Hbits. by destruct (k =? 0).
Qed.

Lemma public_key_roundtrip : roundtrips TPublicKey.
Proof.
  intros v Hv. destruct v as [| |b| | | | | |]; try done. simpl in Hv. apply codes_intro.
  intros rest. cbn [unmarshal]. unfold readFull. rewrite len_app, Hv. pose proof (len_nonneg rest).
  rewrite (proj2 (Z.leb_le _ _)) by lia. by rewrite read_exact.
Qed.

Lemma ptr_roundtrip t : ¬ is_enum t → roundtrips t → roundtrips (TPtr t).
Proof.
  intros Henum IH v Hv. destruct v as [| | | | |v| | |]; try done.
  - rewrite marshal_ptr_nil by done. apply codes_intro. intros rest. cbn [unmarshal].
    unfold decodePointer. by rewrite readPointerMarker_write.
  - destruct (IH v Hv) as (bs & Hbs & Hdec). rewrite marshal_ptr, Hbs by done.
    apply codes_intro. intros rest. cbn [unmarshal]. unfold decodePointer.
    rewrite <- app_assoc, readPointerMarker_write. cbn [rbind]. by rewrite Hdec.
Qed.

Lemma seq_roundtrip t vs :
  roundtrips t → Forall (well_typed t) vs →
  codes (encode_all (marshal t) vs) (decode_n (unmarshal t) (length vs)) (map (canon t) vs).
Proof.
  intros IH Hv. apply encode_all_decode_n. eapply Forall_impl; [done|]. intros. by apply IH.
Qed.

Lemma slice_roundtrip t : roundtrips t → roundtrips (TSlice t).
Proof.
  intros IH v Hv. destruct v as [| | | | | |vs| |]; try done. destruct Hv as [Hv Hlen].
  destruct (seq_roundtrip t vs IH Hv) as (bs & Hbs & Hdec).
  exists (encodeLength (len vs) ++ bs). cbn [marshal unmarshal canon]. unfold encodeSlice.
  rewrite Hbs. split; [done|]. intros rest. unfold decodeSlice.
  rewrite <- app_assoc, decodeLength_encodeLength by done.
  cbn [rbind]. unfold len. by rewrite Nat2Z.id, Hdec.
Qed.

Lemma array_roundtrip n t : roundtrips t → roundtrips (TArray n t).
Proof.
  intros IH v Hv. destruct v as [| | | | | |vs| |]; try done. destruct Hv as [Hv <-].
  destruct (seq_roundtrip t vs IH Hv) as (bs & Hbs & Hdec).
  exists bs. cbn [marshal unmarshal canon]. unfold encodeArray, decodeArray. split; [done|].
  intros rest. by rewrite Hdec.
Qed.

(** Every well-typed value of an encodable type is encoded, and decoding the
    encoding returns its canonical form and leaves the rest of the input. *)
Lemma marshal_roundtrip t : encodable t → roundtrips t.
Proof.
  induction t as [named k| | | |t IH|t IH|n t IH|fs IH|kt vt IHk IHv|unknown alts IH|]
    using gotype_ind; intros He.
  - intros v Hv. assert (canon (TPrim named k) v = v) as -> by done. by apply marshal_prim_roundtrip.
  - apply bytes_roundtrip.
  - apply bits_roundtrip.
  - apply public_key_roundtrip.
  - destruct He. apply ptr_roundtrip; auto.
  - apply slice_roundtrip; auto.
  - apply array_roundtrip; auto.
  - intros v Hv. destruct v as [| | | | | |vs| |]; try done.
    destruct (encodeStruct_roundtrip fs vs) as (bs & Hbs & Hdec); [done..|].
    exists bs. split; [done|]. intros rest. cbn [unmarshal]. by rewrite Hdec.
  - intros v Hv. destruct He as (Hek & Hev & Hless). destruct v as [| | | | | | |kvs|]; try done.
    apply marshal_map_roundtrip; [by apply IHk|by apply IHv|done|done].
  - intros v Hv. destruct He as [He Hlen]. destruct v as [| | | | | | | |i v]; try done.
    destruct Hv as [Hi Hv]. pose proof (alt_typed_lt _ _ _ _ Hv) as Hlt.
    assert (uint8 i = i) as Hu by (apply wrapU_id; split; [lia|]; change (2 ^ 8) with 256; lia).
    destruct v as [v|].
    + destruct (encodeEnumValue_roundtrip unknown alts (Z.to_nat i) v i) as (bs & Hbs & Hdec);
        [done..|]. exists (i :: bs). cbn [marshal unmarshal canon encodeEnumType]. unfold decodeEnum.
      rewrite Hbs, Hu.
      split; [done|]. intros rest. cbn [app]. rewrite ReadOctet_cons. cbn [rbind]. by rewrite Hdec.
    + exists [i]. cbn [marshal unmarshal canon encodeEnumType]. rewrite Hu. split; [done|]. intros rest. unfold decodeEnum.
      cbn [app]. rewrite ReadOctet_cons. cbn [rbind]. by rewrite decodeEnumValue_none.
  - done.
Qed.

(** ** The destination of [Unmarshal] *)

(** A fresh variable holds nothing to keep. *)
Lemma restore_zero t v :
  well_typed t v → restore t (zero_value t) (canon t v) = canon t v.
Proof.
  revert v. induction t as [named k| | | |t IH|t IH|n t IH|fs IH|kt vt IHk IHv|unknown alts IH|]
    using gotype_ind; intros v Hv; try (by destruct v).
  destruct v as [| | | | | |vs| |]; try done. cbn [restore canon zero_value]. f_equal.
  cbn [well_typed] in Hv. revert vs Hv.
  induction IH as [|[i t] fs Ht HF IH]; intros [|v vs] Hw; try done.
  simpl in Hw. destruct Hw as (Hwv & _ & Hws). simpl in Ht. simpl. f_equal; [|by apply IH].
  unfold field_encoded. destruct (field_exported i), (field_tag i); simpl; auto.
Qed.

Definition is_ptr (t : gotype) : Prop := match t with TPtr _ => True | _ => False end.

Lemma unmarshal_indirect_value t data dst :
  ¬ is_ptr t →
  unmarshal_indirect t data dst = let! (v, _) := unmarshal t data in Ok (restore t dst v).
Proof. intros H. destruct t; try reflexivity. by destruct H. Qed.

(** [Unmarshal] of an encoding into a variable of the type, and into a pointer. *)
Lemma Unmarshal_encoded t bs v dst :
  ¬ is_ptr t → bs ≠ [] → unmarshal t bs = Ok (v, []) →
  Unmarshal t bs dst = Ok (restore t dst v) ∧
  Unmarshal (TPtr t) bs dst =
    Ok (VPtr (restore t (match dst with VPtr d => d | _ => zero_value t end) v)).
Proof.
  intros Hp Hne Hdec. destruct bs as [|b bs]; [done|]. unfold Unmarshal.
  rewrite unmarshal_indirect_value, Hdec by done. split; [done|].
  cbn [unmarshal_indirect]. by rewrite unmarshal_indirect_value, Hdec by done.
Qed.

Lemma Unmarshal_fresh t bs v :
  well_typed t v → ¬ is_ptr t → bs ≠ [] →
  (∀ rest, unmarshal t (bs ++ rest) = Ok (canon t v, rest)) →
  Unmarshal t bs (zero_value t) = Ok (canon t v).
Proof.
  intros Hv Hp Hne Hdec. specialize (Hdec []). rewrite app_nil_r in Hdec.
  destruct (Unmarshal_encoded t bs (canon t v) (zero_value t)) as [-> _]; [done..|].
  by rewrite restore_zero.
Qed.
