(* ===== verification/JamTheorems.v ===== *)
(** * The JAM codec: what is proved

    The properties of [pkg/serialization/codec/jam], each with a concrete
    instance where it has hypotheses. *)
From S2P Require Import JamRoundtrip.

(** C2: Decoding what [Marshal] wrote gives the value back.  For every type of
    [encodable] (unsigned and machine-word integers, booleans, byte strings, bit
    sequences, keys, slices, arrays, structs, pointers to anything but an enum,
    maps with ordered keys, enums; [length] tags on unsigned fixed-width integers
    and pointers to them) and every value of [well_typed] (byte strings below
    [2^32] bytes, bit sequences of a length the encoder supports, tagged numbers
    that fit their length), [Marshal] succeeds and [unmarshal] of the bytes, with
    anything after them, returns the canonical form of the value and the rest.
    At a type that is not a pointer, [Unmarshal] of a non-empty encoding into a
    fresh variable gives the canonical form; into a used variable it keeps only
    the fields that are not encoded; and into a pointer variable it allocates the
    target and fills it (a marker is neither expected nor read). *)
Theorem jam_roundtrip t v :
  encodable t → well_typed t v →
  ∃ bs, Marshal t v = Ok bs ∧
    (∀ rest, unmarshal t (bs ++ rest) = Ok (canon t v, rest)) ∧
    (bs ≠ [] → ¬ is_ptr t →
       Unmarshal t bs (zero_value t) = Ok (canon t v) ∧
       Unmarshal (TPtr t) bs VNil = Ok (VPtr (canon t v)) ∧
       ∀ dst, Unmarshal t bs dst = Ok (restore t dst (canon t v))).
Proof.
  intros Ht Hv. destruct (marshal_roundtrip t Ht v Hv) as (bs & Hbs & Hdec).
  exists bs. split_and!; [done..|]. intros Hne Hp. split; [by apply Unmarshal_fresh|].
  specialize (Hdec []). rewrite app_nil_r in Hdec.
  destruct (Unmarshal_encoded t bs (canon t v) VNil) as [_ ->]; [done..|].
  rewrite restore_zero by done. split; [done|]. intros dst. by apply Unmarshal_encoded.
Qed.

(** A struct with tagged fields, a map, an optional field and a skipped one. *)
Definition sample_type : gotype :=
  TStruct [(FieldInfo "Size" true (TagLength 3), TPrim false Uint32);
           (FieldInfo "Limit" true (TagLength 10), TPtr (TPrim false Uint64));
           (FieldInfo "Balances" true NoTag, TMap (TPrim true Uint32) (TPrim false Uint64));
           (FieldInfo "Parent" true NoTag, TPtr TBytes);
           (FieldInfo "Cached" true TagSkip, TPrim false Uint8)].
Definition sample_value : goval :=
  VSeq [VNum 70000; VPtr (VNum 40); VMap [(VNum 9, VNum 1); (VNum 2, VNum 500)];
        VPtr (VBytes [1; 2; 3]); VNum 4].
(** A variable that was used before: only its last field survives. *)
Definition sample_used : goval :=
  VSeq [VNum 1; VNil; VMap [(VNum 7, VNum 7)]; VPtr (VBytes [9]); VNum 33].

Lemma jam_roundtrip_witness :
  ∃ bs, Marshal sample_type sample_value = Ok bs ∧ bs ≠ [] ∧
    (∀ rest, unmarshal sample_type (bs ++ rest) =
       Ok (VSeq [VNum 70000; VPtr (VNum 40); VMap [(VNum 2, VNum 500); (VNum 9, VNum 1)];
                 VPtr (VBytes [1; 2; 3]); VNum 0], rest)) ∧
    Unmarshal sample_type bs sample_used =
      Ok (VSeq [VNum 70000; VPtr (VNum 40); VMap [(VNum 2, VNum 500); (VNum 9, VNum 1)];
                VPtr (VBytes [1; 2; 3]); VNum 33]).
Proof.
  destruct (jam_roundtrip sample_type sample_value) as (bs & Hbs & Hdec & Hdst).
  - cbn. unfold maxAlloc. repeat split; try done; lia.
  - cbn. unfold inU, MaxUint32, tag_fits; cbn [num_of]. repeat split; try done; try lia.
    + repeat constructor; simpl; unfold inU; lia.
    + apply NoDup_cons. split; [set_solver|]. apply NoDup_cons. split; [set_solver|constructor].
  - assert (bs ≠ []) as Hne by (intros ->; vm_compute in Hbs; discriminate Hbs).
    exists bs. split_and!; [done|done|exact Hdec|].
    destruct (Hdst Hne) as (_ & _ & H); [intros []|]. exact (H sample_used).
Defined.

(** C39: Every 64-bit natural is read back from its variable-length encoding, what
    follows is left alone, and the encoding has one byte more than the least [l]
    with [x < 2^(7(l+1))] (at most nine bytes). *)
Theorem jam_natural_roundtrip x rest :
  inU 64 x →
  decodeUint (serializeUint64 x ++ rest) = Ok (x, rest) ∧
  bytes_ok (serializeUint64 x) ∧
  let l := len (serializeUint64 x) - 1 in
  0 ≤ l ≤ 8 ∧ (l < 8 → x < 2 ^ (7 * (l + 1))) ∧ (0 < l → 2 ^ (7 * l) ≤ x).
Proof.
  intros Hx. split_and!; [by apply decodeUint_serializeUint64|by apply serializeUint64_bytes_ok|].
  cbv zeta. rewrite serializeUint64_length. replace (1 + _ - 1) with (naturalLength x) by lia.
  apply naturalLength_spec.
Qed.

Lemma jam_natural_roundtrip_witness :
  decodeUint (serializeUint64 300 ++ [7]) = Ok (300, [7]) ∧ serializeUint64 300 = [129; 44].
Proof.
  split; [|reflexivity].
  destruct (jam_natural_roundtrip 300 [7]) as [H _]; [unfold inU; lia|exact H].
Defined.

(** The variable-length encoding is prefix-free: two encodings that agree on a
    common prefix of the input encode the same number. *)
Theorem jam_natural_prefix_free x y r s :
  inU 64 x → inU 64 y → serializeUint64 x ++ r = serializeUint64 y ++ s → x = y ∧ r = s.
Proof.
  intros Hx Hy H. pose proof (decodeUint_serializeUint64 x r Hx) as H1. rewrite H in H1.
  rewrite decodeUint_serializeUint64 in H1 by done. by injection H1 as -> ->.
Qed.

Lemma jam_natural_prefix_free_witness : 128 = 128 ∧ [5] = [5].
Proof.
  apply (jam_natural_prefix_free 128 128 [5] [5]); [unfold inU; lia|unfold inU; lia|reflexivity].
Defined.

(** C35: The decoder never panics.  On every byte string, for every type whose
    [length] tags are slice lengths, [unmarshal] returns a value or an error. *)
Theorem jam_decoder_panic_free t buf :
  tags_ok t → bytes_ok buf → unmarshal t buf ≠ RuntimePanic.
Proof.
  intros Ht Hb Hp. pose proof (safe_unmarshal t Ht buf Hb) as H. by rewrite Hp in H.
Qed.

Lemma jam_decoder_panic_free_witness : unmarshal sample_type [255; 255; 255; 255; 1] ≠ RuntimePanic.
Proof.
  apply jam_decoder_panic_free.
  - cbn. unfold maxAlloc. repeat split; lia.
  - repeat constructor; lia.
Defined.

(** A map has one encoding: it does not depend on the order in which Go
    iterates over the entries. *)
Theorem jam_map_order_independent kt vt kvs kvs' :
  (∃ less, key_less kt = Ok less) →
  Forall (λ kv, well_typed kt kv.1) kvs → NoDup (map fst kvs) → kvs ≡ₚ kvs' →
  encodeMap marshal kt vt kvs = encodeMap marshal kt vt kvs'.
Proof.
  intros [less Hl] Hk Hnd Hp. rewrite !(encodeMap_eq _ _ _ less) by done.
  destruct (key_less_order kt less Hl) as [Hirr Htr Htot].
  rewrite (sort_by_perm_eq fst (less_on_key less) (λ kv, well_typed kt kv.1)) with (k := kvs');
    try done.
  - unfold len. by rewrite (Permutation_length Hp).
  - intros [k1 v1] [k2 v2] H1 H2. simpl. intros ->. by apply Hirr.
  - intros [k1 v1] [k2 v2] [k3 v3]. simpl. apply Htr.
  - intros [k1 v1] [k2 v2]. simpl. apply Htot.
  - intros [k1 v1] [k2 v2] [k3 v3]. simpl. by intros _ _ _ ->.
  - intros [k1 v1] [k2 v2] [k3 v3]. simpl. by intros _ _ _ ->.
Qed.

Lemma jam_map_order_independent_witness :
  encodeMap marshal (TPrim false Uint8) (TPrim false Uint8) [(VNum 1, VNum 2); (VNum 0, VNum 5)] =
  encodeMap marshal (TPrim false Uint8) (TPrim false Uint8) [(VNum 0, VNum 5); (VNum 1, VNum 2)].
Proof.
  apply jam_map_order_independent.
  - by eexists.
  - repeat constructor; simpl; unfold inU; lia.
  - apply NoDup_cons. split; [set_solver|]. apply NoDup_cons. split; [set_solver|constructor].
  - constructor.
Defined.

(** Signed fixed-width integers cannot be encoded: [marshal] has no case for
    them and hands them to [encodeCustomPrimitive], which converts them to the
    type they have and calls [marshal] again; however deep the stack, the calls
    overflow it. *)
Theorem jam_signed_overflow stack named k z :
  k ∈ [Int8; Int16; Int32; Int64] → marshal_prim stack named k (VNum z) = RuntimePanic.
Proof.
  intros Hk. revert named. induction stack as [|stack IH]; intros named; [done|].
  cbn [marshal_prim]. destruct named; [apply IH|].
  repeat (apply elem_of_cons in Hk; destruct Hk as [->|Hk]); [apply IH..|].
  by apply elem_of_nil in Hk.
Qed.

Lemma jam_signed_overflow_witness : marshal_prim 1000 true Int32 (VNum 5) = RuntimePanic.
Proof. apply jam_signed_overflow. repeat constructor. Defined.

(** [encodeBits] allocates [len/8] bytes unless that number is a multiple of
    eight: a set bit in a last, partial byte is then written out of range. *)
Theorem jam_bits_out_of_range bs j :
  0 < len bs ≤ 2 ^ 48 → (len bs / 8) `mod` 8 ≠ 0 → bs !! j = Some true →
  8 * (len bs / 8) ≤ Z.of_nat j → encodeBits bs = RuntimePanic.
Proof.
  intros Hl Hm Hj Hge. unfold encodeBits. cbv zeta.
  assert (0 ≤ len bs / 8) by (apply Z.div_pos; lia).
  assert (len bs / 8 ≤ len bs) by (apply Z.div_le_upper_bound; lia).
  rewrite (proj2 (Z.eqb_neq ((len bs / 8) `mod` 8) 0) Hm), andb_false_r.
  rewrite go_make_small by (unfold maxAlloc; lia). cbn [rbind].
  rewrite (encodeBits_loop_panic bs 0 _ j); [done|done|done|].
  rewrite len_replicate, Z.add_0_l. apply Z.div_le_lower_bound; lia.
Qed.

Lemma jam_bits_out_of_range_witness : encodeBits (replicate 8 false ++ [true]) = RuntimePanic.
Proof.
  apply (jam_bits_out_of_range _ 8); [vm_compute; split; congruence|vm_compute; congruence|reflexivity|].
  vm_compute. congruence.
Defined.
