(* ===== verification/PvmMemory.v ===== *)
(** * Memory of the virtual machine

    [internal/polkavm/common.go] (the segmented memory), [exit_reason.go] (the
    exit reasons) and [initialisation.go] (the standard memory layout). *)
From S2P Require Export JamCodec.

(** ** Exit reasons and errors *)

(** [ErrPanicf] formats its arguments into the message; the model keeps the
    format only. *)
Inductive pvm_error : Type :=
| ErrPanic (msg : string)
| ErrOutOfGas
| ErrPageFault (Reason : string) (Address : Z)
| ErrHostCall
| ErrHalt
| ErrMemoryLayoutOverflowsAddressSpace
| ErrorString (msg : string)
| ErrJam (e : jam_error)
| ErrPanicOf (e : pvm_error). (* [ErrPanicf(e.Error())] *)

#[export] Instance pvm_error_eq_dec : EqDecision pvm_error.
Proof. solve_decision. Defined.

(** ** Constants ([initialisation.go]) *)

Definition AddressSpaceSize : Z := 2 ^ 32.
Definition DynamicAddressAlignment : Z := 2.
Definition InputDataSize : Z := 2 ^ 24.
Definition MemoryZoneSize : Z := 2 ^ 16.
Definition PageSize : Z := 2 ^ 12.
Definition AddressReturnToHost : Z := AddressSpaceSize - MemoryZoneSize.
Definition StackAddressHigh : Z := AddressSpaceSize - 2 * MemoryZoneSize - InputDataSize.
Definition ArgsAddressLow : Z := AddressSpaceSize - MemoryZoneSize - InputDataSize.

(** ** The segmented memory ([common.go]) *)

Inductive MemoryAccess : Type := Inaccessible | ReadOnly | ReadWrite.

#[export] Instance MemoryAccess_eq_dec : EqDecision MemoryAccess.
Proof. solve_decision. Defined.

Record memorySegment : Type := MemorySegment {
  seg_address : Z;
  seg_data : list Z;
  seg_access : MemoryAccess;
}.

Record Memory : Type := MkMemory {
  mem_ro : memorySegment;
  mem_rw : memorySegment;
  mem_stack : memorySegment;
  mem_args : memorySegment;
}.

(** The segments, to name the one an access selects. *)
Inductive segment : Type := SegStack | SegRW | SegRO | SegArgs.

#[export] Instance segment_eq_dec : EqDecision segment.
Proof. solve_decision. Defined.

Definition get_seg (m : Memory) (s : segment) : memorySegment :=
  match s with
  | SegStack => mem_stack m
  | SegRW => mem_rw m
  | SegRO => mem_ro m
  | SegArgs => mem_args m
  end.

Definition set_seg (m : Memory) (s : segment) (x : memorySegment) : Memory :=
  match s with
  | SegStack => MkMemory (mem_ro m) (mem_rw m) x (mem_args m)
  | SegRW => MkMemory (mem_ro m) x (mem_stack m) (mem_args m)
  | SegRO => MkMemory x (mem_rw m) (mem_stack m) (mem_args m)
  | SegArgs => MkMemory (mem_ro m) (mem_rw m) (mem_stack m) x
  end.

Definition with_data (x : memorySegment) (d : list Z) : memorySegment :=
  MemorySegment (seg_address x) d (seg_access x).
Definition with_access (x : memorySegment) (a : MemoryAccess) : memorySegment :=
  MemorySegment (seg_address x) (seg_data x) a.

(** [address >= s.address && address+len <= s.address+len(s.data)], in uint64. *)
Definition seg_covers (x : memorySegment) (address n : Z) : bool :=
  (seg_address x <=? address) &&
  (uint64 (address + n) <=? uint64 (seg_address x + len (seg_data x))).

(** [address >= s.address && address < s.address+len(s.data)], in uint64. *)
Definition seg_has (x : memorySegment) (address : Z) : bool :=
  (seg_address x <=? address) && (address <? uint64 (seg_address x + len (seg_data x))).

(** The if/else-if chain over the segments, in the order of the code. *)
Definition first_segment (p : memorySegment → bool) (m : Memory) : option segment :=
  if p (mem_stack m) then Some SegStack
  else if p (mem_rw m) then Some SegRW
  else if p (mem_ro m) then Some SegRO
  else if p (mem_args m) then Some SegArgs
  else None.

Definition GetAccess (m : Memory) (pageIndex : Z) : MemoryAccess :=
  let address := uint64 (pageIndex * PageSize) in
  match first_segment (λ x, seg_has x address) m with
  | Some s => seg_access (get_seg m s)
  | None => Inaccessible
  end.

Definition SetAccess (m : Memory) (pageIndex : Z) (access : MemoryAccess) : res pvm_error Memory :=
  let address := uint64 (pageIndex * PageSize) in
  match first_segment (λ x, seg_has x address) m with
  | Some s => Ok (set_seg m s (with_access (get_seg m s) access))
  | None => Err (ErrPageFault "page out of valid range" address)
  end.

(** [for i := address / PageSize; i <= (address+len)/PageSize; i++]: the first
    page whose access is [bad], from page [i] on, [n] pages at most. *)
Fixpoint find_bad_page (bad : MemoryAccess → bool) (m : Memory) (i : Z) (n : nat) : option Z :=
  match n with
  | O => None
  | S n => if bad (GetAccess m i) then Some i else find_bad_page bad m (i + 1) n
  end.

Definition page_error (bad : MemoryAccess → bool) (reason : string) (m : Memory)
    (address n : Z) : pvm_error :=
  let first := address / PageSize in
  let last := uint64 (address + n) / PageSize in
  match find_bad_page bad m first (Z.to_nat (last - first + 1)) with
  | Some i => ErrPageFault reason (uint64 (i * PageSize))
  | None => ErrPanic "inaccessible memory; unable to find the bad memory page"
  end.

(** The slice of the selected segment an access refers to, and its access. *)
Definition select (m : Memory) (address n : Z) : res pvm_error (option segment * list Z) :=
  match first_segment (λ x, seg_covers x address n) m with
  | Some s =>
      let x := get_seg m s in
      let lo := address - seg_address x in
      let! d := go_slice (seg_data x) lo (uint64 (lo + n)) in Ok (Some s, d)
  | None => Ok (None, [])
  end.

Definition access_of (m : Memory) (o : option segment) : MemoryAccess :=
  match o with Some s => seg_access (get_seg m s) | None => Inaccessible end.

(** [Read(address, data)] with [n = len(data)]: the bytes copied into [data]. *)
Definition Read (m : Memory) (address n : Z) : res pvm_error (list Z) :=
  if address <? 2 ^ 16 then Err (ErrPanic "forbidden memory access")
  else
    let! (o, memoryData) := select m address n in
    match access_of m o with
    | Inaccessible =>
        Err (page_error (λ a, bool_decide (a = Inaccessible)) "inaccessible memory" m address n)
    | _ => Ok memoryData
    end.

(** [Write(address, data)]: the memory after [copy(memoryData, data)]. *)
Definition Write (m : Memory) (address : Z) (data : list Z) : res pvm_error Memory :=
  if address <? 2 ^ 16 then Err (ErrPanic "forbidden memory access")
  else
    let n := len data in
    let! (o, _) := select m address n in
    match o, access_of m o with
    | Some s, ReadWrite =>
        let x := get_seg m s in
        let lo := Z.to_nat (address - seg_address x) in
        Ok (set_seg m s
              (with_data x (take lo (seg_data x) ++ data ++ drop (lo + length data) (seg_data x))))
    | _, _ =>
        Err (page_error (λ a, bool_decide (a ≠ ReadWrite))
               "memory at address is not writeable" m address n)
    end.

(** [alignToPage] and [alignToZone] round up to a multiple of a power of two. *)
Definition alignTo (size value : Z) : Z :=
  if Z.land value (size - 1) =? 0 then value
  else Z.land (uint64 (value + size)) (uint64 (Z.lnot (size - 1))).
Definition alignToPage (value : Z) : Z := alignTo PageSize value.
Definition alignToZone (value : Z) : Z := alignTo MemoryZoneSize value.

(** [Sbrk(size)]: the new top of the heap and the memory after the call. *)
Definition Sbrk (m : Memory) (size : Z) : res pvm_error (Z * Memory) :=
  let currentHeapPointer := uint64 (seg_address (mem_rw m) + len (seg_data (mem_rw m))) in
  if size =? 0 then Ok (currentHeapPointer, m)
  else
    let newHeapPointer := uint64 (currentHeapPointer + size) in
    if newHeapPointer >=? seg_address (mem_stack m)
    then Err (ErrPageFault "allocation failed heap pointer exceeds maximum allowed" newHeapPointer)
    else
      let! m :=
        (if newHeapPointer >? currentHeapPointer then
           let! d := go_make 1 (alignToPage newHeapPointer) 0 in
           Ok (set_seg m SegRW (with_data (mem_rw m) d))
         else Ok m) in
      Ok (uint64 (seg_address (mem_rw m) + len (seg_data (mem_rw m))), m).

(** ** Initialisation *)

Definition copySized (data : list Z) (size : Z) : res pvm_error (list Z) :=
  let! dst := go_make 1 size 0 in Ok (go_copy dst data).

Definition InitializeMemory (roData rwData argsData : list Z) (stackSize initialPages : Z)
  : res pvm_error Memory :=
  if 5 * MemoryZoneSize
     + int64 (alignToZone (uint64 (len rwData + initialPages * PageSize)))
     + int64 (alignToZone stackSize)
     + InputDataSize >? AddressSpaceSize
  then Err ErrMemoryLayoutOverflowsAddressSpace
  else
    let stackSizeAligned := alignToPage stackSize in
    let! ro := copySized roData (alignToPage (len roData)) in
    let! rw := copySized rwData (uint64 (alignToPage (len rwData) + initialPages * PageSize)) in
    let! stack := go_make 1 stackSizeAligned 0 in
    let! args := copySized argsData (alignToPage (len argsData)) in
    Ok (MkMemory
          (MemorySegment MemoryZoneSize ro ReadOnly)
          (MemorySegment (uint64 (2 * MemoryZoneSize + alignToZone (len roData))) rw ReadWrite)
          (MemorySegment (uint64 (StackAddressHigh - stackSizeAligned)) stack ReadWrite)
          (MemorySegment ArgsAddressLow args ReadOnly)).

Definition InitializeCustomMemory (roAddr rwAddr stackAddr argsAddr roSize rwSize stackSize argsSize : Z)
  : res pvm_error Memory :=
  let! ro := go_make 1 roSize 0 in
  let! rw := go_make 1 rwSize 0 in
  let! stack := go_make 1 stackSize 0 in
  let! args := go_make 1 argsSize 0 in
  Ok (MkMemory (MemorySegment roAddr ro ReadOnly) (MemorySegment rwAddr rw ReadWrite)
        (MemorySegment stackAddr stack ReadWrite) (MemorySegment argsAddr args ReadOnly)).

(** ** Registers *)

Abbreviation Registers := (list Z).

Definition RA : Z := 0.
Definition SP : Z := 1.
Definition A0 : Z := 7.
Definition A1 : Z := 8.
Definition A2 : Z := 9.
Definition A3 : Z := 10.
Definition A4 : Z := 11.
Definition A5 : Z := 12.

Definition InitializeRegisters (argsLen : Z) : Registers :=
  <[Z.to_nat A1 := uint64 argsLen]>
    (<[Z.to_nat A0 := ArgsAddressLow]>
       (<[Z.to_nat SP := StackAddressHigh]>
          (<[Z.to_nat RA := AddressReturnToHost]> (replicate 13 0)))).
