(* ===== verification/PvmMemoryProps.v ===== *)
(** * Properties of the memory

    Reads and writes agree, writes respect the access rights and the other
    bytes, faults name the first bad page, and the standard layout is what the
    initialisation code documents. *)
From S2P Require Export PvmMemory.

Definition seg_wf (x : memorySegment) : Prop :=
  0 ≤ seg_address x < 2 ^ 32 ∧ len (seg_data x) ≤ 2 ^ 32 ∧ bytes_ok (seg_data x).

Definition mem_wf (m : Memory) : Prop := ∀ s, seg_wf (get_seg m s).

(** ** Overwriting part of a list *)

(** [splice lo d l] overwrites [l] with [d] from position [lo]. *)
Definition splice {A} (lo : nat) (d l : list A) : list A :=
  take lo l ++ d ++ drop (lo + length d) l.

Lemma length_splice {A} lo (d l : list A) :
  (lo + length d ≤ length l)%nat → length (splice lo d l) = length l.
Proof. intros. unfold splice. rewrite !length_app, length_take, length_drop. lia. Qed.

Lemma splice_read {A} lo (d l : list A) :
  (lo + length d ≤ length l)%nat → take (length d) (drop lo (splice lo d l)) = d.
Proof.
  intros. unfold splice. rewrite drop_app_le by (rewrite length_take; lia).
  rewrite drop_ge by (rewrite length_take; lia). simpl. by rewrite take_app_length.
Qed.

(** Positions outside the overwritten range keep their element. *)
Lemma splice_lookup_other {A} lo (d l : list A) i :
  (lo + length d ≤ length l)%nat → (i < lo ∨ lo + length d ≤ i)%nat →
  splice lo d l !! i = l !! i.
Proof.
  intros Hl Hi. unfold splice. destruct Hi as [Hi|Hi].
  - rewrite lookup_app_l by (rewrite length_take; lia). by rewrite lookup_take_lt.
  - rewrite lookup_app_r by (rewrite length_take; lia).
    rewrite length_take, Nat.min_l by lia.
    rewrite lookup_app_r by lia. rewrite lookup_drop. f_equal. lia.
Qed.

Lemma splice_read_other {A} lo (d l : list A) i n :
  (lo + length d ≤ length l)%nat → (i + n ≤ lo ∨ lo + length d ≤ i)%nat →
  take n (drop i (splice lo d l)) = take n (drop i l).
Proof.
  intros Hl Hi. apply list_eq. intros j. destruct (decide (j < n)%nat).
  - rewrite !lookup_take_lt, !lookup_drop by done. apply splice_lookup_other; lia.
  - rewrite !lookup_take_ge by lia. done.
Qed.

Lemma bytes_ok_splice lo d l : bytes_ok d → bytes_ok l → bytes_ok (splice lo d l).
Proof.
  intros. unfold splice. rewrite !Forall_app. split_and!; [by apply Forall_take|done|].
  by apply Forall_drop.
Qed.

(** ** Selecting a segment *)

Lemma first_segment_Some p m s : first_segment p m = Some s → p (get_seg m s) = true.
Proof. unfold first_segment. repeat case_match; intros; simplify_eq; done. Qed.

Lemma first_segment_ext p m m' :
  (∀ s, p (get_seg m' s) = p (get_seg m s)) → first_segment p m' = first_segment p m.
Proof.
  intros H. pose proof (H SegStack) as H1. pose proof (H SegRW) as H2.
  pose proof (H SegRO) as H3. pose proof (H SegArgs) as H4. simpl in *.
  unfold first_segment. by rewrite H1, H2, H3, H4.
Qed.

Lemma get_set_seg m s x s' :
  get_seg (set_seg m s x) s' = if decide (s = s') then x else get_seg m s'.
Proof. by destruct s, s'. Qed.

Lemma seg_covers_spec x address n :
  seg_wf x → 0 ≤ address → 0 ≤ n → address + n < 2 ^ 64 →
  seg_covers x address n = true ↔
  seg_address x ≤ address ∧ address + n ≤ seg_address x + len (seg_data x).
Proof.
  intros (H1 & H2 & _) ???. unfold seg_covers. pose proof (len_nonneg (seg_data x)).
  rewrite !uint64_small by lia. rewrite andb_true_iff, !Z.leb_le. done.
Qed.

(** Without wrap-around an access selects in-range bytes. *)
Lemma select_ok m address n :
  mem_wf m → 0 ≤ address → 0 ≤ n → address + n < 2 ^ 64 →
  select m address n =
  Ok match first_segment (λ x, seg_covers x address n) m with
     | Some s =>
         let x := get_seg m s in
         (Some s, take (Z.to_nat n) (drop (Z.to_nat (address - seg_address x)) (seg_data x)))
     | None => (None, [])
     end.
Proof.
  intros Hm Ha Hn Hlt. unfold select. destruct (first_segment _ m) as [s|] eqn:Hs; [|done].
  pose proof (Hm s) as Hwf. apply first_segment_Some in Hs. apply seg_covers_spec in Hs; [|done..].
  destruct Hwf as (H1 & H2 & _). cbv zeta.
  rewrite uint64_small by (pose proof (len_nonneg (seg_data (get_seg m s))); lia).
  rewrite go_slice_ok by lia. cbn [rbind]. do 4 f_equal. lia.
Qed.

(** With wrap-around the stack segment is selected and the slice expression is
    out of range. *)
Lemma select_wrap m address n :
  mem_wf m → 0 ≤ n ≤ 2 ^ 32 → n ≤ seg_address (mem_stack m) →
  address < 2 ^ 64 → 2 ^ 64 ≤ address + n → select m address n = RuntimePanic.
Proof.
  intros Hm Hn Hst Ha Hw. pose proof (Hm SegStack) as (H1 & H2 & _). simpl in *.
  pose proof (len_nonneg (seg_data (mem_stack m))).
  unfold select. assert (seg_covers (mem_stack m) address n = true) as Hc.
  { unfold seg_covers. rewrite (uint64_small (_ + len _)) by lia.
    assert (uint64 (address + n) = address + n - 2 ^ 64) as ->.
    { unfold uint64, wrapU. rewrite <- (Z.mod_add _ (-1)) by lia. rewrite Z.mod_small; lia. }
    rewrite andb_true_iff, !Z.leb_le. lia. }
  unfold first_segment. rewrite Hc. cbn [get_seg]. rewrite go_slice_panic; [done|].
  set (lo := address - seg_address (mem_stack m)).
  destruct (decide (lo + n < 2 ^ 64)).
  - rewrite uint64_small by (subst lo; lia). right. right. subst lo. lia.
  - right. left. unfold uint64, wrapU. rewrite <- (Z.mod_add _ (-1)) by lia.
    rewrite Z.mod_small; subst lo; lia.
Qed.

(** ** Reads and writes *)

(** Same segments, with the same bounds and access rights. *)
Definition same_shape (m m' : Memory) : Prop :=
  ∀ s, seg_address (get_seg m' s) = seg_address (get_seg m s) ∧
       seg_access (get_seg m' s) = seg_access (get_seg m s) ∧
       length (seg_data (get_seg m' s)) = length (seg_data (get_seg m s)).

Lemma same_shape_refl m : same_shape m m.
Proof. done. Qed.

Lemma same_shape_covers m m' address n :
  same_shape m m' →
  first_segment (λ x, seg_covers x address n) m' = first_segment (λ x, seg_covers x address n) m.
Proof.
  intros H. apply first_segment_ext. intros s. destruct (H s) as (H1 & _ & H3).
  unfold seg_covers, len. by rewrite H1, H3.
Qed.

Lemma same_shape_GetAccess m m' i : same_shape m m' → GetAccess m' i = GetAccess m i.
Proof.
  intros H. unfold GetAccess. cbv zeta.
  rewrite (first_segment_ext _ m m').
  2:{ intros s. destruct (H s) as (H1 & _ & H3). unfold seg_has, len. by rewrite H1, H3. }
  destruct (first_segment _ m) as [s|]; [|done]. apply H.
Qed.

Lemma Write_inv m address data m' :
  mem_wf m → 0 ≤ address → address + len data < 2 ^ 64 → Write m address data = Ok m' →
  ∃ s, let x := get_seg m s in
       let lo := Z.to_nat (address - seg_address x) in
       2 ^ 16 ≤ address ∧ first_segment (λ x, seg_covers x address (len data)) m = Some s ∧
       seg_access x = ReadWrite ∧ seg_address x ≤ address ∧
       (lo + length data ≤ length (seg_data x))%nat ∧
       m' = set_seg m s (with_data x (splice lo data (seg_data x))).
Proof.
  intros Hm Ha Hn. unfold Write. pose proof (len_nonneg data).
  destruct (Z.ltb_spec address (2 ^ 16)); [done|]. rewrite select_ok by done.
  destruct (first_segment _ m) as [s|] eqn:Hs; cbn [rbind access_of]; [|done].
  destruct (seg_access (get_seg m s)) eqn:Hacc; try done. intros [= <-].
  pose proof (first_segment_Some _ _ _ Hs) as Hc. apply seg_covers_spec in Hc; [|done..].
  exists s. cbv zeta. split_and!; try done; [lia|]. unfold len in *. lia.
Qed.

Lemma Write_shape m address data m' :
  mem_wf m → 0 ≤ address → address + len data < 2 ^ 64 → Write m address data = Ok m' →
  same_shape m m'.
Proof.
  intros Hm Ha Hn HW. destruct (Write_inv _ _ _ _ Hm Ha Hn HW) as (s & _ & _ & _ & _ & Hl & ->).
  intros s'. rewrite get_set_seg. destruct (decide (s = s')) as [<-|]; [|done]. simpl.
  by rewrite length_splice.
Qed.

Lemma Write_wf m address data m' :
  mem_wf m → 0 ≤ address → address + len data < 2 ^ 64 → bytes_ok data →
  Write m address data = Ok m' → mem_wf m'.
Proof.
  intros Hm Ha Hn Hd HW. destruct (Write_inv _ _ _ _ Hm Ha Hn HW) as (s & _ & _ & _ & _ & Hl & ->).
  intros s'. rewrite get_set_seg. destruct (decide (s = s')) as [<-|]; [|done].
  destruct (Hm s) as (H1 & H2 & H3). unfold seg_wf, len in *. simpl. rewrite length_splice by done.
  split_and!; try done; try lia. by apply bytes_ok_splice.
Qed.

(** What a read returns when it succeeds. *)
Lemma Read_eq m address n :
  mem_wf m → 0 ≤ address → 0 ≤ n → address + n < 2 ^ 64 → 2 ^ 16 ≤ address →
  Read m address n =
  match first_segment (λ x, seg_covers x address n) m with
  | Some s =>
      let x := get_seg m s in
      if bool_decide (seg_access x = Inaccessible)
      then Err (page_error (λ a, bool_decide (a = Inaccessible)) "inaccessible memory" m address n)
      else Ok (take (Z.to_nat n) (drop (Z.to_nat (address - seg_address x)) (seg_data x)))
  | None =>
      Err (page_error (λ a, bool_decide (a = Inaccessible)) "inaccessible memory" m address n)
  end.
Proof.
  intros Hm Ha Hn Hlt H16. unfold Read. rewrite (proj2 (Z.ltb_ge address (2 ^ 16))) by done.
  rewrite select_ok by done. destruct (first_segment _ m) as [s|]; cbn [rbind access_of]; [|done].
  cbv zeta. by destruct (seg_access (get_seg m s)).
Qed.

Lemma Write_Read m address data m' :
  mem_wf m → 0 ≤ address → address + len data < 2 ^ 64 → bytes_ok data →
  Write m address data = Ok m' → Read m' address (len data) = Ok data.
Proof.
  intros Hm Ha Hn Hd HW. pose proof (Write_wf _ _ _ _ Hm Ha Hn Hd HW) as Hm'.
  pose proof (Write_shape _ _ _ _ Hm Ha Hn HW) as Hsh.
  destruct (Write_inv _ _ _ _ Hm Ha Hn HW) as (s & H16 & Hs & Hacc & Hle & Hl & Hm'eq).
  pose proof (len_nonneg data). rewrite Read_eq by done.
  rewrite (same_shape_covers m) by done. rewrite Hs. cbv zeta.
  destruct (Hsh s) as (-> & -> & _). rewrite Hacc, bool_decide_false by done.
  rewrite Hm'eq, get_set_seg, decide_True by done. simpl. unfold len. rewrite Nat2Z.id.
  by rewrite splice_read.
Qed.

Lemma Write_Read_other m address data m' address' n :
  mem_wf m → 0 ≤ address → address + len data < 2 ^ 64 → bytes_ok data →
  Write m address data = Ok m' →
  0 ≤ n → 0 ≤ address' → address' + n < 2 ^ 64 →
  address' + n ≤ address ∨ address + len data ≤ address' →
  Read m' address' n = Read m address' n.
Proof.
  intros Hm Ha Hn Hd HW Hn' Ha' Hlt' Hdisj. pose proof (Write_wf _ _ _ _ Hm Ha Hn Hd HW) as Hm'.
  pose proof (Write_shape _ _ _ _ Hm Ha Hn HW) as Hsh.
  destruct (Write_inv _ _ _ _ Hm Ha Hn HW) as (s & H16 & Hs & Hacc & Hle & Hl & Hm'eq).
  destruct (decide (2 ^ 16 ≤ address')) as [H16'|H16'].
  2:{ unfold Read. by rewrite (proj2 (Z.ltb_lt address' (2 ^ 16))) by lia. }
  rewrite !Read_eq by done. rewrite (same_shape_covers m) by done.
  assert (page_error (λ a, bool_decide (a = Inaccessible)) "inaccessible memory" m' address' n =
          page_error (λ a, bool_decide (a = Inaccessible)) "inaccessible memory" m address' n) as ->.
  { unfold page_error. cbv zeta. generalize (address' / PageSize) at 1 3.
    generalize (Z.to_nat (uint64 (address' + n) / PageSize - address' / PageSize + 1)).
    intros k i. assert (∀ i, find_bad_page (λ a, bool_decide (a = Inaccessible)) m' i k =
      find_bad_page (λ a, bool_decide (a = Inaccessible)) m i k) as Hf; [|by rewrite Hf].
    clear i. induction k as [|k IH]; intros i; simpl; [done|].
    by rewrite (same_shape_GetAccess m), IH. }
  destruct (first_segment (λ x, seg_covers x address' n) m) as [s'|] eqn:Hs'; [|done]. cbv zeta.
  destruct (Hsh s') as (-> & -> & _). destruct (bool_decide _); [done|]. f_equal.
  rewrite Hm'eq, get_set_seg. destruct (decide (s = s')) as [<-|]; [|done]. simpl.
  apply splice_read_other; [done|]. apply first_segment_Some in Hs'.
  apply seg_covers_spec in Hs'; [|done..]. unfold len in *. lia.
Qed.

(** ** Faults *)

Lemma find_bad_page_Some bad m i n j :
  find_bad_page bad m i n = Some j →
  i ≤ j < i + Z.of_nat n ∧ bad (GetAccess m j) = true ∧
  ∀ k, i ≤ k < j → bad (GetAccess m k) = false.
Proof.
  revert i. induction n as [|n IH]; intros i; simpl; [done|].
  destruct (bad (GetAccess m i)) eqn:Hb.
  - intros [= <-]. split_and!; [lia|lia|done|]. intros. lia.
  - intros H. destruct (IH _ H) as (H1 & H2 & H3). split_and!; [lia|lia|done|].
    intros k Hk. destruct (decide (k = i)) as [->|]; [done|]. apply H3. lia.
Qed.

(** The page a fault names: the first one in the range with the bad access. *)
Lemma page_error_fault bad reason m address n r a :
  0 ≤ address → 0 ≤ n → address + n < 2 ^ 64 →
  page_error bad reason m address n = ErrPageFault r a →
  ∃ i, r = reason ∧ a = i * PageSize ∧ bad (GetAccess m i) = true ∧
    address / PageSize ≤ i ≤ (address + n) / PageSize ∧
    ∀ k, address / PageSize ≤ k < i → bad (GetAccess m k) = false.
Proof.
  intros Ha Hn Hlt. unfold page_error. cbv zeta. rewrite uint64_small by lia.
  destruct (find_bad_page _ _ _ _) as [i|] eqn:Hf; [|done]. intros [= <- <-].
  apply find_bad_page_Some in Hf as (H1 & H2 & H3).
  assert (address / PageSize ≤ (address + n) / PageSize)
    by (apply Z.div_le_mono; unfold PageSize; lia).
  assert ((address + n) / PageSize * PageSize ≤ address + n)
    by (rewrite Z.mul_comm; apply Z.mul_div_le; unfold PageSize; lia).
  assert (0 ≤ address / PageSize) by (apply Z.div_pos; unfold PageSize; lia).
  exists i. split_and!; try done; try lia.
  apply uint64_small. unfold PageSize in *. nia.
Qed.

(** The faults of [Read] and [Write] come from the search for the page. *)
Lemma Read_fault m address n r a :
  Read m address n = Err (ErrPageFault r a) →
  page_error (λ a, bool_decide (a = Inaccessible)) "inaccessible memory" m address n =
  ErrPageFault r a.
Proof.
  unfold Read. destruct (address <? 2 ^ 16); [done|].
  destruct (select m address n) as [[o d]|e|] eqn:Hs; cbn [rbind]; [|exfalso|done].
  - destruct (access_of m o); [by intros [= ->]|done..].
  - unfold select in Hs. destruct (first_segment _ m); [|done]. unfold go_slice in Hs.
    by destruct (_ && _ && _).
Qed.

Lemma Write_fault m address data r a :
  Write m address data = Err (ErrPageFault r a) →
  page_error (λ a, bool_decide (a ≠ ReadWrite)) "memory at address is not writeable" m address
    (len data) = ErrPageFault r a.
Proof.
  unfold Write. destruct (address <? 2 ^ 16); [done|].
  destruct (select m address (len data)) as [[o d]|e|] eqn:Hs; cbn [rbind]; [|exfalso|done].
  - destruct o as [s|]; [|by intros [= ->]]. by destruct (access_of m (Some s)); intros; simplify_eq.
  - unfold select in Hs. destruct (first_segment _ m); [|done]. unfold go_slice in Hs.
    by destruct (_ && _ && _).
Qed.

(** ** Alignment *)

Lemma land_high_mask x k :
  0 ≤ k → inU 64 x → Z.land x (uint64 (Z.lnot (2 ^ k - 1))) = x - x `mod` 2 ^ k.
Proof.
  intros Hk Hx. unfold uint64. rewrite wrapU_land_ones by lia.
  rewrite (Z.land_comm (Z.lnot _)), Z.land_assoc, Z.land_ones, Z.mod_small by (done || lia).
  assert (2 ^ k - 1 = Z.ones k) as -> by (rewrite Z.ones_equiv; lia).
  rewrite <- Z.ldiff_land, Z.ldiff_ones_r by lia.
  rewrite Z.shiftl_mul_pow2, Z.shiftr_div_pow2 by lia.
  pose proof (Z.div_mod x (2 ^ k) ltac:(apply Z.pow_nonzero; lia)). lia.
Qed.

Lemma alignTo_ceil k value :
  0 ≤ k → 0 ≤ value → value + 2 ^ k < 2 ^ 64 →
  alignTo (2 ^ k) value = 2 ^ k * ((value + 2 ^ k - 1) / 2 ^ k).
Proof.
  intros Hk Hv Hlt. assert (0 < 2 ^ k) by (apply Z.pow_pos_nonneg; lia). unfold alignTo.
  replace (2 ^ k - 1) with (Z.ones k) at 1 by (rewrite Z.ones_equiv; lia).
  rewrite Z.land_ones by lia. pose proof (Z.div_mod value (2 ^ k) ltac:(lia)) as Hdm.
  pose proof (Z.mod_pos_bound value (2 ^ k) ltac:(lia)) as Hmod.
  destruct (Z.eqb_spec (value `mod` 2 ^ k) 0) as [H0|H0].
  - replace (value + 2 ^ k - 1) with (value / 2 ^ k * 2 ^ k + (2 ^ k - 1)) by lia.
    rewrite Z.div_add_l by lia. rewrite (Z.div_small (2 ^ k - 1)) by lia. lia.
  - rewrite uint64_small by lia. rewrite land_high_mask by (unfold inU; lia).
    rewrite <- (Z.mul_1_l (2 ^ k)) at 2. rewrite Z.mod_add by lia.
    replace (value + 2 ^ k - 1) with ((value / 2 ^ k + 1) * 2 ^ k + (value `mod` 2 ^ k - 1)) by lia.
    rewrite Z.div_add_l by lia. rewrite (Z.div_small (_ - 1)) by lia. lia.
Qed.

Lemma alignTo_bounds k value :
  0 ≤ k → 0 ≤ value → value + 2 ^ k < 2 ^ 64 →
  value ≤ alignTo (2 ^ k) value < value + 2 ^ k ∧ alignTo (2 ^ k) value `mod` 2 ^ k = 0.
Proof.
  intros Hk Hv Hlt. rewrite alignTo_ceil by done.
  assert (0 < 2 ^ k) by (apply Z.pow_pos_nonneg; lia).
  pose proof (Z.div_mod (value + 2 ^ k - 1) (2 ^ k) ltac:(lia)).
  pose proof (Z.mod_pos_bound (value + 2 ^ k - 1) (2 ^ k) ltac:(lia)).
  split; [lia|]. rewrite Z.mul_comm. by apply Z.mod_mul; lia.
Qed.

Lemma alignToPage_bounds value :
  0 ≤ value < 2 ^ 48 →
  value ≤ alignToPage value < value + PageSize ∧ alignToPage value `mod` PageSize = 0.
Proof. intros. apply (alignTo_bounds 12); lia. Qed.

Lemma alignToZone_bounds value :
  0 ≤ value < 2 ^ 48 →
  value ≤ alignToZone value < value + MemoryZoneSize ∧ alignToZone value `mod` MemoryZoneSize = 0.
Proof. intros. apply (alignTo_bounds 16); lia. Qed.

(** ** The standard layout *)

Definition zero_extend (data : list Z) (size : Z) : list Z :=
  data ++ replicate (Z.to_nat (size - len data)) 0.

Lemma copySized_ok data size :
  len data ≤ size → size ≤ maxAlloc → copySized data size = Ok (zero_extend data size).
Proof.
  intros H1 H2. pose proof (len_nonneg data). unfold copySized.
  rewrite go_make_small by lia. cbn [rbind]. unfold go_copy, zero_extend, len in *. f_equal.
  rewrite length_replicate, take_ge, drop_replicate by lia. do 2 f_equal. lia.
Qed.

Lemma len_zero_extend data size : len data ≤ size → len (zero_extend data size) = size.
Proof.
  intros. pose proof (len_nonneg data). unfold zero_extend. rewrite len_app.
  unfold len at 2. rewrite length_replicate. lia.
Qed.

Lemma bytes_ok_zero_extend data size : bytes_ok data → bytes_ok (zero_extend data size).
Proof.
  intros. apply Forall_app. split; [done|]. by apply Forall_replicate.
Qed.

Definition seg_end (x : memorySegment) : Z := seg_address x + len (seg_data x).

(** The segments lie one after the other, above the guard zone and below the
    return address. *)
Definition ordered (m : Memory) : Prop :=
  MemoryZoneSize ≤ seg_address (mem_ro m) ∧
  seg_end (mem_ro m) ≤ seg_address (mem_rw m) ∧
  seg_end (mem_rw m) ≤ seg_address (mem_stack m) ∧
  seg_end (mem_stack m) ≤ seg_address (mem_args m) ∧
  seg_end (mem_args m) ≤ AddressReturnToHost.

(** The sizes a program blob can name: three-byte lengths, a two-byte page count
    and at most [Z_I] bytes of arguments. *)
Definition blob_sizes (roData rwData argsData : list Z) (stackSize initialPages : Z) : Prop :=
  len roData < 2 ^ 24 ∧ len rwData < 2 ^ 24 ∧ len argsData ≤ InputDataSize ∧
  0 ≤ stackSize < 2 ^ 24 ∧ 0 ≤ initialPages < 2 ^ 16.

Definition standard_memory (roData rwData argsData : list Z) (stackSize initialPages : Z) : Memory :=
  MkMemory
    (MemorySegment MemoryZoneSize (zero_extend roData (alignToPage (len roData))) ReadOnly)
    (MemorySegment (2 * MemoryZoneSize + alignToZone (len roData))
       (zero_extend rwData (alignToPage (len rwData) + initialPages * PageSize)) ReadWrite)
    (MemorySegment (StackAddressHigh - alignToPage stackSize)
       (replicate (Z.to_nat (alignToPage stackSize)) 0) ReadWrite)
    (MemorySegment ArgsAddressLow (zero_extend argsData (alignToPage (len argsData))) ReadOnly).

Lemma InitializeMemory_ok roData rwData argsData stackSize initialPages :
  blob_sizes roData rwData argsData stackSize initialPages →
  InitializeMemory roData rwData argsData stackSize initialPages =
  Ok (standard_memory roData rwData argsData stackSize initialPages).
Proof.
  intros (Hro & Hrw & Hargs & Hst & Hpg). unfold InputDataSize in Hargs.
  pose proof (len_nonneg roData). pose proof (len_nonneg rwData). pose proof (len_nonneg argsData).
  destruct (alignToPage_bounds (len roData)) as [Bro _]; [lia|].
  destruct (alignToPage_bounds (len rwData)) as [Brw _]; [lia|].
  destruct (alignToPage_bounds (len argsData)) as [Bargs _]; [lia|].
  destruct (alignToPage_bounds stackSize) as [Bst _]; [lia|].
  destruct (alignToZone_bounds (len roData)) as [Bzo _]; [lia|].
  destruct (alignToZone_bounds stackSize) as [Bzs _]; [lia|].
  destruct (alignToZone_bounds (len rwData + initialPages * PageSize)) as [Bzw _];
    [unfold PageSize in *; lia|].
  unfold InitializeMemory. rewrite (uint64_small (len rwData + _)) by (unfold PageSize in *; lia).
  unfold int64. rewrite !wrapS_id by (unfold inS, PageSize, MemoryZoneSize in *; lia).
  unfold MemoryZoneSize, InputDataSize, AddressSpaceSize, PageSize in *.
  destruct (Z.gtb_spec (5 * 2 ^ 16 + alignToZone (len rwData + initialPages * 2 ^ 12)
    + alignToZone stackSize + 2 ^ 24) (2 ^ 32)) as [Hgt|_]; [lia|].
  cbv zeta. unfold maxAlloc. rewrite copySized_ok by (unfold maxAlloc; lia). cbn [rbind].
  rewrite uint64_small by lia. rewrite copySized_ok by (unfold maxAlloc; lia). cbn [rbind].
  rewrite go_make_small by (unfold maxAlloc; lia). cbn [rbind].
  rewrite copySized_ok by (unfold maxAlloc; lia). cbn [rbind].
  rewrite !uint64_small
    by (unfold StackAddressHigh, AddressSpaceSize, MemoryZoneSize, InputDataSize; lia).
  done.
Qed.

Lemma standard_memory_ordered roData rwData argsData stackSize initialPages :
  blob_sizes roData rwData argsData stackSize initialPages →
  ordered (standard_memory roData rwData argsData stackSize initialPages).
Proof.
  intros (Hro & Hrw & Hargs & Hst & Hpg). unfold InputDataSize in Hargs.
  pose proof (len_nonneg roData). pose proof (len_nonneg rwData). pose proof (len_nonneg argsData).
  destruct (alignToPage_bounds (len roData)) as [Bro _]; [lia|].
  destruct (alignToPage_bounds (len rwData)) as [Brw _]; [lia|].
  destruct (alignToPage_bounds (len argsData)) as [Bargs Bargs']; [lia|].
  destruct (alignToPage_bounds stackSize) as [Bst _]; [lia|].
  destruct (alignToZone_bounds (len roData)) as [Bzo Bzo']; [lia|].
  unfold ordered, seg_end, standard_memory. simpl.
  rewrite !len_zero_extend by (unfold PageSize in *; lia).
  rewrite len_replicate.
  unfold StackAddressHigh, ArgsAddressLow, AddressReturnToHost, AddressSpaceSize, MemoryZoneSize,
    InputDataSize, PageSize in *.
  pose proof (Z.div_mod (alignToPage (len argsData)) (2 ^ 12) ltac:(lia)).
  pose proof (Z.div_mod (alignToZone (len roData)) (2 ^ 16) ltac:(lia)).
  split_and!; lia.
Qed.

(** ** Growing the heap *)

Lemma Sbrk_grow m size :
  mem_wf m → 0 < size → seg_end (mem_rw m) + size < seg_address (mem_stack m) →
  let top := alignToPage (seg_end (mem_rw m) + size) in
  Sbrk m size = Ok (seg_address (mem_rw m) + top,
                    set_seg m SegRW (with_data (mem_rw m) (replicate (Z.to_nat top) 0))).
Proof.
  intros Hm Hs Hlt. pose proof (Hm SegRW) as (H1 & H2 & _). pose proof (Hm SegStack) as (H3 & _).
  simpl in *. pose proof (len_nonneg (seg_data (mem_rw m))). unfold seg_end in *.
  unfold Sbrk. cbv zeta. rewrite !(uint64_small (_ + len _)) by lia. rewrite (uint64_small (_ + size)) by lia.
  destruct (Z.eqb_spec size 0); [lia|]. rewrite Z.geb_leb.
  rewrite (proj2 (Z.leb_gt _ _)) by lia.
  destruct (Z.gtb_spec (seg_address (mem_rw m) + len (seg_data (mem_rw m)) + size)
    (seg_address (mem_rw m) + len (seg_data (mem_rw m)))); [|lia].
  destruct (alignToPage_bounds (seg_address (mem_rw m) + len (seg_data (mem_rw m)) + size))
    as [B _]; [lia|]. unfold PageSize in *.
  rewrite go_make_small by (unfold maxAlloc; lia). cbn [rbind]. simpl.
  rewrite len_replicate, Z2Nat.id by lia. by rewrite uint64_small by lia.
Qed.
