(* ===== verification/PvmOpcodes.v ===== *)
(** * Instruction set

    [internal/polkavm/instruction_codes.go] (the opcodes) and [instructions.go]
    (gas costs, argument formats, basic-block terminators). *)
From S2P Require Export Prelude.

Module Op.

(** The declared opcodes, by the names of the Go constants. *)
Inductive t : Type :=
| Trap | Fallthrough | Ecalli | LoadImm64 | StoreImmU8 | StoreImmU16 | StoreImmU32
| StoreImmU64 | Jump | JumpIndirect | LoadImm | LoadU8 | LoadI8 | LoadU16 | LoadI16 | LoadU32
| LoadI32 | LoadU64 | StoreU8 | StoreU16 | StoreU32 | StoreU64 | StoreImmIndirectU8
| StoreImmIndirectU16 | StoreImmIndirectU32 | StoreImmIndirectU64 | LoadImmAndJump
| BranchEqImm | BranchNotEqImm | BranchLessUnsignedImm | BranchLessOrEqualUnsignedImm
| BranchGreaterOrEqualUnsignedImm | BranchGreaterUnsignedImm | BranchLessSignedImm
| BranchLessOrEqualSignedImm | BranchGreaterOrEqualSignedImm | BranchGreaterSignedImm | MoveReg
| Sbrk | CountSetBits64 | CountSetBits32 | LeadingZeroBits64 | LeadingZeroBits32
| TrailingZeroBits64 | TrailingZeroBits32 | SignExtend8 | SignExtend16 | ZeroExtend16
| ReverseBytes | StoreIndirectU8 | StoreIndirectU16 | StoreIndirectU32 | StoreIndirectU64
| LoadIndirectU8 | LoadIndirectI8 | LoadIndirectU16 | LoadIndirectI16 | LoadIndirectU32
| LoadIndirectI32 | LoadIndirectU64 | AddImm32 | AndImm | XorImm | OrImm | MulImm32
| SetLessThanUnsignedImm | SetLessThanSignedImm | ShiftLogicalLeftImm32
| ShiftLogicalRightImm32 | ShiftArithmeticRightImm32 | NegateAndAddImm32
| SetGreaterThanUnsignedImm | SetGreaterThanSignedImm | ShiftLogicalLeftImmAlt32
| ShiftArithmeticRightImmAlt32 | ShiftLogicalRightImmAlt32 | CmovIfZeroImm | CmovIfNotZeroImm
| AddImm64 | MulImm64 | ShiftLogicalLeftImm64 | ShiftLogicalRightImm64
| ShiftArithmeticRightImm64 | NegateAndAddImm64 | ShiftLogicalLeftImmAlt64
| ShiftLogicalRightImmAlt64 | ShiftArithmeticRightImmAlt64 | RotR64Imm | RotR64ImmAlt
| RotR32Imm | RotR32ImmAlt | BranchEq | BranchNotEq | BranchLessUnsigned | BranchLessSigned
| BranchGreaterOrEqualUnsigned | BranchGreaterOrEqualSigned | LoadImmAndJumpIndirect | Add32
| Sub32 | Mul32 | DivUnsigned32 | DivSigned32 | RemUnsigned32 | RemSigned32
| ShiftLogicalLeft32 | ShiftLogicalRight32 | ShiftArithmeticRight32 | Add64 | Sub64 | Mul64
| DivUnsigned64 | DivSigned64 | RemUnsigned64 | RemSigned64 | ShiftLogicalLeft64
| ShiftLogicalRight64 | ShiftArithmeticRight64 | And | Xor | Or | MulUpperSignedSigned
| MulUpperUnsignedUnsigned | MulUpperSignedUnsigned | SetLessThanUnsigned | SetLessThanSigned
| CmovIfZero | CmovIfNotZero | RotL64 | RotL32 | RotR64 | RotR32 | AndInv | OrInv | Xnor | Max
| MaxU | Min | MinU.

#[global] Instance t_eq_dec : EqDecision t.
Proof. solve_decision. Defined.

(** The value of each constant of type [Opcode]. *)
Definition code (o : t) : Z :=
  match o with
  | Trap => 0 | Fallthrough => 1 | Ecalli => 10
  | LoadImm64 => 20 | StoreImmU8 => 30 | StoreImmU16 => 31
  | StoreImmU32 => 32 | StoreImmU64 => 33 | Jump => 40
  | JumpIndirect => 50 | LoadImm => 51 | LoadU8 => 52
  | LoadI8 => 53 | LoadU16 => 54 | LoadI16 => 55
  | LoadU32 => 56 | LoadI32 => 57 | LoadU64 => 58
  | StoreU8 => 59 | StoreU16 => 60 | StoreU32 => 61
  | StoreU64 => 62 | StoreImmIndirectU8 => 70 | StoreImmIndirectU16 => 71
  | StoreImmIndirectU32 => 72 | StoreImmIndirectU64 => 73 | LoadImmAndJump => 80
  | BranchEqImm => 81 | BranchNotEqImm => 82 | BranchLessUnsignedImm => 83
  | BranchLessOrEqualUnsignedImm => 84 | BranchGreaterOrEqualUnsignedImm => 85 | BranchGreaterUnsignedImm => 86
  | BranchLessSignedImm => 87 | BranchLessOrEqualSignedImm => 88 | BranchGreaterOrEqualSignedImm => 89
  | BranchGreaterSignedImm => 90 | MoveReg => 100 | Sbrk => 101
  | CountSetBits64 => 102 | CountSetBits32 => 103 | LeadingZeroBits64 => 104
  | LeadingZeroBits32 => 105 | TrailingZeroBits64 => 106 | TrailingZeroBits32 => 107
  | SignExtend8 => 108 | SignExtend16 => 109 | ZeroExtend16 => 110
  | ReverseBytes => 111 | StoreIndirectU8 => 120 | StoreIndirectU16 => 121
  | StoreIndirectU32 => 122 | StoreIndirectU64 => 123 | LoadIndirectU8 => 124
  | LoadIndirectI8 => 125 | LoadIndirectU16 => 126 | LoadIndirectI16 => 127
  | LoadIndirectU32 => 128 | LoadIndirectI32 => 129 | LoadIndirectU64 => 130
  | AddImm32 => 131 | AndImm => 132 | XorImm => 133
  | OrImm => 134 | MulImm32 => 135 | SetLessThanUnsignedImm => 136
  | SetLessThanSignedImm => 137 | ShiftLogicalLeftImm32 => 138 | ShiftLogicalRightImm32 => 139
  | ShiftArithmeticRightImm32 => 140 | NegateAndAddImm32 => 141 | SetGreaterThanUnsignedImm => 142
  | SetGreaterThanSignedImm => 143 | ShiftLogicalLeftImmAlt32 => 144 | ShiftArithmeticRightImmAlt32 => 145
  | ShiftLogicalRightImmAlt32 => 146 | CmovIfZeroImm => 147 | CmovIfNotZeroImm => 148
  | AddImm64 => 149 | MulImm64 => 150 | ShiftLogicalLeftImm64 => 151
  | ShiftLogicalRightImm64 => 152 | ShiftArithmeticRightImm64 => 153 | NegateAndAddImm64 => 154
  | ShiftLogicalLeftImmAlt64 => 155 | ShiftLogicalRightImmAlt64 => 156 | ShiftArithmeticRightImmAlt64 => 157
  | RotR64Imm => 158 | RotR64ImmAlt => 159 | RotR32Imm => 160
  | RotR32ImmAlt => 161 | BranchEq => 170 | BranchNotEq => 171
  | BranchLessUnsigned => 172 | BranchLessSigned => 173 | BranchGreaterOrEqualUnsigned => 174
  | BranchGreaterOrEqualSigned => 175 | LoadImmAndJumpIndirect => 180 | Add32 => 190
  | Sub32 => 191 | Mul32 => 192 | DivUnsigned32 => 193
  | DivSigned32 => 194 | RemUnsigned32 => 195 | RemSigned32 => 196
  | ShiftLogicalLeft32 => 197 | ShiftLogicalRight32 => 198 | ShiftArithmeticRight32 => 199
  | Add64 => 200 | Sub64 => 201 | Mul64 => 202
  | DivUnsigned64 => 203 | DivSigned64 => 204 | RemUnsigned64 => 205
  | RemSigned64 => 206 | ShiftLogicalLeft64 => 207 | ShiftLogicalRight64 => 208
  | ShiftArithmeticRight64 => 209 | And => 210 | Xor => 211
  | Or => 212 | MulUpperSignedSigned => 213 | MulUpperUnsignedUnsigned => 214
  | MulUpperSignedUnsigned => 215 | SetLessThanUnsigned => 216 | SetLessThanSigned => 217
  | CmovIfZero => 218 | CmovIfNotZero => 219 | RotL64 => 220
  | RotL32 => 221 | RotR64 => 222 | RotR32 => 223
  | AndInv => 224 | OrInv => 225 | Xnor => 226
  | Max => 227 | MaxU => 228 | Min => 229
  | MinU => 230
  end.

Definition all : list t :=
  [Trap; Fallthrough; Ecalli; LoadImm64; StoreImmU8; StoreImmU16; StoreImmU32; StoreImmU64;
   Jump; JumpIndirect; LoadImm; LoadU8; LoadI8; LoadU16; LoadI16; LoadU32; LoadI32; LoadU64;
   StoreU8; StoreU16; StoreU32; StoreU64; StoreImmIndirectU8; StoreImmIndirectU16;
   StoreImmIndirectU32; StoreImmIndirectU64; LoadImmAndJump; BranchEqImm; BranchNotEqImm;
   BranchLessUnsignedImm; BranchLessOrEqualUnsignedImm; BranchGreaterOrEqualUnsignedImm;
   BranchGreaterUnsignedImm; BranchLessSignedImm; BranchLessOrEqualSignedImm;
   BranchGreaterOrEqualSignedImm; BranchGreaterSignedImm; MoveReg; Sbrk; CountSetBits64;
   CountSetBits32; LeadingZeroBits64; LeadingZeroBits32; TrailingZeroBits64;
   TrailingZeroBits32; SignExtend8; SignExtend16; ZeroExtend16; ReverseBytes; StoreIndirectU8;
   StoreIndirectU16; StoreIndirectU32; StoreIndirectU64; LoadIndirectU8; LoadIndirectI8;
   LoadIndirectU16; LoadIndirectI16; LoadIndirectU32; LoadIndirectI32; LoadIndirectU64;
   AddImm32; AndImm; XorImm; OrImm; MulImm32; SetLessThanUnsignedImm; SetLessThanSignedImm;
   ShiftLogicalLeftImm32; ShiftLogicalRightImm32; ShiftArithmeticRightImm32; NegateAndAddImm32;
   SetGreaterThanUnsignedImm; SetGreaterThanSignedImm; ShiftLogicalLeftImmAlt32;
   ShiftArithmeticRightImmAlt32; ShiftLogicalRightImmAlt32; CmovIfZeroImm; CmovIfNotZeroImm;
   AddImm64; MulImm64; ShiftLogicalLeftImm64; ShiftLogicalRightImm64;
   ShiftArithmeticRightImm64; NegateAndAddImm64; ShiftLogicalLeftImmAlt64;
   ShiftLogicalRightImmAlt64; ShiftArithmeticRightImmAlt64; RotR64Imm; RotR64ImmAlt; RotR32Imm;
   RotR32ImmAlt; BranchEq; BranchNotEq; BranchLessUnsigned; BranchLessSigned;
   BranchGreaterOrEqualUnsigned; BranchGreaterOrEqualSigned; LoadImmAndJumpIndirect; Add32;
   Sub32; Mul32; DivUnsigned32; DivSigned32; RemUnsigned32; RemSigned32; ShiftLogicalLeft32;
   ShiftLogicalRight32; ShiftArithmeticRight32; Add64; Sub64; Mul64; DivUnsigned64;
   DivSigned64; RemUnsigned64; RemSigned64; ShiftLogicalLeft64; ShiftLogicalRight64;
   ShiftArithmeticRight64; And; Xor; Or; MulUpperSignedSigned; MulUpperUnsignedUnsigned;
   MulUpperSignedUnsigned; SetLessThanUnsigned; SetLessThanSigned; CmovIfZero; CmovIfNotZero;
   RotL64; RotL32; RotR64; RotR32; AndInv; OrInv; Xnor; Max; MaxU; Min; MinU].

(** The declared opcode with this value, if any. *)
Definition of_byte (b : Z) : option t :=
  head (filter (λ o, code o = b) all).

(** [GasCosts[opcode]]; a missing key reads as zero. *)
Definition GasCosts (o : option t) : Z :=
  match o with
  | None => 0
  | Some o =>
      match o with
      | Trap | Fallthrough | Ecalli | LoadImm64 | StoreImmU8 | StoreImmU16 | StoreImmU32
      | StoreImmU64 | Jump | JumpIndirect | LoadImm | LoadU8 | LoadI8 | LoadU16 | LoadI16
      | LoadU32 | LoadI32 | LoadU64 | StoreU8 | StoreU16 | StoreU32 | StoreU64
      | StoreImmIndirectU8 | StoreImmIndirectU16 | StoreImmIndirectU32 | StoreImmIndirectU64
      | LoadImmAndJump | BranchEqImm | BranchNotEqImm | BranchLessUnsignedImm
      | BranchLessOrEqualUnsignedImm | BranchGreaterOrEqualUnsignedImm
      | BranchGreaterUnsignedImm | BranchLessSignedImm | BranchLessOrEqualSignedImm
      | BranchGreaterOrEqualSignedImm | BranchGreaterSignedImm | MoveReg | Sbrk
      | CountSetBits64 | CountSetBits32 | LeadingZeroBits64 | LeadingZeroBits32
      | TrailingZeroBits64 | TrailingZeroBits32 | SignExtend8 | SignExtend16 | ZeroExtend16
      | ReverseBytes | StoreIndirectU8 | StoreIndirectU16 | StoreIndirectU32 | StoreIndirectU64
      | LoadIndirectU8 | LoadIndirectI8 | LoadIndirectU16 | LoadIndirectI16 | LoadIndirectU32
      | LoadIndirectI32 | LoadIndirectU64 | AddImm32 | AndImm | XorImm | OrImm | MulImm32
      | SetLessThanUnsignedImm | SetLessThanSignedImm | ShiftLogicalLeftImm32
      | ShiftLogicalRightImm32 | ShiftArithmeticRightImm32 | NegateAndAddImm32
      | SetGreaterThanUnsignedImm | SetGreaterThanSignedImm | ShiftLogicalLeftImmAlt32
      | ShiftArithmeticRightImmAlt32 | ShiftLogicalRightImmAlt32 | CmovIfZeroImm
      | CmovIfNotZeroImm | AddImm64 | MulImm64 | ShiftLogicalLeftImm64 | ShiftLogicalRightImm64
      | ShiftArithmeticRightImm64 | NegateAndAddImm64 | ShiftLogicalLeftImmAlt64
      | ShiftLogicalRightImmAlt64 | ShiftArithmeticRightImmAlt64 | RotR64Imm | RotR64ImmAlt
      | RotR32Imm | RotR32ImmAlt | BranchEq | BranchNotEq | BranchLessUnsigned
      | BranchLessSigned | BranchGreaterOrEqualUnsigned | BranchGreaterOrEqualSigned
      | LoadImmAndJumpIndirect | Add32 | Sub32 | Mul32 | DivUnsigned32 | DivSigned32
      | RemUnsigned32 | RemSigned32 | ShiftLogicalLeft32 | ShiftLogicalRight32
      | ShiftArithmeticRight32 | Add64 | Sub64 | Mul64 | DivUnsigned64 | DivSigned64
      | RemUnsigned64 | RemSigned64 | ShiftLogicalLeft64 | ShiftLogicalRight64
      | ShiftArithmeticRight64 | And | Xor | Or | MulUpperSignedSigned
      | MulUpperUnsignedUnsigned | MulUpperSignedUnsigned | SetLessThanUnsigned
      | SetLessThanSigned | CmovIfZero | CmovIfNotZero | RotL64 | RotL32 | RotR64 | RotR32
      | AndInv | OrInv | Xnor | Max | MaxU | Min | MinU => 1
      end
  end.

(** ** Argument formats *)

Inductive InstructionType : Type :=
| InstrNone | InstrImm | InstrRegImmExt | InstrImm2 | InstrOffset | InstrRegImm | InstrRegImm2
| InstrRegImmOffset | InstrRegReg | InstrReg2Imm | InstrReg2Offset | InstrReg2Imm2 | InstrReg3.

#[global] Instance InstructionType_eq_dec : EqDecision InstructionType.
Proof. solve_decision. Defined.

Definition instrNone : list t :=
  [Trap; Fallthrough].
Definition instrImm : list t :=
  [Ecalli].
Definition instrRegImmExt : list t :=
  [LoadImm64].
Definition instrImm2 : list t :=
  [StoreImmU8; StoreImmU16; StoreImmU32; StoreImmU64].
Definition instrOffset : list t :=
  [Jump].
Definition instrRegImm : list t :=
  [JumpIndirect; LoadImm; LoadU8; LoadI8; LoadU16; LoadI16; LoadU32; LoadI32; LoadU64; StoreU8;
   StoreU16; StoreU32; StoreU64].
Definition instrRegImm2 : list t :=
  [StoreImmIndirectU8; StoreImmIndirectU16; StoreImmIndirectU32; StoreImmIndirectU64].
Definition instrRegImmOffset : list t :=
  [LoadImmAndJump; BranchEqImm; BranchNotEqImm; BranchLessUnsignedImm;
   BranchLessOrEqualUnsignedImm; BranchGreaterOrEqualUnsignedImm; BranchGreaterUnsignedImm;
   BranchLessSignedImm; BranchLessOrEqualSignedImm; BranchGreaterOrEqualSignedImm;
   BranchGreaterSignedImm].
Definition instrRegReg : list t :=
  [MoveReg; Sbrk; CountSetBits64; CountSetBits32; LeadingZeroBits64; LeadingZeroBits32;
   TrailingZeroBits64; TrailingZeroBits32; SignExtend8; SignExtend16; ZeroExtend16;
   ReverseBytes].
Definition instrReg2Imm : list t :=
  [StoreIndirectU8; StoreIndirectU16; StoreIndirectU32; StoreIndirectU64; LoadIndirectU8;
   LoadIndirectI8; LoadIndirectU16; LoadIndirectI16; LoadIndirectU32; LoadIndirectI32;
   LoadIndirectU64; AddImm32; AndImm; XorImm; OrImm; MulImm32; SetLessThanUnsignedImm;
   SetLessThanSignedImm; ShiftLogicalLeftImm32; ShiftLogicalRightImm32;
   ShiftArithmeticRightImm32; NegateAndAddImm32; SetGreaterThanUnsignedImm;
   SetGreaterThanSignedImm; ShiftLogicalRightImmAlt32; ShiftArithmeticRightImmAlt32;
   ShiftLogicalLeftImmAlt32; CmovIfZeroImm; CmovIfNotZeroImm; AddImm64; MulImm64;
   ShiftLogicalLeftImm64; ShiftLogicalRightImm64; ShiftArithmeticRightImm64; NegateAndAddImm64;
   ShiftLogicalLeftImmAlt64; ShiftLogicalRightImmAlt64; ShiftArithmeticRightImmAlt64;
   RotR64Imm; RotR64ImmAlt; RotR32Imm; RotR32ImmAlt].
Definition instrReg2Offset : list t :=
  [BranchEq; BranchNotEq; BranchLessUnsigned; BranchLessSigned; BranchGreaterOrEqualUnsigned;
   BranchGreaterOrEqualSigned].
Definition instrReg2Imm2 : list t :=
  [LoadImmAndJumpIndirect].
Definition instrReg3 : list t :=
  [Add32; Sub32; Mul32; DivUnsigned32; DivSigned32; RemUnsigned32; RemSigned32;
   ShiftLogicalLeft32; ShiftLogicalRight32; ShiftArithmeticRight32; Add64; Sub64; Mul64;
   DivUnsigned64; DivSigned64; RemUnsigned64; RemSigned64; ShiftLogicalLeft64;
   ShiftLogicalRight64; ShiftArithmeticRight64; And; Xor; Or; MulUpperSignedSigned;
   MulUpperUnsignedUnsigned; MulUpperSignedUnsigned; SetLessThanUnsigned; SetLessThanSigned;
   CmovIfZero; CmovIfNotZero; RotL64; RotL32; RotR64; RotR32; AndInv; OrInv; Xnor; Max; MaxU;
   Min; MinU].

(** The loops of [init] fill the map [InstructionForType], one list after the
    other, a later list overwriting an earlier one. *)
Definition init_lists : list (list t * InstructionType) :=
  [(instrNone, InstrNone);
   (instrRegImm, InstrRegImm);
   (instrRegImmOffset, InstrRegImmOffset);
   (instrRegImm2, InstrRegImm2);
   (instrReg2Imm, InstrReg2Imm);
   (instrReg2Offset, InstrReg2Offset);
   (instrReg3, InstrReg3);
   (instrOffset, InstrOffset);
   (instrImm, InstrImm);
   (instrImm2, InstrImm2);
   (instrRegReg, InstrRegReg);
   (instrReg2Imm2, InstrReg2Imm2);
   (instrRegImmExt, InstrRegImmExt)].

Definition InstructionForType_map : list (t * InstructionType) :=
  flat_map (λ '(codes, ty), map (λ c, (c, ty)) codes) init_lists.

(** [InstructionForType[opcode]]; a missing key reads as [InstrNone]. *)
Definition InstructionForType (o : option t) : InstructionType :=
  match o with
  | None => InstrNone
  | Some o =>
      match last (filter (λ p, p.1 = o) InstructionForType_map) with
      | Some (_, ty) => ty
      | None => InstrNone
      end
  end.

(** [IsBasicBlockTermination] *)
Definition terminators : list t :=
  [Trap; Fallthrough; Jump; JumpIndirect; LoadImmAndJump; LoadImmAndJumpIndirect; BranchEq;
   BranchNotEq; BranchGreaterOrEqualUnsigned; BranchGreaterOrEqualSigned; BranchLessUnsigned;
   BranchLessSigned; BranchEqImm; BranchNotEqImm; BranchLessUnsignedImm; BranchLessSignedImm;
   BranchLessOrEqualUnsignedImm; BranchLessOrEqualSignedImm; BranchGreaterOrEqualUnsignedImm;
   BranchGreaterOrEqualSignedImm; BranchGreaterUnsignedImm; BranchGreaterSignedImm].

Definition IsBasicBlockTermination (o : option t) : bool :=
  match o with
  | Some o => bool_decide (o ∈ terminators)
  | None => false
  end.

End Op.
