(* ===== verification/PvmProgram.v ===== *)
(** * Program blobs

    [internal/polkavm/program.go]: the standard program format ([ParseBlob]), the
    code blob with its jump table and instruction bitmask ([Deblob]), and the
    distance to the next instruction ([Skip]); and [InitializeStandardProgram] of
    [initialisation.go]. *)
From S2P Require Export PvmMemory.

Definition BitmaskMax : Z := 24.

Definition plain_field (name : string) : field_info := FieldInfo name true NoTag.
Definition length_field (name : string) (n : Z) : field_info := FieldInfo name true (TagLength n).

Definition ProgramMemorySizes_type : gotype :=
  TStruct [(length_field "RODataSize" 3, TPrim false Uint32);
           (length_field "RWDataSize" 3, TPrim false Uint32);
           (length_field "InitialHeapPages" 2, TPrim false Uint16);
           (length_field "StackSize" 3, TPrim false Uint32)].

Record ProgramMemorySizes : Type := MkProgramMemorySizes {
  RODataSize : Z;
  RWDataSize : Z;
  InitialHeapPages : Z;
  StackSize : Z;
}.

Record Program : Type := MkProgram {
  prog_sizes : ProgramMemorySizes;
  ROData : list Z;
  RWData : list Z;
  CodeAndJumpTable : list Z;
}.

(** [dec.Decode(&memorySizes)] *)
Definition decodeProgramMemorySizes (buf : list Z) : res pvm_error (ProgramMemorySizes * list Z) :=
  let! (v, buf) := map_err ErrJam (unmarshal ProgramMemorySizes_type buf) in
  match v with
  | VSeq [VNum o; VNum w; VNum z; VNum s] => Ok (MkProgramMemorySizes o w z s, buf)
  | _ => Err (ErrJam ErrUnsupportedType)
  end.

Definition ParseBlob (data : list Z) : res pvm_error Program :=
  let! (memorySizes, buff) := decodeProgramMemorySizes data in
  let! (roData, buff) := map_err ErrJam (decodeBytesFixedLength (RODataSize memorySizes) buff) in
  if negb (RODataSize memorySizes =? len roData) then Err (ErrorString "ro data size mismatch")
  else
    (* [program.RWData] has not been decoded yet: it is nil *)
    if negb (RWDataSize memorySizes =? 0) then Err (ErrorString "rw data size mismatch")
    else
      let! (rwData, buff) := map_err ErrJam (decodeBytesFixedLength (RWDataSize memorySizes) buff) in
      let! (codeSize, buff) := map_err ErrJam (unmarshal_prim Uint32 buff) in
      let! rest := go_slice_from data (uint32 (RWDataSize memorySizes + 4)) in
      if negb (len rest =? num_of codeSize) then Err (ErrorString "code size mismatch")
      else Ok (MkProgram memorySizes roData rwData buff).

Definition CodeAndJumpTableLengths_type : gotype :=
  TStruct [(plain_field "JumpTableEntryCount", TPrim false Uint);
           (plain_field "JumpTableEntrySize", TPrim false Uint8);
           (plain_field "CodeLength", TPrim false Uint)].

Definition Deblob (bytecode : list Z) : res pvm_error (list Z * list bool * list Z) :=
  let! (sizes, buff) := map_err ErrJam (unmarshal CodeAndJumpTableLengths_type bytecode) in
  match sizes with
  | VSeq [VNum jumpTableEntryCount; VNum jumpTableEntrySize; VNum codeLength] =>
      let! _ := go_make 8 jumpTableEntryCount 0 in
      let! (jumpTable, buff) :=
        map_err ErrJam (decode_n (decodeFixedWidth_prim Uint64 jumpTableEntrySize)
                          (Z.to_nat jumpTableEntryCount) buff) in
      let! _ := go_make 1 codeLength 0 in
      let! (code, buff) := map_err ErrJam (decodeBytesFixedLength codeLength buff) in
      let! (bitmask, buff) := map_err ErrJam (decodeBitsFixedLength [] (len buff) buff) in
      let! bitmask := go_slice bitmask 0 codeLength in
      Ok (code, bitmask, map num_of jumpTable)
  | _ => Err (ErrJam ErrUnsupportedType)
  end.

(** The loop of [Skip], at position [i] of the slice. *)
Fixpoint Skip_loop (i : Z) (bitmask : list bool) : Z :=
  match bitmask with
  | [] => 0
  | b :: rest =>
      if i >? BitmaskMax then BitmaskMax else if b then i else Skip_loop (i + 1) rest
  end.

Definition Skip (instructionOffset : Z) (bitmask : list bool) : res pvm_error Z :=
  let! rest := go_slice_from bitmask (uint64 (instructionOffset + 1)) in
  Ok (Skip_loop 0 rest).

Definition InitializeStandardProgram (program : Program) (argsData : list Z)
  : res pvm_error (Memory * Registers) :=
  let! ram := InitializeMemory (ROData program) (RWData program) argsData
                (StackSize (prog_sizes program)) (InitialHeapPages (prog_sizes program)) in
  Ok (ram, InitializeRegisters (len argsData)).
