(* ===== verification/PvmInstance.v ===== *)
(** * Interpreter instances

    [internal/polkavm/interpreter/instance.go]: the machine state and the
    primitives the instructions are built from. *)
From S2P Require Export PvmProgram PvmOpcodes.

Record Instance : Type := MkInstance {
  memory : Memory;
  regs : Registers;
  instructionCounter : Z;
  gasRemaining : Z;
  code : list Z;
  jumpTable : list Z;
  bitmask : list bool;
  basicBlockInstructions : gset Z;
}.

Definition with_memory (m : Memory) (i : Instance) : Instance :=
  MkInstance m (regs i) (instructionCounter i) (gasRemaining i) (code i) (jumpTable i)
    (bitmask i) (basicBlockInstructions i).
Definition with_regs (r : Registers) (i : Instance) : Instance :=
  MkInstance (memory i) r (instructionCounter i) (gasRemaining i) (code i) (jumpTable i)
    (bitmask i) (basicBlockInstructions i).
Definition with_ic (ic : Z) (i : Instance) : Instance :=
  MkInstance (memory i) (regs i) ic (gasRemaining i) (code i) (jumpTable i)
    (bitmask i) (basicBlockInstructions i).
Definition with_gas (g : Z) (i : Instance) : Instance :=
  MkInstance (memory i) (regs i) (instructionCounter i) g (code i) (jumpTable i)
    (bitmask i) (basicBlockInstructions i).

(** ** Methods on [*Instance]

    A method runs on the current state and leaves a state behind also when it
    returns an error; a runtime panic leaves none. *)
Inductive outcome (A : Type) : Type :=
| Done (a : A) (i : Instance)
| Failed (e : pvm_error) (i : Instance)
| Crashed.
Arguments Done {A} _ _.
Arguments Failed {A} _ _.
Arguments Crashed {A}.

Definition M (A : Type) : Type := Instance → outcome A.

Definition ret {A} (a : A) : M A := λ i, Done a i.
Definition fail {A} (e : pvm_error) : M A := λ i, Failed e i.
Definition bind {A B} (c : M A) (k : A → M B) : M B := λ i,
  match c i with
  | Done a i => k a i
  | Failed e i => Failed e i
  | Crashed => Crashed
  end.
Definition get : M Instance := λ i, Done i i.
Definition modify (f : Instance → Instance) : M unit := λ i, Done () (f i).

(** A call that does not touch the instance. *)
Definition lift {A} (c : res pvm_error A) : M A := λ i,
  match c with
  | Ok a => Done a i
  | Err e => Failed e i
  | RuntimePanic => Crashed
  end.

Declare Scope pvm_scope.
Delimit Scope pvm_scope with pvm.
Notation "'do!' x ':=' c 'in' k" := (bind c (λ x, k))
  (at level 10, x pattern, c at level 100, k at level 200) : pvm_scope.
Notation "c ;; k" := (bind c (λ _, k)) (at level 100, k at level 200, right associativity) : pvm_scope.
#[global] Open Scope pvm_scope.

(** [i.regs[r]] and [i.regs[r] = v] *)
Definition reg (r : Z) : M Z := do! i := get in lift (go_index (regs i) r).
Definition set_reg (r v : Z) : M unit :=
  do! i := get in
  do! rs := lift (go_update (regs i) r v) in
  modify (with_regs rs).

Definition skip : M unit :=
  do! i := get in
  do! s := lift (Skip (instructionCounter i) (bitmask i)) in
  modify (with_ic (uint64 (instructionCounter i + (1 + s)))).

Definition deductGas (cost : Z) : M unit :=
  do! i := get in
  if gasRemaining i <? cost then fail ErrOutOfGas
  else modify (with_gas (int64 (gasRemaining i - cost))).

(** [load(address, length, &v)] for a [v] of kind [k] *)
Definition load (address length : Z) (k : kind) : M Z :=
  do! i := get in
  do! slice := lift (Read (memory i) address length) in
  do! v := lift (map_err ErrJam (Unmarshal (TPrim false k) slice (VNum 0))) in
  ret (num_of v).

(** [store(address, v)] for a [v] of kind [k] *)
Definition store (address : Z) (k : kind) (v : Z) : M unit :=
  do! data := lift (map_err ErrJam (Marshal (TPrim false k) (VNum v))) in
  do! i := get in
  do! m := lift (Write (memory i) address data) in
  modify (with_memory m);;
  skip.

Definition setAndSkip (dst value : Z) : M unit := set_reg dst value;; skip.

Definition branch (condition : bool) (target : Z) : M unit :=
  if condition then
    do! i := get in
    if bool_decide (target ∈ basicBlockInstructions i)
    then modify (with_ic target)
    else
      (* [i.code[target]] is an argument of the error message *)
      do! _ := lift (go_index (code i) target) in
      fail (ErrPanic "indirect jump to non-block-termination instruction target=%d opcode=%d")
  else skip.

Definition djump (address0 : Z) : M unit :=
  let address := uint32 address0 in
  if address =? AddressReturnToHost then fail ErrHalt
  else
    do! i := get in
    if (address =? 0) || (len (jumpTable i) * DynamicAddressAlignment <? address)
       || negb (address `mod` DynamicAddressAlignment =? 0)
    then fail (ErrPanic "indirect jump to address %v invalid")
    else
      do! instructionOffset :=
        lift (go_index (jumpTable i) (uint32 (address / DynamicAddressAlignment - 1))) in
      if bool_decide (instructionOffset ∈ basicBlockInstructions i)
      then modify (with_ic instructionOffset)
      else fail (ErrPanic "indirect jump to address %v is non block-termination instruction").

(** ** Instantiation *)

(** [for i, b := range bitmask { if b && Opcode(code[i]).IsBasicBlockTermination() ... }] *)
Fixpoint basicBlocks_loop (code : list Z) (all : list bool) (i : Z) (rest : list bool)
    (blocks : gset Z) : res pvm_error (gset Z) :=
  match rest with
  | [] => Ok blocks
  | b :: rest =>
      let! blocks :=
        (if b : bool then
           let! c := go_index code i in
           if Op.IsBasicBlockTermination (Op.of_byte c)
           then let! s := Skip i all in Ok ({[uint64 (i + 1 + s)]} ∪ blocks)
           else Ok blocks
         else Ok blocks) in
      basicBlocks_loop code all (i + 1) rest blocks
  end.

Definition Instantiate (program : list Z) (instructionOffset gasLimit : Z) (regs : Registers)
    (memory : Memory) : res pvm_error Instance :=
  let! (codeBitmask, jumpTable) := Deblob program in
  let (code, bitmask) := codeBitmask : list Z * list bool in
  let! blocks := basicBlocks_loop code bitmask 0 bitmask {[0]} in
  Ok (MkInstance memory regs instructionOffset gasLimit (code ++ [0]) jumpTable
        (bitmask ++ [true]) blocks).
