(* ===== verification/PvmMutations.v ===== *)
(** * Instructions

    [internal/polkavm/interpreter/mutations.go]: one definition per method of the
    [Mutator] interface, and [sext] of [step.go]. *)
From S2P Require Export PvmInstance.

(** [sext(value, length)]; an unexpected length is an explicit [panic]. *)
Definition sext (value length : Z) : res pvm_error Z :=
  if length =? 0 then Ok 0
  else if length =? 1 then Ok (uint64 (int64 (int8 (uint8 value))))
  else if length =? 2 then Ok (uint64 (int64 (int16 (uint16 value))))
  else if length =? 3 then Ok (uint64 (go_shr 32 (int32 (uint64 (go_shl 64 value 8))) 8))
  else if length =? 4 then Ok (uint64 (int64 (int32 value)))
  else if length =? 8 then Ok (uint64 (int64 value))
  else RuntimePanic.

(** [i.setAndSkip(dst, sext(value, length))] *)
Definition setSextAndSkip (dst value length : Z) : M unit :=
  do! v := lift (sext value length) in setAndSkip dst v.

Definition bool2uint64 (v : bool) : Z := if v then 1 else 0.

Definition abs64 (v : Z) : Z :=
  let mask := go_shr 64 v 63 in int64 (Z.lxor v mask - mask).
Definition abs32 (v : Z) : Z :=
  let mask := go_shr 32 v 31 in int32 (Z.lxor v mask - mask).

Definition smod64 (a b : Z) : Z :=
  if b =? 0 then a
  else if a <? 0 then int64 (- int64 (Z.rem (abs64 a) (abs64 b)))
  else int64 (Z.rem (abs64 a) (abs64 b)).
Definition smod32 (a b : Z) : Z :=
  if b =? 0 then a
  else if a <? 0 then int32 (- int32 (Z.rem (abs32 a) (abs32 b)))
  else int32 (Z.rem (abs32 a) (abs32 b)).

Definition MaxUint64 : Z := 2 ^ 64 - 1.
Definition MinInt32 : Z := - 2 ^ 31.
Definition MinInt64 : Z := - 2 ^ 63.

Module Mut.

(** ** No arguments, immediates *)

Definition Trap : M unit := fail (ErrPanic "explicit trap").
Definition Fallthrough : M unit := skip.
Definition LoadImm64 (dst imm : Z) : M unit := setAndSkip dst imm.

Definition StoreImmU8 (address value : Z) : M unit := store address Uint8 (uint8 value).
Definition StoreImmU16 (address value : Z) : M unit := store address Uint16 (uint16 value).
Definition StoreImmU32 (address value : Z) : M unit := store address Uint32 (uint32 value).
Definition StoreImmU64 (address value : Z) : M unit := store address Uint64 value.

Definition Jump (target : Z) : M unit := branch true target.

(** ** One register and one immediate *)

Definition JumpIndirect (base offset : Z) : M unit :=
  do! b := reg base in djump (uint64 (b + offset)).
Definition LoadImm (dst imm : Z) : M unit := setAndSkip dst imm.

(** [slice := make([]byte, 1); i.memory.Read(address, slice)]: [slice[0]] *)
Definition readByte (address : Z) : M Z :=
  do! i := get in
  do! slice := lift (Read (memory i) address 1) in
  lift (go_index slice 0).

Definition LoadU8 (dst address : Z) : M unit :=
  do! b := readByte address in setAndSkip dst b.
Definition LoadI8 (dst address : Z) : M unit :=
  do! b := readByte address in setAndSkip dst (uint64 (int8 b)).
Definition LoadU16 (dst address : Z) : M unit :=
  do! v := load address 2 Uint16 in setAndSkip dst v.
Definition LoadI16 (dst address : Z) : M unit :=
  do! v := load address 2 Int16 in setAndSkip dst (uint64 v).
Definition LoadU32 (dst address : Z) : M unit :=
  do! v := load address 4 Uint32 in setAndSkip dst v.
Definition LoadI32 (dst address : Z) : M unit :=
  do! v := load address 4 Uint32 in setSextAndSkip dst v 4.
Definition LoadU64 (dst address : Z) : M unit :=
  do! v := load address 8 Uint64 in setAndSkip dst v.

Definition StoreU8 (src address : Z) : M unit :=
  do! v := reg src in store address Uint8 (uint8 v).
Definition StoreU16 (src address : Z) : M unit :=
  do! v := reg src in store address Uint16 (uint16 v).
Definition StoreU32 (src address : Z) : M unit :=
  do! v := reg src in store address Uint32 (uint32 v).
Definition StoreU64 (src address : Z) : M unit :=
  do! v := reg src in store address Uint64 v.

(** ** One register and two immediates, or an immediate and an offset *)

Definition StoreImmIndirectU8 (base offset value : Z) : M unit :=
  do! b := reg base in store (uint64 (b + offset)) Uint8 (uint8 value).
Definition StoreImmIndirectU16 (base offset value : Z) : M unit :=
  do! b := reg base in store (uint64 (b + offset)) Uint16 (uint16 value).
Definition StoreImmIndirectU32 (base offset value : Z) : M unit :=
  do! b := reg base in store (uint64 (b + offset)) Uint32 (uint32 value).
Definition StoreImmIndirectU64 (base offset value : Z) : M unit :=
  do! b := reg base in store (uint64 (b + offset)) Uint64 value.

Definition LoadImmAndJump (ra value target : Z) : M unit := LoadImm ra value;; Jump target.

Definition BranchEqImm (regA valueX target : Z) : M unit :=
  do! a := reg regA in branch (a =? valueX) target.
Definition BranchNotEqImm (regA valueX target : Z) : M unit :=
  do! a := reg regA in branch (negb (a =? valueX)) target.
Definition BranchLessUnsignedImm (regA valueX target : Z) : M unit :=
  do! a := reg regA in branch (a <? valueX) target.
Definition BranchLessOrEqualUnsignedImm (regA valueX target : Z) : M unit :=
  do! a := reg regA in branch (a <=? valueX) target.
Definition BranchGreaterOrEqualUnsignedImm (regA valueX target : Z) : M unit :=
  do! a := reg regA in branch (a >=? valueX) target.
Definition BranchGreaterUnsignedImm (regA valueX target : Z) : M unit :=
  do! a := reg regA in branch (a >? valueX) target.
Definition BranchLessSignedImm (regA valueX target : Z) : M unit :=
  do! a := reg regA in branch (int64 a <? int64 valueX) target.
Definition BranchLessOrEqualSignedImm (regA valueX target : Z) : M unit :=
  do! a := reg regA in branch (int64 a <=? int64 valueX) target.
Definition BranchGreaterOrEqualSignedImm (regA valueX target : Z) : M unit :=
  do! a := reg regA in branch (int64 a >=? int64 valueX) target.
Definition BranchGreaterSignedImm (regA valueX target : Z) : M unit :=
  do! a := reg regA in branch (int64 a >? int64 valueX) target.

(** ** Two registers *)

Definition MoveReg (dst s : Z) : M unit := do! v := reg s in setAndSkip dst v.

Definition Sbrk (dst sizeReg : Z) : M unit :=
  do! size := reg sizeReg in
  do! i := get in
  do! (heapTop, m) := lift (PvmMemory.Sbrk (memory i) size) in
  modify (with_memory m);;
  setAndSkip dst heapTop.

Definition CountSetBits64 (dst s : Z) : M unit :=
  do! v := reg s in setAndSkip dst (uint64 (OnesCount64 v)).
Definition CountSetBits32 (dst s : Z) : M unit :=
  do! v := reg s in setAndSkip dst (uint64 (OnesCount32 (uint32 v))).
Definition LeadingZeroBits64 (dst s : Z) : M unit :=
  do! v := reg s in setAndSkip dst (uint64 (LeadingZeros64 v)).
Definition LeadingZeroBits32 (dst s : Z) : M unit :=
  do! v := reg s in setAndSkip dst (uint64 (LeadingZeros32 (uint32 v))).
Definition TrailingZeroBits64 (dst s : Z) : M unit :=
  do! v := reg s in setAndSkip dst (uint64 (TrailingZeros64 v)).
Definition TrailingZeroBits32 (dst s : Z) : M unit :=
  do! v := reg s in setAndSkip dst (uint64 (TrailingZeros32 (uint32 v))).
Definition SignExtend8 (dst s : Z) : M unit :=
  do! v := reg s in setAndSkip dst (uint64 (int8 (uint8 v))).
Definition SignExtend16 (dst s : Z) : M unit :=
  do! v := reg s in setAndSkip dst (uint64 (int16 (uint16 v))).
Definition ZeroExtend16 (dst s : Z) : M unit :=
  do! v := reg s in setAndSkip dst (uint64 (uint16 v)).
Definition ReverseBytes (dst s : Z) : M unit :=
  do! v := reg s in setAndSkip dst (ReverseBytes64 v).

(** ** Two registers and one immediate *)

Definition StoreIndirectU8 (src base offset : Z) : M unit :=
  do! b := reg base in do! v := reg src in store (uint64 (b + offset)) Uint8 (uint8 v).
Definition StoreIndirectU16 (src base offset : Z) : M unit :=
  do! b := reg base in do! v := reg src in store (uint64 (b + offset)) Uint16 (uint16 v).
Definition StoreIndirectU32 (src base offset : Z) : M unit :=
  do! b := reg base in do! v := reg src in store (uint64 (b + offset)) Uint32 (uint32 v).
Definition StoreIndirectU64 (src base offset : Z) : M unit :=
  do! b := reg base in do! v := reg src in store (uint64 (b + offset)) Uint64 v.

Definition LoadIndirectU8 (dst base offset : Z) : M unit :=
  do! b := reg base in
  do! v := readByte (uint64 (b + offset)) in setAndSkip dst v.
Definition LoadIndirectI8 (dst base offset : Z) : M unit :=
  do! b := reg base in
  do! v := readByte (uint64 (b + offset)) in setAndSkip dst (uint64 (int8 v)).
Definition LoadIndirectU16 (dst base offset : Z) : M unit :=
  do! b := reg base in
  do! v := load (uint64 (b + offset)) 2 Uint16 in setAndSkip dst v.
Definition LoadIndirectI16 (dst base offset : Z) : M unit :=
  do! b := reg base in
  do! v := load (uint64 (b + offset)) 2 Int16 in setAndSkip dst (uint64 v).
Definition LoadIndirectU32 (dst base offset : Z) : M unit :=
  do! b := reg base in
  do! v := load (uint64 (b + offset)) 4 Uint32 in setAndSkip dst v.
Definition LoadIndirectI32 (dst base offset : Z) : M unit :=
  do! b := reg base in
  do! v := load (uint64 (b + offset)) 4 Int32 in setAndSkip dst (uint64 v).
Definition LoadIndirectU64 (dst base offset : Z) : M unit :=
  do! b := reg base in
  do! v := load (uint64 (b + offset)) 8 Uint64 in setAndSkip dst v.

Definition AddImm32 (dst regA value : Z) : M unit :=
  do! a := reg regA in setSextAndSkip dst (uint32 (uint64 (a + value))) 4.
Definition AndImm (dst regA value : Z) : M unit :=
  do! a := reg regA in setAndSkip dst (Z.land a value).
Definition XorImm (dst regA value : Z) : M unit :=
  do! a := reg regA in setAndSkip dst (Z.lxor a value).
Definition OrImm (dst regA value : Z) : M unit :=
  do! a := reg regA in setAndSkip dst (Z.lor a value).
Definition MulImm32 (dst regA value : Z) : M unit :=
  do! a := reg regA in setSextAndSkip dst (uint32 (uint64 (a * value))) 4.
Definition SetLessThanUnsignedImm (dst regA value : Z) : M unit :=
  do! a := reg regA in setAndSkip dst (bool2uint64 (a <? value)).
Definition SetLessThanSignedImm (dst regA value : Z) : M unit :=
  do! a := reg regA in setAndSkip dst (bool2uint64 (int64 a <? int64 value)).
Definition ShiftLogicalLeftImm32 (dst regA value : Z) : M unit :=
  do! a := reg regA in setSextAndSkip dst (uint32 (go_shl 32 (uint32 a) value)) 4.
Definition ShiftLogicalRightImm32 (dst regA value : Z) : M unit :=
  do! a := reg regA in setSextAndSkip dst (go_shr 32 (uint32 a) value) 4.
Definition ShiftArithmeticRightImm32 (dst regA value : Z) : M unit :=
  do! a := reg regA in setAndSkip dst (uint64 (go_shr 32 (int32 (uint32 a)) value)).
Definition NegateAndAddImm32 (dst regA value : Z) : M unit :=
  do! a := reg regA in setSextAndSkip dst (uint32 (uint64 (value - a))) 4.
Definition SetGreaterThanUnsignedImm (dst regA value : Z) : M unit :=
  do! a := reg regA in setAndSkip dst (bool2uint64 (a >? value)).
Definition SetGreaterThanSignedImm (dst regA value : Z) : M unit :=
  do! a := reg regA in setAndSkip dst (bool2uint64 (int64 a >? int64 value)).
Definition ShiftLogicalLeftImmAlt32 (dst regB value : Z) : M unit :=
  do! b := reg regB in setSextAndSkip dst (uint32 (uint64 (go_shl 64 value b))) 4.
Definition ShiftLogicalRightImmAlt32 (dst regB value : Z) : M unit :=
  do! b := reg regB in setSextAndSkip dst (go_shr 32 (uint32 value) (uint32 b)) 4.
Definition ShiftArithmeticRightImmAlt32 (dst regB value : Z) : M unit :=
  do! b := reg regB in setAndSkip dst (uint64 (go_shr 32 (int32 (uint32 value)) (uint32 b))).
Definition CmovIfZeroImm (dst c s : Z) : M unit :=
  do! v := reg c in (if v =? 0 then set_reg dst s else ret ());; skip.
Definition CmovIfNotZeroImm (dst c s : Z) : M unit :=
  do! v := reg c in (if negb (v =? 0) then set_reg dst s else ret ());; skip.
Definition AddImm64 (dst regA value : Z) : M unit :=
  do! a := reg regA in setAndSkip dst (uint64 (a + value)).
Definition MulImm64 (dst regA value : Z) : M unit :=
  do! a := reg regA in setAndSkip dst (uint64 (a * value)).
Definition ShiftLogicalLeftImm64 (dst regA value : Z) : M unit :=
  do! a := reg regA in setSextAndSkip dst (uint64 (go_shl 64 a value)) 8.
Definition ShiftLogicalRightImm64 (dst regA value : Z) : M unit :=
  do! a := reg regA in setSextAndSkip dst (go_shr 64 a value) 8.
Definition ShiftArithmeticRightImm64 (dst regA value : Z) : M unit :=
  do! a := reg regA in setAndSkip dst (uint64 (go_shr 64 (int64 a) value)).
Definition NegateAndAddImm64 (dst regA value : Z) : M unit :=
  do! a := reg regA in setAndSkip dst (uint64 (value - a)).
Definition ShiftLogicalLeftImmAlt64 (dst regB value : Z) : M unit :=
  do! b := reg regB in setAndSkip dst (uint64 (go_shl 64 value b)).
Definition ShiftLogicalRightImmAlt64 (dst regB value : Z) : M unit :=
  do! b := reg regB in setAndSkip dst (go_shr 64 value b).
Definition ShiftArithmeticRightImmAlt64 (dst regB value : Z) : M unit :=
  do! b := reg regB in setAndSkip dst (uint64 (go_shr 32 (int32 value) b)).
Definition RotateRight64Imm (dst regA value : Z) : M unit :=
  do! a := reg regA in setAndSkip dst (RotateLeft64 a (int64 (- int64 value))).
Definition RotateRight64ImmAlt (dst regA value : Z) : M unit :=
  do! a := reg regA in setAndSkip dst (RotateLeft64 value (int64 (- int64 a))).
Definition RotateRight32Imm (dst regA value : Z) : M unit :=
  do! a := reg regA in setSextAndSkip dst (RotateLeft32 (uint32 a) (int64 (- int64 value))) 4.
Definition RotateRight32ImmAlt (dst regA value : Z) : M unit :=
  do! a := reg regA in
  setSextAndSkip dst (RotateLeft32 (uint32 value) (int64 (- int64 (uint32 a)))) 4.

(** ** Two registers and an offset, or two immediates *)

Definition BranchEq (regA regB target : Z) : M unit :=
  do! a := reg regA in do! b := reg regB in branch (a =? b) target.
Definition BranchNotEq (regA regB target : Z) : M unit :=
  do! a := reg regA in do! b := reg regB in branch (negb (a =? b)) target.
Definition BranchLessUnsigned (regA regB target : Z) : M unit :=
  do! a := reg regA in do! b := reg regB in branch (a <? b) target.
Definition BranchLessSigned (regA regB target : Z) : M unit :=
  do! a := reg regA in do! b := reg regB in branch (int64 a <? int64 b) target.
Definition BranchGreaterOrEqualUnsigned (regA regB target : Z) : M unit :=
  do! a := reg regA in do! b := reg regB in branch (a >=? b) target.
Definition BranchGreaterOrEqualSigned (regA regB target : Z) : M unit :=
  do! a := reg regA in do! b := reg regB in branch (int64 a >=? int64 b) target.

Definition LoadImmAndJumpIndirect (ra base value offset : Z) : M unit :=
  do! b := reg base in
  set_reg ra value;;
  djump (uint64 (b + offset)).

(** ** Three registers *)

Definition Add32 (dst regA regB : Z) : M unit :=
  do! a := reg regA in do! b := reg regB in setSextAndSkip dst (uint32 (uint64 (a + b))) 4.
Definition Sub32 (dst regA regB : Z) : M unit :=
  do! a := reg regA in do! b := reg regB in setSextAndSkip dst (uint32 (uint64 (a - b))) 4.
Definition Mul32 (dst regA regB : Z) : M unit :=
  do! a := reg regA in do! b := reg regB in setSextAndSkip dst (uint32 (uint64 (a * b))) 4.
Definition DivUnsigned32 (dst regA regB : Z) : M unit :=
  do! a := reg regA in do! b := reg regB in
  let lhs := uint32 a in let rhs := uint32 b in
  (if rhs =? 0 then set_reg dst MaxUint64
   else do! v := lift (sext (lhs / rhs) 4) in set_reg dst v);;
  skip.
Definition DivSigned32 (dst regA regB : Z) : M unit :=
  do! a := reg regA in do! b := reg regB in
  let lhs := int32 (uint32 a) in let rhs := int32 (uint32 b) in
  (if rhs =? 0 then set_reg dst MaxUint64
   else if (lhs =? MinInt32) && (rhs =? -1) then set_reg dst (uint64 lhs)
   else set_reg dst (uint64 (int32 (Z.quot lhs rhs))));;
  skip.
Definition RemUnsigned32 (dst regA regB : Z) : M unit :=
  do! a := reg regA in do! b := reg regB in
  let lhs := uint32 a in let rhs := uint32 b in
  do! v := lift (sext (if rhs =? 0 then lhs else lhs `mod` rhs) 4) in
  set_reg dst v;;
  skip.
Definition RemSigned32 (dst regA regB : Z) : M unit :=
  do! a := reg regA in do! b := reg regB in
  let lhs := int32 (uint32 a) in let rhs := int32 (uint32 b) in
  (if rhs =? 0 then set_reg dst (uint64 lhs)
   else if (lhs =? MinInt32) && (rhs =? -1) then set_reg dst 0
   else set_reg dst (uint64 (smod32 lhs rhs)));;
  skip.
Definition ShiftLogicalLeft32 (dst regA regB : Z) : M unit :=
  do! a := reg regA in do! b := reg regB in
  setSextAndSkip dst (uint32 (go_shl 32 (uint32 a) (uint32 b `mod` 32))) 4.
Definition ShiftLogicalRight32 (dst regA regB : Z) : M unit :=
  do! a := reg regA in do! b := reg regB in
  setSextAndSkip dst (go_shr 32 (uint32 a) (uint32 b `mod` 32)) 4.
Definition ShiftArithmeticRight32 (dst regA regB : Z) : M unit :=
  do! a := reg regA in do! b := reg regB in
  let shiftAmount := uint32 b `mod` 32 in
  let shiftedValue := go_shr 32 (int32 (uint32 a)) shiftAmount in
  setAndSkip dst (uint64 shiftedValue).
Definition Add64 (dst regA regB : Z) : M unit :=
  do! a := reg regA in do! b := reg regB in setAndSkip dst (uint64 (a + b)).
Definition Sub64 (dst regA regB : Z) : M unit :=
  do! a := reg regA in do! b := reg regB in setAndSkip dst (uint64 (a - b)).
Definition Mul64 (dst regA regB : Z) : M unit :=
  do! a := reg regA in do! b := reg regB in setAndSkip dst (uint64 (a * b)).
Definition DivUnsigned64 (dst regA regB : Z) : M unit :=
  do! lhs := reg regA in do! rhs := reg regB in
  (if rhs =? 0 then set_reg dst MaxUint64 else set_reg dst (lhs / rhs));;
  skip.
Definition DivSigned64 (dst regA regB : Z) : M unit :=
  do! a := reg regA in do! b := reg regB in
  let lhs := int64 a in let rhs := int64 b in
  (if rhs =? 0 then set_reg dst MaxUint64
   else if (lhs =? MinInt64) && (rhs =? -1) then set_reg dst (uint64 lhs)
   else set_reg dst (uint64 (int64 (Z.quot lhs rhs))));;
  skip.
Definition RemUnsigned64 (dst regA regB : Z) : M unit :=
  do! lhs := reg regA in do! rhs := reg regB in
  (if rhs =? 0 then set_reg dst lhs else set_reg dst (lhs `mod` rhs));;
  skip.
Definition RemSigned64 (dst regA regB : Z) : M unit :=
  do! a := reg regA in do! b := reg regB in
  let lhs := int64 a in let rhs := int64 b in
  (if rhs =? 0 then set_reg dst (uint64 lhs)
   else if (lhs =? MinInt32) && (rhs =? -1) then set_reg dst 0
   else set_reg dst (uint64 (smod64 lhs rhs)));;
  skip.
Definition ShiftLogicalLeft64 (dst regA regB : Z) : M unit :=
  do! a := reg regA in do! b := reg regB in
  let shiftAmount := b `mod` 64 in
  let shiftedValue := uint64 (go_shl 64 a shiftAmount) in
  setAndSkip dst shiftedValue.
Definition ShiftLogicalRight64 (dst regA regB : Z) : M unit :=
  do! a := reg regA in do! b := reg regB in setAndSkip dst (go_shr 64 a (b `mod` 64)).
Definition ShiftArithmeticRight64 (dst regA regB : Z) : M unit :=
  do! a := reg regA in do! b := reg regB in
  let shiftAmount := b `mod` 64 in
  let shiftedValue := go_shr 64 (int64 a) shiftAmount in
  setAndSkip dst (uint64 shiftedValue).
Definition And (dst regA regB : Z) : M unit :=
  do! a := reg regA in do! b := reg regB in setAndSkip dst (Z.land a b).
Definition Xor (dst regA regB : Z) : M unit :=
  do! a := reg regA in do! b := reg regB in setAndSkip dst (Z.lxor a b).
Definition Or (dst regA regB : Z) : M unit :=
  do! a := reg regA in do! b := reg regB in setAndSkip dst (Z.lor a b).
Definition MulUpperSignedSigned (dst regA regB : Z) : M unit :=
  do! a := reg regA in do! b := reg regB in
  setAndSkip dst (uint64 (big_Int64 (Z.shiftr (int64 a * int64 b) 64))).
Definition MulUpperUnsignedUnsigned (dst regA regB : Z) : M unit :=
  do! a := reg regA in do! b := reg regB in
  setAndSkip dst (uint64 (big_Int64 (Z.shiftr (a * b) 64))).
Definition MulUpperSignedUnsigned (dst regA regB : Z) : M unit :=
  do! a := reg regA in do! b := reg regB in
  setAndSkip dst (uint64 (big_Int64 (Z.shiftr (int64 a * b) 64))).
Definition SetLessThanUnsigned (dst regA regB : Z) : M unit :=
  do! a := reg regA in do! b := reg regB in setAndSkip dst (bool2uint64 (a <? b)).
Definition SetLessThanSigned (dst regA regB : Z) : M unit :=
  do! a := reg regA in do! b := reg regB in setAndSkip dst (bool2uint64 (int32 a <? int32 b)).
Definition CmovIfZero (dst s c : Z) : M unit :=
  do! v := reg c in
  (if v =? 0 then do! x := reg s in set_reg dst x else ret ());; skip.
Definition CmovIfNotZero (dst s c : Z) : M unit :=
  do! v := reg c in
  (if negb (v =? 0) then do! x := reg s in set_reg dst x else ret ());; skip.
Definition RotateLeft64 (dst regA regB : Z) : M unit :=
  do! a := reg regA in do! b := reg regB in setAndSkip dst (GoLib.RotateLeft64 a (int64 b)).
Definition RotateLeft32 (dst regA regB : Z) : M unit :=
  do! a := reg regA in do! b := reg regB in
  setSextAndSkip dst (GoLib.RotateLeft32 (uint32 a) (int64 b)) 4.
Definition RotateRight64 (dst regA regB : Z) : M unit :=
  do! a := reg regA in do! b := reg regB in
  setAndSkip dst (GoLib.RotateLeft64 a (int64 (- int64 b))).
Definition RotateRight32 (dst regA regB : Z) : M unit :=
  do! a := reg regA in do! b := reg regB in
  setSextAndSkip dst (GoLib.RotateLeft32 (uint32 a) (int64 (- int64 b))) 4.
Definition AndInverted (dst regA regB : Z) : M unit :=
  do! a := reg regA in do! b := reg regB in setAndSkip dst (Z.ldiff a b).
Definition OrInverted (dst regA regB : Z) : M unit :=
  do! a := reg regA in do! b := reg regB in setAndSkip dst (Z.lor a (uint64 (Z.lnot b))).
Definition Xnor (dst regA regB : Z) : M unit :=
  do! a := reg regA in do! b := reg regB in setAndSkip dst (uint64 (Z.lnot (Z.lxor a b))).
Definition Max (dst regA regB : Z) : M unit :=
  do! a := reg regA in do! b := reg regB in setAndSkip dst (uint64 (Z.max (int64 a) (int64 b))).
Definition MaxUnsigned (dst regA regB : Z) : M unit :=
  do! a := reg regA in do! b := reg regB in setAndSkip dst (Z.max a b).
Definition Min (dst regA regB : Z) : M unit :=
  do! a := reg regA in do! b := reg regB in setAndSkip dst (uint64 (Z.min (int64 a) (int64 b))).
Definition MinUnsigned (dst regA regB : Z) : M unit :=
  do! a := reg regA in do! b := reg regB in setAndSkip dst (Z.min a b).

End Mut.
