(* ===== verification/PvmStep.v ===== *)
(** * One step of the machine

    [internal/polkavm/interpreter/step.go]: [step] fetches, charges, decodes by
    argument format and dispatches.  There is one definition per case of its
    outer [switch]; each decodes the operands with the bounds checks the source
    has and runs the method of [PvmMutations]. *)
From S2P Require Export PvmMutations.

(** The [default] case of each inner [switch]. *)
Definition unexpected : M unit := fail (ErrPanic "unexpected opcode %v").

(** [if codeLength < i.instructionCounter + n { return 0, ErrPanicf(...) }] *)
Definition checkCode (n : Z) : M unit :=
  do! i := get in
  if len (code i) <? uint64 (instructionCounter i + n)
  then fail (ErrPanic "out of bound code access") else ret ().

(** [i.code[i.instructionCounter+n]] *)
Definition codeByte (n : Z) : M Z :=
  do! i := get in lift (go_index (code i) (uint64 (instructionCounter i + n))).

(** [jam.Unmarshal(i.code[i.instructionCounter+n:i.instructionCounter+n+length], &value)]
    on a fresh [uint64] *)
Definition immediate (n length : Z) : M Z :=
  do! i := get in
  do! bs := lift (go_slice (code i) (uint64 (instructionCounter i + n))
                    (uint64 (instructionCounter i + n + length))) in
  do! v := lift (map_err ErrJam (Unmarshal (TPrim false Uint64) bs (VNum 0))) in
  ret (num_of v).

(** ... followed by [value = sext(value, length)] *)
Definition immediateSext (n length : Z) : M Z :=
  do! v := immediate n length in lift (sext v length).

(** ... or by [value = i.instructionCounter + sext(value, length)] *)
Definition offset (n length : Z) : M Z :=
  do! v := immediateSext n length in
  do! i := get in ret (uint64 (instructionCounter i + v)).

(** ** The cases of the outer [switch] *)

Definition stepNone (opcode : option Op.t) : M unit :=
  match opcode with
  | Some Op.Trap => Mut.Trap
  | Some Op.Fallthrough => Mut.Fallthrough
  | _ => unexpected
  end.

(** The index of the host call, returned with [ErrHostCall]. *)
Definition stepImm (skip : Z) (opcode : option Op.t) : M Z :=
  let lenX := Z.min 4 skip in
  checkCode (1 + lenX);;
  do! valueX := immediateSext 1 lenX in
  match opcode with
  | Some Op.Ecalli => ret valueX
  | _ => fail (ErrPanic "unexpected opcode %v")
  end.

Definition stepRegImmExt (opcode : option Op.t) : M unit :=
  checkCode 10;;
  do! b := codeByte 1 in
  let regA := Z.min 12 (b `mod` 16) in
  do! valueX := immediate 2 8 in
  match opcode with
  | Some Op.LoadImm64 => Mut.LoadImm64 regA valueX
  | _ => unexpected
  end.

Definition stepImm2 (skip : Z) (opcode : option Op.t) : M unit :=
  checkCode 2;;
  do! b := codeByte 1 in
  let lenX := Z.min 4 (b `mod` 8) in
  let lenY := Z.min 4 (Z.max 0 (skip - lenX - 1)) in
  checkCode (2 + lenX + lenY);;
  do! valueX := immediateSext 2 lenX in
  do! valueY := immediateSext (2 + lenX) lenY in
  match opcode with
  | Some Op.StoreImmU8 => Mut.StoreImmU8 valueX valueY
  | Some Op.StoreImmU16 => Mut.StoreImmU16 valueX valueY
  | Some Op.StoreImmU32 => Mut.StoreImmU32 valueX valueY
  | Some Op.StoreImmU64 => Mut.StoreImmU64 valueX valueY
  | _ => unexpected
  end.

Definition stepOffset (skip : Z) (opcode : option Op.t) : M unit :=
  let lenX := Z.min 4 skip in
  checkCode (1 + lenX);;
  do! valueX := offset 1 lenX in
  match opcode with
  | Some Op.Jump => Mut.Jump valueX
  | _ => unexpected
  end.

Definition stepRegImm (skip : Z) (opcode : option Op.t) : M unit :=
  let lenX := Z.min 4 (Z.max 0 (skip - 1)) in
  checkCode (2 + lenX);;
  do! b := codeByte 1 in
  let regA := Z.min 12 (b `mod` 16) in
  do! valueX := immediateSext 2 lenX in
  match opcode with
  | Some Op.JumpIndirect => Mut.JumpIndirect regA valueX
  | Some Op.LoadImm => Mut.LoadImm regA valueX
  | Some Op.LoadU8 => Mut.LoadU8 regA valueX
  | Some Op.LoadI8 => Mut.LoadI8 regA valueX
  | Some Op.LoadU16 => Mut.LoadU16 regA valueX
  | Some Op.LoadI16 => Mut.LoadI16 regA valueX
  | Some Op.LoadU32 => Mut.LoadU32 regA valueX
  | Some Op.LoadI32 => Mut.LoadI32 regA valueX
  | Some Op.LoadU64 => Mut.LoadU64 regA valueX
  | Some Op.StoreU8 => Mut.StoreU8 regA valueX
  | Some Op.StoreU16 => Mut.StoreU16 regA valueX
  | Some Op.StoreU32 => Mut.StoreU32 regA valueX
  | Some Op.StoreU64 => Mut.StoreU64 regA valueX
  | _ => unexpected
  end.

Definition stepRegImm2 (skip : Z) (opcode : option Op.t) : M unit :=
  checkCode 2;;
  do! b := codeByte 1 in
  let regA := Z.min 12 (b `mod` 16) in
  let lenX := Z.min 4 ((b / 16) `mod` 8) in
  let lenY := Z.min 4 (Z.max 0 (skip - lenX - 1)) in
  checkCode (2 + lenX + lenY);;
  do! valueX := immediateSext 2 lenX in
  do! valueY := immediateSext (2 + lenX) lenY in
  match opcode with
  | Some Op.StoreImmIndirectU8 => Mut.StoreImmIndirectU8 regA valueX valueY
  | Some Op.StoreImmIndirectU16 => Mut.StoreImmIndirectU16 regA valueX valueY
  | Some Op.StoreImmIndirectU32 => Mut.StoreImmIndirectU32 regA valueX valueY
  | Some Op.StoreImmIndirectU64 => Mut.StoreImmIndirectU64 regA valueX valueY
  | _ => unexpected
  end.

Definition stepRegImmOffset (skip : Z) (opcode : option Op.t) : M unit :=
  checkCode 2;;
  do! b := codeByte 1 in
  let regA := Z.min 12 (b `mod` 16) in
  let lenX := Z.min 4 ((b / 16) `mod` 8) in
  let lenY := Z.min 4 (Z.max 0 (skip - lenX - 1)) in
  checkCode (2 + lenX + lenY);;
  do! valueX := immediateSext 2 lenX in
  do! valueY := offset (2 + lenX) lenY in
  match opcode with
  | Some Op.LoadImmAndJump => Mut.LoadImmAndJump regA valueX valueY
  | Some Op.BranchEqImm => Mut.BranchEqImm regA valueX valueY
  | Some Op.BranchNotEqImm => Mut.BranchNotEqImm regA valueX valueY
  | Some Op.BranchLessUnsignedImm => Mut.BranchLessUnsignedImm regA valueX valueY
  | Some Op.BranchLessOrEqualUnsignedImm => Mut.BranchLessOrEqualUnsignedImm regA valueX valueY
  | Some Op.BranchGreaterOrEqualUnsignedImm => Mut.BranchGreaterOrEqualUnsignedImm regA valueX valueY
  | Some Op.BranchGreaterUnsignedImm => Mut.BranchGreaterUnsignedImm regA valueX valueY
  | Some Op.BranchLessSignedImm => Mut.BranchLessSignedImm regA valueX valueY
  | Some Op.BranchLessOrEqualSignedImm => Mut.BranchLessOrEqualSignedImm regA valueX valueY
  | Some Op.BranchGreaterOrEqualSignedImm => Mut.BranchGreaterOrEqualSignedImm regA valueX valueY
  | Some Op.BranchGreaterSignedImm => Mut.BranchGreaterSignedImm regA valueX valueY
  | _ => unexpected
  end.

Definition stepRegReg (opcode : option Op.t) : M unit :=
  checkCode 1;;
  do! b := codeByte 1 in
  let regDst := Z.min 12 (b `mod` 16) in
  let regA := Z.min 12 (b / 16) in
  match opcode with
  | Some Op.MoveReg => Mut.MoveReg regDst regA
  | Some Op.Sbrk => Mut.Sbrk regDst regA
  | Some Op.CountSetBits64 => Mut.CountSetBits64 regDst regA
  | Some Op.CountSetBits32 => Mut.CountSetBits32 regDst regA
  | Some Op.LeadingZeroBits64 => Mut.LeadingZeroBits64 regDst regA
  | Some Op.LeadingZeroBits32 => Mut.LeadingZeroBits32 regDst regA
  | Some Op.TrailingZeroBits64 => Mut.TrailingZeroBits64 regDst regA
  | Some Op.TrailingZeroBits32 => Mut.TrailingZeroBits32 regDst regA
  | Some Op.SignExtend8 => Mut.SignExtend8 regDst regA
  | Some Op.SignExtend16 => Mut.SignExtend16 regDst regA
  | Some Op.ZeroExtend16 => Mut.ZeroExtend16 regDst regA
  | Some Op.ReverseBytes => Mut.ReverseBytes regDst regA
  | _ => unexpected
  end.

Definition stepReg2Imm (skip : Z) (opcode : option Op.t) : M unit :=
  let lenX := Z.min 4 (Z.max 0 (skip - 1)) in
  checkCode (2 + lenX);;
  do! b := codeByte 1 in
  let regA := Z.min 12 (b `mod` 16) in
  let regB := Z.min 12 (b / 16) in
  do! valueX := immediateSext 2 lenX in
  match opcode with
  | Some Op.StoreIndirectU8 => Mut.StoreIndirectU8 regA regB valueX
  | Some Op.StoreIndirectU16 => Mut.StoreIndirectU16 regA regB valueX
  | Some Op.StoreIndirectU32 => Mut.StoreIndirectU32 regA regB valueX
  | Some Op.StoreIndirectU64 => Mut.StoreIndirectU64 regA regB valueX
  | Some Op.LoadIndirectU8 => Mut.LoadIndirectU8 regA regB valueX
  | Some Op.LoadIndirectI8 => Mut.LoadIndirectI8 regA regB valueX
  | Some Op.LoadIndirectU16 => Mut.LoadIndirectU16 regA regB valueX
  | Some Op.LoadIndirectI16 => Mut.LoadIndirectI16 regA regB valueX
  | Some Op.LoadIndirectU32 => Mut.LoadIndirectU32 regA regB valueX
  | Some Op.LoadIndirectI32 => Mut.LoadIndirectI32 regA regB valueX
  | Some Op.LoadIndirectU64 => Mut.LoadIndirectU64 regA regB valueX
  | Some Op.AddImm32 => Mut.AddImm32 regA regB valueX
  | Some Op.AndImm => Mut.AndImm regA regB valueX
  | Some Op.XorImm => Mut.XorImm regA regB valueX
  | Some Op.OrImm => Mut.OrImm regA regB valueX
  | Some Op.MulImm32 => Mut.MulImm32 regA regB valueX
  | Some Op.SetLessThanUnsignedImm => Mut.SetLessThanUnsignedImm regA regB valueX
  | Some Op.SetLessThanSignedImm => Mut.SetLessThanSignedImm regA regB valueX
  | Some Op.ShiftLogicalLeftImm32 => Mut.ShiftLogicalLeftImm32 regA regB valueX
  | Some Op.ShiftLogicalRightImm32 => Mut.ShiftLogicalRightImm32 regA regB valueX
  | Some Op.ShiftArithmeticRightImm32 => Mut.ShiftArithmeticRightImm32 regA regB valueX
  | Some Op.NegateAndAddImm32 => Mut.NegateAndAddImm32 regA regB valueX
  | Some Op.SetGreaterThanUnsignedImm => Mut.SetGreaterThanUnsignedImm regA regB valueX
  | Some Op.SetGreaterThanSignedImm => Mut.SetGreaterThanSignedImm regA regB valueX
  | Some Op.ShiftLogicalLeftImmAlt32 => Mut.ShiftLogicalLeftImmAlt32 regA regB valueX
  | Some Op.ShiftArithmeticRightImmAlt32 => Mut.ShiftLogicalRightImmAlt32 regA regB valueX
  | Some Op.ShiftLogicalRightImmAlt32 => Mut.ShiftArithmeticRightImmAlt32 regA regB valueX
  | Some Op.CmovIfZeroImm => Mut.CmovIfZeroImm regA regB valueX
  | Some Op.CmovIfNotZeroImm => Mut.CmovIfNotZeroImm regA regB valueX
  | Some Op.AddImm64 => Mut.AddImm64 regA regB valueX
  | Some Op.MulImm64 => Mut.MulImm64 regA regB valueX
  | Some Op.ShiftLogicalLeftImm64 => Mut.ShiftLogicalLeftImm64 regA regB valueX
  | Some Op.ShiftLogicalRightImm64 => Mut.ShiftLogicalRightImm64 regA regB valueX
  | Some Op.ShiftArithmeticRightImm64 => Mut.ShiftArithmeticRightImm64 regA regB valueX
  | Some Op.NegateAndAddImm64 => Mut.NegateAndAddImm64 regA regB valueX
  | Some Op.ShiftLogicalLeftImmAlt64 => Mut.ShiftLogicalLeftImmAlt64 regA regB valueX
  | Some Op.ShiftLogicalRightImmAlt64 => Mut.ShiftLogicalRightImmAlt64 regA regB valueX
  | Some Op.ShiftArithmeticRightImmAlt64 => Mut.ShiftArithmeticRightImmAlt64 regA regB valueX
  | Some Op.RotR64Imm => Mut.RotateRight64Imm regA regB valueX
  | Some Op.RotR64ImmAlt => Mut.RotateRight64ImmAlt regA regB valueX
  | Some Op.RotR32Imm => Mut.RotateRight32Imm regA regB valueX
  | Some Op.RotR32ImmAlt => Mut.RotateRight32ImmAlt regA regB valueX
  | _ => unexpected
  end.

Definition stepReg2Offset (skip : Z) (opcode : option Op.t) : M unit :=
  let lenX := Z.min 4 (Z.max 0 (skip - 1)) in
  checkCode (2 + lenX);;
  do! b := codeByte 1 in
  let regA := Z.min 12 (b `mod` 16) in
  let regB := Z.min 12 (b / 16) in
  do! valueX := offset 2 lenX in
  match opcode with
  | Some Op.BranchEq => Mut.BranchEq regA regB valueX
  | Some Op.BranchNotEq => Mut.BranchNotEq regA regB valueX
  | Some Op.BranchLessUnsigned => Mut.BranchLessUnsigned regA regB valueX
  | Some Op.BranchLessSigned => Mut.BranchLessSigned regA regB valueX
  | Some Op.BranchGreaterOrEqualUnsigned => Mut.BranchGreaterOrEqualUnsigned regA regB valueX
  | Some Op.BranchGreaterOrEqualSigned => Mut.BranchGreaterOrEqualSigned regA regB valueX
  | _ => unexpected
  end.

Definition stepReg2Imm2 (skip : Z) (opcode : option Op.t) : M unit :=
  checkCode 3;;
  do! b := codeByte 1 in
  let regA := Z.min 12 (b `mod` 16) in
  let regB := Z.min 12 (b / 16) in
  do! c := codeByte 2 in
  let lenX := Z.min 4 (c `mod` 8) in
  let lenY := Z.min 4 (Z.max 0 (skip - lenX - 2)) in
  checkCode (3 + lenX + lenY);;
  do! valueX := immediate 3 lenX in
  do! valueY := immediateSext (3 + lenX) lenY in
  match opcode with
  | Some Op.LoadImmAndJumpIndirect => Mut.LoadImmAndJumpIndirect regA regB valueX valueY
  | _ => unexpected
  end.

(** The inner [switch] of the three-register format. *)
Definition execReg3 (opcode : option Op.t) (regDst regA regB : Z) : M unit :=
  match opcode with
  | Some Op.Add32 => Mut.Add32 regDst regA regB
  | Some Op.Sub32 => Mut.Sub32 regDst regA regB
  | Some Op.Mul32 => Mut.Mul32 regDst regA regB
  | Some Op.DivUnsigned32 => Mut.DivUnsigned32 regDst regA regB
  | Some Op.DivSigned32 => Mut.DivSigned32 regDst regA regB
  | Some Op.RemUnsigned32 => Mut.RemUnsigned32 regDst regA regB
  | Some Op.RemSigned32 => Mut.RemSigned32 regDst regA regB
  | Some Op.ShiftLogicalLeft32 => Mut.ShiftLogicalLeft32 regDst regA regB
  | Some Op.ShiftLogicalRight32 => Mut.ShiftLogicalRight32 regDst regA regB
  | Some Op.ShiftArithmeticRight32 => Mut.ShiftArithmeticRight32 regDst regA regB
  | Some Op.Add64 => Mut.Add64 regDst regA regB
  | Some Op.Sub64 => Mut.Sub64 regDst regA regB
  | Some Op.Mul64 => Mut.Mul64 regDst regA regB
  | Some Op.DivUnsigned64 => Mut.DivUnsigned64 regDst regA regB
  | Some Op.DivSigned64 => Mut.DivSigned64 regDst regA regB
  | Some Op.RemUnsigned64 => Mut.RemUnsigned64 regDst regA regB
  | Some Op.RemSigned64 => Mut.RemSigned64 regDst regA regB
  | Some Op.ShiftLogicalLeft64 => Mut.ShiftLogicalLeft64 regDst regA regB
  | Some Op.ShiftLogicalRight64 => Mut.ShiftLogicalRight64 regDst regA regB
  | Some Op.ShiftArithmeticRight64 => Mut.ShiftArithmeticRight64 regDst regA regB
  | Some Op.And => Mut.And regDst regA regB
  | Some Op.Xor => Mut.Xor regDst regA regB
  | Some Op.Or => Mut.Or regDst regA regB
  | Some Op.MulUpperSignedSigned => Mut.MulUpperSignedSigned regDst regA regB
  | Some Op.MulUpperUnsignedUnsigned => Mut.MulUpperUnsignedUnsigned regDst regA regB
  | Some Op.MulUpperSignedUnsigned => Mut.MulUpperSignedUnsigned regDst regA regB
  | Some Op.SetLessThanUnsigned => Mut.SetLessThanUnsigned regDst regA regB
  | Some Op.SetLessThanSigned => Mut.SetLessThanSigned regDst regA regB
  | Some Op.CmovIfZero => Mut.CmovIfZero regDst regA regB
  | Some Op.CmovIfNotZero => Mut.CmovIfNotZero regDst regA regB
  | Some Op.RotL64 => Mut.RotateLeft64 regDst regA regB
  | Some Op.RotL32 => Mut.RotateLeft32 regDst regA regB
  | Some Op.RotR64 => Mut.RotateRight64 regDst regA regB
  | Some Op.RotR32 => Mut.RotateRight32 regDst regA regB
  | Some Op.AndInv => Mut.AndInverted regDst regA regB
  | Some Op.OrInv => Mut.OrInverted regDst regA regB
  | Some Op.Xnor => Mut.Xnor regDst regA regB
  | Some Op.Max => Mut.Max regDst regA regB
  | Some Op.MaxU => Mut.MaxUnsigned regDst regA regB
  | Some Op.Min => Mut.Min regDst regA regB
  | Some Op.MinU => Mut.MinUnsigned regDst regA regB
  | _ => unexpected
  end.

Definition stepReg3 (opcode : option Op.t) : M unit :=
  checkCode 2;;
  do! b := codeByte 1 in
  let regA := Z.min 12 (b `mod` 16) in
  let regB := Z.min 12 (b / 16) in
  do! d := codeByte 2 in
  let regDst := Z.min 12 d in
  execReg3 opcode regDst regA regB.

(** The outer [switch]; [Some h] is [return h, ErrHostCall]. *)
Definition dispatch (skip : Z) (opcode : option Op.t) : M (option Z) :=
  match Op.InstructionForType opcode with
  | Op.InstrImm => do! h := stepImm skip opcode in ret (Some h)
  | t =>
      match t with
      | Op.InstrNone => stepNone opcode
      | Op.InstrRegImmExt => stepRegImmExt opcode
      | Op.InstrImm2 => stepImm2 skip opcode
      | Op.InstrOffset => stepOffset skip opcode
      | Op.InstrRegImm => stepRegImm skip opcode
      | Op.InstrRegImm2 => stepRegImm2 skip opcode
      | Op.InstrRegImmOffset => stepRegImmOffset skip opcode
      | Op.InstrRegReg => stepRegReg opcode
      | Op.InstrReg2Imm => stepReg2Imm skip opcode
      | Op.InstrReg2Offset => stepReg2Offset skip opcode
      | Op.InstrReg2Imm2 => stepReg2Imm2 skip opcode
      | _ => stepReg3 opcode
      end;;
      ret None
  end.

Definition step : M (option Z) :=
  do! i := get in
  do! skip := lift (Skip (instructionCounter i) (bitmask i)) in
  do! b := lift (go_index (code i) (instructionCounter i)) in
  let opcode := Op.of_byte b in
  deductGas (Op.GasCosts opcode);;
  dispatch skip opcode.
