(* ===== verification/PvmInvoke.v ===== *)
(** * Running a program

    [internal/polkavm/interpreter/invocations.go]: the step loop ([Invoke]), the
    loop that serves host calls ([InvokeHostCall]) and the entry point for a
    whole program ([InvokeWholeProgram]).  The loops of the source have no bound
    of their own; the model gives each a number of turns and [None] when it is
    used up. *)
From S2P Require Export PvmStep.

(** The result of [Invoke]: the host call index, the error and the instance. *)
Inductive stop : Type :=
| Stop (hostCall : Z) (e : pvm_error) (i : Instance)
| StopCrash.

Fixpoint Invoke (turns : nat) (i : Instance) : option stop :=
  match turns with
  | O => None
  | S turns =>
      match step i with
      | Done None i => Invoke turns i
      | Done (Some h) i => Some (Stop h ErrHostCall i)
      | Failed e i => Some (Stop 0 e i)
      | Crashed => Some StopCrash
      end
  end.

(** [HostCall[X]]: all five results, the error included, or a runtime panic. *)
Inductive host_result (X : Type) : Type :=
| HostReturn (gas : Z) (regs : Registers) (mem : Memory) (x : X) (err : option pvm_error)
| HostCrash.
Arguments HostReturn {X} _ _ _ _ _.
Arguments HostCrash {X}.

Definition HostCall (X : Type) : Type := Z → Z → Registers → Memory → X → host_result X.

(** The results of [InvokeHostCall] and the instance it leaves. *)
Inductive served (X : Type) : Type :=
| Served (x : X) (err : option pvm_error) (i : Instance)
| ServedCrash.
Arguments Served {X} _ _ _.
Arguments ServedCrash {X}.

Section host.
Context {X : Type} (hostCall : HostCall X).

Fixpoint InvokeHostCall (calls turns : nat) (i : Instance) (x : X) : option (served X) :=
  match calls with
  | O => None
  | S calls =>
      match Invoke turns i with
      | None => None
      | Some StopCrash => Some ServedCrash
      | Some (Stop hostCallIndex err i) =>
          if decide (err = ErrHostCall) then
            match hostCall hostCallIndex (gasRemaining i) (regs i) (memory i) x with
            | HostCrash => Some ServedCrash
            | HostReturn gas rs mem x err =>
                let i := with_gas gas (with_regs rs (with_memory mem i)) in
                match err with
                | Some e => Some (Served x (Some e) i)
                | None =>
                    match skip i with
                    | Done _ i => InvokeHostCall calls turns i x
                    | _ => Some ServedCrash
                    end
                end
            end
          else Some (Served x None i)
      end
  end.

Definition Results (i : Instance) : Z * Z * Registers * Memory :=
  (instructionCounter i, gasRemaining i, regs i, memory i).

(** [(Gas, []byte, X, error)] *)
Inductive whole : Type :=
| Whole (gas : Z) (result : list Z) (x : X) (err : option pvm_error)
| WholeCrash.

(** The three calls before the program runs, their errors turned into panics. *)
Definition prepare (p : list Z) (entryPoint initialGas : Z) (args : list Z)
  : res pvm_error Instance :=
  map_err ErrPanicOf
    (let! program := ParseBlob p in
     let! (ram, regs) := InitializeStandardProgram program args in
     Instantiate (CodeAndJumpTable program) entryPoint (int64 initialGas) regs ram).

Definition InvokeWholeProgram (calls turns : nat) (p : list Z) (entryPoint initialGas : Z)
    (args : list Z) (x : X) : option whole :=
  match prepare p entryPoint initialGas args with
  | RuntimePanic => Some WholeCrash
  | Err e => Some (Whole 0 [] x (Some e))
  | Ok i =>
      match InvokeHostCall calls turns i x with
      | None => None
      | Some ServedCrash => Some WholeCrash
      | Some (Served _ (Some e) _) => Some (Whole 0 [] x (Some e))
      | Some (Served x1 None i) =>
          let '(_, gas, rs, memory1) := Results i in
          match (let! a0 := go_index rs A0 in
                 let! a1 := go_index rs A1 in
                 let! _ := go_make 1 a0 0 in
                 Read memory1 a1 a0) with
          | Ok result => Some (Whole gas result x1 None)
          | Err e => Some (Whole 0 [] x (Some e))
          | RuntimePanic => Some WholeCrash
          end
      end
  end.
End host.
Arguments Whole {X} _ _ _ _.
Arguments WholeCrash {X}.
