(* ===== verification/PvmLogic.v ===== *)
(** * A program logic for interpreter methods

    Weakest preconditions for the monad of [PvmInstance], the well-formedness
    invariant of instances and proof rules for the primitives the instructions
    are built from.  The rules are registered in the hint database [pvm]. *)
From S2P Require Export PvmMemoryProps PvmStep.

(** ** Well-formed instances *)

(** The next instruction: what [skip] sets the counter to. *)
Definition next_pc (i : Instance) : Z :=
  instructionCounter i + 1
  + Skip_loop 0 (drop (Z.to_nat (instructionCounter i + 1)) (bitmask i)).

Record code_wf (code : list Z) (bitmask : list bool) (jumpTable : list Z) (blocks : gset Z)
  : Prop := CodeWf {
  cw_bytes : bytes_ok code;
  cw_len : len code < 2 ^ 48;
  cw_bitmask : length bitmask = length code;
  cw_last : last code = Some 0;
  cw_bitmask_last : last bitmask = Some true;
  cw_jumpTable : Forall (inU 64) jumpTable;
  cw_jumpTable_len : len jumpTable < 2 ^ 48;
  cw_blocks : ∀ b, b ∈ blocks → 0 ≤ b < len code;
}.

Definition regs_wf (rs : Registers) : Prop := length rs = 13%nat ∧ Forall (inU 64) rs.

Record wf (i : Instance) : Prop := Wf {
  wf_code : code_wf (code i) (bitmask i) (jumpTable i) (basicBlockInstructions i);
  wf_mem : mem_wf (memory i);
  wf_regs : regs_wf (regs i);
  wf_ic : 0 ≤ instructionCounter i < len (code i);
  wf_gas : inS 64 (gasRemaining i);
}.

(** ** [Skip] *)

Lemma Skip_eq ic (bm : list bool) :
  0 ≤ ic < len bm → len bm < 2 ^ 48 →
  Skip ic bm = Ok (Skip_loop 0 (drop (Z.to_nat (ic + 1)) bm)).
Proof.
  intros H1 H2. unfold Skip. rewrite uint64_small by lia. unfold go_slice_from.
  rewrite go_slice_ok by lia. cbn [rbind]. rewrite take_ge; [done|].
  rewrite length_drop. unfold len in *. lia.
Qed.

Lemma Skip_loop_bounds i l :
  0 ≤ i →
  0 ≤ Skip_loop i l ≤ BitmaskMax ∧ (Skip_loop i l = 0 ∨ Skip_loop i l < i + len l).
Proof.
  revert i. induction l as [|b l IH]; intros i Hi; simpl; [unfold BitmaskMax; lia|].
  unfold len in *. simpl. unfold BitmaskMax in *.
  destruct (Z.gtb_spec i 24); [lia|]. destruct b; [lia|].
  specialize (IH (i + 1)). lia.
Qed.

(** The three ways the loop ends. *)
Lemma Skip_loop_exact_from i l :
  0 ≤ i ≤ BitmaskMax + 1 →
  let s := Skip_loop i l in
  (i ≤ s ∧ l !! Z.to_nat (s - i) = Some true ∧
   ∀ k, (k < Z.to_nat (s - i))%nat → l !! k = Some false)
  ∨ (s = BitmaskMax ∧ BitmaskMax + 1 - i < len l ∧
     ∀ k, (k < Z.to_nat (BitmaskMax + 1 - i))%nat → l !! k = Some false)
  ∨ (s = 0 ∧ len l ≤ BitmaskMax + 1 - i ∧ ∀ k b, l !! k = Some b → b = false).
Proof.
  revert i. induction l as [|b l IH]; intros i Hi; cbn [Skip_loop]; cbv zeta.
  { right. right. split_and!; [done|unfold len; simpl; lia|]. intros k b. by rewrite lookup_nil. }
  assert (len (b :: l) = 1 + len l) as Hl by (unfold len; simpl; lia). pose proof (len_nonneg l).
  destruct (Z.gtb_spec i BitmaskMax).
  { right. left. split_and!; [done|lia|]. intros k Hk. lia. }
  destruct b. { left. rewrite Z.sub_diag. split_and!; [lia|done|]. intros k Hk. lia. }
  specialize (IH (i + 1) ltac:(lia)). cbv zeta in IH. set (s := Skip_loop (i + 1) l) in *.
  destruct IH as [(Hs & Ht & Hf)|[(Hs & Hn & Hf)|(Hs & Hn & Hf)]].
  - left. replace (Z.to_nat (s - i)) with (S (Z.to_nat (s - (i + 1)))) by lia.
    split_and!; [lia|done|]. intros [|k] Hk; [done|]. apply Hf. lia.
  - right. left. split_and!; [done|lia|]. intros [|k] Hk; [done|]. apply Hf. lia.
  - right. right. split_and!; [done|lia|]. intros [|k] c; simpl; [by intros [= <-]|]. apply Hf.
Qed.

Lemma Skip_loop_exact l :
  let s := Skip_loop 0 l in
  (l !! Z.to_nat s = Some true ∧ ∀ k, (k < Z.to_nat s)%nat → l !! k = Some false)
  ∨ (s = BitmaskMax ∧ BitmaskMax + 1 < len l ∧
     ∀ k, (k ≤ Z.to_nat BitmaskMax)%nat → l !! k = Some false)
  ∨ (s = 0 ∧ len l ≤ BitmaskMax + 1 ∧ ∀ k b, l !! k = Some b → b = false).
Proof.
  cbv zeta. destruct (Skip_loop_exact_from 0 l) as [(_ & H)|[(H1 & H2 & H3)|H]];
    [unfold BitmaskMax; lia|left|right; left|right; right].
  - by rewrite Z.sub_0_r in H.
  - split_and!; [done|lia|]. intros k Hk. apply H3. unfold BitmaskMax in *. lia.
  - by rewrite Z.sub_0_r in H.
Qed.

(** Where the bitmask ends in a set bit, the skip stays inside it. *)
Lemma Skip_loop_last i l :
  0 ≤ i → last l = Some true → Skip_loop i l < i + len l.
Proof.
  revert i. induction l as [|b l IH]; intros i Hi Hl; [done|]. unfold len in *. simpl.
  unfold BitmaskMax in *. destruct (Z.gtb_spec i 24); [lia|]. destruct b; [lia|].
  destruct l as [|b' l]; [done|]. specialize (IH (i + 1) ltac:(lia) Hl). lia.
Qed.

Lemma last_drop {A} (l : list A) n : (n < length l)%nat → last (drop n l) = last l.
Proof.
  revert n. induction l as [|x l IH]; intros [|n] Hn; simpl in *; try lia; [done|].
  rewrite IH by lia. destruct l; simpl in *; [lia|done].
Qed.

Lemma next_pc_bounds i :
  wf i → instructionCounter i + 1 < len (code i) →
  instructionCounter i < next_pc i < len (code i).
Proof.
  intros [[_ Hlen Hbm _ Hlast _ _] _ _ Hic _] Hlt. unfold next_pc.
  set (n := Z.to_nat (instructionCounter i + 1)).
  destruct (Skip_loop_bounds 0 (drop n (bitmask i))) as [H1 _]; [lia|].
  pose proof (Skip_loop_last 0 (drop n (bitmask i)) ltac:(lia)) as H2.
  rewrite last_drop in H2 by (subst n; unfold len in *; lia). specialize (H2 Hlast).
  unfold len in *. rewrite length_drop in H2. subst n. lia.
Qed.

(** ** Evolution of the memory *)

(** What a step may do to memory: segments keep their place and rights, only the
    heap changes size, and only writable segments and the heap change; the heap
    not, if there is no room for it below the stack. *)
Definition mem_step (m m' : Memory) : Prop :=
  ∀ s, seg_address (get_seg m' s) = seg_address (get_seg m s) ∧
       seg_access (get_seg m' s) = seg_access (get_seg m s) ∧
       (s ≠ SegRW → length (seg_data (get_seg m' s)) = length (seg_data (get_seg m s))) ∧
       (s ≠ SegRW ∨ seg_address (mem_stack m) = 0 → seg_access (get_seg m s) ≠ ReadWrite →
        seg_data (get_seg m' s) = seg_data (get_seg m s)).

#[export] Instance mem_step_preorder : PreOrder mem_step.
Proof.
  split; [done|]. intros m1 m2 m3 H12 H23 s. destruct (H12 s) as (A1 & A2 & A3 & A4).
  destruct (H23 s) as (B1 & B2 & B3 & B4). split_and!; [congruence..| |].
  - intros Hs. rewrite B3, A3 by done. done.
  - intros Hs Ha. destruct (H12 SegStack) as [Hst _]. simpl in Hst.
    rewrite B4, A4 by (congruence || (destruct Hs; [by left|right; congruence])). done.
Qed.

Lemma Write_wraps m address data :
  mem_wf m → 0 ≤ address < 2 ^ 64 → len data ≤ 2 ^ 48 → 2 ^ 64 ≤ address + len data →
  ∀ m', Write m address data ≠ Ok m'.
Proof.
  intros Hm Ha Hn Hw m'. unfold Write. destruct (address <? 2 ^ 16); [done|].
  unfold select. destruct (first_segment _ m) as [s|]; [|by cbn]. cbv zeta.
  destruct (Hm s) as (H1 & H2 & _). pose proof (len_nonneg (seg_data (get_seg m s))).
  rewrite go_slice_panic; [done|]. set (lo := address - seg_address (get_seg m s)).
  destruct (decide (lo + len data < 2 ^ 64)).
  - rewrite uint64_small by (subst lo; lia). right. right. subst lo. lia.
  - right. left. unfold uint64, wrapU. rewrite <- (Z.mod_add _ (-1)) by lia.
    rewrite Z.mod_small; subst lo; lia.
Qed.

Lemma Write_step m address data m' :
  mem_wf m → 0 ≤ address < 2 ^ 64 → len data ≤ 2 ^ 48 → bytes_ok data →
  Write m address data = Ok m' → mem_wf m' ∧ mem_step m m'.
Proof.
  intros Hm [Ha Ha'] Hn Hd HW. destruct (decide (address + len data < 2 ^ 64)) as [Hlt|Hge].
  2:{ by apply Write_wraps in HW; [|done|done|done|lia]. }
  split; [by eapply Write_wf|].
  pose proof (Write_shape _ _ _ _ Hm Ha Hlt HW) as Hsh.
  destruct (Write_inv _ _ _ _ Hm Ha Hlt HW) as (s & _ & _ & Hacc & _ & _ & ->).
  intros s'. destruct (Hsh s') as (H1 & H2 & H3). split_and!; try done. intros _ Hro.
  rewrite get_set_seg. destruct (decide (s = s')) as [<-|]; [done|done].
Qed.

Lemma Sbrk_step m size p m' :
  mem_wf m → 0 ≤ size < 2 ^ 64 → Sbrk m size = Ok (p, m') →
  inU 64 p ∧ mem_wf m' ∧ mem_step m m'.
Proof.
  intros Hm Hs. pose proof (Hm SegStack) as (Hst & _). pose proof (Hm SegRW) as (Hrw & _).
  simpl in *. unfold Sbrk. cbv zeta.
  destruct (size =? 0).
  { intros [= <- <-]. split_and!; [apply wrapU_range; lia|done|done]. }
  set (h := uint64 (_ + len _)). set (n := uint64 (h + size)).
  assert (inU 64 n) as Hn by (apply wrapU_range; lia). unfold inU in Hn.
  destruct (Z.geb_spec n (seg_address (mem_stack m))); [done|].
  destruct (n >? h).
  - destruct (alignToPage_bounds n) as [B B']; [lia|]. unfold PageSize in *.
    rewrite go_make_small by (unfold maxAlloc; lia). cbn [rbind]. intros [= <- <-].
    split; [apply wrapU_range; lia|]. split; intros []; try done; try apply (Hm SegStack);
      try apply (Hm SegRO); try apply (Hm SegArgs).
    2:{ split_and!; [done..|]. intros [|]; [done|lia]. }
    split; simpl; [done|]. rewrite len_replicate. split; [|by apply Forall_replicate].
    pose proof (Z.div_mod (alignToPage n) (2 ^ 12) ltac:(lia)). lia.
  - cbn [rbind]. intros [= <- <-]. split_and!; [apply wrapU_range; lia|done|done].
Qed.

Lemma Sbrk_no_crash m size : mem_wf m → 0 ≤ size < 2 ^ 64 → Sbrk m size ≠ RuntimePanic.
Proof.
  intros Hm Hs. pose proof (Hm SegStack) as (Hst & _). simpl in *. unfold Sbrk. cbv zeta.
  destruct (size =? 0); [done|]. set (h := uint64 (_ + len _)). set (n := uint64 (h + size)).
  assert (inU 64 n) as Hn by (apply wrapU_range; lia). unfold inU in Hn.
  destruct (Z.geb_spec n (seg_address (mem_stack m))); [done|].
  destruct (n >? h); [|done].
  destruct (alignToPage_bounds n) as [B B']; [lia|]. unfold PageSize in *.
  by rewrite go_make_small by (unfold maxAlloc; lia).
Qed.
