(* ===== verification/PvmTriples.v ===== *)
(** * Triples for the primitives of the interpreter

    A method run by an instruction starts in a state that agrees with the
    instance at the beginning of the step on everything but registers and
    memory, and ends in one whose counter is at the next instruction or at the
    start of a basic block.  [method C c] states this of [c], [value C P c] that
    [c] computes a value with [P] and leaves the counter alone; [C] is the
    circumstance in which [c] may crash.  The rules form the database [pvm]. *)
From S2P Require Export PvmLogic.

(** ** Machine words *)

Create HintDb inU discriminated.

Section inU.
Lemma inU_mono v w x : 0 ≤ v ≤ w → inU v x → inU w x.
Proof.
  unfold inU. intros H Hx. assert (2 ^ v ≤ 2 ^ w) by (apply Z.pow_le_mono_r; lia). lia.
Qed.

Lemma inU_uint64 x : inU 64 (uint64 x).
Proof. by apply wrapU_range. Qed.
Lemma inU_uint32 x : inU 32 (uint32 x).
Proof. by apply wrapU_range. Qed.
Lemma inU_uint32_64 x : inU 64 (uint32 x).
Proof. apply (inU_mono 32); [lia|apply inU_uint32]. Qed.
Lemma inU_uint16_64 x : inU 64 (uint16 x).
Proof. apply (inU_mono 16); [lia|by apply wrapU_range]. Qed.
Lemma inU_uint8_64 x : inU 64 (uint8 x).
Proof. apply (inU_mono 8); [lia|by apply wrapU_range]. Qed.

(** A number is in range when its high bits are zero. *)
Lemma inU_bits w x :
  0 ≤ w → (∀ i, w ≤ i → Z.testbit x i = false) → inU w x.
Proof.
  intros Hw H. apply wrapU_small_iff; [done|]. rewrite wrapU_land_ones by done.
  apply Z.bits_inj'. intros i Hi. rewrite Z.land_spec, Z.testbit_ones_nonneg by lia.
  destruct (Z.ltb_spec i w); [by rewrite andb_true_r|]. by rewrite H.
Qed.
Lemma inU_testbit w x i : 0 ≤ w ≤ i → inU w x → Z.testbit x i = false.
Proof.
  intros Hi Hx. rewrite <- (wrapU_id w x Hx). unfold wrapU.
  by rewrite Z.mod_pow2_bits_high by lia.
Qed.

Lemma inU_land x y : inU 64 x → inU 64 (Z.land x y).
Proof. intros H. apply inU_bits; [lia|]. intros i Hi. by rewrite Z.land_spec, (inU_testbit 64). Qed.
Lemma inU_lor x y : inU 64 x → inU 64 y → inU 64 (Z.lor x y).
Proof. intros. apply inU_bits; [lia|]. intros i Hi. by rewrite Z.lor_spec, !(inU_testbit 64). Qed.
Lemma inU_lxor x y : inU 64 x → inU 64 y → inU 64 (Z.lxor x y).
Proof. intros. apply inU_bits; [lia|]. intros i Hi. by rewrite Z.lxor_spec, !(inU_testbit 64). Qed.
Lemma inU_ldiff x y : inU 64 x → inU 64 (Z.ldiff x y).
Proof. intros H. apply inU_bits; [lia|]. intros i Hi. by rewrite Z.ldiff_spec, (inU_testbit 64). Qed.

Lemma inU_go_shr w x s : 0 ≤ w → 0 ≤ s → inU w x → inU w (go_shr w x s).
Proof.
  intros Hw Hs Hx. rewrite go_shr_small by done. rewrite Z.shiftr_div_pow2 by done.
  destruct Hx. assert (0 < 2 ^ s) by (apply Z.pow_pos_nonneg; lia). split; [by apply Z.div_pos|].
  apply Z.div_lt_upper_bound; [done|]. nia.
Qed.
Lemma inU_go_shr64 x s : 0 ≤ s → inU 64 x → inU 64 (go_shr 64 x s).
Proof. intros. apply inU_go_shr; [lia|done..]. Qed.

Lemma inU_div x y : inU 64 x → inU 64 y → inU 64 (x / y).
Proof.
  unfold inU. intros Hx Hy. destruct (decide (y = 0)) as [->|]; [by rewrite Z.div_0_r|].
  split; [apply Z.div_pos; lia|]. apply Z.div_lt_upper_bound; [lia|]. nia.
Qed.
Lemma inU_mod x y : inU 64 x → inU 64 y → inU 64 (x `mod` y).
Proof.
  unfold inU. intros Hx Hy. destruct (decide (y = 0)) as [->|]; [by rewrite Z.mod_0_r|].
  pose proof (Z.mod_pos_bound x y ltac:(lia)). lia.
Qed.
Lemma inU_max x y : inU 64 x → inU 64 y → inU 64 (Z.max x y).
Proof. unfold inU. lia. Qed.
Lemma inU_min x y : inU 64 x → inU 64 y → inU 64 (Z.min x y).
Proof. unfold inU. lia. Qed.

Lemma inU_RotateLeft j x k : 0 ≤ j → inU (2 ^ j) x → inU (2 ^ j) (RotateLeft (2 ^ j) x k).
Proof.
  intros Hj Hx. unfold RotateLeft. cbv zeta. rewrite Z.sub_1_r, <- Z.ones_equiv, Z.land_ones by done.
  assert (0 < 2 ^ j) by (apply Z.pow_pos_nonneg; lia).
  pose proof (Z.mod_pos_bound (uint64 k) (2 ^ j) ltac:(done)).
  set (w := 2 ^ j) in *. set (s := uint64 k `mod` w) in *.
  assert (inU w (go_shr w x (w - s))) as H1 by (apply inU_go_shr; lia || done).
  assert (inU w (wrapU w (go_shl w x s))) as H2 by (apply wrapU_range; lia).
  apply inU_bits; [lia|]. intros i Hi. rewrite Z.lor_spec, !(inU_testbit w); done || lia.
Qed.
Lemma inU_RotateLeft64 x k : inU 64 x → inU 64 (RotateLeft64 x k).
Proof. by apply (inU_RotateLeft 6). Qed.

Lemma inU_ReverseBytes64 x : inU 64 (ReverseBytes64 x).
Proof.
  unfold ReverseBytes64, inU.
  pose proof (le_value_bound (rev (Z_to_little_endian 8 8 x))) as H.
  unfold len in H. rewrite length_rev in H. change (Z.of_nat (length ?l)) with (len l) in H.
  rewrite len_le in H by lia. apply H. apply Forall_rev. by apply le_bytes_ok.
Qed.

Lemma inU_bool2uint64 b : inU 64 (bool2uint64 b).
Proof. by destruct b. Qed.
Lemma inU_MaxUint64 : inU 64 MaxUint64.
Proof. done. Qed.
Lemma inU_0 : inU 64 0.
Proof. done. Qed.
Lemma inU_if (b : bool) x y : inU 64 x → inU 64 y → inU 64 (if b then x else y).
Proof. by destruct b. Qed.
End inU.

#[export] Hint Resolve inU_uint64 inU_uint32_64 inU_uint16_64 inU_uint8_64 inU_land inU_lor
  inU_lxor inU_ldiff inU_go_shr64 inU_div inU_mod inU_max inU_min inU_RotateLeft64
  inU_ReverseBytes64 inU_bool2uint64 inU_MaxUint64 inU_0 inU_if : inU.

Lemma inU_nonneg x : inU 64 x → 0 ≤ x.
Proof. unfold inU. lia. Qed.
#[export] Hint Resolve inU_nonneg : inU.

(** ** Weakest preconditions *)

Definition wp {A} (C : Prop) (c : M A) (Q : A → Instance → Prop)
    (E : pvm_error → Instance → Prop) (i : Instance) : Prop :=
  match c i with
  | Done a i' => Q a i'
  | Failed e i' => E e i'
  | Crashed => C
  end.

Lemma wp_bind {A B} C (c : M A) (k : A → M B) Q E i :
  wp C c (λ a i', wp C (k a) Q E i') E i → wp C (bind c k) Q E i.
Proof. unfold wp, bind. by destruct (c i). Qed.

Lemma wp_lift {A} (C : Prop) (r : res pvm_error A) (Q : A → Instance → Prop)
    (E : pvm_error → Instance → Prop) i :
  (∀ a, r = Ok a → Q a i) → (∀ e, r = Err e → E e i) → (r = RuntimePanic → C) →
  wp C (lift r) Q E i.
Proof. unfold wp, lift. destruct r; eauto. Qed.

(** ** Exit reasons *)

(** The errors an instruction may stop with. *)
Definition exit_reason (e : pvm_error) : Prop :=
  match e with
  | ErrPanic _ | ErrHalt => True
  | ErrPageFault _ address => inU 64 address
  | _ => False
  end.

(** What every instruction leaves as it was. *)
Record kept (i0 i : Instance) : Prop := Kept {
  kept_code : code i = code i0;
  kept_jumpTable : jumpTable i = jumpTable i0;
  kept_bitmask : bitmask i = bitmask i0;
  kept_blocks : basicBlockInstructions i = basicBlockInstructions i0;
  kept_gas : gasRemaining i = gasRemaining i0;
  kept_regs : regs_wf (regs i);
  kept_mem_wf : mem_wf (memory i);
  kept_mem : mem_step (memory i0) (memory i);
}.

Lemma kept_refl i : wf i → kept i i.
Proof. intros []. by split. Qed.

Section triples.
Context (i0 : Instance) (Hwf : wf i0).

Definition inside (i : Instance) : Prop :=
  kept i0 i ∧ instructionCounter i = instructionCounter i0.

Definition finished (i : Instance) : Prop :=
  kept i0 i ∧ (instructionCounter i = next_pc i0 ∨
               instructionCounter i ∈ basicBlockInstructions i0).

Definition stopped (e : pvm_error) (i : Instance) : Prop :=
  kept i0 i ∧ exit_reason e ∧
  (instructionCounter i = instructionCounter i0 ∨ instructionCounter i = next_pc i0).

Definition value {A} (C : Prop) (P : A → Prop) (c : M A) : Prop :=
  ∀ i, inside i → wp C c (λ a i', P a ∧ inside i') stopped i.

Definition method (C : Prop) (c : M unit) : Prop :=
  ∀ i, inside i → wp C c (λ _ i', finished i') stopped i.

(** *** Structural rules *)

Lemma method_bind {A} C (P : A → Prop) (c : M A) (k : A → M unit) :
  value C P c → (∀ a, P a → method C (k a)) → method C (bind c k).
Proof.
  intros Hc Hk i Hi. apply wp_bind. specialize (Hc i Hi). unfold wp in *.
  destruct (c i); try done. destruct Hc as [HP Hin]. by apply Hk.
Qed.

Lemma value_bind {A B} C (P : A → Prop) (R : B → Prop) (c : M A) (k : A → M B) :
  value C P c → (∀ a, P a → value C R (k a)) → value C R (bind c k).
Proof.
  intros Hc Hk i Hi. apply wp_bind. specialize (Hc i Hi). unfold wp in *.
  destruct (c i); try done. destruct Hc as [HP Hin]. by apply Hk.
Qed.

Lemma value_mono {A} C (P R : A → Prop) (c : M A) :
  value C P c → (∀ a, P a → R a) → value C R c.
Proof.
  intros Hc HPR i Hi. specialize (Hc i Hi). unfold wp in *. destruct (c i); try done.
  destruct Hc. auto.
Qed.

Lemma method_fail C e : exit_reason e → method C (fail e).
Proof. intros He i [Hk Hic]. unfold wp. simpl. split_and!; eauto. Qed.

Lemma value_fail {A} C (P : A → Prop) e : exit_reason e → value C P (fail e).
Proof. intros He i [Hk Hic]. unfold wp. simpl. split_and!; eauto. Qed.

Lemma value_ret {A} C (P : A → Prop) a : P a → value C P (ret a).
Proof. intros Ha i Hi. by split. Qed.

Lemma value_get C : value C inside get.
Proof. intros i Hi. by split. Qed.

Lemma value_lift {A} C (P : A → Prop) (r : res pvm_error A) :
  (∀ a, r = Ok a → P a) → (∀ e, r = Err e → exit_reason e) → (r = RuntimePanic → C) →
  value C P (lift r).
Proof.
  intros H1 H2 H3 i [Hk Hic]. apply wp_lift; [|intros e He|done].
  - intros a Ha. split; [by apply H1|done].
  - split_and!; eauto.
Qed.

Lemma method_if C (b : bool) c d :
  method C c → method C d → method C (if b then c else d).
Proof. by destruct b. Qed.
Lemma value_if {A} C (P : A → Prop) (b : bool) c d :
  value C P c → value C P d → value C P (if b then c else d).
Proof. by destruct b. Qed.

(** *** Registers and the counter *)

Lemma value_reg C r : 0 ≤ r ≤ 12 → value C (inU 64) (reg r).
Proof.
  intros Hr. eapply value_bind; [apply value_get|]. intros i [[] _].
  destruct kept_regs0 as [Hl Hf]. apply value_lift.
  - intros v [_ Hv]%go_index_Ok. by eapply Forall_lookup_1.
  - intros e He. by apply go_index_not_Err in He.
  - intros Hp. apply go_index_not_panic in Hp; [done|]. unfold len. lia.
Qed.

Lemma value_set_reg C r v : 0 ≤ r ≤ 12 → inU 64 v → value C (λ _ : unit, True) (set_reg r v).
Proof.
  intros Hr Hv i [[] Hic]. unfold wp, set_reg, bind, get, lift, modify, go_update.
  destruct kept_regs0 as [Hl Hf].
  rewrite (proj2 (Z.leb_le 0 r)) by lia. unfold len. rewrite Hl.
  rewrite (proj2 (Z.ltb_lt r (Z.of_nat 13))) by lia. simpl. split; [done|].
  split; [|done]. split; simpl; try done. split; [by rewrite length_insert|].
  by apply Forall_insert.
Qed.

Lemma value_set_memory C m :
  mem_wf m → mem_step (memory i0) m → value C (λ _ : unit, True) (modify (with_memory m)).
Proof. intros H1 H2 i [[] Hic]. split; [done|]. split; [|done]. by split. Qed.

Lemma skip_eq i :
  inside i → skip i = Done () (with_ic (next_pc i0) i).
Proof.
  intros [[] Hic]. destruct Hwf as [[_ Hlen Hbm _ _ _ _ _] _ _ Hpc _]. unfold skip, bind, get, lift, modify.
  rewrite kept_bitmask0, Hic.
  assert (len (bitmask i0) = len (code i0)) as Hl by (unfold len; by rewrite Hbm).
  rewrite Skip_eq by lia. f_equal. f_equal. unfold next_pc.
  destruct (Skip_loop_bounds 0 (drop (Z.to_nat (instructionCounter i0 + 1)) (bitmask i0)))
    as [B _]; [done|]. unfold BitmaskMax in B. rewrite uint64_small by lia. lia.
Qed.

Lemma method_skip C : method C skip.
Proof.
  intros i Hi. unfold wp. rewrite skip_eq by done. destruct Hi as [[] Hic].
  split; [by split|]. by left.
Qed.

Lemma method_setAndSkip C dst v : 0 ≤ dst ≤ 12 → inU 64 v → method C (setAndSkip dst v).
Proof. intros. eapply method_bind; [by apply value_set_reg|]. intros. apply method_skip. Qed.

Lemma sext_ok v n :
  (0 ≤ n ≤ 4 ∨ n = 8) → ∃ x, sext v n = Ok x ∧ inU 64 x.
Proof.
  intros Hn. assert (n = 0 ∨ n = 1 ∨ n = 2 ∨ n = 3 ∨ n = 4 ∨ n = 8) as Hn' by lia.
  destruct Hn' as [->|[->|[->|[->|[->| ->]]]]]; eexists; split; try reflexivity; auto with inU.
Qed.

Lemma value_sext C v n : (0 ≤ n ≤ 4 ∨ n = 8) → value C (inU 64) (lift (sext v n)).
Proof.
  intros Hn. destruct (sext_ok v n Hn) as (x & -> & Hx). apply value_lift; [|done..].
  by intros ? [= <-].
Qed.

Lemma method_setSextAndSkip C dst v n :
  0 ≤ dst ≤ 12 → (0 ≤ n ≤ 4 ∨ n = 8) → method C (setSextAndSkip dst v n).
Proof.
  intros. eapply method_bind; [by apply value_sext|]. intros. by apply method_setAndSkip.
Qed.

(** *** Jumps *)

Lemma method_goto C t : t ∈ basicBlockInstructions i0 → method C (modify (with_ic t)).
Proof. intros Ht i [[] Hic]. split; [by split|]. by right. Qed.

Lemma method_branch (C : Prop) b t : C → method C (branch b t).
Proof.
  intros HC. apply method_if; [|apply method_skip].
  eapply method_bind; [apply value_get|]. intros i [[] _]. rewrite kept_blocks0.
  case_bool_decide; [by apply method_goto|].
  eapply (method_bind _ (λ _, True)); [|intros; by apply method_fail].
  apply value_lift; [done| |done]. intros e He. by apply go_index_not_Err in He.
Qed.

(** The one method that moves the counter twice. *)
Lemma method_LoadImmAndJump (C : Prop) ra v t :
  C → 0 ≤ ra ≤ 12 → inU 64 v → method C (Mut.LoadImmAndJump ra v t).
Proof.
  intros HC Hr Hv i Hi. unfold Mut.LoadImmAndJump, Mut.LoadImm, setAndSkip.
  apply wp_bind, wp_bind. pose proof (value_set_reg C ra v Hr Hv i Hi) as Hs. unfold wp in *.
  destruct (set_reg ra v i) as [[] i'| |]; try done. destruct Hs as [_ Hin].
  rewrite skip_eq by done. destruct Hin as [[] Hic].
  unfold Mut.Jump, branch, bind, get, modify. simpl. rewrite kept_blocks0.
  case_bool_decide; [split; [by split|by right]|].
  destruct (lift _ _) as [x j|e j|] eqn:Hl; [..|done];
    unfold lift in Hl; case_match; simplify_eq.
  - split_and!; [by split|done|by right].
  - exfalso. by eapply go_index_not_Err.
Qed.

Lemma method_djump C a : method C (djump a).
Proof.
  apply method_if; [by apply method_fail|]. eapply method_bind; [apply value_get|].
  intros i [[] _]. rewrite kept_jumpTable0, kept_blocks0.
  destruct Hwf as [[_ _ _ _ _ Hjt Hjl _] _ _ _ _]. unfold DynamicAddressAlignment.
  pose proof (inU_uint32 a) as Ha. set (x := uint32 a) in *. unfold inU in Ha.
  destruct (Z.eqb_spec x 0); [by apply method_fail|].
  destruct (Z.ltb_spec (len (jumpTable i0) * 2) x); [by apply method_fail|].
  destruct (Z.eqb_spec (x `mod` 2) 0) as [Hm|]; [|by apply method_fail]. simpl.
  assert (x = 2 * (x / 2)) as Hx by (pose proof (Z.div_mod x 2 ltac:(lia)); lia).
  assert (uint32 (x / 2 - 1) = x / 2 - 1) as -> by (apply wrapU_id; split; lia).
  eapply (method_bind _ (λ _, True)); [apply value_lift; [done| |]|].
  - intros e He. by apply go_index_not_Err in He.
  - intros Hp. apply go_index_not_panic in Hp; [done|]. lia.
  - intros t _. case_bool_decide; [by apply method_goto|by apply method_fail].
Qed.

(** *** Memory *)

Lemma page_error_exit bad reason m a n : exit_reason (page_error bad reason m a n).
Proof.
  unfold page_error. cbv zeta. destruct (find_bad_page _ _ _ _); [by apply wrapU_range|done].
Qed.

Lemma select_inv m a n o bs :
  mem_wf m → 0 ≤ n ≤ 2 ^ 48 → select m a n = Ok (o, bs) →
  bytes_ok bs ∧ (o = None ∨ len bs = n).
Proof.
  intros Hm Hn. unfold select. destruct (first_segment _ m) as [sg|] eqn:Hs.
  2:{ intros [= <- <-]. split; [constructor|by left]. }
  destruct (Hm sg) as (_ & Hl & Hb). cbv zeta. unfold go_slice.
  set (lo := a - seg_address (get_seg m sg)).
  destruct (Z.leb_spec 0 lo), (Z.leb_spec lo (uint64 (lo + n))),
    (Z.leb_spec (uint64 (lo + n)) (len (seg_data (get_seg m sg)))); simpl; try done.
  rewrite uint64_small in * by lia. intros [= <- <-]. split; [by apply Forall_take, Forall_drop|].
  right. unfold len in *. rewrite length_take, length_drop. lia.
Qed.

Lemma Read_inv m a n bs :
  mem_wf m → 0 ≤ n ≤ 2 ^ 48 → Read m a n = Ok bs → bytes_ok bs ∧ len bs = n.
Proof.
  intros Hm Hn. unfold Read. destruct (a <? 2 ^ 16); [done|].
  destruct (select m a n) as [[o d]| |] eqn:Hs; cbn [rbind]; try done.
  destruct (select_inv _ _ _ _ _ Hm Hn Hs) as [Hb [->|Hl]]; [done|].
  destruct (access_of m o); intros; by simplify_eq.
Qed.

Lemma Read_Err m a n e : Read m a n = Err e → exit_reason e.
Proof.
  unfold Read. destruct (a <? 2 ^ 16); [by intros [= <-]|]. unfold select.
  destruct (first_segment _ m) as [sg|]; [cbv zeta; unfold go_slice; case_match|];
    cbn [rbind]; try done; try case_match; intros; simplify_eq; apply page_error_exit.
Qed.

Lemma Write_Err m a d e : Write m a d = Err e → exit_reason e.
Proof.
  unfold Write. destruct (a <? 2 ^ 16); [by intros [= <-]|]. unfold select.
  destruct (first_segment _ m) as [sg|]; [cbv zeta; unfold go_slice; case_match|];
    cbn [rbind]; try done; try case_match; intros; simplify_eq; apply page_error_exit.
Qed.

Lemma value_Read (C : Prop) i a n :
  C → inside i → 0 ≤ n ≤ 2 ^ 32 →
  value C (λ bs, bytes_ok bs ∧ len bs = n) (lift (Read (memory i) a n)).
Proof.
  intros HC [[] _] Hn. apply value_lift; [|apply Read_Err|done].
  intros bs. apply Read_inv; [done|lia].
Qed.

Lemma value_readByte (C : Prop) a : C → value C (inU 64) (Mut.readByte a).
Proof.
  intros HC. eapply value_bind; [apply value_get|]. intros i Hi.
  eapply value_bind; [by apply value_Read|]. intros bs [Hb Hl]. apply value_lift.
  - intros v [_ Hv]%go_index_Ok. apply (inU_mono 8); [lia|].
    by eapply (Forall_lookup_1 _ _ _ _ Hb).
  - intros e He. by apply go_index_not_Err in He.
  - intros Hp. apply go_index_not_panic in Hp; [done|]. lia.
Qed.

(** Decoding a full-width integer, or zero-extending a shorter one. *)
Lemma Unmarshal_word k n bs :
  (k, n) ∈ [(Uint16, 2); (Uint32, 4); (Uint64, 8); (Int16, 2); (Int32, 4)] →
  bytes_ok bs → 0 ≤ len bs ≤ n →
  ∃ v, Unmarshal (TPrim false k) bs (VNum 0) = Ok (VNum v) ∧
       (is_unsigned k = true → inU 64 v).
Proof.
  intros Hk Hb Hl. destruct bs as [|b bs]; [by exists 0|]. rewrite Unmarshal_prim. unfold unmarshal.
  set (d := b :: bs) in *. assert (bytes_ok (go_copy (replicate (Z.to_nat n) 0) (take (Z.to_nat n) d)))
    as Hd.
  { apply Forall_app. split; [by apply Forall_take, Forall_take|]. apply Forall_drop.
    by apply Forall_replicate. }
  assert (read n d = Ok (go_copy (replicate (Z.to_nat n) 0) (take (Z.to_nat n) d),
    drop (Z.to_nat n) d)) as Hr by done.
  revert Hd Hr. generalize (go_copy (replicate (Z.to_nat n) 0) (take (Z.to_nat n) d)).
  intros l Hd Hr.
  repeat (apply elem_of_cons in Hk; destruct Hk as [[= -> ->]|Hk]);
    try (by apply elem_of_nil in Hk);
    unfold unmarshal_prim; cbn [IntLength rbind]; unfold decodeFixedWidth_prim;
    rewrite go_make_small by (unfold maxAlloc; lia); cbn [rbind]; rewrite Hr; cbn [rbind map_err];
    eexists; (split; [reflexivity|]); try done; intros _;
    rewrite deserializeTrivialNatural_le by (done || lia).
  - apply inU_uint16_64.
  - apply inU_uint32_64.
  - apply inU_uint64.
Qed.

Lemma value_load (C : Prop) a k n :
  (k, n) ∈ [(Uint16, 2); (Uint32, 4); (Uint64, 8); (Int16, 2); (Int32, 4)] →
  C → value C (λ v, is_unsigned k = true → inU 64 v) (load a n k).
Proof.
  intros Hk HC. eapply value_bind; [apply value_get|]. intros i Hi.
  assert (0 ≤ n ≤ 2 ^ 32).
  { repeat (apply elem_of_cons in Hk; destruct Hk as [[= -> ->]|Hk]); [lia..|].
    by apply elem_of_nil in Hk. }
  eapply value_bind; [by apply value_Read|]. intros bs [Hb Hl].
  destruct (Unmarshal_word k n bs Hk Hb) as (v & -> & Hv); [lia|].
  eapply (value_bind _ (λ x, x = VNum v)).
  - apply value_lift; [by intros ? [= <-]|done..].
  - intros ? ->. by apply value_ret.
Qed.

Lemma value_load_unsigned (C : Prop) a k n :
  (k, n) ∈ [(Uint16, 2); (Uint32, 4); (Uint64, 8)] →
  C → value C (inU 64) (load a n k).
Proof.
  intros Hk HC. eapply value_mono; [apply value_load; [set_solver|done]|]. intros v Hv. apply Hv.
  repeat (apply elem_of_cons in Hk; destruct Hk as [[= -> ->]|Hk]); [done..|].
  by apply elem_of_nil in Hk.
Qed.

Lemma value_load_signed (C : Prop) a k n :
  (k, n) ∈ [(Int16, 2); (Int32, 4)] → C → value C (λ _, True) (load a n k).
Proof.
  intros Hk HC. eapply value_mono; [apply value_load; [set_solver|done]|done].
Qed.

Lemma method_store (C : Prop) a k v :
  k ∈ [Uint8; Uint16; Uint32; Uint64] → inU 64 a → inU 64 v → C → method C (store a k v).
Proof.
  intros Hk Ha Hv HC.
  assert (∃ l, 0 ≤ l ≤ 8 ∧ Marshal (TPrim false k) (VNum v) = Ok (serializeTrivialNatural v l))
    as (l & Hl & Hm).
  { repeat (apply elem_of_cons in Hk; destruct Hk as [->|Hk]);
      [exists 1|exists 2|exists 4|exists 8|by apply elem_of_nil in Hk]; by split. }
  unfold store. rewrite Hm, serializeTrivialNatural_le by (done || lia). cbn [map_err].
  eapply (method_bind _ (λ d, d = Z_to_little_endian l 8 v)).
  { apply value_lift; [by intros ? [= <-]|done..]. }
  intros d ->. eapply method_bind; [apply value_get|]. intros i [[] _].
  eapply (method_bind _ (λ m, mem_wf m ∧ mem_step (memory i0) m)).
  { apply value_lift; [|apply Write_Err|done]. intros m HW.
    apply Write_step in HW as [? ?]; [|done|done|rewrite len_le; lia|apply le_bytes_ok; lia].
    split; [done|by etransitivity]. }
  intros m [Hmw Hms]. eapply method_bind; [by apply value_set_memory|]. intros.
  apply method_skip.
Qed.

Lemma method_Sbrk C dst s : 0 ≤ dst ≤ 12 → 0 ≤ s ≤ 12 → method C (Mut.Sbrk dst s).
Proof.
  intros Hd Hs. eapply method_bind; [by apply value_reg|]. intros n Hn.
  eapply method_bind; [apply value_get|]. intros i [[] _].
  eapply (method_bind _ (λ p, inU 64 p.1 ∧ mem_wf p.2 ∧ mem_step (memory i0) p.2)).
  { apply value_lift.
    - intros [p m] HS. apply Sbrk_step in HS as (? & ? & ?); [|done..].
      split_and!; [done..|by etransitivity].
    - intros e. unfold Sbrk. destruct (n =? 0); [done|]. cbv zeta.
      case_match; [intros [= <-]; by apply wrapU_range|]. case_match; [|done].
      unfold go_make. by case_match.
    - intros Hp. by apply Sbrk_no_crash in Hp. }
  intros [p m] (Hp & Hmw & Hms). eapply method_bind; [by apply value_set_memory|]. intros.
  by apply method_setAndSkip.
Qed.
End triples.
