(* ===== verification/PvmSafety.v ===== *)
(** * Every step keeps the machine well-formed

    The triples of [PvmTriples] composed over the decoder and the 139
    instructions: control-flow integrity, gas accounting, memory protection,
    the exit reasons and the absence of crashes. *)
From S2P Require Export PvmTriples.

(** Instructions that load from or store to memory. *)
Definition touches_memory (o : Op.t) : bool :=
  match o with
  | Op.StoreImmU8 | Op.StoreImmU16 | Op.StoreImmU32 | Op.StoreImmU64
  | Op.LoadU8 | Op.LoadI8 | Op.LoadU16 | Op.LoadI16 | Op.LoadU32 | Op.LoadI32 | Op.LoadU64
  | Op.StoreU8 | Op.StoreU16 | Op.StoreU32 | Op.StoreU64
  | Op.StoreImmIndirectU8 | Op.StoreImmIndirectU16 | Op.StoreImmIndirectU32
  | Op.StoreImmIndirectU64
  | Op.StoreIndirectU8 | Op.StoreIndirectU16 | Op.StoreIndirectU32 | Op.StoreIndirectU64
  | Op.LoadIndirectU8 | Op.LoadIndirectI8 | Op.LoadIndirectU16 | Op.LoadIndirectI16
  | Op.LoadIndirectU32 | Op.LoadIndirectI32 | Op.LoadIndirectU64 => true
  | _ => false
  end.

(** Instructions with a static jump target. *)
Definition jumps_statically (o : Op.t) : bool :=
  match o with
  | Op.Jump | Op.LoadImmAndJump
  | Op.BranchEqImm | Op.BranchNotEqImm | Op.BranchLessUnsignedImm
  | Op.BranchLessOrEqualUnsignedImm | Op.BranchGreaterOrEqualUnsignedImm
  | Op.BranchGreaterUnsignedImm | Op.BranchLessSignedImm | Op.BranchLessOrEqualSignedImm
  | Op.BranchGreaterOrEqualSignedImm | Op.BranchGreaterSignedImm
  | Op.BranchEq | Op.BranchNotEq | Op.BranchLessUnsigned | Op.BranchLessSigned
  | Op.BranchGreaterOrEqualUnsigned | Op.BranchGreaterOrEqualSigned => true
  | _ => false
  end.

Create HintDb pvm discriminated.

Definition may_crash (o : option Op.t) : bool :=
  match o with Some o => touches_memory o || jumps_statically o | None => false end.

(** [pvm] applies the rule for the head of the method, [word] closes the side
    conditions on registers and machine words. *)
Ltac word :=
  match goal with
  | |- inU 64 _ => by auto 6 with inU
  | |- _ ∈ _ => by repeat constructor
  | |- 0 ≤ _ ≤ 4 ∨ _ => lia
  | |- _ ≤ _ ≤ _ => lia
  | |- exit_reason _ => exact I
  | |- _ => done
  end.

Ltac unfold_head c := lazymatch c with ?f _ => unfold_head f | _ => unfold c end.

Ltac pvm_rule :=
  lazymatch goal with
  | |- method _ _ (bind (reg _) _) => eapply method_bind; [apply value_reg; word|intros ? ?]
  | |- method _ _ (bind (set_reg _ _) _) => eapply method_bind; [apply value_set_reg; word|intros ? ?]
  | |- method _ _ (bind (lift (sext _ _)) _) => eapply method_bind; [apply value_sext; word|intros ? ?]
  | |- method _ _ (bind (Mut.readByte _) _) =>
      eapply method_bind; [apply value_readByte; word|intros ? ?]
  | |- method _ _ (bind (load _ _ ?k) _) =>
      eapply method_bind;
      [first [apply value_load_unsigned; word|apply value_load_signed; word]|intros ? ?]
  | |- method _ _ (bind (if _ then _ else _) _) =>
      eapply method_bind; [repeat apply value_if|intros ? ?]
  | |- value _ _ _ (bind (reg _) _) => eapply value_bind; [apply value_reg; word|intros ? ?]
  | |- value _ _ _ (bind (lift (sext _ _)) _) => eapply value_bind; [apply value_sext; word|intros ? ?]
  | |- value _ _ _ (set_reg _ _) => apply value_set_reg; word
  | |- value _ _ _ (ret _) => by apply value_ret
  | |- method _ _ skip => by apply method_skip
  | |- method _ _ (fail _) => apply method_fail; word
  | |- method _ _ (setAndSkip _ _) => apply method_setAndSkip; word
  | |- method _ _ (setSextAndSkip _ _ _) => apply method_setSextAndSkip; word
  | |- method _ _ (branch _ _) => apply method_branch; word
  | |- method _ _ (djump _) => by apply method_djump
  | |- method _ _ (store _ _ _) => apply method_store; word
  | |- method _ _ (Mut.Sbrk _ _) => apply method_Sbrk; word
  | |- method _ _ (Mut.LoadImmAndJump _ _ _) => apply method_LoadImmAndJump; word
  | |- method _ _ ?c => unfold_head c; cbv zeta
  end.

Section decoding.
Context (i0 : Instance) (Hwf : wf i0).

Lemma value_checkCode C n :
  0 ≤ n ≤ 16 → value i0 C (λ _, instructionCounter i0 + n ≤ len (code i0)) (checkCode n).
Proof.
  intros Hn. eapply value_bind; [apply value_get|]. intros i [[] Hic].
  destruct Hwf as [[_ Hlen _ _ _ _ _ _] _ _ Hpc _].
  rewrite kept_code, Hic, uint64_small by lia.
  destruct (Z.ltb_spec (len (code i0)) (instructionCounter i0 + n)); [by apply value_fail|].
  by apply value_ret.
Qed.

Lemma value_codeByte (C : Prop) n :
  0 ≤ n ≤ 16 → (len (code i0) ≤ instructionCounter i0 + n → C) →
  value i0 C is_byte (codeByte n).
Proof.
  intros Hn HC. eapply value_bind; [apply value_get|]. intros i [[] Hic].
  destruct Hwf as [[Hb Hlen _ _ _ _ _ _] _ _ Hpc _].
  rewrite kept_code, Hic, uint64_small by lia. apply value_lift.
  - intros v [_ Hv]%go_index_Ok. by eapply (Forall_lookup_1 _ _ _ _ Hb).
  - intros e He. by apply go_index_not_Err in He.
  - intros Hp. destruct (decide (len (code i0) ≤ instructionCounter i0 + n)); [auto|].
    apply go_index_not_panic in Hp; [done|]. lia.
Qed.

Lemma value_immediate C n l :
  0 ≤ n ≤ 16 → 0 ≤ l ≤ 8 → instructionCounter i0 + n + l ≤ len (code i0) →
  value i0 C (inU 64) (immediate n l).
Proof.
  intros Hn Hl Hlt. eapply value_bind; [apply value_get|]. intros i [[] Hic].
  destruct Hwf as [[Hb Hlen _ _ _ _ _ _] _ _ Hpc _].
  rewrite kept_code, Hic, !uint64_small by lia. rewrite go_slice_ok by lia.
  set (bs := take _ _). assert (bytes_ok bs) as Hbs by (by apply Forall_take, Forall_drop).
  assert (len bs ≤ 8).
  { unfold len. subst bs. rewrite length_take. lia. }
  destruct (Unmarshal_word Uint64 8 bs) as (v & Hv & Hr);
    [by repeat constructor|done|split; [apply len_nonneg|done]|].
  eapply (value_bind _ _ (λ d, d = bs)); [by apply value_lift; [intros ? [= <-]|..]|].
  intros ? ->. rewrite Hv. eapply (value_bind _ _ (λ x, x = VNum v)).
  - by apply value_lift; [intros ? [= <-]|..].
  - intros ? ->. by apply value_ret, Hr.
Qed.

Lemma value_immediateSext C n l :
  0 ≤ n ≤ 16 → 0 ≤ l ≤ 4 → instructionCounter i0 + n + l ≤ len (code i0) →
  value i0 C (inU 64) (immediateSext n l).
Proof.
  intros. eapply value_bind; [by apply value_immediate; lia|]. intros.
  apply value_sext; lia.
Qed.

Lemma value_offset C n l :
  0 ≤ n ≤ 16 → 0 ≤ l ≤ 4 → instructionCounter i0 + n + l ≤ len (code i0) →
  value i0 C (inU 64) (offset n l).
Proof.
  intros. eapply value_bind; [by apply value_immediateSext|]. intros.
  eapply value_bind; [apply value_get|]. intros. apply value_ret. auto with inU.
Qed.

(** *** The cases of [step] *)

Context (C : Prop) (op : option Op.t) (Hop : may_crash op = true → C).

(** The operand bytes and immediates of a format. *)
Ltac operands :=
  repeat match goal with
  | H : is_byte ?b |- _ =>
      lazymatch goal with
      | _ : 0 ≤ b `mod` 16 < 16 |- _ => fail
      | |- _ => pose proof (H : 0 ≤ b < 256); pose proof (Z.mod_pos_bound b 16 ltac:(lia));
                pose proof (Z.mod_pos_bound b 8 ltac:(lia));
                pose proof (Z.mod_pos_bound (b / 16) 8 ltac:(lia));
                assert (0 ≤ b / 16 < 16) by (split; [apply Z.div_pos|apply Z.div_lt_upper_bound]; lia)
      end
  end.
Ltac decode :=
  repeat (cbv zeta; lazymatch goal with
  | |- method _ _ (bind (checkCode _) _) =>
      eapply method_bind; [apply value_checkCode; lia|intros ? ?; cbv beta in *]
  | |- method _ _ (bind (codeByte _) _) =>
      eapply method_bind; [apply value_codeByte; [lia|intros; first [lia|match goal with H : _ → C |- C => apply H; lia end]]|
        intros ? ?]; operands
  | |- method _ _ (bind (immediate _ _) _) =>
      eapply method_bind; [apply value_immediate; lia|intros ? ?]
  | |- method _ _ (bind (immediateSext _ _) _) =>
      eapply method_bind; [apply value_immediateSext; lia|intros ? ?]
  | |- method _ _ (bind (offset _ _) _) =>
      eapply method_bind; [apply value_offset; lia|intros ? ?]
  end).
(** Case analysis on the opcode; [C] is at hand for those that may crash. *)
Ltac opcodes :=
  destruct op as [[]|]; try (assert C by (by apply Hop)); repeat pvm_rule.

Lemma method_stepNone : method i0 C (stepNone op).
Proof. unfold stepNone. opcodes. Qed.

Lemma method_stepRegImmExt : method i0 C (stepRegImmExt op).
Proof. unfold stepRegImmExt. decode. opcodes. Qed.

Lemma method_stepImm2 skip : method i0 C (stepImm2 skip op).
Proof. unfold stepImm2. decode. opcodes. Qed.

Lemma method_stepOffset skip : 0 ≤ skip → method i0 C (stepOffset skip op).
Proof. intros. unfold stepOffset. decode. opcodes. Qed.

Lemma method_stepRegImm skip : method i0 C (stepRegImm skip op).
Proof. unfold stepRegImm. decode. opcodes. Qed.

Lemma method_stepRegImm2 skip : method i0 C (stepRegImm2 skip op).
Proof. unfold stepRegImm2. decode. opcodes. Qed.

Lemma method_stepRegImmOffset skip : method i0 C (stepRegImmOffset skip op).
Proof. unfold stepRegImmOffset. decode. opcodes. Qed.

Lemma method_stepReg2Imm skip : method i0 C (stepReg2Imm skip op).
Proof. unfold stepReg2Imm. decode. opcodes. Qed.

Lemma method_stepReg2Offset skip : method i0 C (stepReg2Offset skip op).
Proof. unfold stepReg2Offset. decode. opcodes. Qed.

Lemma method_stepReg2Imm2 skip : method i0 C (stepReg2Imm2 skip op).
Proof. unfold stepReg2Imm2. decode. opcodes. Qed.

Lemma method_stepRegReg :
  (len (code i0) ≤ instructionCounter i0 + 2 → C) → method i0 C (stepRegReg op).
Proof.
  intros HC. unfold stepRegReg. decode. opcodes.
Qed.

Lemma method_stepReg3 :
  (len (code i0) ≤ instructionCounter i0 + 2 → C) → method i0 C (stepReg3 op).
Proof.
  intros HC. unfold stepReg3, execReg3. decode. opcodes.
Qed.
End decoding.

(** ** [step] *)

(** The opcode the counter points at. *)
Definition opcode_at (i : Instance) : option Op.t :=
  match code i !! Z.to_nat (instructionCounter i) with
  | Some b => Op.of_byte b
  | None => None
  end.

(** The circumstances in which a step may crash. *)
Definition can_crash (i : Instance) : Prop :=
  may_crash (opcode_at i) = true ∨ len (code i) ≤ instructionCounter i + 2.

(** [i'] runs the same program as [i], with the memory [i] can evolve to. *)
Record same_program (i i' : Instance) : Prop := SameProgram {
  sp_code : code i' = code i;
  sp_jumpTable : jumpTable i' = jumpTable i;
  sp_bitmask : bitmask i' = bitmask i;
  sp_blocks : basicBlockInstructions i' = basicBlockInstructions i;
  sp_mem : mem_step (memory i) (memory i');
}.

#[export] Instance same_program_preorder : PreOrder same_program.
Proof.
  split; [by split|]. intros i1 i2 i3 [] []. split; try congruence. by etransitivity.
Qed.

Definition step_post (i : Instance) (r : outcome (option Z)) : Prop :=
  match r with
  | Done None i' =>
      wf i' ∧ same_program i i' ∧ gasRemaining i' = gasRemaining i - 1 ∧ 0 < gasRemaining i ∧
      (instructionCounter i' = next_pc i ∨ instructionCounter i' ∈ basicBlockInstructions i)
  | Done (Some h) i' =>
      opcode_at i = Some Op.Ecalli ∧ inU 64 h ∧ 0 < gasRemaining i ∧
      i' = with_gas (gasRemaining i - 1) i
  | Failed e i' =>
      wf i' ∧ same_program i i' ∧ gasRemaining i' ≤ gasRemaining i ∧
      (e = ErrOutOfGas ∧ i' = i ∨ exit_reason e)
  | Crashed => can_crash i
  end.

Lemma with_gas_wf g i : wf i → inS 64 g → wf (with_gas g i).
Proof. intros [] Hg. by split. Qed.

Lemma deductGas_eq cost i :
  wf i → 0 ≤ cost ≤ 1 →
  deductGas cost i = if gasRemaining i <? cost then Failed ErrOutOfGas i
                     else Done () (with_gas (gasRemaining i - cost) i).
Proof.
  intros Hwf Hc. unfold deductGas, bind, get, modify, fail. destruct (Z.ltb_spec (gasRemaining i) cost); [done|].
  destruct Hwf as [_ _ _ _ Hg]. unfold int64. rewrite wrapS_id; [done|lia|].
  unfold inS in *. lia.
Qed.

Lemma value_stepImm i0 C skip op :
  wf i0 → 0 ≤ skip → value i0 C (λ h, op = Some Op.Ecalli ∧ inU 64 h) (stepImm skip op).
Proof.
  intros Hwf Hs. unfold stepImm. cbv zeta.
  eapply value_bind; [apply value_checkCode; [done|lia]|]. intros ? ?; cbv beta in *.
  eapply value_bind; [apply value_immediateSext; [done|lia..]|]. intros v Hv.
  destruct op as [[]|]; try (by apply value_fail). by apply value_ret.
Qed.

(** Actions that leave the instance as it is. *)
Definition reads {A} (c : M A) : Prop := ∀ i a i', c i = Done a i' → i' = i.

Lemma reads_bind {A B} (c : M A) (k : A → M B) :
  reads c → (∀ a, reads (k a)) → reads (bind c k).
Proof.
  intros Hc Hk i b i'. unfold bind. destruct (c i) as [a j| |] eqn:E; [|done..].
  intros Hb. apply Hk in Hb as ->. by eapply Hc.
Qed.
Lemma reads_get : reads get.
Proof. by intros i a i' [= _ ->]. Qed.
Lemma reads_ret {A} (a : A) : reads (ret a).
Proof. by intros i b i' [= _ ->]. Qed.
Lemma reads_fail {A} e : reads (fail (A := A) e).
Proof. done. Qed.
Lemma reads_lift {A} (r : res pvm_error A) : reads (lift r).
Proof. intros i a i'. unfold lift. destruct r; [|done..]. by intros [= _ ->]. Qed.
#[export] Hint Resolve reads_bind reads_get reads_ret reads_fail reads_lift : pvm.

Lemma reads_stepImm skip op : reads (stepImm skip op).
Proof.
  unfold stepImm, checkCode, immediateSext, immediate.
  repeat (apply reads_bind; [|intros ?]); repeat case_match; auto with pvm.
Qed.

(** Which definition handles the opcode, with what it guarantees. *)
Lemma dispatch_spec i0 (C : Prop) skip op :
  wf i0 → 0 ≤ skip → (may_crash op = true → C) →
  (len (code i0) ≤ instructionCounter i0 + 2 → C) →
  wp C (dispatch skip op)
    (λ r i', match r with
             | None => finished i0 i'
             | Some h => op = Some Op.Ecalli ∧ inU 64 h ∧ i' = i0
             end) (stopped i0) i0.
Proof.
  intros Hwf Hs Hop Hlen. assert (inside i0 i0) as Hin by (split; [by apply kept_refl|done]).
  assert (∀ c, method i0 C c →
    wp C (c;; ret None) (λ r i', match r with
                                 | None => finished i0 i'
                                 | Some h => op = Some Op.Ecalli ∧ inU 64 h ∧ i' = i0
                                 end) (stopped i0) i0) as Hm.
  { intros c Hc. apply wp_bind. specialize (Hc i0 Hin). revert Hc. unfold wp. by destruct (c i0). }
  unfold dispatch. destruct (Op.InstructionForType op).
  2:{ apply wp_bind. pose proof (value_stepImm i0 C skip op Hwf Hs i0 Hin) as Hv.
      revert Hv. unfold wp. destruct (stepImm skip op i0) as [h i'| |] eqn:E; [|done..].
      intros [[-> Hh] _]. split_and!; [done..|]. by apply reads_stepImm in E. }
  all: apply Hm; auto using method_stepNone, method_stepRegImmExt, method_stepImm2,
    method_stepOffset, method_stepRegImm, method_stepRegImm2, method_stepRegImmOffset,
    method_stepRegReg, method_stepReg2Imm, method_stepReg2Offset, method_stepReg2Imm2,
    method_stepReg3.
Qed.

Lemma step_unfold i b :
  wf i → code i !! Z.to_nat (instructionCounter i) = Some b →
  let cost := Op.GasCosts (Op.of_byte b) in
  step i = if gasRemaining i <? cost then Failed ErrOutOfGas i
           else dispatch (next_pc i - instructionCounter i - 1) (Op.of_byte b)
                  (with_gas (gasRemaining i - cost) i).
Proof.
  intros Hwf Hb. cbv zeta. unfold step, bind, get, lift.
  pose proof Hwf as [[_ Hlen Hbm _ _ _ _ _] _ _ Hpc _].
  rewrite Skip_eq by (unfold len in *; lia).
  unfold go_index at 1. rewrite (proj2 (Z.ltb_ge _ 0)) by lia. rewrite Hb.
  rewrite deductGas_eq by (done || destruct (Op.of_byte b) as [[]|]; simpl; lia).
  destruct (gasRemaining i <? _); [done|]. f_equal. unfold next_pc. lia.
Qed.

Lemma opcode_at_fetch i :
  wf i → ∃ b, code i !! Z.to_nat (instructionCounter i) = Some b ∧ opcode_at i = Op.of_byte b.
Proof.
  intros [_ _ _ Hpc _]. unfold opcode_at, len in *.
  destruct (lookup_lt_is_Some_2 (code i) (Z.to_nat (instructionCounter i))) as [b Hb]; [lia|].
  exists b. by rewrite Hb.
Qed.

(** The appended trap is the only instruction at the last position. *)
Lemma last_opcode i :
  wf i → instructionCounter i + 1 < len (code i) ∨ opcode_at i = Some Op.Trap.
Proof.
  intros [[_ _ _ Hlast _ _ _ _] _ _ Hpc _].
  destruct (decide (instructionCounter i + 1 < len (code i))); [by left|right].
  unfold opcode_at. rewrite last_lookup in Hlast.
  replace (Z.to_nat (instructionCounter i)) with (pred (length (code i))) by (unfold len in *; lia).
  by rewrite Hlast.
Qed.

Lemma kept_wf i i' :
  wf i → kept i i' → 0 ≤ instructionCounter i' < len (code i) → wf i'.
Proof.
  intros [Hc _ _ _ Hg] [] Hpc. split; try done; congruence || (by rewrite ?kept_code, ?kept_bitmask,
    ?kept_jumpTable, ?kept_blocks).
Qed.

Lemma kept_same_program i i' : kept i i' → same_program i i'.
Proof. intros []. by split. Qed.

Lemma step_spec i : wf i → step_post i (step i).
Proof.
  intros Hwf. destruct (opcode_at_fetch i Hwf) as (b & Hb & Hop).
  rewrite (step_unfold i b Hwf Hb). destruct (Z.ltb_spec (gasRemaining i) (Op.GasCosts (Op.of_byte b))).
  { simpl. split_and!; [done|done|lia|]. by left. }
  set (i1 := with_gas _ i).
  assert (0 ≤ Op.GasCosts (Op.of_byte b) ≤ 1) as Hcost
    by (destruct (Op.of_byte b) as [[]|]; simpl; lia).
  assert (wf i1) as Hwf1.
  { apply with_gas_wf; [done|]. pose proof (wf_gas i Hwf). unfold inS in *. lia. }
  assert (same_program i i1) as Hsp by (by split).
  assert (gasRemaining i1 ≤ gasRemaining i) as Hle by (subst i1; simpl; lia).
  destruct (last_opcode i Hwf) as [Hlt|Htrap].
  2:{ rewrite Hop in Htrap. rewrite Htrap in *. split_and!; [done..|by right]. }
  destruct (Op.of_byte b) as [op|] eqn:Ho.
  2:{ split_and!; [done..|by right]. }
  pose proof (next_pc_bounds i Hwf Hlt) as Hnext. pose proof (wf_ic i Hwf) as Hic.
  pose proof (dispatch_spec i1 (can_crash i) (next_pc i - instructionCounter i - 1) (Some op) Hwf1)
    as Hd. unfold wp in Hd. assert (Op.GasCosts (Some op) = 1) as Hone by (by destruct op).
  assert (i1 = with_gas (gasRemaining i - 1) i) as Hi1 by (subst i1; by rewrite Hone).
  specialize (Hd ltac:(lia) ltac:(by left; rewrite Hop) ltac:(by right)).
  destruct (dispatch _ _ i1) as [[h|] i'|e i'|]; simpl.
  - destruct Hd as ([= ->] & Hh & ->). split_and!; [done..|lia|]. done.
  - destruct Hd as [Hk Hpc]. split_and!.
    + apply (kept_wf i1); [done..|]. destruct Hpc as [->|Hin]; [change (next_pc i1) with (next_pc i); simpl; lia|].
      by apply (cw_blocks _ _ _ _ (wf_code i Hwf)).
    + etransitivity; [done|by apply kept_same_program].
    + by rewrite (kept_gas _ _ Hk), Hi1.
    + lia.
    + done.
  - destruct Hd as (Hk & He & Hpc). split_and!.
    + apply (kept_wf i1); [done..|]. destruct Hpc as [->| ->]; [done|].
      change (next_pc i1) with (next_pc i). simpl. lia.
    + etransitivity; [done|by apply kept_same_program].
    + by rewrite (kept_gas _ _ Hk).
    + by right.
  - done.
Qed.
