(* ===== verification/PvmRun.v ===== *)
(** * Runs of the machine

    Gas bounds every run: [Invoke] and [InvokeHostCall] return within a number of
    turns given by the gas, in a well-formed instance of the same program, with
    one of the exit reasons.  The host is known only through its contract. *)
From S2P Require Export PvmSafety PvmInvoke.

(** The number of turns the gas of an instance allows. *)
Definition gas_turns (i : Instance) : nat := S (Z.to_nat (gasRemaining i)).

(** A later state of the same run. *)
Inductive steps : Instance → Instance → Prop :=
| steps_refl i : steps i i
| steps_step i j k : step i = Done None j → steps j k → steps i k.

Lemma steps_wf i j : steps i j → wf i → wf j ∧ same_program i j ∧ gasRemaining j ≤ gasRemaining i.
Proof.
  induction 1 as [i|i j k Hs _ IH]; intros Hwf; [split_and!; done|].
  pose proof (step_spec i Hwf) as Hp. rewrite Hs in Hp. destruct Hp as (Hj & Hsp & Hg & _ & _).
  destruct (IH Hj) as (Hk & Hsp' & Hg'). split_and!; [done|by etransitivity|lia].
Qed.

(** How a run of [Invoke] ends: after some steps, in a state whose next step
    returns an error or crashes. *)
Definition ends_in (j : Instance) (r : stop) : Prop :=
  match r with
  | Stop h e i => step j = Done (Some h) i ∧ e = ErrHostCall ∨ step j = Failed e i ∧ h = 0
  | StopCrash => step j = Crashed
  end.

Lemma Invoke_sound turns i r : Invoke turns i = Some r → ∃ j, steps i j ∧ ends_in j r.
Proof.
  revert i. induction turns as [|turns IH]; intros i; simpl; [done|].
  destruct (step i) as [[h|] i'|e i'|] eqn:E.
  - intros [= <-]. exists i. split; [constructor|]. by left.
  - intros (j & Hj & Hr)%IH. exists j. split; [by econstructor|done].
  - intros [= <-]. exists i. split; [constructor|]. by right.
  - intros [= <-]. exists i. by split; [constructor|].
Qed.

Lemma Invoke_total i turns :
  wf i → (gas_turns i ≤ turns)%nat → ∃ r, Invoke turns i = Some r.
Proof.
  revert i. induction turns as [|turns IH]; intros i Hwf Hg; [unfold gas_turns in Hg; lia|]. simpl.
  pose proof (step_spec i Hwf) as Hp. destruct (step i) as [[h|] i'|e i'|]; eauto.
  destruct Hp as (Hwf' & _ & Hg' & Hpos & _). apply IH; [done|]. unfold gas_turns in *. lia.
Qed.

(** More turns do not change the result. *)
Lemma Invoke_mono turns turns' i r :
  Invoke turns i = Some r → (turns ≤ turns')%nat → Invoke turns' i = Some r.
Proof.
  revert turns' i. induction turns as [|turns IH]; intros [|turns'] i; simpl; intros H Hle;
    try done; [lia|]. destruct (step i) as [[h|] i'|e i'|]; try done. apply IH; [done|lia].
Qed.

(** A host call is answered at an [ecalli], so the counter can move on. *)
Lemma Invoke_post turns i r :
  wf i → Invoke turns i = Some r →
  match r with
  | Stop h e i' =>
      wf i' ∧ same_program i i' ∧ gasRemaining i' ≤ gasRemaining i ∧
      (e = ErrHostCall ∧ inU 64 h ∧ opcode_at i' = Some Op.Ecalli ∧
         gasRemaining i' < gasRemaining i ∧ 0 ≤ gasRemaining i'
       ∨ e = ErrOutOfGas ∨ exit_reason e)
  | StopCrash => ∃ j, steps i j ∧ wf j ∧ can_crash j
  end.
Proof.
  intros Hwf (j & Hij & Hr)%Invoke_sound. destruct (steps_wf i j Hij Hwf) as (Hj & Hsp & Hg).
  pose proof (step_spec j Hj) as Hp. destruct r as [h e i'|]; simpl in Hr.
  - destruct Hr as [[Hs ->]|[Hs ->]]; rewrite Hs in Hp; simpl in Hp.
    + destruct Hp as (Hop & Hh & Hpos & ->). split_and!.
      * apply with_gas_wf; [done|]. pose proof (wf_gas j Hj). unfold inS in *. lia.
      * etransitivity; [done|]. by split.
      * simpl. lia.
      * left. split_and!; try done; simpl; lia.
    + destruct Hp as (Hw & Hsp' & Hg' & He). split_and!; [done|by etransitivity|lia|].
      right. destruct He as [[-> _]|He]; auto.
  - rewrite Hr in Hp. eauto.
Qed.

(** ** Host calls *)

(** A good answer of the host: registers and memory of the right shape, a state
    that satisfies an invariant, and no more gas than before. *)
Definition answer_ok {X} (inv : X → Prop) (gas : Z) (r : host_result X) : Prop :=
  match r with
  | HostReturn gas' rs' m' x' e =>
      inS 64 gas' ∧ (e = None → gas' ≤ gas) ∧ regs_wf rs' ∧ mem_wf m' ∧ inv x'
  | HostCrash => True
  end.

(** What the interpreter relies on of the host: good answers to calls with gas
    left, on states that satisfy the invariant. *)
Class HostContract {X} (inv : X → Prop) (hostCall : HostCall X) : Prop :=
  host_contract n gas rs m x :
    inS 64 gas → 0 ≤ gas → regs_wf rs → mem_wf m → inv x →
    answer_ok inv gas (hostCall n gas rs m x).

(** A host that does not panic the process. *)
Class HostNoCrash {X} (inv : X → Prop) (hostCall : HostCall X) : Prop :=
  host_no_crash n gas rs m x :
    inS 64 gas → 0 ≤ gas → regs_wf rs → mem_wf m → inv x → hostCall n gas rs m x ≠ HostCrash.

Section host.
Context {X : Type} (inv : X → Prop) (hostCall : HostCall X) `{!HostContract inv hostCall}.

(** After a host call the counter moves to the next instruction. *)
Lemma resume i gas rs m :
  wf i → opcode_at i = Some Op.Ecalli → inS 64 gas → regs_wf rs → mem_wf m →
  let j := with_gas gas (with_regs rs (with_memory m i)) in
  skip j = Done () (with_ic (next_pc i) j) ∧ wf (with_ic (next_pc i) j).
Proof.
  intros Hwf Hop Hg Hrs Hm. cbv zeta. set (j := with_gas _ _).
  assert (wf j) as Hj by (destruct Hwf; by split). split.
  - by rewrite (skip_eq j Hj j) by (split; [by apply kept_refl|done]).
  - destruct (last_opcode i Hwf) as [Hlt|]; [|congruence].
    pose proof (next_pc_bounds i Hwf Hlt). pose proof (wf_ic i Hwf).
    destruct Hj. split; try done. simpl. lia.
Qed.

Lemma InvokeHostCall_total i x calls turns :
  wf i → inv x → (gas_turns i ≤ calls)%nat → (gas_turns i ≤ turns)%nat →
  ∃ r, InvokeHostCall hostCall calls turns i x = Some r.
Proof.
  revert i x. induction calls as [|calls IH]; intros i x Hwf Hx Hc Ht; [unfold gas_turns in Hc; lia|].
  simpl. destruct (Invoke_total i turns Hwf Ht) as [r Hr]. rewrite Hr.
  pose proof (Invoke_post turns i r Hwf Hr) as Hp. destruct r as [h e i'|]; [|eauto].
  destruct (decide (e = ErrHostCall)) as [->|]; [|eauto].
  destruct Hp as (Hwf' & _ & _ & [(_ & _ & Hop & Hlt & Hpos)|[|]]); [|done..].
  pose proof (host_contract h (gasRemaining i') (regs i') (memory i') x (wf_gas i' Hwf') Hpos
    (wf_regs i' Hwf') (wf_mem i' Hwf') Hx) as Hh.
  destruct (hostCall h _ _ _ _) as [g rs m x' [e|]|]; [eauto| |eauto].
  destruct Hh as (Hg & Hle & Hrs & Hm & Hx'). specialize (Hle eq_refl).
  destruct (resume i' g rs m) as [Hsk Hw]; [done..|]. rewrite Hsk.
  apply IH; [done|done|..]; unfold gas_turns in *; simpl; lia.
Qed.

(** A call of the host that the contract covers and that panics. *)
Definition host_crashes : Prop :=
  ∃ n gas rs m x, inS 64 gas ∧ 0 ≤ gas ∧ regs_wf rs ∧ mem_wf m ∧ inv x ∧
    hostCall n gas rs m x = HostCrash.

(** Whatever the host does within its contract, the run ends in a well-formed
    instance of the program it started with, and crashes only where a step or
    the host can crash. *)
Lemma InvokeHostCall_inv calls turns i x r :
  wf i → inv x → InvokeHostCall hostCall calls turns i x = Some r →
  match r with
  | Served x' _ i' => wf i' ∧ code i' = code i ∧ bitmask i' = bitmask i ∧ inv x'
  | ServedCrash => (∃ j, wf j ∧ code j = code i ∧ can_crash j) ∨ host_crashes
  end.
Proof using Type*.
  revert i x. induction calls as [|calls IH]; intros i x Hwf Hx; simpl; [done|].
  destruct (Invoke turns i) as [r'|] eqn:Hr; [|done].
  pose proof (Invoke_post turns i r' Hwf Hr) as Hp. destruct r' as [h e i'|].
  2:{ intros [= <-]. destruct Hp as (j & Hij & Hj & Hc). left. exists j. split_and!; [done| |done].
      apply (steps_wf i j Hij Hwf). }
  destruct (decide (e = ErrHostCall)) as [->|].
  2:{ intros [= <-]. destruct Hp as (? & [] & _). done. }
  destruct Hp as (Hwf' & Hsp & _ & [(_ & _ & Hop & Hlt & Hpos)|[|]]); [|done..].
  pose proof (host_contract h (gasRemaining i') (regs i') (memory i') x (wf_gas i' Hwf') Hpos
    (wf_regs i' Hwf') (wf_mem i' Hwf') Hx) as Hh. destruct Hsp as [Hc _ Hb _ _].
  destruct (hostCall h _ _ _ _) as [g rs m x' [e|]|] eqn:Hcall.
  - intros [= <-]. destruct Hh as (? & _ & ? & ? & ?), Hwf'. split_and!; [by split|done..].
  - destruct Hh as (Hg & Hle & Hrs & Hm & Hx').
    destruct (resume i' g rs m) as [Hsk Hw]; [done..|]. rewrite Hsk.
    intros Hq%IH; [|done|done]. simpl in Hq. by rewrite Hc, Hb in Hq.
  - intros [= <-]. right. exists h, (gasRemaining i'), (regs i'), (memory i'), x.
    split_and!; [apply Hwf'|done|apply (wf_regs i' Hwf')|apply (wf_mem i' Hwf')|done|done].
Qed.

Lemma InvokeHostCall_post `{!HostNoCrash inv hostCall} calls turns i x r :
  wf i → inv x → InvokeHostCall hostCall calls turns i x = Some r →
  match r with
  | Served x' _ i' => wf i' ∧ code i' = code i ∧ bitmask i' = bitmask i ∧ inv x'
  | ServedCrash => ∃ j, wf j ∧ code j = code i ∧ can_crash j
  end.
Proof using Type*.
  intros Hwf Hx Hr. pose proof (InvokeHostCall_inv _ _ _ _ _ Hwf Hx Hr) as Hp.
  destruct r; [done|]. destruct Hp as [|(n & g & rs & m & y & ? & ? & ? & ? & ? & Hc)]; [done|].
  by destruct (host_no_crash n g rs m y).
Qed.
End host.
