(* ===== verification/PvmProgramProps.v ===== *)
(** * Properties of program blobs

    [Deblob] reads back the blob format its comment gives, [Instantiate]
    establishes the invariant of [PvmLogic], and [ParseBlob] accepts no blob of
    the documented format. *)
From S2P Require Export PvmLogic JamRoundtrip.

(** ** What [Deblob] returns *)

Lemma decodeBytesFixedLength_inv n buf d rest :
  0 ≤ n → bytes_ok buf → decodeBytesFixedLength n buf = Ok (d, rest) →
  len d = n ∧ n ≤ MaxUint32 ∧ bytes_ok d ∧ bytes_ok rest.
Proof.
  intros Hn Hb. unfold decodeBytesFixedLength. destruct (Z.gtb_spec n MaxUint32); [done|].
  rewrite go_make_small by (unfold maxAlloc, MaxUint32 in *; lia). cbn [rbind].
  destruct (Z.gtb_spec n 0).
  - intros Hr. destruct (buf_read_bytes _ _ _ _ _ Hb Hr). by apply buf_read_length in Hr.
  - intros [= <- <-]. rewrite len_replicate. split_and!; [lia|lia| |done].
    by apply Forall_replicate.
Qed.

(** Every primitive reader consumes a prefix of the bytes. *)
Lemma decodeFixedWidth_u64_inv l buf v rest :
  bytes_ok buf → decodeFixedWidth_prim Uint64 l buf = Ok (v, rest) →
  inU 64 (num_of v) ∧ bytes_ok rest.
Proof.
  intros Hb. unfold decodeFixedWidth_prim, go_make. destruct (_ && _); cbn [rbind]; [|done].
  unfold read. destruct (buf_read _ _ _) as [[d r]| |] eqn:Hr; cbn [map_err rbind]; [|done..].
  intros [= <- <-]. destruct (buf_read_bytes _ _ _ _ _ Hb Hr) as [Hd Hrest]. split; [|done].
  cbn [num_of]. rewrite deserializeTrivialNatural_le by done. by apply wrapU_range.
Qed.

Lemma decode_n_u64_inv l n buf vs rest :
  bytes_ok buf → decode_n (decodeFixedWidth_prim Uint64 l) n buf = Ok (vs, rest) →
  Forall (inU 64) (map num_of vs) ∧ length vs = n ∧ bytes_ok rest.
Proof.
  revert buf vs rest. induction n as [|n IH]; intros buf vs rest Hb; simpl.
  { intros [= <- <-]. split_and!; [by constructor|done..]. }
  destruct (decodeFixedWidth_prim Uint64 l buf) as [[v r]| |] eqn:Hv; cbn [rbind]; [|done..].
  destruct (decodeFixedWidth_u64_inv _ _ _ _ Hb Hv) as [Hv64 Hr].
  destruct (decode_n _ n r) as [[vs' r']| |] eqn:Hn; cbn [rbind]; [|done..].
  destruct (IH _ _ _ Hr Hn) as (Hf & Hl & Hr'). intros [= <- <-]. simpl.
  split_and!; [by constructor|by f_equal|done].
Qed.

Lemma decodeUint_bytes buf v rest :
  bytes_ok buf → decodeUint buf = Ok (v, rest) → bytes_ok rest.
Proof.
  intros Hb H. unfold decodeUint, ReadOctet in H. go_inv.
  repeat match goal with
  | H : read _ ?b = Ok (_, _), Hb : bytes_ok ?b |- _ => apply (buf_read_bytes _ _ _ _ _ Hb) in H as [? ?]
  end. done.
Qed.

Lemma decodeFixedWidth_bytes k l buf v rest :
  bytes_ok buf → decodeFixedWidth_prim k l buf = Ok (v, rest) → bytes_ok rest.
Proof.
  intros Hb H. unfold decodeFixedWidth_prim in H. go_inv.
  match goal with H : read _ _ = _ |- _ => apply (buf_read_bytes _ _ _ _ _ Hb) in H as [_ Hr] end.
  by destruct k; simplify_eq.
Qed.

Lemma go_make_inv {E A} s n (z : A) d :
  @go_make E A s n z = Ok d → 0 ≤ n ∧ n * s ≤ maxAlloc.
Proof.
  unfold go_make. destruct (Z.leb_spec 0 n), (Z.leb_spec (n * s) maxAlloc); simpl; done.
Qed.

Lemma go_slice_length {E A} (l : list A) lo hi d :
  @go_slice E A l lo hi = Ok d → len d = hi - lo.
Proof.
  unfold go_slice. destruct (Z.leb_spec 0 lo), (Z.leb_spec lo hi), (Z.leb_spec hi (len l)); simpl;
    try done. intros [= <-]. unfold len in *. rewrite length_take, length_drop. lia.
Qed.

Lemma Deblob_inv p code bitmask jumpTable :
  bytes_ok p → Deblob p = Ok (code, bitmask, jumpTable) →
  bytes_ok code ∧ len code ≤ MaxUint32 ∧ length bitmask = length code ∧
  Forall (inU 64) jumpTable ∧ len jumpTable < 2 ^ 48.
Proof.
  intros Hp H. unfold Deblob in H. go_inv.
  match goal with H : unmarshal _ _ = _ |- _ => cbn in H end. go_inv.
  match goal with H : match ?v with _ => _ end = _ |- _ => destruct v; try done end. go_inv.
  repeat match goal with
  | H : go_make _ _ _ = Ok _ |- _ => apply go_make_inv in H
  | H : decodeUint ?b = Ok (_, _), Hb : bytes_ok ?b |- _ => apply (decodeUint_bytes _ _ _ Hb) in H
  | H : decode_n _ _ ?b = Ok (_, _), Hb : bytes_ok ?b |- _ =>
      apply (decode_n_u64_inv _ _ _ _ _ Hb) in H as (? & ? & ?)
  | H : decodeFixedWidth_prim _ _ ?b = Ok (_, _), Hb : bytes_ok ?b |- _ =>
      apply (decodeFixedWidth_bytes _ _ _ _ _ Hb) in H
  | H : decodeBytesFixedLength _ ?b = Ok (_, _), Hb : bytes_ok ?b |- _ =>
      apply decodeBytesFixedLength_inv in H as (? & ? & ? & ?); [|lia|done]
  | H : go_slice _ _ _ = Ok _ |- _ => apply go_slice_length in H
  end.
  split_and!; try done; unfold len, maxAlloc in *; rewrite ?length_map; lia.
Qed.

(** ** Basic blocks *)

Lemma basicBlocks_loop_bound code all i rest blocks r :
  length all = length code → len code < 2 ^ 48 → 0 ≤ i → i + len rest = len all →
  (∀ b, b ∈ blocks → 0 ≤ b ≤ len code) →
  basicBlocks_loop code all i rest blocks = Ok r → ∀ b, b ∈ r → 0 ≤ b ≤ len code.
Proof.
  intros Hall Hlen. revert i blocks. induction rest as [|b rest IH]; intros i blocks Hi Hr Hb; simpl.
  { by intros [= <-]. }
  assert (len (b :: rest) = len rest + 1) as Hc by (unfold len; simpl; lia).
  pose proof (len_nonneg rest). assert (len all = len code) as Hl by (unfold len; lia).
  intros H'. apply rbind_Ok_inv in H' as (blocks' & Hb' & Hrec).
  apply (IH (i + 1) blocks'); [lia|lia| |done].
  destruct b; [|by simplify_eq]. go_inv. destruct (Op.IsBasicBlockTermination _); [|by simplify_eq].
  go_inv. rewrite Skip_eq in * by lia. simplify_eq. intros t Ht.
  set (d := drop (Z.to_nat (i + 1)) all) in *.
  destruct (Skip_loop_bounds 0 d) as [[B1 B2] B3]; [done|]. unfold BitmaskMax in B2.
  assert (len d = len all - (i + 1)) as Hd.
  { unfold d, len. rewrite length_drop. unfold len in *. lia. }
  apply elem_of_union in Ht as [->%elem_of_singleton|Ht]; [|by apply Hb].
  rewrite uint64_small by lia. lia.
Qed.

Lemma basicBlocks_loop_mono code all i rest blocks r :
  basicBlocks_loop code all i rest blocks = Ok r → blocks ⊆ r.
Proof.
  revert i blocks. induction rest as [|b rest IH]; intros i blocks; simpl; [by intros [= <-]|].
  intros (blocks' & Hb' & Hrec)%rbind_Ok_inv. apply IH in Hrec. etransitivity; [|done].
  destruct b; [|by simplify_eq]. go_inv. destruct (Op.IsBasicBlockTermination _); go_inv; set_solver.
Qed.

(** ** [Instantiate] *)

Lemma Instantiate_wf p off gas rs mem i :
  bytes_ok p → mem_wf mem → regs_wf rs → inS 64 gas → 0 ≤ off →
  Instantiate p off gas rs mem = Ok i → off < len (code i) → wf i.
Proof.
  intros Hp Hm Hr Hg Hoff H Hlt. unfold Instantiate in H. go_inv.
  match goal with H : Deblob _ = _ |- _ => destruct (Deblob_inv _ _ _ _ Hp H) as (Hc & Hl & Hb & Hj & Hjl) end.
  match goal with H : basicBlocks_loop ?c ?b _ _ _ = _ |- _ =>
    rename H into Hbl; rename c into cs; rename b into bm end.
  unfold MaxUint32 in *. simpl in *. split; simpl; [|done..].
  assert (len (cs ++ [0]) = len cs + 1) as Hl1 by (rewrite len_app; done).
  split; try done.
  - apply Forall_app. split; [done|]. by repeat constructor.
  - lia.
  - rewrite !length_app. simpl. lia.
  - by rewrite last_snoc.
  - by rewrite last_snoc.
  - intros b Hin. rewrite Hl1.
    assert (0 ≤ b ≤ len cs); [|lia].
    apply (basicBlocks_loop_bound cs bm 0 bm {[0]} _ Hb) with (b := b) in Hbl; try done; try lia.
    intros b' ->%elem_of_singleton. pose proof (len_nonneg cs). lia.
Qed.

(** One turn of the loop: position [n] adds the instruction after it when it is
    a terminator. *)
Definition block_after (code : list Z) (all : list bool) (n : nat) (b : Z) : Prop :=
  all !! n = Some true ∧
  (∃ c, code !! n = Some c ∧ Op.IsBasicBlockTermination (Op.of_byte c) = true) ∧
  b = Z.of_nat n + 1 + Skip_loop 0 (drop (S n) all).

Lemma basicBlocks_turn code all (n : nat) k rest blocks r :
  length all = length code → len code < 2 ^ 48 → all !! n = Some k →
  basicBlocks_loop code all (Z.of_nat n) (k :: rest) blocks = Ok r →
  ∃ blocks', basicBlocks_loop code all (Z.of_nat (S n)) rest blocks' = Ok r ∧
    ∀ b, b ∈ blocks' ↔ b ∈ blocks ∨ block_after code all n b.
Proof.
  intros Hall Hlen Hk H. pose proof (lookup_lt_Some _ _ _ Hk) as Hn.
  cbn [basicBlocks_loop] in H. apply rbind_Ok_inv in H as (blocks' & Hb' & H). exists blocks'.
  replace (Z.of_nat (S n)) with (Z.of_nat n + 1) by lia. split; [done|]. intros b.
  unfold block_after. rewrite Hk. destruct k.
  2:{ injection Hb' as <-. split; [by left|]. by intros [?|[? _]]. }
  apply rbind_Ok_inv in Hb' as (c & Hc & Hb'). apply go_index_Ok in Hc as [_ Hc].
  rewrite Nat2Z.id in Hc. destruct (Op.IsBasicBlockTermination (Op.of_byte c)) eqn:Ht.
  - rewrite Skip_eq in Hb' by (unfold len in *; lia). simpl in Hb'. injection Hb' as <-.
    replace (Z.to_nat (Z.of_nat n + 1)) with (S n) by lia.
    destruct (Skip_loop_bounds 0 (drop (S n) all)) as [B _]; [done|]. unfold BitmaskMax in B.
    rewrite uint64_small by (unfold len in *; lia). rewrite elem_of_union, elem_of_singleton.
    split; [intros [->|?]; [right|by left]|intros [?|(_ & _ & ->)]; [by right|by left]].
    split_and!; [done| |done]. by exists c.
  - injection Hb' as <-. split; [by left|]. intros [?|(_ & (c' & Hc' & Ht') & _)]; [done|congruence].
Qed.

(** The starts of basic blocks are those of [blocks] and the instructions that
    follow a terminator from position [i] on. *)
Lemma basicBlocks_loop_spec code all (i : nat) blocks r :
  length all = length code → len code < 2 ^ 48 →
  basicBlocks_loop code all (Z.of_nat i) (drop i all) blocks = Ok r →
  ∀ b, b ∈ r ↔ b ∈ blocks ∨ ∃ n, (i ≤ n)%nat ∧ block_after code all n b.
Proof.
  intros Hall Hlen. remember (drop i all) as rest eqn:Hrest. revert i Hrest blocks.
  induction rest as [|k rest IH]; intros i Hrest blocks.
  { intros [= <-] b. split; [by left|]. intros [Hb|(n & Hn & Hk & _)]; [done|exfalso].
    assert (drop i all !! (n - i)%nat = Some true) as Hk'
      by (rewrite lookup_drop, <- Hk; f_equal; lia). by rewrite <- Hrest in Hk'. }
  assert (all !! i = Some k) as Hk
    by (rewrite <- (Nat.add_0_r i), <- lookup_drop, <- Hrest; done).
  assert (rest = drop (S i) all) as Hrest' by (pose proof (drop_S _ _ _ Hk); congruence).
  intros (blocks' & Hrec & Hb')%basicBlocks_turn b; [|done..].
  rewrite (IH (S i) Hrest' blocks' Hrec), Hb'. split.
  - intros [[Hb|Ha]|(n & Hn & Ha)]; [by left|right; exists i; by split|right; exists n; split; [lia|done]].
  - intros [Hb|(n & Hn & Ha)]; [by left; left|].
    destruct (decide (n = i)) as [->|]; [by left; right|]. right. exists n. split; [lia|done].
Qed.

(** ** The blob format *)

(** E(|j|) ++ E_1(z) ++ E(|c|) ++ E_z(j) ++ c ++ mask *)
Definition blob_of (z : Z) (jt code mask : list Z) : list Z :=
  serializeUint64 (len jt) ++ serializeTrivialNatural z 1 ++ serializeUint64 (len code)
  ++ concat (map (λ j, serializeTrivialNatural j z) jt) ++ code ++ mask.

Lemma decode_n_jumpTable z jt rest :
  0 ≤ z ≤ 8 → Forall (λ j, inU 64 j ∧ j < 2 ^ (8 * z)) jt →
  decode_n (decodeFixedWidth_prim Uint64 z) (length jt)
    (concat (map (λ j, serializeTrivialNatural j z) jt) ++ rest) = Ok (map VNum jt, rest).
Proof.
  intros Hz. induction 1 as [|j jt [Hj Hjz] _ IH]; [done|]. simpl. rewrite <- app_assoc.
  rewrite decodeFixedWidth_prim_serialize by (done || (unfold maxAlloc; lia)). cbn [rbind]. by rewrite IH.
Qed.

Lemma decodeBytesFixedLength_app d rest :
  len d ≤ MaxUint32 → decodeBytesFixedLength (len d) (d ++ rest) = Ok (d, rest).
Proof.
  intros Hd. pose proof (len_nonneg d). unfold decodeBytesFixedLength.
  destruct (Z.gtb_spec (len d) MaxUint32); [lia|].
  rewrite go_make_small by (unfold maxAlloc, MaxUint32 in *; lia). cbn [rbind].
  destruct (Z.gtb_spec (len d) 0); [by rewrite read_exact|].
  destruct d; [done|]. unfold len in *. simpl in *. lia.
Qed.

Lemma Deblob_blob z jt code mask :
  0 ≤ z ≤ 8 → Forall (λ j, inU 64 j ∧ j < 2 ^ (8 * z)) jt → len jt ≤ 2 ^ 32 →
  len code ≤ MaxUint32 → len mask ≤ MaxUint32 → len code ≤ 8 * len mask →
  Deblob (blob_of z jt code mask) = Ok (code, take (length code) (bits_of_bytes mask), jt).
Proof.
  intros Hz Hjt Hlj Hlc Hlm Hmask. unfold Deblob, blob_of.
  pose proof (len_nonneg jt). pose proof (len_nonneg code). pose proof (len_nonneg mask).
  assert (∀ rest, unmarshal CodeAndJumpTableLengths_type (serializeUint64 (len jt) ++
    serializeTrivialNatural z 1 ++ serializeUint64 (len code) ++ rest) =
    Ok (VSeq [VNum (len jt); VNum z; VNum (len code)], rest)) as ->.
  { intros rest. cbn. unfold MaxUint32 in *.
    rewrite decodeUint_serializeUint64 by (split; lia). cbn [rbind map_err].
    rewrite decodeFixedWidth_prim_serialize by first [done|lia|split; lia]. cbn [rbind map_err].
    by rewrite decodeUint_serializeUint64 by (split; lia). }
  cbn [rbind map_err]. rewrite go_make_small by (unfold maxAlloc; lia). cbn [rbind].
  replace (Z.to_nat (len jt)) with (length jt) by (unfold len; lia).
  rewrite decode_n_jumpTable by done. cbn [rbind map_err].
  rewrite go_make_small by (unfold maxAlloc, MaxUint32 in *; lia). cbn [rbind].
  rewrite decodeBytesFixedLength_app by done. cbn [rbind map_err].
  assert (decodeBitsFixedLength [] (len mask) mask = Ok (bits_of_bytes mask, [])) as ->.
  { unfold decodeBitsFixedLength. destruct (Z.gtb_spec (len mask) MaxUint32); [lia|].
    rewrite go_make_small by (unfold maxAlloc, MaxUint32 in *; lia). cbn [rbind].
    rewrite <- (app_nil_r mask) at 2. rewrite read_exact by done. cbn [rbind].
    destruct (Z.eqb_spec (len mask) 0); [|done]. by destruct mask. }
  cbn [rbind map_err]. rewrite go_slice_ok by (rewrite ?len_bits_of_bytes; lia). cbn [rbind].
  rewrite map_map, map_id. unfold len. rewrite drop_0, Z.sub_0_r, Nat2Z.id. done.
Qed.

(** ** [ParseBlob] on the format of its comment *)

(** E_3(|o|) ++ E_3(|w|) ++ E_2(z) ++ E_3(s) ++ o ++ w ++ E_4(|c|) ++ c *)
Definition program_blob (o w c : list Z) (z s : Z) : list Z :=
  serializeTrivialNatural (len o) 3 ++ serializeTrivialNatural (len w) 3
  ++ serializeTrivialNatural z 2 ++ serializeTrivialNatural s 3
  ++ o ++ w ++ serializeTrivialNatural (len c) 4 ++ c.

Lemma decodeProgramMemorySizes_blob (o w : list Z) z s rest :
  len o < 2 ^ 24 → len w < 2 ^ 24 → 0 ≤ z < 2 ^ 16 → 0 ≤ s < 2 ^ 24 →
  decodeProgramMemorySizes (serializeTrivialNatural (len o) 3 ++ serializeTrivialNatural (len w) 3
    ++ serializeTrivialNatural z 2 ++ serializeTrivialNatural s 3 ++ rest) =
  Ok (MkProgramMemorySizes (len o) (len w) z s, rest).
Proof.
  intros Ho Hw Hz Hs. pose proof (len_nonneg o). pose proof (len_nonneg w).
  unfold decodeProgramMemorySizes. cbn.
  do 4 (rewrite decodeFixedWidth_prim_serialize by first [done|lia|split; lia]; cbn [rbind map_err]).
  done.
Qed.

Lemma ParseBlob_rejects (o w c : list Z) z s :
  len o < 2 ^ 24 → len w < 2 ^ 24 → 0 ≤ z < 2 ^ 16 → 0 ≤ s < 2 ^ 24 → len c < 2 ^ 32 →
  ParseBlob (program_blob o w c z s) =
  Err (ErrorString (if len w =? 0 then "code size mismatch" else "rw data size mismatch")).
Proof.
  intros Ho Hw Hz Hs Hc. pose proof (len_nonneg o). pose proof (len_nonneg w).
  pose proof (len_nonneg c). unfold ParseBlob, program_blob.
  rewrite decodeProgramMemorySizes_blob by done. cbn [rbind RODataSize RWDataSize].
  rewrite decodeBytesFixedLength_app by (unfold MaxUint32; lia). cbn [rbind map_err].
  rewrite Z.eqb_refl. cbn [negb]. destruct (Z.eqb_spec (len w) 0) as [Hw0|]; cbn [negb]; [|done].
  rewrite decodeBytesFixedLength_app by (unfold MaxUint32; lia). cbn [rbind map_err].
  unfold unmarshal_prim. cbn [IntLength rbind].
  rewrite decodeFixedWidth_prim_serialize by first [done|lia|split; lia]. cbn [rbind map_err num_of].
  rewrite Hw0. change (uint32 (0 + 4)) with 4. unfold go_slice_from.
  set (data := _ ++ _). assert (len data = 15 + len o + len c) as Hd.
  { subst data. rewrite !len_app, !serializeTrivialNatural_le by first [lia|split; lia].
    rewrite !len_le by lia. lia. }
  rewrite go_slice_ok by lia. cbn [rbind].
  assert (len (take (Z.to_nat (len data - 4)) (drop (Z.to_nat 4) data)) = len data - 4) as ->.
  { unfold len in *. rewrite length_take, length_drop. lia. }
  destruct (Z.eqb_spec (len data - 4) (len c)); [lia|done].
Qed.
