(* ===== verification/PvmAlu.v ===== *)
(** * Arithmetic of the three-register instructions

    The comments of [mutations.go] give each instruction a formula over the
    naturals; here the formulas are definitions and the instructions are proved
    to compute them, at the level of whole steps. *)
From S2P Require Export PvmRun.

(** ** The operators of the formulas *)

(** [Z_n]: the signed value of an [n]-byte natural; its inverse for 8 bytes. *)
Definition Zs (n x : Z) : Z := if x <? 2 ^ (8 * n - 1) then x else x - 2 ^ (8 * n).
Definition Zinv (x : Z) : Z := x `mod` 2 ^ 64.

(** [X_n]: sign extension of an [n]-byte natural to 8 bytes. *)
Definition X (n x : Z) : Z := x + x / 2 ^ (8 * n - 1) * (2 ^ 64 - 2 ^ (8 * n)).

(** [smod(a, b)] *)
Definition smod (a b : Z) : Z := if b =? 0 then a else Z.sgn a * (Z.abs a `mod` Z.abs b).

(** Rotation to the left by [k] in [w] bits. *)
Definition rotl (w x k : Z) : Z :=
  (x * 2 ^ (k `mod` w)) `mod` 2 ^ w + x / 2 ^ (w - k `mod` w).

Lemma Zs_X n x : 1 ≤ n ≤ 8 → 0 ≤ x < 2 ^ (8 * n) → Zs n x `mod` 2 ^ 64 = X n x.
Proof.
  intros Hn Hx. unfold Zs, X.
  assert (2 ^ (8 * n) = 2 * 2 ^ (8 * n - 1)) as Hp by (rewrite <- Z.pow_succ_r by lia; f_equal; lia).
  assert (2 ^ (8 * n) ≤ 2 ^ 64) by (apply Z.pow_le_mono_r; lia).
  assert (0 < 2 ^ (8 * n - 1)) by (apply Z.pow_pos_nonneg; lia).
  destruct (Z.ltb_spec x (2 ^ (8 * n - 1))).
  - rewrite Z.div_small by lia. rewrite Z.mod_small; lia.
  - replace x with (1 * 2 ^ (8 * n - 1) + (x - 2 ^ (8 * n - 1))) at 3 by lia.
    rewrite Z.div_add_l, Z.div_small by lia.
    replace (x - 2 ^ (8 * n)) with (x - 2 ^ (8 * n) + 2 ^ 64 + (-1) * 2 ^ 64) by lia.
    rewrite Z.mod_add by lia. rewrite Z.mod_small; lia.
Qed.

Lemma wrapS_Zs n x : 1 ≤ n → wrapS (8 * n) x = Zs n (x `mod` 2 ^ (8 * n)).
Proof.
  intros Hn. rewrite <- (wrapS_wrapU (8 * n)) by lia.
  pose proof (wrapU_range (8 * n) x ltac:(lia)) as Hr. change (wrapU (8 * n) x) with (x `mod` 2 ^ (8 * n)) in *.
  set (y := x `mod` 2 ^ (8 * n)) in *. unfold inU in Hr. unfold wrapS, Zs.
  assert (2 ^ (8 * n) = 2 * 2 ^ (8 * n - 1)) as Hp by (rewrite <- Z.pow_succ_r by lia; f_equal; lia).
  destruct (Z.ltb_spec y (2 ^ (8 * n - 1))).
  - rewrite Z.mod_small by lia. lia.
  - replace (y + 2 ^ (8 * n - 1)) with (y - 2 ^ (8 * n - 1) + 1 * 2 ^ (8 * n)) by lia.
    rewrite Z.mod_add by lia. rewrite Z.mod_small; lia.
Qed.

Lemma uint64_wrapS n x : 1 ≤ n ≤ 8 → uint64 (wrapS (8 * n) x) = X n (x `mod` 2 ^ (8 * n)).
Proof.
  intros Hn. rewrite wrapS_Zs by lia. unfold uint64, wrapU. apply Zs_X; [done|].
  apply Z.mod_pos_bound. by apply Z.pow_pos_nonneg; lia.
Qed.

Lemma int64_wrapS k x : 0 < k ≤ 64 → int64 (wrapS k x) = wrapS k x.
Proof.
  intros Hk. apply wrapS_id; [lia|]. pose proof (wrapS_range k x ltac:(lia)) as H. unfold inS in *.
  assert (2 ^ (k - 1) ≤ 2 ^ (64 - 1)) by (apply Z.pow_le_mono_r; lia). lia.
Qed.

Lemma wrapS_shift8 v : wrapS 32 (v * 2 ^ 8) / 2 ^ 8 = wrapS 24 v.
Proof.
  unfold wrapS. replace (v * 2 ^ 8 + 2 ^ (32 - 1)) with ((v + 2 ^ (24 - 1)) * 2 ^ 8) by lia.
  change (2 ^ 32) with (2 ^ 24 * 2 ^ 8). rewrite Z.mul_mod_distr_r by lia.
  replace ((v + 2 ^ (24 - 1)) `mod` 2 ^ 24 * 2 ^ 8 - 2 ^ (32 - 1))
    with (((v + 2 ^ (24 - 1)) `mod` 2 ^ 24 - 2 ^ (24 - 1)) * 2 ^ 8) by lia.
  by rewrite Z.div_mul by lia.
Qed.

(** [sext] is [X_n] on the widths it is called with. *)
Lemma sext_X v n :
  n ∈ [0; 1; 2; 3; 4; 8] → inU 64 v → sext v n = Ok (X n (v `mod` 2 ^ (8 * n))).
Proof.
  intros Hn Hv. repeat (apply elem_of_cons in Hn; destruct Hn as [->|Hn]);
    [..|by apply elem_of_nil in Hn]; unfold sext; simpl; f_equal.
  - by rewrite Z.mod_1_r.
  - rewrite <- (uint64_wrapS 1) by lia. unfold uint8, int8.
    by rewrite (wrapS_wrapU 8), int64_wrapS by lia.
  - rewrite <- (uint64_wrapS 2) by lia. unfold uint16, int16.
    by rewrite (wrapS_wrapU 16), int64_wrapS by lia.
  - rewrite <- (uint64_wrapS 3) by lia. f_equal. unfold int32, go_shl, go_shr, uint64. simpl.
    rewrite Z.shiftl_mul_pow2, Z.shiftr_div_pow2 by lia.
    rewrite <- (wrapS_wrapU 32), wrapU_wrapU, wrapS_wrapU by lia. apply wrapS_shift8.
  - rewrite <- (uint64_wrapS 4) by lia. unfold int32. by rewrite int64_wrapS by lia.
  - by rewrite <- (uint64_wrapS 8) by lia.
Qed.

(** ** The documented formulas *)

Definition inv64 (x : Z) : Z := 2 ^ 64 - 1 - x.

(** The value the comment of each instruction gives to the destination, from
    those of the operands [a], [b] and of the destination [d] before.  The
    comments of the signed divisions write a floor; the quotient here is
    rounded towards zero. *)
Definition alu3 (o : Op.t) (a b d : Z) : option Z :=
  let a4 := a `mod` 2 ^ 32 in
  let b4 := b `mod` 2 ^ 32 in
  match o with
  | Op.Add32 => Some (X 4 ((a + b) `mod` 2 ^ 32))
  | Op.Sub32 => Some (X 4 ((a + 2 ^ 32 - b4) `mod` 2 ^ 32))
  | Op.Mul32 => Some (X 4 ((a * b) `mod` 2 ^ 32))
  | Op.DivUnsigned32 => Some (if b4 =? 0 then 2 ^ 64 - 1 else X 4 (a4 / b4))
  | Op.DivSigned32 =>
      Some (if Zs 4 b4 =? 0 then 2 ^ 64 - 1
            else if (Zs 4 a4 =? - 2 ^ 31) && (Zs 4 b4 =? -1) then Zinv (Zs 4 a4)
            else Zinv (Zs 4 a4 / Zs 4 b4))
  | Op.RemUnsigned32 => Some (X 4 (if b4 =? 0 then a4 else a4 `mod` b4))
  | Op.RemSigned32 => Some (Zinv (smod (Zs 4 a4) (Zs 4 b4)))
  | Op.ShiftLogicalLeft32 => Some (X 4 ((a * 2 ^ (b `mod` 32)) `mod` 2 ^ 32))
  | Op.ShiftLogicalRight32 => Some (X 4 (a4 / 2 ^ (b `mod` 32)))
  | Op.ShiftArithmeticRight32 => Some (Zinv (Zs 4 a4 / 2 ^ (b `mod` 32)))
  | Op.Add64 => Some ((a + b) `mod` 2 ^ 64)
  | Op.Sub64 => Some ((a + 2 ^ 64 - b) `mod` 2 ^ 64)
  | Op.Mul64 => Some ((a * b) `mod` 2 ^ 64)
  | Op.DivUnsigned64 => Some (if b =? 0 then 2 ^ 64 - 1 else a / b)
  | Op.DivSigned64 =>
      Some (if b =? 0 then 2 ^ 64 - 1
            else if (Zs 8 a =? - 2 ^ 63) && (Zs 8 b =? -1) then a
            else Zinv (Zs 8 a / Zs 8 b))
  | Op.RemUnsigned64 => Some (if b =? 0 then a else a `mod` b)
  | Op.RemSigned64 => Some (Zinv (smod (Zs 8 a) (Zs 8 b)))
  | Op.ShiftLogicalLeft64 => Some ((a * 2 ^ (b `mod` 64)) `mod` 2 ^ 64)
  | Op.ShiftLogicalRight64 => Some (a / 2 ^ (b `mod` 64))
  | Op.ShiftArithmeticRight64 => Some (Zinv (Zs 8 a / 2 ^ (b `mod` 64)))
  | Op.And => Some (Z.land a b)
  | Op.Xor => Some (Z.lxor a b)
  | Op.Or => Some (Z.lor a b)
  | Op.MulUpperSignedSigned => Some (Zinv (Zs 8 a * Zs 8 b / 2 ^ 64))
  | Op.MulUpperUnsignedUnsigned => Some (a * b / 2 ^ 64)
  | Op.MulUpperSignedUnsigned => Some (Zinv (Zs 8 a * b / 2 ^ 64))
  | Op.SetLessThanUnsigned => Some (bool_to_Z (a <? b))
  | Op.SetLessThanSigned => Some (bool_to_Z (Zs 8 a <? Zs 8 b))
  | Op.CmovIfZero => Some (if b =? 0 then a else d)
  | Op.CmovIfNotZero => Some (if b =? 0 then d else a)
  | Op.RotL64 => Some (rotl 64 a b)
  | Op.RotL32 => Some (X 4 (rotl 32 a4 b))
  | Op.RotR64 => Some (rotl 64 a (- b))
  | Op.RotR32 => Some (X 4 (rotl 32 a4 (- b)))
  | Op.AndInv => Some (Z.land a (inv64 b))
  | Op.OrInv => Some (Z.lor a (inv64 b))
  | Op.Xnor => Some (inv64 (Z.lxor a b))
  | Op.Max => Some (Zinv (Z.max (Zs 8 a) (Zs 8 b)))
  | Op.MaxU => Some (Z.max a b)
  | Op.Min => Some (Zinv (Z.min (Zs 8 a) (Zs 8 b)))
  | Op.MinU => Some (Z.min a b)
  | _ => None
  end.

(** Where the code departs from its comment: [set_lt_s] compares the low halves,
    the signed divisions truncate where the comment has the floor, which differs
    for an inexact quotient of operands of different signs, and the signed
    remainders of the least integer. *)
Definition departs (o : Op.t) (a b : Z) : Prop :=
  match o with
  | Op.SetLessThanSigned => True
  | Op.DivSigned32 =>
      let x := Zs 4 (a `mod` 2 ^ 32) in let y := Zs 4 (b `mod` 2 ^ 32) in Z.quot x y ≠ x / y
  | Op.DivSigned64 => Z.quot (Zs 8 a) (Zs 8 b) ≠ Zs 8 a / Zs 8 b
  | Op.RemSigned32 => a `mod` 2 ^ 32 = 2 ^ 31
  | Op.RemSigned64 => a = 2 ^ 63
  | _ => False
  end.

(** ** The values *)

Lemma sext4 v : sext (uint32 v) 4 = Ok (X 4 (v `mod` 2 ^ 32)).
Proof.
  rewrite sext_X by (by repeat constructor || apply inU_uint32_64).
  do 2 f_equal. unfold uint32, wrapU. by rewrite Z.mod_mod.
Qed.

Lemma sext4_small v : inU 32 v → sext v 4 = Ok (X 4 v).
Proof. intros Hv. by rewrite <- (wrapU_id 32 v Hv) at 1; rewrite sext4, Z.mod_small. Qed.

Lemma int64_Zs a : inU 64 a → int64 a = Zs 8 a.
Proof. intros Ha. unfold int64. rewrite (wrapS_Zs 8) by lia. by rewrite Z.mod_small. Qed.

Lemma int32_Zs a : int32 (uint32 a) = Zs 4 (a `mod` 2 ^ 32).
Proof. unfold int32, uint32. rewrite wrapS_wrapU by lia. by rewrite (wrapS_Zs 4) by lia. Qed.

Lemma uint32_mod32 b : uint32 b `mod` 32 = b `mod` 32.
Proof. apply (wrapU_wrapU 5 32). lia. Qed.

Lemma uint32_uint64 x : uint32 (uint64 x) = uint32 x.
Proof. apply wrapU_wrapU. lia. Qed.

Lemma Zs_range n x : 1 ≤ n → 0 ≤ x < 2 ^ (8 * n) → inS (8 * n) (Zs n x).
Proof.
  intros Hn Hx. unfold Zs, inS.
  assert (2 ^ (8 * n) = 2 * 2 ^ (8 * n - 1)) as Hp by (rewrite <- Z.pow_succ_r by lia; f_equal; lia).
  destruct (Z.ltb_spec x (2 ^ (8 * n - 1))); lia.
Qed.

Lemma uint64_Zs8 a : inU 64 a → uint64 (Zs 8 a) = a.
Proof.
  intros Ha. rewrite <- int64_Zs by done. unfold uint64, int64. rewrite wrapU_wrapS by lia.
  by apply wrapU_id.
Qed.

Lemma Zs_0 n x : 1 ≤ n → 0 ≤ x < 2 ^ (8 * n) → (Zs n x =? 0) = (x =? 0).
Proof.
  intros Hn Hx. unfold Zs.
  assert (0 < 2 ^ (8 * n - 1)) by (apply Z.pow_pos_nonneg; lia).
  destruct (Z.ltb_spec x (2 ^ (8 * n - 1))); [done|].
  destruct (Z.eqb_spec (x - 2 ^ (8 * n)) 0), (Z.eqb_spec x 0); lia.
Qed.

Lemma uint64_lnot x : inU 64 x → uint64 (Z.lnot x) = inv64 x.
Proof.
  unfold inU, uint64, wrapU, inv64, Z.lnot. intros Hx.
  replace (Z.pred (- x)) with (2 ^ 64 - 1 - x + (-1) * 2 ^ 64) by lia.
  rewrite Z.mod_add by lia. rewrite Z.mod_small; lia.
Qed.

Lemma wrapS_diff w x : 0 ≤ w → ∃ k, wrapS w x = x + k * 2 ^ w.
Proof.
  intros Hw. exists (- ((x + 2 ^ (w - 1)) / 2 ^ w)). unfold wrapS.
  assert (0 < 2 ^ w) by (apply Z.pow_pos_nonneg; lia).
  rewrite Z.mod_eq by lia. lia.
Qed.

Lemma uint64_big_Int64 x : uint64 (big_Int64 x) = Zinv x.
Proof.
  unfold big_Int64, uint64, int64, Zinv. cbv zeta.
  assert (x `mod` 2 ^ 64 = wrapU 64 x) as -> by done. destruct (Z.ltb_spec x 0).
  - rewrite wrapU_wrapS by lia. destruct (wrapS_diff 64 (Z.abs x `mod` 2 ^ 64)) as [k ->]; [lia|].
    apply wrapU_eq_mod; [|lia]. rewrite (Z.mod_eq (Z.abs x)), Z.abs_neq by lia.
    replace (_ - x) with ((- x / 2 ^ 64 - k) * 2 ^ 64) by lia. by apply Z.mod_mul.
  - rewrite wrapU_wrapS by lia. unfold wrapU. rewrite Z.mod_mod by lia. by rewrite Z.abs_eq.
Qed.

(** Shifts by less than the width. *)
Lemma go_shl_pow w x s : 0 ≤ s < w → go_shl w x s = x * 2 ^ s.
Proof.
  intros Hs. unfold go_shl. rewrite (proj2 (Z.ltb_lt s w)) by lia. rewrite Z.shiftl_mul_pow2 by lia. done.
Qed.
Lemma go_shr_pow w x s : 0 ≤ s < w → go_shr w x s = x / 2 ^ s.
Proof.
  intros Hs. unfold go_shr. rewrite (proj2 (Z.ltb_lt s w)) by lia. rewrite Z.shiftr_div_pow2 by lia. done.
Qed.

(** The two halves of a rotated word do not overlap. *)
Lemma rotl_lor w x s :
  0 ≤ s < w → inU w x →
  Z.lor (wrapU w (x * 2 ^ s)) (x / 2 ^ (w - s)) = (x * 2 ^ s) `mod` 2 ^ w + x / 2 ^ (w - s).
Proof.
  intros Hs Hx. unfold wrapU. symmetry. apply Z.add_nocarry_lor. apply Z.bits_inj'. intros i Hi.
  rewrite Z.land_spec, Z.bits_0. destruct (decide (i < s)).
  - rewrite Z.mod_pow2_bits_low by lia. by rewrite Z.mul_pow2_bits_low.
  - rewrite (inU_testbit s (x / 2 ^ (w - s)) i); [by rewrite andb_false_r|lia|]. destruct Hx as [H1 H2].
    split; [apply Z.div_pos; [lia|]; apply Z.pow_pos_nonneg; lia|].
    apply Z.div_lt_upper_bound; [apply Z.pow_pos_nonneg; lia|].
    rewrite <- Z.pow_add_r by lia. by replace (w - s + s) with w by lia.
Qed.

Lemma RotateLeft_rotl j x k :
  0 ≤ j ≤ 6 → inU (2 ^ j) x → RotateLeft (2 ^ j) x k = rotl (2 ^ j) x k.
Proof.
  intros Hj Hx. unfold RotateLeft, rotl. cbv zeta.
  assert (0 < 2 ^ j) by (apply Z.pow_pos_nonneg; lia).
  assert (Z.land (uint64 k) (2 ^ j - 1) = k `mod` 2 ^ j) as ->.
  { rewrite Z.sub_1_r, <- Z.ones_equiv, Z.land_ones by lia. apply (wrapU_wrapU j 64). lia. }
  pose proof (Z.mod_pos_bound k (2 ^ j) ltac:(done)) as Hs.
  set (w := 2 ^ j) in *. set (s := k `mod` w) in *. rewrite go_shl_pow by done.
  rewrite go_shr_small by (done || lia). rewrite Z.shiftr_div_pow2 by lia.
  apply rotl_lor; done.
Qed.

(** [abs] and [smod] away from the least integer. *)
Section smod.
Lemma go_shr_sign w v : 1 < w → inS w v → go_shr w v (w - 1) = if v <? 0 then -1 else 0.
Proof.
  intros Hw Hv. rewrite go_shr_pow by lia. unfold inS in Hv. destruct (Z.ltb_spec v 0).
  - replace v with ((-1) * 2 ^ (w - 1) + (v + 2 ^ (w - 1))) by lia.
    rewrite Z.div_add_l, Z.div_small by lia. done.
  - by rewrite Z.div_small by lia.
Qed.

Lemma abs_mask w v :
  1 < w → inS w v → v ≠ - 2 ^ (w - 1) →
  (let mask := go_shr w v (w - 1) in wrapS w (Z.lxor v mask - mask)) = Z.abs v.
Proof.
  intros Hw Hv Hmin. cbv zeta. rewrite go_shr_sign by done. unfold inS in Hv.
  destruct (Z.ltb_spec v 0).
  - rewrite Z.lxor_m1_r. unfold Z.lnot. rewrite wrapS_id by (unfold inS; lia). lia.
  - rewrite Z.lxor_0_r, Z.sub_0_r, wrapS_id by (unfold inS; lia). lia.
Qed.

Lemma abs64_abs v : inS 64 v → v ≠ - 2 ^ 63 → abs64 v = Z.abs v.
Proof. intros. by apply (abs_mask 64). Qed.
Lemma abs32_abs v : inS 32 v → v ≠ - 2 ^ 31 → abs32 v = Z.abs v.
Proof. intros. by apply (abs_mask 32). Qed.

Lemma rem_abs_min a m : 0 ≤ a < m → Z.rem a (- m) = a `mod` m.
Proof. intros. rewrite Z.rem_opp_r by lia. rewrite Z.rem_mod_nonneg by lia. done. Qed.

(** The body of [smod64] and [smod32]; the least integer is its own absolute
    value, which is harmless for the divisor. *)
Lemma smod_width w ab a b :
  1 < w → (∀ v, inS w v → v ≠ - 2 ^ (w - 1) → ab v = Z.abs v) →
  ab (- 2 ^ (w - 1)) = - 2 ^ (w - 1) → inS w a → inS w b → a ≠ - 2 ^ (w - 1) →
  (if b =? 0 then a
   else if a <? 0 then wrapS w (- wrapS w (Z.rem (ab a) (ab b)))
   else wrapS w (Z.rem (ab a) (ab b))) = smod a b.
Proof.
  intros Hw Habs Habsmin Ha Hb Hmin. unfold smod. destruct (Z.eqb_spec b 0); [done|].
  rewrite (Habs a) by done.
  assert (Z.rem (Z.abs a) (ab b) = Z.abs a `mod` Z.abs b) as ->.
  { destruct (decide (b = - 2 ^ (w - 1))) as [->|].
    - rewrite Habsmin, Z.abs_opp. unfold inS in *. rewrite (Z.abs_eq (2 ^ (w - 1))) by lia.
      apply rem_abs_min. lia.
    - rewrite Habs by done. apply Z.rem_mod_nonneg; lia. }
  pose proof (Z.mod_pos_bound (Z.abs a) (Z.abs b) ltac:(lia)).
  assert (Z.abs a `mod` Z.abs b ≤ Z.abs a) by (apply Z.mod_le; lia).
  unfold inS in *. rewrite (wrapS_id w (_ `mod` _)) by (unfold inS; lia).
  destruct (Z.ltb_spec a 0).
  - rewrite wrapS_id by (unfold inS; lia). rewrite Z.sgn_neg by lia. lia.
  - destruct (decide (a = 0)) as [->|]; [change (Z.abs 0) with 0; by rewrite Z.mod_0_l by lia|]. rewrite Z.sgn_pos by lia. lia.
Qed.

Lemma smod64_smod a b : inS 64 a → inS 64 b → a ≠ - 2 ^ 63 → smod64 a b = smod a b.
Proof. apply (smod_width 64 abs64); [lia|apply abs64_abs|done]. Qed.
Lemma smod32_smod a b : inS 32 a → inS 32 b → a ≠ - 2 ^ 31 → smod32 a b = smod a b.
Proof. apply (smod_width 32 abs32); [lia|apply abs32_abs|done]. Qed.
End smod.

(** ** The instructions *)

Lemma bind_reg {B} r v (k : Z → M B) i :
  0 ≤ r → regs i !! Z.to_nat r = Some v → bind (reg r) k i = k v i.
Proof.
  intros Hr Hv. unfold bind, reg, bind, get, lift, go_index.
  rewrite (proj2 (Z.ltb_ge r 0)) by lia. by rewrite Hv.
Qed.

Lemma setSextAndSkip_eq dst x n v i :
  sext x n = Ok v → setSextAndSkip dst x n i = setAndSkip dst v i.
Proof. intros Hx. unfold setSextAndSkip. by rewrite Hx. Qed.

Lemma set_if_skip (c : bool) dst x y i :
  bind (if c then set_reg dst x else set_reg dst y) (λ _, skip) i =
  setAndSkip dst (if c then x else y) i.
Proof. by destruct c. Qed.

(** *** Values *)

Lemma sub_mod_32 a b : (a + 2 ^ 32 - b `mod` 2 ^ 32) `mod` 2 ^ 32 = (a - b) `mod` 2 ^ 32.
Proof.
  rewrite (Z.mod_eq b) by lia.
  replace (a + 2 ^ 32 - (b - 2 ^ 32 * (b / 2 ^ 32))) with (a - b + (1 + b / 2 ^ 32) * 2 ^ 32) by lia.
  by rewrite Z.mod_add by lia.
Qed.

Lemma sub_mod_64 a b : (a + 2 ^ 64 - b) `mod` 2 ^ 64 = uint64 (a - b).
Proof.
  replace (a + 2 ^ 64 - b) with (a - b + 1 * 2 ^ 64) by lia. by rewrite Z.mod_add by lia.
Qed.

Lemma shl_mod_32 a s : 0 ≤ s < 32 → uint32 (go_shl 32 (uint32 a) s) = (a * 2 ^ s) `mod` 2 ^ 32.
Proof.
  intros Hs. rewrite go_shl_pow by lia. unfold uint32, wrapU. by rewrite Z.mul_mod_idemp_l by lia.
Qed.

Lemma inU32_div x y : inU 32 x → 0 < y → inU 32 (x / y).
Proof.
  unfold inU. intros Hx Hy. split; [apply Z.div_pos; lia|].
  apply Z.div_lt_upper_bound; [lia|]. nia.
Qed.

Lemma Zs_min n x : 1 ≤ n → 0 ≤ x < 2 ^ (8 * n) → Zs n x = - 2 ^ (8 * n - 1) → x = 2 ^ (8 * n - 1).
Proof.
  intros Hn Hx. unfold Zs.
  assert (2 ^ (8 * n) = 2 * 2 ^ (8 * n - 1)) as Hp by (rewrite <- Z.pow_succ_r by lia; f_equal; lia).
  assert (0 < 2 ^ (8 * n - 1)) by (apply Z.pow_pos_nonneg; lia).
  destruct (Z.ltb_spec x (2 ^ (8 * n - 1))); lia.
Qed.

(** The one signed quotient out of range is that of the least integer by -1. *)
Lemma quot_range w x y :
  1 < w → inS w x → inS w y → y ≠ 0 → x ≠ - 2 ^ (w - 1) ∨ y ≠ -1 → inS w (Z.quot x y).
Proof.
  intros Hw Hx Hy Hy0 Hxy. assert (0 < 2 ^ (w - 1)) by (apply Z.pow_pos_nonneg; lia).
  destruct (decide (y = -1)) as [->|].
  { replace (-1) with (- (1)) by lia. rewrite Z.quot_opp_r, Z.quot_1_r by lia. unfold inS in *. lia. }
  destruct (decide (y = 1)) as [->|]; [by rewrite Z.quot_1_r|].
  assert (Z.abs (Z.quot x y) < 2 ^ (w - 1)); [|unfold inS; lia].
  rewrite <- Z.quot_abs by done. rewrite Z.quot_div_nonneg by lia.
  apply Z.div_lt_upper_bound; [lia|]. unfold inS in *. nia.
Qed.

Lemma ldiff_inv64 a b : inU 64 a → inU 64 b → Z.ldiff a b = Z.land a (inv64 b).
Proof.
  intros Ha Hb. rewrite <- uint64_lnot by done. rewrite Z.ldiff_land.
  apply Z.bits_inj'. intros n Hn. rewrite !Z.land_spec. destruct (decide (n < 64)).
  - unfold uint64, wrapU. by rewrite (Z.mod_pow2_bits_low (Z.lnot b)) by lia.
  - by rewrite (inU_testbit 64 a) by (done || lia).
Qed.

(** A rotation depends on the amount modulo the width only. *)
Lemma rotl_int64 j x k : 0 ≤ j ≤ 6 → rotl (2 ^ j) x (int64 k) = rotl (2 ^ j) x k.
Proof.
  intros Hj. assert (∀ y, y `mod` 2 ^ j = wrapU j (wrapU 64 y)) as H.
  { intros y. by rewrite wrapU_wrapU by lia. }
  unfold rotl. rewrite (H (int64 k)), (H k). unfold int64. by rewrite (wrapU_wrapS 64) by lia.
Qed.

Lemma rotl_opp_int64 j x k : 0 ≤ j ≤ 6 → rotl (2 ^ j) x (int64 (- int64 k)) = rotl (2 ^ j) x (- k).
Proof.
  intros Hj. rewrite rotl_int64 by done. rewrite <- (rotl_int64 _ _ (- k)) by done.
  rewrite <- (rotl_int64 _ _ (- int64 k)) by done. f_equal. unfold int64.
  destruct (wrapS_diff 64 k) as [q ->]; [lia|].
  rewrite <- (wrapS_wrapU 64 (- (k + _))), <- (wrapS_wrapU 64 (- k)) by lia. f_equal.
  apply wrapU_eq_mod; [|lia]. replace (_ - - k) with (- q * 2 ^ 64) by lia. by apply Z.mod_mul.
Qed.

Lemma RotateLeft64_rotl x k : inU 64 x → RotateLeft64 x k = rotl 64 x k.
Proof. by apply (RotateLeft_rotl 6). Qed.
Lemma RotateLeft32_rotl x k : inU 32 x → RotateLeft32 x k = rotl 32 x k.
Proof. by apply (RotateLeft_rotl 5). Qed.

Lemma set_reg_same r v i :
  0 ≤ r → regs i !! Z.to_nat r = Some v → set_reg r v i = Done () i.
Proof.
  intros Hr Hv. pose proof (lookup_lt_Some _ _ _ Hv). unfold set_reg, bind, get, lift, modify, go_update.
  rewrite (proj2 (Z.leb_le 0 r)), (proj2 (Z.ltb_lt r _)) by (unfold len; lia). simpl.
  rewrite list_insert_id by done. by destruct i.
Qed.

(** An instruction writes the documented value and moves on: the instructions
    on the low halves. *)
Definition is_32 (o : Op.t) : bool :=
  match o with
  | Op.Add32 | Op.Sub32 | Op.Mul32 | Op.DivUnsigned32 | Op.DivSigned32 | Op.RemUnsigned32
  | Op.RemSigned32 | Op.ShiftLogicalLeft32 | Op.ShiftLogicalRight32 | Op.ShiftArithmeticRight32
  | Op.RotL32 | Op.RotR32 => true
  | _ => false
  end.

Section instructions.
Context (i : Instance) (Hwf : wf i) (rd ra rb a b d : Z).
Context (Hd : 0 ≤ rd ≤ 12) (Hra : 0 ≤ ra) (Hrb : 0 ≤ rb).
Context (Ha : regs i !! Z.to_nat ra = Some a) (Hb : regs i !! Z.to_nat rb = Some b)
  (Hrd : regs i !! Z.to_nat rd = Some d) (Ua : inU 64 a) (Ub : inU 64 b).

Let B32 : 0 ≤ b `mod` 32 < 32.
Proof. apply Z.mod_pos_bound; lia. Qed.
Let B64 : 0 ≤ b `mod` 64 < 64.
Proof. apply Z.mod_pos_bound; lia. Qed.
Let A4 : 0 ≤ a `mod` 2 ^ 32 < 2 ^ (8 * 4).
Proof. by apply Z.mod_pos_bound. Qed.
Let B4 : 0 ≤ b `mod` 2 ^ 32 < 2 ^ (8 * 4).
Proof. by apply Z.mod_pos_bound. Qed.

Ltac run :=
  match goal with |- ?c _ = _ => unfold_head c end;
  rewrite ?(bind_reg ra a) by done; rewrite ?(bind_reg rb b) by done; cbv zeta.

Lemma exec32 o v :
  is_32 o = true → alu3 o a b d = Some v → ¬ departs o a b →
  execReg3 (Some o) rd ra rb i = setAndSkip rd v i.
Proof.
  intros Ho Hv Hdep. destruct o; try discriminate Ho; injection Hv as <-; cbn [execReg3]; run;
    rewrite ?uint32_uint64, ?int32_Zs, ?uint32_mod32.
  - apply setSextAndSkip_eq, sext4.
  - rewrite sub_mod_32. apply setSextAndSkip_eq, sext4.
  - apply setSextAndSkip_eq, sext4.
  - change (uint32 a) with (a `mod` 2 ^ 32). change (uint32 b) with (b `mod` 2 ^ 32).
    destruct (Z.eqb_spec (b `mod` 2 ^ 32) 0); [done|].
    rewrite sext4_small by (apply inU32_div; [done|lia]). done.
  - destruct (Z.eqb_spec (Zs 4 (b `mod` 2 ^ 32)) 0); [done|].
    change MinInt32 with (- 2 ^ 31). destruct (_ && _) eqn:E; [done|].
    assert (Z.quot (Zs 4 (a `mod` 2 ^ 32)) (Zs 4 (b `mod` 2 ^ 32)) =
            Zs 4 (a `mod` 2 ^ 32) / Zs 4 (b `mod` 2 ^ 32)) as Hq by (apply dec_stable, Hdep).
    unfold int32. rewrite wrapS_id; [by rewrite Hq|lia|]. apply quot_range; [lia| | |done|].
    + by apply (Zs_range 4).
    + by apply (Zs_range 4).
    + by apply andb_false_iff in E as [E%Z.eqb_neq|E%Z.eqb_neq]; [left|right].
  - change (uint32 a) with (a `mod` 2 ^ 32). change (uint32 b) with (b `mod` 2 ^ 32).
    destruct (Z.eqb_spec (b `mod` 2 ^ 32) 0).
    + by rewrite sext4_small.
    + rewrite sext4_small; [done|]. unfold inU.
      pose proof (Z.mod_pos_bound (a `mod` 2 ^ 32) (b `mod` 2 ^ 32) ltac:(lia)). lia.
  - assert (Zs 4 (a `mod` 2 ^ 32) ≠ - 2 ^ 31) as Hmin
      by (intros E; apply Hdep; by apply (Zs_min 4)).
    change MinInt32 with (- 2 ^ 31). rewrite (proj2 (Z.eqb_neq _ _) Hmin). simpl.
    rewrite smod32_smod by (done || by apply (Zs_range 4)). unfold smod.
    by destruct (Zs 4 (b `mod` 2 ^ 32) =? 0).
  - apply setSextAndSkip_eq. rewrite sext4. do 2 f_equal. by apply shl_mod_32.
  - rewrite go_shr_pow by done. apply setSextAndSkip_eq, sext4_small, inU32_div; [done|].
    apply Z.pow_pos_nonneg; lia.
  - by rewrite go_shr_pow by done.
  - apply setSextAndSkip_eq. rewrite sext4_small by (apply (inU_RotateLeft 5); [lia|apply inU_uint32]).
    rewrite RotateLeft32_rotl by apply inU_uint32. by rewrite (rotl_int64 5) by lia.
  - apply setSextAndSkip_eq. rewrite sext4_small by (apply (inU_RotateLeft 5); [lia|apply inU_uint32]).
    rewrite RotateLeft32_rotl by apply inU_uint32. by rewrite (rotl_opp_int64 5) by lia.
Qed.

Lemma exec64 o v :
  is_32 o = false → alu3 o a b d = Some v → ¬ departs o a b →
  execReg3 (Some o) rd ra rb i = setAndSkip rd v i.
Proof.
  intros Ho Hv Hdep. destruct o; try discriminate Ho; try discriminate Hv; injection Hv as <-;
    cbn [execReg3]; run; rewrite ?int64_Zs by done; rewrite ?uint64_big_Int64; try done.
  - by rewrite sub_mod_64.
  - by rewrite set_if_skip.
  - rewrite <- (Zs_0 8 b) by (done || lia).
    destruct (Z.eqb_spec (Zs 8 b) 0); [done|]. change MinInt64 with (- 2 ^ 63).
    destruct (_ && _) eqn:E; [by rewrite uint64_Zs8|].
    assert (Z.quot (Zs 8 a) (Zs 8 b) = Zs 8 a / Zs 8 b) as Hq by (apply dec_stable, Hdep).
    unfold int64. rewrite wrapS_id; [by rewrite Hq|lia|]. apply quot_range; [lia| | |done|].
    + by apply (Zs_range 8).
    + by apply (Zs_range 8).
    + by apply andb_false_iff in E as [E%Z.eqb_neq|E%Z.eqb_neq]; [left|right].
  - by rewrite set_if_skip.
  - assert (Zs 8 a ≠ - 2 ^ 63) as Hmin by (intros E; apply Hdep; by apply (Zs_min 8)).
    rewrite smod64_smod by (done || by apply (Zs_range 8)). unfold smod.
    destruct (Zs 8 b =? 0); [done|].
    destruct (Z.eqb_spec (Zs 8 a) MinInt32), (Z.eqb_spec (Zs 8 b) (-1)) as [->|]; try done. simpl.
    by rewrite Z.mod_1_r, Z.mul_0_r.
  - by rewrite go_shl_pow by done.
  - by rewrite go_shr_pow by done.
  - by rewrite go_shr_pow by done.
  - by rewrite Z.shiftr_div_pow2 by lia.
  - rewrite Z.shiftr_div_pow2 by lia. unfold Zinv. f_equal. apply Z.mod_small. unfold inU in *.
    split; [apply Z.div_pos; nia|]. apply Z.div_lt_upper_bound; nia.
  - by rewrite Z.shiftr_div_pow2 by lia.
  - destruct (b =? 0); unfold bind at 1; [by rewrite (bind_reg ra a) by done|].
    unfold setAndSkip, bind. by rewrite set_reg_same by (done || lia).
  - destruct (b =? 0); simpl; unfold bind at 1; [|by rewrite (bind_reg ra a) by done].
    unfold setAndSkip, bind. by rewrite set_reg_same by (done || lia).
  - rewrite <- int64_Zs by done. by rewrite RotateLeft64_rotl, (rotl_int64 6) by (done || lia).
  - by rewrite RotateLeft64_rotl, (rotl_opp_int64 6) by (done || lia).
  - by rewrite ldiff_inv64 by done.
  - by rewrite uint64_lnot by done.
  - by rewrite uint64_lnot by auto with inU.
Qed.
End instructions.

(** ** Steps *)

(** The registers an instruction of the format names. *)
Definition operands3 (i : Instance) (rd ra rb : nat) : Prop :=
  ∃ x y, code i !! Z.to_nat (instructionCounter i + 1) = Some x ∧
         code i !! Z.to_nat (instructionCounter i + 2) = Some y ∧
         ra = Z.to_nat (Z.min 12 (x `mod` 16)) ∧ rb = Z.to_nat (Z.min 12 (x / 16)) ∧
         rd = Z.to_nat (Z.min 12 y).

Lemma codeByte_eq {B} n x (k : Z → M B) i :
  wf i → 0 ≤ n ≤ 16 → code i !! Z.to_nat (instructionCounter i + n) = Some x →
  bind (codeByte n) k i = k x i.
Proof.
  intros [[_ Hlen _ _ _ _ _ _] _ _ Hpc _] Hn Hx. unfold codeByte, bind, get, lift, go_index.
  rewrite uint64_small by lia. rewrite (proj2 (Z.ltb_ge _ 0)) by lia. by rewrite Hx.
Qed.

Lemma checkCode_eq {B} n (k : unit → M B) i :
  wf i → 0 ≤ n ≤ 16 → instructionCounter i + n ≤ len (code i) → bind (checkCode n) k i = k () i.
Proof.
  intros [[_ Hlen _ _ _ _ _ _] _ _ Hpc _] Hn Hx. unfold checkCode, bind, get.
  rewrite uint64_small by lia. by rewrite (proj2 (Z.ltb_ge _ _)) by lia.
Qed.

Lemma setAndSkip_eq i r v :
  wf i → 0 ≤ r ≤ 12 →
  setAndSkip r v i = Done () (with_ic (next_pc i) (with_regs (<[Z.to_nat r := v]> (regs i)) i)).
Proof.
  intros Hwf Hr. destruct (wf_regs i Hwf) as [Hl Hf].
  unfold setAndSkip, set_reg, bind, get, lift, modify, go_update, len.
  rewrite Hl, (proj2 (Z.leb_le 0 r)), (proj2 (Z.ltb_lt r (Z.of_nat 13))) by lia. simpl.
  unfold skip, bind, get, lift, modify. simpl.
  pose proof (skip_eq i Hwf i (conj (kept_refl i Hwf) eq_refl)) as Hs.
  unfold skip, bind, get, lift, modify in Hs.
  destruct (Skip (instructionCounter i) (bitmask i)); [|done..]. injection Hs as Hs. by rewrite Hs.
Qed.

Lemma step_reg3 i o rd ra rb a b d v :
  wf i → opcode_at i = Some o → alu3 o a b d = Some v → ¬ departs o a b → 0 < gasRemaining i →
  operands3 i rd ra rb →
  regs i !! ra = Some a → regs i !! rb = Some b → regs i !! rd = Some d →
  step i = Done None (with_ic (next_pc i)
                        (with_regs (<[rd := v]> (regs i)) (with_gas (gasRemaining i - 1) i))).
Proof.
  intros Hwf Ho Hv Hdep Hgas (x & y & Hx & Hy & -> & -> & ->) Ha Hb Hd.
  destruct (opcode_at_fetch i Hwf) as (c & Hc & Hco). rewrite Hco in Ho.
  rewrite (step_unfold i c Hwf Hc), Ho.
  assert (Op.GasCosts (Some o) = 1) as -> by (by destruct o).
  rewrite (proj2 (Z.ltb_ge _ 1)) by lia. set (j := with_gas _ i).
  assert (wf j) as Hj by (apply with_gas_wf; [done|]; destruct (wf_gas i Hwf); unfold inS in *; lia).
  assert (dispatch (next_pc i - instructionCounter i - 1) (Some o) = (stepReg3 (Some o);; ret None)) as ->
    by (by destruct o; try discriminate Hv).
  pose proof (lookup_lt_Some _ _ _ Hy) as Hlt. pose proof (wf_ic i Hwf) as Hic.
  pose proof (cw_bytes _ _ _ _ (wf_code i Hwf)) as Hbytes.
  assert (0 ≤ x < 256) as Bx by (by eapply (Forall_lookup_1 _ _ _ _ Hbytes)).
  assert (0 ≤ y < 256) as By by (by eapply (Forall_lookup_1 _ _ _ _ Hbytes)).
  pose proof (Z.mod_pos_bound x 16 ltac:(lia)). assert (0 ≤ x / 16) by (apply Z.div_pos; lia).
  destruct (wf_regs i Hwf) as [_ Hf].
  assert (inU 64 a) by (by eapply (Forall_lookup_1 _ _ _ _ Hf)).
  assert (inU 64 b) by (by eapply (Forall_lookup_1 _ _ _ _ Hf)).
  unfold bind at 1. unfold stepReg3.
  rewrite checkCode_eq by (done || simpl; unfold len; lia).
  rewrite (codeByte_eq 1 x) by (done || lia). cbv zeta. rewrite (codeByte_eq 2 y) by (done || lia).
  assert (execReg3 (Some o) (Z.min 12 y) (Z.min 12 (x `mod` 16)) (Z.min 12 (x / 16)) j =
          setAndSkip (Z.min 12 y) v j) as ->.
  { destruct (is_32 o) eqn:E32; [eapply exec32|eapply exec64]; try done; lia. }
  rewrite setAndSkip_eq by (done || lia). done.
Qed.
