(* ===== verification/PvmDemo.v ===== *)
(** * A concrete machine

    A small memory and a four-instruction program, to run the model on. *)
From S2P Require Export PvmProgramProps.

(** ** A program

    {v  0: load_imm  r7, 5
        3: add_64    r8 = r7 + r7
        6: ecalli    1
        8: trap  v} *)
Definition demo_code : list Z := [51; 7; 5; 200; 119; 8; 10; 1; 0].
Definition demo_blob : list Z := blob_of 1 [] demo_code [73; 1].

(** Two bytes of read-only data, a heap of eight bytes, a stack of sixteen, one
    byte of arguments. *)
Definition demo_memory : Memory :=
  MkMemory (MemorySegment (2 ^ 16) [1; 2] ReadOnly)
           (MemorySegment (2 * 2 ^ 16) (replicate 8 0) ReadWrite)
           (MemorySegment (4 * 2 ^ 16) (replicate 16 0) ReadWrite)
           (MemorySegment (6 * 2 ^ 16) [3] ReadOnly).
Definition demo_regs : Registers := replicate 13 0.

Definition demo_at (ic gas : Z) (rs : Registers) : Instance :=
  MkInstance demo_memory rs ic gas (demo_code ++ [0]) []
    ([true; false; false; true; false; false; true; false; true] ++ [true]) {[9; 0]}.
Definition demo : Instance := demo_at 0 100 demo_regs.

Lemma demo_memory_wf : mem_wf demo_memory.
Proof.
  intros []; (split; [simpl; lia|]); (split; [vm_compute; congruence|]);
    repeat constructor; lia.
Qed.

Lemma demo_instantiate : Instantiate demo_blob 0 100 demo_regs demo_memory = Ok demo.
Proof. vm_compute. reflexivity. Qed.

Lemma demo_wf : wf demo.
Proof.
  apply (Instantiate_wf demo_blob 0 100 demo_regs demo_memory).
  - vm_compute. repeat constructor; congruence.
  - apply demo_memory_wf.
  - split; [done|]. repeat constructor; lia.
  - unfold inS. lia.
  - lia.
  - apply demo_instantiate.
  - done.
Qed.
