(* ===== verification/PvmMemoryTheorems.v ===== *)
(** * Memory of the virtual machine: what is proved

    The properties of the segmented memory of [internal/polkavm/common.go] and
    of the layout [initialisation.go] gives it. *)
From S2P Require Import PvmMemoryProps PvmDemo.

(** A successful write is read back: [Read] at the same address and length
    returns the bytes [Write] stored. *)
Theorem memory_write_read m address data m' :
  mem_wf m → 0 ≤ address → address + len data < 2 ^ 64 → bytes_ok data →
  Write m address data = Ok m' → Read m' address (len data) = Ok data.
Proof. apply Write_Read. Qed.

Lemma memory_write_read_witness :
  match Write demo_memory (2 * 2 ^ 16 + 3) [7; 8] with
  | Ok m' => Read m' (2 * 2 ^ 16 + 3) 2 = Ok [7; 8]
  | _ => False
  end.
Proof.
  destruct (Write demo_memory (2 * 2 ^ 16 + 3) [7; 8]) as [m'| |] eqn:H; try discriminate H.
  apply (memory_write_read demo_memory (2 * 2 ^ 16 + 3) [7; 8] m'); [apply demo_memory_wf|lia| | |done].
  - vm_compute. reflexivity.
  - repeat constructor; lia.
Defined.

(** A write changes nothing else: every read of a range that does not overlap
    the written one has the same outcome, error included, before and after. *)
Theorem memory_write_frame m address data m' address' n :
  mem_wf m → 0 ≤ address → address + len data < 2 ^ 64 → bytes_ok data →
  Write m address data = Ok m' →
  0 ≤ n → 0 ≤ address' → address' + n < 2 ^ 64 →
  address' + n ≤ address ∨ address + len data ≤ address' →
  Read m' address' n = Read m address' n.
Proof. apply Write_Read_other. Qed.

Lemma memory_write_frame_witness :
  match Write demo_memory (2 * 2 ^ 16) [7] with
  | Ok m' => Read m' (2 * 2 ^ 16 + 1) 4 = Read demo_memory (2 * 2 ^ 16 + 1) 4
  | _ => False
  end.
Proof.
  destruct (Write demo_memory (2 * 2 ^ 16) [7]) as [m'| |] eqn:H; try discriminate H.
  apply (memory_write_frame demo_memory (2 * 2 ^ 16) [7] m'); try lia; try done.
  - apply demo_memory_wf.
  - repeat constructor; lia.
  - right. vm_compute. congruence.
Defined.

(** A write respects access rights: it succeeds only inside one segment that
    is writable, above the guard zone, and leaves every other segment and the
    place, size and rights of all segments as they were. *)
Theorem memory_write_protected m address data m' :
  mem_wf m → 0 ≤ address → address + len data < 2 ^ 64 → Write m address data = Ok m' →
  ∃ s, seg_access (get_seg m s) = ReadWrite ∧ MemoryZoneSize ≤ address ∧
       seg_address (get_seg m s) ≤ address ∧ address + len data ≤ seg_end (get_seg m s) ∧
       (∀ s', s' ≠ s → get_seg m' s' = get_seg m s') ∧ same_shape m m'.
Proof.
  intros Hm Ha Hn HW. pose proof (Write_shape _ _ _ _ Hm Ha Hn HW) as Hsh.
  destruct (Write_inv _ _ _ _ Hm Ha Hn HW) as (s & H16 & _ & Hacc & Hle & Hl & ->).
  exists s. split_and!; try done.
  - unfold seg_end, len. lia.
  - intros s' Hne. by rewrite get_set_seg, decide_False by done.
Qed.

Lemma memory_write_protected_witness :
  match Write demo_memory (4 * 2 ^ 16) [1; 1] with
  | Ok m' => ∃ s, seg_access (get_seg demo_memory s) = ReadWrite ∧ MemoryZoneSize ≤ 4 * 2 ^ 16 ∧
      seg_address (get_seg demo_memory s) ≤ 4 * 2 ^ 16 ∧
      4 * 2 ^ 16 + 2 ≤ seg_end (get_seg demo_memory s) ∧
      (∀ s', s' ≠ s → get_seg m' s' = get_seg demo_memory s') ∧ same_shape demo_memory m'
  | _ => False
  end.
Proof.
  destruct (Write demo_memory (4 * 2 ^ 16) [1; 1]) as [m'| |] eqn:H; try discriminate H.
  apply (memory_write_protected demo_memory (4 * 2 ^ 16) [1; 1]); [apply demo_memory_wf|lia| |done].
  vm_compute. reflexivity.
Defined.

(** A page fault names the first bad page: the address in the fault of a read
    is that of the first page of the range that is not accessible, and of a write
    the first one that is not writable. *)
Theorem memory_fault_page m address n data r a :
  mem_wf m → 0 ≤ address → 0 ≤ n → address + n < 2 ^ 64 → address + len data < 2 ^ 64 →
  (Read m address n = Err (ErrPageFault r a) →
   ∃ i, a = i * PageSize ∧ GetAccess m i = Inaccessible ∧
     address / PageSize ≤ i ≤ (address + n) / PageSize ∧
     ∀ k, address / PageSize ≤ k < i → GetAccess m k ≠ Inaccessible) ∧
  (Write m address data = Err (ErrPageFault r a) →
   ∃ i, a = i * PageSize ∧ GetAccess m i ≠ ReadWrite ∧
     address / PageSize ≤ i ≤ (address + len data) / PageSize ∧
     ∀ k, address / PageSize ≤ k < i → GetAccess m k = ReadWrite).
Proof.
  intros Hm Ha Hn Hlt Hlt'. split.
  - intros (i & _ & -> & Hi & Hr & Hk)%Read_fault%page_error_fault; [|done..].
    exists i. apply bool_decide_eq_true in Hi. split_and!; [done|done|apply Hr..|].
    intros k Hk'. specialize (Hk k Hk'). by apply bool_decide_eq_false in Hk.
  - intros (i & _ & -> & Hi & Hr & Hk)%Write_fault%page_error_fault; [|done|apply len_nonneg|done].
    exists i. apply bool_decide_eq_true in Hi. split_and!; [done|done|apply Hr..|].
    intros k Hk'. specialize (Hk k Hk'). apply bool_decide_eq_false in Hk. by apply dec_stable.
Qed.

Lemma memory_fault_page_witness :
  ∃ i, 3 * 2 ^ 16 = i * PageSize ∧ GetAccess demo_memory i = Inaccessible ∧
    (3 * 2 ^ 16 + 5) / PageSize ≤ i ≤ (3 * 2 ^ 16 + 5 + 4) / PageSize ∧
    ∀ k, (3 * 2 ^ 16 + 5) / PageSize ≤ k < i → GetAccess demo_memory k ≠ Inaccessible.
Proof.
  apply (memory_fault_page demo_memory (3 * 2 ^ 16 + 5) 4 [] "inaccessible memory");
    [apply demo_memory_wf|lia|lia|lia|vm_compute; reflexivity|].
  vm_compute. reflexivity.
Defined.

(** An access that runs past 2^64 crashes: the end of the range wraps around,
    the stack segment is taken to cover it, and the slice expression panics. *)
Theorem memory_wrap_crashes m address n :
  mem_wf m → 0 ≤ n ≤ 2 ^ 32 → n ≤ seg_address (mem_stack m) →
  2 ^ 16 ≤ address < 2 ^ 64 → 2 ^ 64 ≤ address + n → Read m address n = RuntimePanic.
Proof.
  intros Hm Hn Hst Ha Hw. unfold Read. rewrite (proj2 (Z.ltb_ge address (2 ^ 16))) by lia.
  by rewrite select_wrap by (done || lia).
Qed.

Lemma memory_wrap_crashes_witness : Read demo_memory (2 ^ 64 - 1) 4 = RuntimePanic.
Proof.
  apply memory_wrap_crashes; [apply demo_memory_wf|lia|simpl; lia|lia|lia].
Defined.

(** The standard layout: for every program whose sizes fit the blob format,
    [InitializeMemory] succeeds with page-aligned segments that hold the data
    followed by zeros, and the segments are disjoint, in the order ro, rw, stack,
    args, above the first zone and below the return address. *)
Theorem memory_layout roData rwData argsData stackSize initialPages :
  blob_sizes roData rwData argsData stackSize initialPages →
  InitializeMemory roData rwData argsData stackSize initialPages =
    Ok (standard_memory roData rwData argsData stackSize initialPages) ∧
  ordered (standard_memory roData rwData argsData stackSize initialPages).
Proof. intros. split; [by apply InitializeMemory_ok|by apply standard_memory_ordered]. Qed.

Lemma memory_layout_witness :
  InitializeMemory [1; 2] [3] [4; 5; 6] 100 0 = Ok (standard_memory [1; 2] [3] [4; 5; 6] 100 0) ∧
  ordered (standard_memory [1; 2] [3] [4; 5; 6] 100 0).
Proof. apply memory_layout. vm_compute. repeat split; congruence. Defined.

(** [Sbrk] discards the heap.  Growing it by [size] bytes replaces its data by
    zeros, as many as the aligned new heap pointer (an absolute address), so that
    the heap ends far above the pointer that was checked against the stack. *)
Theorem memory_sbrk m size :
  mem_wf m → 0 < size → seg_end (mem_rw m) + size < seg_address (mem_stack m) →
  let top := alignToPage (seg_end (mem_rw m) + size) in
  Sbrk m size = Ok (seg_address (mem_rw m) + top,
                    set_seg m SegRW (with_data (mem_rw m) (replicate (Z.to_nat top) 0))).
Proof. apply Sbrk_grow. Qed.

Lemma memory_sbrk_witness :
  Sbrk demo_memory 8 =
  Ok (seg_address (mem_rw demo_memory) + 135168,
      set_seg demo_memory SegRW (with_data (mem_rw demo_memory) (replicate (Z.to_nat 135168) 0))).
Proof. apply (memory_sbrk demo_memory 8); [apply demo_memory_wf|lia|vm_compute; reflexivity]. Defined.
