(* ===== verification/PvmTheorems.v ===== *)
(** * The virtual machine: what is proved

    The properties of program loading, of single steps and of whole runs, each
    with a concrete program where it has hypotheses. *)
From S2P Require Import PvmDemo PvmRun PvmAlu.

(** ** Loading *)

(** [Deblob] reads the blob format of its comment: from the encodings of a
    jump table of [z]-byte entries, the code and a bitmask that covers it, it
    returns the code, the first [|c|] bits of the mask, least significant bit of
    each byte first, and the table. *)
Theorem deblob_roundtrip z jt code mask :
  0 ≤ z ≤ 8 → Forall (λ j, inU 64 j ∧ j < 2 ^ (8 * z)) jt → len jt ≤ 2 ^ 32 →
  len code ≤ MaxUint32 → len mask ≤ MaxUint32 → len code ≤ 8 * len mask →
  ∃ bitmask, Deblob (blob_of z jt code mask) = Ok (code, bitmask, jt) ∧
    length bitmask = length code ∧
    ∀ n, (n < length code)%nat → bitmask !! n = Some (byte_bit mask (Z.of_nat n)).
Proof.
  intros Hz Hjt Hlj Hlc Hlm Hm. eexists. split; [by apply Deblob_blob|].
  pose proof (len_bits_of_bytes mask) as Hb. split.
  - rewrite length_take. unfold len in *. lia.
  - intros n Hn. rewrite lookup_take_lt by done. apply bits_of_bytes_lookup. unfold len in *. lia.
Qed.

Lemma deblob_roundtrip_witness :
  ∃ bitmask, Deblob (blob_of 2 [0; 300] demo_code [73; 1]) = Ok (demo_code, bitmask, [0; 300]) ∧
    length bitmask = length demo_code ∧
    ∀ n, (n < length demo_code)%nat → bitmask !! n = Some (byte_bit [73; 1] (Z.of_nat n)).
Proof.
  apply (deblob_roundtrip 2 [0; 300] demo_code [73; 1]).
  - lia.
  - repeat constructor; unfold inU; lia.
  - vm_compute. congruence.
  - vm_compute. congruence.
  - vm_compute. congruence.
  - vm_compute. congruence.
Defined.

(** The starts of basic blocks are position 0 and the instruction after each
    terminator: [n + 1 + skip(n)] for every [n] that starts an instruction whose
    opcode ends a block.  Every one of them lies inside the code with its
    appended trap. *)
Theorem basic_blocks_exact code bitmask blocks :
  length bitmask = length code → len code < 2 ^ 48 →
  basicBlocks_loop code bitmask 0 bitmask {[0]} = Ok blocks →
  (∀ b, b ∈ blocks ↔ b = 0 ∨ ∃ n, block_after code bitmask n b) ∧
  (∀ b, b ∈ blocks → 0 ≤ b < len (code ++ [0])).
Proof.
  intros Hl Hlen H. split.
  - intros b. rewrite (basicBlocks_loop_spec code bitmask 0 {[0]} blocks Hl Hlen H b).
    rewrite elem_of_singleton. split; (intros [?|(n & Hn)]; [by left|right]).
    + exists n. apply Hn.
    + exists n. split; [lia|done].
  - intros b Hb. rewrite len_app. change (len [0]) with 1.
    assert (0 ≤ b ≤ len code); [|lia].
    apply (basicBlocks_loop_bound code bitmask 0 bitmask {[0]} blocks); try done.
    intros ? ->%elem_of_singleton. pose proof (len_nonneg code). lia.
Qed.

Lemma basic_blocks_exact_witness :
  (∀ b, b ∈ ({[9; 0]} : gset Z) ↔
     b = 0 ∨ ∃ n, block_after demo_code [true; false; false; true; false; false; true; false; true] n b) ∧
  (∀ b, b ∈ ({[9; 0]} : gset Z) → 0 ≤ b < len (demo_code ++ [0])).
Proof. apply basic_blocks_exact; vm_compute; reflexivity. Defined.

(** [Skip] is the distance to the next instruction: the number of clear bits
    between position [n] and the next set bit, capped at 24 when at least 25 bits
    are clear, and 0 when the bitmask ends first. *)
Theorem skip_distance n bm :
  0 ≤ n < len bm → len bm < 2 ^ 48 →
  ∃ s, Skip n bm = Ok s ∧ 0 ≤ s ≤ BitmaskMax ∧
    let rest := drop (Z.to_nat (n + 1)) bm in
    (rest !! Z.to_nat s = Some true ∧ ∀ k, (k < Z.to_nat s)%nat → rest !! k = Some false)
    ∨ (s = BitmaskMax ∧ BitmaskMax + 1 < len rest ∧
       ∀ k, (k ≤ Z.to_nat BitmaskMax)%nat → rest !! k = Some false)
    ∨ (s = 0 ∧ len rest ≤ BitmaskMax + 1 ∧ ∀ k b, rest !! k = Some b → b = false).
Proof.
  intros Hn Hl. eexists. split; [by apply Skip_eq|]. cbv zeta.
  set (rest := drop _ bm). destruct (Skip_loop_bounds 0 rest) as [HB _]; [done|]. split; [done|].
  apply Skip_loop_exact.
Qed.

Lemma skip_distance_witness :
  ∃ s, Skip 3 (bitmask demo) = Ok s ∧ 0 ≤ s ≤ BitmaskMax ∧
    let rest := drop 4 (bitmask demo) in
    (rest !! Z.to_nat s = Some true ∧ ∀ k, (k < Z.to_nat s)%nat → rest !! k = Some false)
    ∨ (s = BitmaskMax ∧ BitmaskMax + 1 < len rest ∧
       ∀ k, (k ≤ Z.to_nat BitmaskMax)%nat → rest !! k = Some false)
    ∨ (s = 0 ∧ len rest ≤ BitmaskMax + 1 ∧ ∀ k b, rest !! k = Some b → b = false).
Proof. apply (skip_distance 3 (bitmask demo)); vm_compute; repeat split; congruence. Defined.

(** [ParseBlob] rejects every blob of the documented format: the size of the
    read-write data is compared with a field that is still empty, and the code
    size with the length of the input after the first bytes. *)
Theorem parse_blob_rejects (o w c : list Z) z s :
  len o < 2 ^ 24 → len w < 2 ^ 24 → 0 ≤ z < 2 ^ 16 → 0 ≤ s < 2 ^ 24 → len c < 2 ^ 32 →
  ParseBlob (program_blob o w c z s) =
  Err (ErrorString (if len w =? 0 then "code size mismatch" else "rw data size mismatch")).
Proof. apply ParseBlob_rejects. Qed.

Lemma parse_blob_rejects_witness :
  ParseBlob (program_blob [1] [] demo_blob 0 4096) = Err (ErrorString "code size mismatch").
Proof.
  apply (parse_blob_rejects [1] [] demo_blob 0 4096); try lia; vm_compute; congruence.
Defined.

(** C38: [Instantiate] establishes the invariant of the interpreter, for every blob
    it accepts with an entry point inside the blob's code, from well-formed
    registers and memory: byte-sized code ended by a trap, a bitmask of the same length ended
    by a set bit, jump targets and block starts in range. *)
Theorem instantiate_wf p off gas rs mem i :
  bytes_ok p → mem_wf mem → regs_wf rs → inS 64 gas → 0 ≤ off →
  Instantiate p off gas rs mem = Ok i → off < len (code i) → wf i.
Proof. apply Instantiate_wf. Qed.

Lemma instantiate_wf_witness : wf demo.
Proof.
  apply (instantiate_wf demo_blob 0 100 demo_regs demo_memory).
  - vm_compute. repeat constructor; congruence.
  - apply demo_memory_wf.
  - split; [reflexivity|]. repeat constructor; lia.
  - unfold inS. lia.
  - lia.
  - apply demo_instantiate.
  - vm_compute. reflexivity.
Defined.

(** ** Steps *)

(** C10: Every step keeps the machine well-formed and runs the same program: after
    each of the 139 instructions, whether it continues, asks for a host call or
    stops with an error, the registers are thirteen 64-bit words, the counter is
    inside the code, and code, bitmask, jump table and block starts are unchanged. *)
Theorem step_invariant i :
  wf i →
  match step i with
  | Done _ i' | Failed _ i' => wf i' ∧ same_program i i'
  | Crashed => True
  end.
Proof.
  intros Hwf. pose proof (step_spec i Hwf) as H. destruct (step i) as [[h|] i'|e i'|]; simpl in H.
  - destruct H as (_ & _ & Hpos & ->). split; [|by split]. apply with_gas_wf; [done|].
    pose proof (wf_gas i Hwf). unfold inS in *. lia.
  - by destruct H as (? & ? & _).
  - by destruct H as (? & ? & _).
  - done.
Qed.

Lemma step_invariant_witness :
  match step demo with
  | Done _ i' | Failed _ i' => wf i' ∧ same_program demo i'
  | Crashed => True
  end.
Proof. apply step_invariant. apply demo_wf. Defined.

(** C27: Control-flow integrity: an instruction that continues leaves the counter
    at the next instruction or at the start of a basic block. *)
Theorem step_control_flow i i' :
  wf i → step i = Done None i' →
  instructionCounter i' = next_pc i ∨ instructionCounter i' ∈ basicBlockInstructions i.
Proof.
  intros Hwf Hs. pose proof (step_spec i Hwf) as H. rewrite Hs in H. by destruct H as (_ & _ & _ & _ & ?).
Qed.

Lemma step_control_flow_witness :
  let i' := demo_at 3 99 (<[7%nat := 5]> demo_regs) in
  instructionCounter i' = next_pc demo ∨ instructionCounter i' ∈ basicBlockInstructions demo.
Proof. apply step_control_flow; [apply demo_wf|vm_compute; reflexivity]. Defined.

(** Gas accounting: a step that does not fail costs exactly one unit, which
    the instance had; a step that fails does not add gas, and runs out of gas
    without touching the instance. *)
Theorem step_gas i :
  wf i →
  match step i with
  | Done _ i' => 0 < gasRemaining i ∧ gasRemaining i' = gasRemaining i - 1
  | Failed e i' => gasRemaining i' ≤ gasRemaining i ∧ (e = ErrOutOfGas → i' = i)
  | Crashed => True
  end.
Proof.
  intros Hwf. pose proof (step_spec i Hwf) as H. destruct (step i) as [[h|] i'|e i'|]; simpl in H.
  - by destruct H as (_ & _ & Hpos & ->).
  - by destruct H as (_ & _ & ? & ? & _).
  - destruct H as (_ & _ & ? & [[-> ->]|He]); [done|]. split; [done|]. by intros ->.
  - done.
Qed.

Lemma step_gas_witness :
  match step demo with
  | Done _ i' => 0 < gasRemaining demo ∧ gasRemaining i' = gasRemaining demo - 1
  | Failed e i' => gasRemaining i' ≤ gasRemaining demo ∧ (e = ErrOutOfGas → i' = demo)
  | Crashed => True
  end.
Proof. apply step_gas. apply demo_wf. Defined.

(** The exit reasons: an error of a step is out-of-gas, a panic, a page fault
    or the halt, never an error of the codec, and a host call is asked for by
    [ecalli] only. *)
Theorem step_exit_reasons i :
  wf i →
  match step i with
  | Done (Some h) _ => opcode_at i = Some Op.Ecalli ∧ inU 64 h
  | Failed e _ => e = ErrOutOfGas ∨ exit_reason e
  | _ => True
  end.
Proof.
  intros Hwf. pose proof (step_spec i Hwf) as H. destruct (step i) as [[h|] i'|e i'|]; simpl in H.
  - by destruct H as (? & ? & _).
  - done.
  - destruct H as (_ & _ & _ & [[-> _]|?]); auto.
  - done.
Qed.

Lemma step_exit_reasons_witness :
  match step demo with
  | Done (Some h) _ => opcode_at demo = Some Op.Ecalli ∧ inU 64 h
  | Failed e _ => e = ErrOutOfGas ∨ exit_reason e
  | _ => True
  end.
Proof. apply step_exit_reasons. apply demo_wf. Defined.

(** A step crashes the process only in known circumstances: a load or store
    (whose address may wrap), a static jump (whose target is an index into the
    error message), or fewer than two bytes left for the operands. *)
Theorem step_crash_free i :
  wf i → may_crash (opcode_at i) = false → instructionCounter i + 2 < len (code i) →
  step i ≠ Crashed.
Proof.
  intros Hwf Hop Hlen Hs. pose proof (step_spec i Hwf) as H. rewrite Hs in H. simpl in H.
  destruct H as [H|H]; [congruence|lia].
Qed.

Lemma step_crash_free_witness : step demo ≠ Crashed.
Proof.
  apply step_crash_free; [apply demo_wf|vm_compute; reflexivity|vm_compute; reflexivity].
Defined.

(** C4: The three-register instructions compute their documented formulas.  For
    every opcode of the format but [set_lt_s], and operands which are not an inexact
    signed division of different signs nor a signed remainder of the least integer
    ([departs]), the step writes the value of the formula to the destination,
    advances to the next instruction, takes one unit of gas and changes nothing
    else. *)
Theorem step_alu i o rd ra rb a b d v :
  wf i → opcode_at i = Some o → alu3 o a b d = Some v → ¬ departs o a b → 0 < gasRemaining i →
  operands3 i rd ra rb →
  regs i !! ra = Some a → regs i !! rb = Some b → regs i !! rd = Some d →
  step i = Done None (with_ic (next_pc i)
                        (with_regs (<[rd := v]> (regs i)) (with_gas (gasRemaining i - 1) i))).
Proof. apply step_reg3. Qed.

(** The addition of the demo program. *)
Lemma step_alu_witness :
  let i := demo_at 3 99 (<[7%nat := 5]> demo_regs) in
  step i = Done None (with_ic (next_pc i)
                        (with_regs (<[8%nat := 10]> (regs i)) (with_gas (gasRemaining i - 1) i))).
Proof.
  intros i. apply (step_alu i Op.Add64 8 7 7 5 5 0 10).
  - destruct demo_wf as [Hc Hm Hr Hpc Hg]. split; [exact Hc|exact Hm| |simpl|].
    + split; [reflexivity|]. repeat constructor; lia.
    + vm_compute. split; congruence.
    + unfold inS. simpl. lia.
  - vm_compute. reflexivity.
  - vm_compute. reflexivity.
  - intros [].
  - simpl. lia.
  - exists 119, 8. repeat split; reflexivity.
  - reflexivity.
  - reflexivity.
  - reflexivity.
Defined.

(** [sext] is the sign extension of its comment on every width it is called
    with, and its [panic] is unreachable there. *)
Theorem sext_sign_extends v n :
  n ∈ [0; 1; 2; 3; 4; 8] → inU 64 v → sext v n = Ok (X n (v `mod` 2 ^ (8 * n))).
Proof. apply sext_X. Qed.

Lemma sext_sign_extends_witness : sext 128 1 = Ok (2 ^ 64 - 128).
Proof. apply (sext_sign_extends 128 1); [repeat constructor|unfold inU; lia]. Defined.

(** Where the arithmetic departs from its comments: [set_lt_s] of 2^32 and 1
    compares the low halves and answers 1 where the formula gives 0, the signed
    remainder of the least integer by 3 is 2 where it gives -2, and -7 divided by 2
    is -3 where the floor is -4. *)
Theorem alu_departures :
  let i := demo_at 0 9 (2 ^ 32 :: 1 :: replicate 11 0) in
  let j := demo_at 0 9 (2 ^ 63 :: 3 :: replicate 11 0) in
  let k := demo_at 0 9 (2 ^ 31 :: 3 :: replicate 11 0) in
  alu3 Op.SetLessThanSigned (2 ^ 32) 1 0 = Some 0 ∧
  Mut.SetLessThanSigned 2 0 1 i = setAndSkip 2 1 i ∧
  alu3 Op.RemSigned64 (2 ^ 63) 3 0 = Some (2 ^ 64 - 2) ∧
  Mut.RemSigned64 2 0 1 j = setAndSkip 2 2 j ∧
  alu3 Op.RemSigned32 (2 ^ 31) 3 0 = Some (2 ^ 64 - 2) ∧
  Mut.RemSigned32 2 0 1 k = setAndSkip 2 2 k ∧
  (let l := demo_at 0 9 (2 ^ 64 - 7 :: 2 :: replicate 11 0) in
   alu3 Op.DivSigned64 (2 ^ 64 - 7) 2 0 = Some (2 ^ 64 - 4) ∧
   Mut.DivSigned64 2 0 1 l = setAndSkip 2 (2 ^ 64 - 3) l ∧
   alu3 Op.DivSigned32 (2 ^ 64 - 7) 2 0 = Some (2 ^ 64 - 4) ∧
   Mut.DivSigned32 2 0 1 l = setAndSkip 2 (2 ^ 64 - 3) l).
Proof. repeat split; vm_compute; reflexivity. Qed.

(** ** Runs *)

(** C11: Gas bounds every run: [Invoke] returns within one turn more than the gas
    the instance has, its result does not depend on the number of turns beyond
    that, and it is the outcome of the last of a sequence of steps. *)
Theorem invoke_terminates i :
  wf i →
  ∃ r, (∀ turns, (gas_turns i ≤ turns)%nat → Invoke turns i = Some r) ∧
       ∃ j, steps i j ∧ ends_in j r.
Proof.
  intros Hwf. destruct (Invoke_total i (gas_turns i) Hwf ltac:(done)) as [r Hr]. exists r. split.
  - intros turns Ht. by eapply Invoke_mono.
  - by eapply Invoke_sound.
Qed.

Lemma invoke_terminates_witness :
  ∃ r, (∀ turns, (gas_turns demo ≤ turns)%nat → Invoke turns demo = Some r) ∧
       ∃ j, steps demo j ∧ ends_in j r.
Proof. apply invoke_terminates. apply demo_wf. Defined.

(** A run ends in a well-formed instance of the program it started with: with
    a host call, at an [ecalli] that was paid for; out of gas; or with an exit
    reason.  It crashes only in a state where a step can. *)
Theorem invoke_result turns i r :
  wf i → Invoke turns i = Some r →
  match r with
  | Stop h e i' =>
      wf i' ∧ same_program i i' ∧ gasRemaining i' ≤ gasRemaining i ∧
      (e = ErrHostCall ∧ inU 64 h ∧ opcode_at i' = Some Op.Ecalli ∧
         gasRemaining i' < gasRemaining i ∧ 0 ≤ gasRemaining i'
       ∨ e = ErrOutOfGas ∨ exit_reason e)
  | StopCrash => ∃ j, steps i j ∧ wf j ∧ can_crash j
  end.
Proof. apply Invoke_post. Qed.

Lemma invoke_result_witness :
  let i' := demo_at 6 97 (<[8%nat := 10]> (<[7%nat := 5]> demo_regs)) in
  Invoke 10 demo = Some (Stop 1 ErrHostCall i') ∧ wf i' ∧ gasRemaining i' ≤ 100.
Proof.
  intros i'. assert (Invoke 10 demo = Some (Stop 1 ErrHostCall i')) as Hr by (vm_compute; reflexivity).
  destruct (invoke_result 10 demo _ demo_wf Hr) as (Hwf & _ & Hg & _).
  split; [exact Hr|]. split; [exact Hwf|exact Hg].
Defined.

(** C24: Read-only memory stays as it is: along every run the segments that are not
    writable, the heap apart, keep their contents, and all segments keep their
    address and access rights. *)
Theorem run_memory_protection i j s :
  wf i → steps i j →
  seg_address (get_seg (memory j) s) = seg_address (get_seg (memory i) s) ∧
  seg_access (get_seg (memory j) s) = seg_access (get_seg (memory i) s) ∧
  (s ≠ SegRW → seg_access (get_seg (memory i) s) ≠ ReadWrite →
   seg_data (get_seg (memory j) s) = seg_data (get_seg (memory i) s)).
Proof.
  intros Hwf Hs. destruct (steps_wf i j Hs Hwf) as (_ & [_ _ _ _ Hm] & _).
  destruct (Hm s) as (? & ? & _ & ?). split_and!; auto.
Qed.

Lemma run_memory_protection_witness :
  let j := demo_at 3 99 (<[7%nat := 5]> demo_regs) in
  steps demo j ∧ seg_data (get_seg (memory j) SegRO) = [1; 2].
Proof.
  intros j. assert (steps demo j) as Hs.
  { apply (steps_step demo j j); [vm_compute; reflexivity|constructor]. }
  split; [exact Hs|]. apply (run_memory_protection demo j SegRO demo_wf Hs); discriminate.
Defined.

(** A host that counts the calls and answers each with its index. *)
Definition demo_host : HostCall Z := λ n gas rs m x,
  HostReturn gas (<[7%nat := uint64 n]> rs) m (x + 1) None.

#[local] Instance demo_host_contract : HostContract (λ _, True) demo_host.
Proof.
  intros n gas rs m x Hg _ [Hl Hf] Hm _. split_and!; [apply Hg..|done| |done|done].
  split; [by rewrite length_insert|]. apply Forall_insert; [done|]. by apply wrapU_range.
Qed.

#[local] Instance demo_host_no_crash : HostNoCrash (λ _, True) demo_host.
Proof. done. Qed.

(** Serving host calls terminates: for every host that keeps its contract
    on the states of an invariant (registers and memory of the right shape, no gas
    added), one call and one turn
    more than the gas the instance has are enough. *)
Theorem host_calls_terminate {X} (inv : X → Prop) (hostCall : HostCall X) i x calls turns :
  HostContract inv hostCall → wf i → inv x → (gas_turns i ≤ calls)%nat → (gas_turns i ≤ turns)%nat →
  ∃ r, InvokeHostCall hostCall calls turns i x = Some r.
Proof. intros. by eapply InvokeHostCall_total. Qed.

Lemma host_calls_terminate_witness :
  ∃ r, InvokeHostCall demo_host (gas_turns demo) (gas_turns demo) demo 0 = Some r.
Proof.
  apply (host_calls_terminate (λ _, True));
    [apply demo_host_contract|apply demo_wf|exact I|apply le_n|apply le_n].
Defined.

(** Whatever a host that does not crash does within its contract,
    [InvokeHostCall] ends in a well-formed instance with the code it started with, and crashes only where a
    step can. *)
Theorem host_calls_result {X} (inv : X → Prop) (hostCall : HostCall X) calls turns i x r :
  HostContract inv hostCall → HostNoCrash inv hostCall → wf i → inv x →
  InvokeHostCall hostCall calls turns i x = Some r →
  match r with
  | Served x' _ i' => wf i' ∧ code i' = code i ∧ bitmask i' = bitmask i ∧ inv x'
  | ServedCrash => ∃ j, wf j ∧ code j = code i ∧ can_crash j
  end.
Proof. intros. by eapply InvokeHostCall_post. Qed.

Lemma host_calls_result_witness :
  let i' := demo_at 8 96 (<[7%nat := 1]> (<[8%nat := 10]> demo_regs)) in
  InvokeHostCall demo_host 10 10 demo 0 = Some (Served 1 None i') ∧ wf i'.
Proof.
  intros i'.
  assert (InvokeHostCall demo_host 10 10 demo 0 = Some (Served 1 None i')) as Hr
    by (vm_compute; reflexivity).
  destruct (host_calls_result (λ _, True) demo_host 10 10 demo 0 _ demo_host_contract demo_host_no_crash
    demo_wf I Hr) as [Hwf _].
  split; [exact Hr|exact Hwf].
Defined.

(** [InvokeHostCall] swallows the exit reason: a program that traps at once is
    reported like one that halts, with a nil error and the remaining gas. *)
Theorem trap_reported_as_success {X} (hostCall : HostCall X) i x calls turns :
  wf i → opcode_at i = Some Op.Trap → 0 < gasRemaining i →
  InvokeHostCall hostCall (S calls) (S turns) i x =
  Some (Served x None (with_gas (gasRemaining i - 1) i)).
Proof.
  intros Hwf Hop Hg. cbn [InvokeHostCall Invoke].
  destruct (opcode_at_fetch i Hwf) as (b & Hb & Hob). rewrite Hop in Hob. symmetry in Hob.
  rewrite (step_unfold i b Hwf Hb), Hob.
  change (Op.GasCosts (Some Op.Trap)) with 1. rewrite (proj2 (Z.ltb_ge _ 1)) by lia.
  change (dispatch _ (Some Op.Trap) (with_gas (gasRemaining i - 1) i)) with
    (Failed (A := option Z) (ErrPanic "explicit trap") (with_gas (gasRemaining i - 1) i)).
  cbv iota. by rewrite decide_False by done.
Qed.

Lemma trap_reported_as_success_witness :
  InvokeHostCall demo_host 1 1 (demo_at 8 5 demo_regs) 7 =
  Some (Served 7 None (demo_at 8 4 demo_regs)).
Proof.
  apply (trap_reported_as_success demo_host (demo_at 8 5 demo_regs) 7 0 0).
  - destruct demo_wf as [Hc Hm Hr Hpc Hg]. split; [exact Hc|exact Hm|exact Hr| |].
    + vm_compute. split; congruence.
    + unfold inS. simpl. lia.
  - vm_compute. reflexivity.
  - simpl. lia.
Defined.

(** ** Opcodes *)

(** The opcode tables agree: the byte of every opcode is read back as that
    opcode, every opcode is listed under exactly one argument format, the one
    [InstructionForType] gives it, and costs one unit of gas. *)
Theorem opcode_tables o :
  Op.of_byte (Op.code o) = Some o ∧ 0 ≤ Op.code o < 256 ∧ Op.GasCosts (Some o) = 1 ∧
  filter (λ p, p.1 = o) Op.InstructionForType_map = [(o, Op.InstructionForType (Some o))].
Proof. destruct o; vm_compute; repeat split; congruence. Qed.
