(* ===== verification/JamTime.v ===== *)
(** * Protocol time

    [internal/jamtime]: seconds since the JAM epoch, six-second timeslots and
    epochs of 600 slots.  A [time.Time] is the number of nanoseconds since the
    Unix epoch; the wall clock is an argument. *)
From S2P Require Export GoLib.

(** ** [time] *)

Definition Nanosecond : Z := 1.
Definition Second : Z := 10 ^ 9.

(** Days from 1970-01-01 to a date of the proleptic Gregorian calendar. *)
Definition days_from_civil (y m d : Z) : Z :=
  let y := if m <=? 2 then y - 1 else y in
  let era := y / 400 in
  let yoe := y `mod` 400 in
  let doy := (153 * (if m >? 2 then m - 3 else m + 9) + 2) / 5 + d - 1 in
  let doe := yoe * 365 + yoe / 4 - yoe / 100 + doy in
  era * 146097 + doe - 719468.

(** [time.Date(year, month, day, hour, min, sec, nsec, time.UTC)] *)
Definition time_Date (y m d hh mm ss ns : Z) : Z :=
  ((((days_from_civil y m d) * 24 + hh) * 60 + mm) * 60 + ss) * Second + ns.

(** [t.Unix()] and [time.Unix(sec, 0)] *)
Definition Unix (t : Z) : Z := t / Second.
Definition time_Unix (sec : Z) : Z := sec * Second.

(** The zero [time.Time] is January 1, year 1. *)
Definition zero_time : Z := time_Date 1 1 1 0 0 0 0.

(** ** Constants and errors ([constants.go], [errors.go], [timeslot.go]) *)

Inductive jamtime_error : Type :=
| ErrBeforeJamEpoch | ErrAfterMaxJamTime
| ErrMinEpochReached | ErrMaxEpochReached | ErrEpochExceedsMaxJamTime
| ErrMinTimeslotReached | ErrMaxTimeslotReached | ErrTimeslotExceedsEpochLength.

#[export] Instance jamtime_error_eq_dec : EqDecision jamtime_error.
Proof. solve_decision. Defined.

Definition TimeslotsPerEpoch : Z := 600.
Definition MinEpoch : Z := 0.
Definition MaxEpoch : Z := (2 ^ 32 - 1) / TimeslotsPerEpoch.
Definition TicketSubmissionTimeSlots : Z := 500.
Definition MinTimeslot : Z := 0.
Definition MaxTimeslot : Z := 2 ^ 32 - 1.
Definition TimeslotDuration : Z := 6 * Second.
Definition EpochDuration : Z := TimeslotsPerEpoch * TimeslotDuration.
Definition PreimageExpulsionPeriod : Z := 28800.

(** [uint64(d.Seconds())] of a whole number of seconds *)
Definition duration_Seconds (d : Z) : Z := d / Second.

(** ** Points in time ([jamtime.go]) *)

Definition JamEpoch : Z := time_Date 2024 1 1 12 0 0 0.
Definition MaxRepresentableJamTime : Z := time_Date 2840 8 15 23 59 59 999999999.

Record JamTime : Type := MkJamTime {
  src : Z;
  Seconds : Z;
}.

(** [JamTime{Seconds: s}] *)
Definition at_seconds (s : Z) : JamTime := MkJamTime zero_time s.

Definition Now (now : Z) : JamTime := MkJamTime now (uint64 (Unix now - Unix JamEpoch)).

Definition FromTime (t : Z) : res jamtime_error JamTime :=
  if t <? JamEpoch then Err ErrBeforeJamEpoch
  else if t =? JamEpoch then Ok (at_seconds 0)
  else if t >? MaxRepresentableJamTime then Err ErrAfterMaxJamTime
  else Ok (MkJamTime t (uint64 (Unix t - Unix JamEpoch))).

Definition ToTime (jt : JamTime) : Z :=
  if src jt =? zero_time then time_Unix (int64 (Unix JamEpoch + int64 (Seconds jt))) else src jt.

Definition FromSeconds (seconds : Z) : JamTime := at_seconds seconds.

Definition Before (jt u : JamTime) : bool := Seconds jt <? Seconds u.
Definition After (jt u : JamTime) : bool := Seconds jt >? Seconds u.
Definition Equal (jt u : JamTime) : bool := Seconds jt =? Seconds u.

Definition Add (jt : JamTime) (d : Z) : res jamtime_error JamTime :=
  let t := ToTime jt + d in
  if t >? MaxRepresentableJamTime then Err ErrAfterMaxJamTime
  else if t <? JamEpoch then Err ErrBeforeJamEpoch
  else FromTime t.

Definition Sub (jt u : JamTime) : Z :=
  int64 (int64 (uint64 (Seconds jt - Seconds u)) * Second).

Definition IsZero (jt : JamTime) : bool := Seconds jt =? 0.

Definition ToTimeslot (jt : JamTime) : Z :=
  uint32 (Seconds jt / duration_Seconds TimeslotDuration).

Definition ToEpoch (jt : JamTime) : Z := uint32 (Seconds jt / duration_Seconds EpochDuration).

Definition ToEpochAndTimeslot (jt : JamTime) : Z * Z :=
  let epoch := ToEpoch jt in
  let timeslotInEpoch :=
    uint32 ((Seconds jt / duration_Seconds TimeslotDuration) `mod` TimeslotsPerEpoch) in
  (epoch, timeslotInEpoch).

Definition IsInSameEpoch (jt other : JamTime) : bool := ToEpoch jt =? ToEpoch other.

Definition ValidateJamTime (t : Z) : option jamtime_error :=
  if t <? JamEpoch then Some ErrBeforeJamEpoch
  else if t >? MaxRepresentableJamTime then Some ErrAfterMaxJamTime
  else None.

(** ** Timeslots ([timeslot.go]) *)

Definition FromTimeslot (ts : Z) : JamTime :=
  at_seconds (uint64 (ts * duration_Seconds TimeslotDuration)).

Definition CurrentTimeslot (now : Z) : Z := ToTimeslot (Now now).

Definition IsInFuture (now ts : Z) : bool := ts >? CurrentTimeslot now.
Definition IsInFutureTimeSlot (now : Z) (jt : JamTime) : bool := ToTimeslot jt >? CurrentTimeslot now.

Definition TimeslotStart (ts : Z) : JamTime := FromTimeslot ts.

Definition TimeslotEnd (ts : Z) : res jamtime_error JamTime :=
  if ts =? MaxTimeslot then Err ErrMaxTimeslotReached
  else Add (FromTimeslot (uint32 (ts + 1))) (- Nanosecond).

(** The value is returned next to the error too. *)
Definition NextTimeslot (ts : Z) : Z * option jamtime_error :=
  if ts =? MaxTimeslot then (ts, Some ErrMaxTimeslotReached) else (uint32 (ts + 1), None).
Definition PreviousTimeslot (ts : Z) : Z * option jamtime_error :=
  if ts =? MinTimeslot then (ts, Some ErrMinTimeslotReached) else (uint32 (ts - 1), None).

Definition TimeslotInEpoch (ts : Z) : Z := uint32 (ts `mod` TimeslotsPerEpoch).
Definition IsFirstTimeslotInEpoch (ts : Z) : bool := TimeslotInEpoch ts =? 0.
Definition IsLastTimeslotInEpoch (ts : Z) : bool := TimeslotInEpoch ts =? TimeslotsPerEpoch - 1.
Definition Timeslot_ToEpoch (ts : Z) : Z := uint32 (ts / TimeslotsPerEpoch).
Definition ValidateTimeslot (ts : Z) : option jamtime_error :=
  ValidateJamTime (ToTime (FromTimeslot ts)).
Definition IsTicketSubmissionPeriod (ts : Z) : bool :=
  TimeslotInEpoch ts <? TicketSubmissionTimeSlots.
Definition IsWinningTicketMarkerPeriod (ts previous : Z) : bool :=
  (TimeslotInEpoch previous <? TicketSubmissionTimeSlots) &&
  (TicketSubmissionTimeSlots <=? TimeslotInEpoch ts).

(** ** Epochs ([epoch.go]) *)

Definition FromEpoch (e : Z) : JamTime :=
  at_seconds (uint64 (e * duration_Seconds EpochDuration)).
Definition CurrentEpoch (now : Z) : Z := ToEpoch (Now now).
Definition EpochStart (e : Z) : JamTime := FromEpoch e.
Definition EpochEnd (e : Z) : res jamtime_error JamTime :=
  if e =? MaxEpoch then Ok (FromTimeslot MaxTimeslot)
  else Add (FromEpoch (uint32 (e + 1))) (- Nanosecond).
Definition NextEpoch (e : Z) : Z * option jamtime_error :=
  if e =? MaxEpoch then (e, Some ErrMaxEpochReached) else (uint32 (e + 1), None).
Definition PreviousEpoch (e : Z) : Z * option jamtime_error :=
  if e =? MinEpoch then (e, Some ErrMinEpochReached) else (uint32 (e - 1), None).
Definition ValidateEpoch (e : Z) : option jamtime_error :=
  if e >? MaxEpoch then Some ErrEpochExceedsMaxJamTime else None.

Definition EpochAndTimeslotToJamTime (e timeslot : Z) : res jamtime_error JamTime :=
  if timeslot >=? TimeslotsPerEpoch then Err ErrTimeslotExceedsEpochLength
  else
    let epochStart := FromEpoch e in
    Ok (at_seconds (uint64 (Seconds epochStart
          + uint64 (timeslot * duration_Seconds TimeslotDuration)))).

(** ** Lemmas *)

Lemma JamEpoch_value : JamEpoch = 1704110400 * Second.
Proof. vm_compute. reflexivity. Qed.
Lemma Max_value : MaxRepresentableJamTime = 27474249599 * Second + 999999999.
Proof. vm_compute. reflexivity. Qed.
Lemma zero_time_value : zero_time = -62135596800 * Second.
Proof. vm_compute. reflexivity. Qed.

(** The start of a timeslot as a time. *)
Lemma ToTime_seconds s :
  0 ≤ s < 2 ^ 40 → ToTime (at_seconds s) = JamEpoch + s * Second.
Proof.
  intros Hs. unfold ToTime, at_seconds. cbn [src Seconds]. rewrite Z.eqb_refl.
  assert (Unix JamEpoch = 1704110400) as -> by (vm_compute; reflexivity).
  unfold int64. rewrite !wrapS_id by (unfold inS; try rewrite wrapS_id; unfold inS; lia).
  rewrite JamEpoch_value. unfold time_Unix. lia.
Qed.

Lemma FromTimeslot_seconds ts : inU 32 ts → Seconds (FromTimeslot ts) = 6 * ts.
Proof.
  unfold inU. intros H. unfold FromTimeslot. change (duration_Seconds TimeslotDuration) with 6.
  cbn [Seconds at_seconds]. rewrite uint64_small by lia. lia.
Qed.

Lemma ToTimeslot_FromTimeslot ts : inU 32 ts → ToTimeslot (FromTimeslot ts) = ts.
Proof.
  intros H. unfold ToTimeslot. rewrite FromTimeslot_seconds by done.
  change (duration_Seconds TimeslotDuration) with 6. rewrite Z.mul_comm, Z.div_mul by lia.
  by apply uint32_small.
Qed.

(** A time strictly between the epoch and the maximum is taken as it is. *)
Lemma FromTime_between t :
  JamEpoch < t ≤ MaxRepresentableJamTime →
  FromTime t = Ok (MkJamTime t (Unix t - 1704110400)).
Proof.
  intros Ht. unfold FromTime. rewrite JamEpoch_value, Max_value in *.
  destruct (Z.ltb_spec t (1704110400 * Second)); [lia|].
  destruct (Z.eqb_spec t (1704110400 * Second)); [lia|].
  destruct (Z.gtb_spec t (27474249599 * Second + 999999999)); [lia|].
  assert (Unix (1704110400 * Second) = 1704110400) as -> by (vm_compute; reflexivity).
  assert (1704110400 ≤ Unix t < 2 ^ 40).
  { unfold Unix, Second in *. split; [apply Z.div_le_lower_bound; lia|].
    apply Z.div_lt_upper_bound; lia. }
  by rewrite uint64_small by lia.
Qed.

(** The last nanosecond before the second [s]. *)
Lemma Add_before s :
  0 < s ≤ 25770139199 + 1 →
  Add (at_seconds s) (- Nanosecond) =
  Ok (if s * Second - 1 =? 0 then at_seconds 0
      else MkJamTime (JamEpoch + s * Second - 1) (s - 1)).
Proof.
  intros Hs. unfold Add. rewrite ToTime_seconds by lia. cbv zeta.
  replace (JamEpoch + s * Second + - Nanosecond) with (JamEpoch + s * Second - 1)
    by (unfold Nanosecond; lia).
  destruct (Z.gtb_spec (JamEpoch + s * Second - 1) MaxRepresentableJamTime) as [Hgt|];
    [rewrite JamEpoch_value, Max_value in Hgt; unfold Second in *; lia|].
  destruct (Z.ltb_spec (JamEpoch + s * Second - 1) JamEpoch); [unfold Second in *; lia|].
  destruct (Z.eqb_spec (s * Second - 1) 0); [unfold Second in *; lia|].
  rewrite FromTime_between by (unfold Second in *; lia). do 2 f_equal.
  unfold Unix. rewrite JamEpoch_value.
  replace (1704110400 * Second + s * Second - 1)
    with ((1704110400 + s - 1) * Second + (Second - 1)) by lia.
  rewrite Z.div_add_l, Z.div_small by (unfold Second; lia). lia.
Qed.

(** Epoch and position of a slot. *)
Lemma Timeslot_split ts :
  inU 32 ts →
  0 ≤ Timeslot_ToEpoch ts ≤ MaxEpoch ∧ 0 ≤ TimeslotInEpoch ts < TimeslotsPerEpoch ∧
  ts = Timeslot_ToEpoch ts * TimeslotsPerEpoch + TimeslotInEpoch ts.
Proof.
  unfold inU, Timeslot_ToEpoch, TimeslotInEpoch, MaxEpoch, TimeslotsPerEpoch. intros H.
  pose proof (Z.mod_pos_bound ts 600 ltac:(lia)). pose proof (Z.div_mod ts 600 ltac:(lia)).
  assert (0 ≤ ts / 600) by (apply Z.div_pos; lia).
  assert (ts / 600 ≤ (2 ^ 32 - 1) / 600) by (apply Z.div_le_mono; lia).
  rewrite !uint32_small by lia. lia.
Qed.

Lemma ToEpochAndTimeslot_FromTimeslot ts :
  inU 32 ts → ToEpochAndTimeslot (FromTimeslot ts) = (Timeslot_ToEpoch ts, TimeslotInEpoch ts).
Proof.
  intros H. unfold ToEpochAndTimeslot, ToEpoch. rewrite FromTimeslot_seconds by done.
  change (duration_Seconds TimeslotDuration) with 6.
  change (duration_Seconds EpochDuration) with (6 * 600).
  rewrite Z.div_mul_cancel_l by lia. rewrite (Z.mul_comm 6 ts), Z.div_mul by lia. done.
Qed.

Lemma EpochAndTimeslot_FromTimeslot ts :
  inU 32 ts →
  EpochAndTimeslotToJamTime (Timeslot_ToEpoch ts) (TimeslotInEpoch ts) = Ok (FromTimeslot ts).
Proof.
  intros H. destruct (Timeslot_split ts H) as (He & Hp & Hts).
  unfold EpochAndTimeslotToJamTime. rewrite Z.geb_leb, (proj2 (Z.leb_gt _ _)) by lia.
  unfold FromEpoch, FromTimeslot. cbn [Seconds at_seconds].
  change (duration_Seconds TimeslotDuration) with 6.
  change (duration_Seconds EpochDuration) with (6 * 600).
  change MaxEpoch with 7158278 in He. unfold TimeslotsPerEpoch, inU in *.
  rewrite !uint64_small by (rewrite ?uint64_small; lia). do 2 f_equal. lia.
Qed.

(** ** Theorems *)

(** Timeslots and epochs number the seconds without gaps.  A slot starts where
    it says and is found again from its start; slot number is epoch times 600 plus
    position; and putting epoch and position together gives the start of the slot
    back. *)
Theorem timeslot_decomposition ts :
  inU 32 ts →
  ToTimeslot (FromTimeslot ts) = ts ∧
  ts = Timeslot_ToEpoch ts * TimeslotsPerEpoch + TimeslotInEpoch ts ∧
  0 ≤ TimeslotInEpoch ts < TimeslotsPerEpoch ∧
  ToEpochAndTimeslot (FromTimeslot ts) = (Timeslot_ToEpoch ts, TimeslotInEpoch ts) ∧
  EpochAndTimeslotToJamTime (Timeslot_ToEpoch ts) (TimeslotInEpoch ts) = Ok (FromTimeslot ts).
Proof.
  intros H. pose proof (Timeslot_split ts H) as (He & Hp & Hts).
  split_and!; [by apply ToTimeslot_FromTimeslot|done|apply Hp..| |].
  - by apply ToEpochAndTimeslot_FromTimeslot.
  - by apply EpochAndTimeslot_FromTimeslot.
Qed.

Lemma timeslot_decomposition_witness :
  EpochAndTimeslotToJamTime 2 34 = Ok (FromTimeslot 1234).
Proof. apply (timeslot_decomposition 1234). unfold inU. lia. Defined.

(** A time in the valid range survives the conversion to [JamTime] and back,
    nanoseconds included, and is in the timeslot its seconds say. *)
Theorem time_roundtrip t jt :
  FromTime t = Ok jt → ToTime jt = t ∧ ValidateJamTime t = None ∧
  Seconds jt = (t - JamEpoch) / Second.
Proof.
  intros H. unfold FromTime in H. unfold ValidateJamTime.
  destruct (Z.ltb_spec t JamEpoch); [done|]. destruct (Z.eqb_spec t JamEpoch) as [->|].
  { injection H as <-. vm_compute. done. }
  destruct (Z.gtb_spec t MaxRepresentableJamTime); [done|]. fold (FromTime t) in H.
  assert (FromTime t = Ok jt) as H'.
  { unfold FromTime. rewrite (proj2 (Z.ltb_ge _ _)), (proj2 (Z.eqb_neq _ _)) by lia.
    destruct (Z.gtb_spec t MaxRepresentableJamTime); [lia|done]. }
  rewrite FromTime_between in H' by lia. injection H' as <-. split_and!; [|done|].
  - unfold ToTime. cbn [src]. rewrite JamEpoch_value in *. rewrite zero_time_value.
    unfold Second in *. by rewrite (proj2 (Z.eqb_neq _ _)) by lia.
  - cbn [Seconds]. unfold Unix. rewrite JamEpoch_value.
    replace (t - 1704110400 * Second) with (t + (-1704110400) * Second) by lia.
    rewrite Z.div_add by done. lia.
Qed.

Lemma time_roundtrip_witness :
  let t := time_Date 2025 3 7 8 9 10 11 in
  ToTime (MkJamTime t (Unix t - Unix JamEpoch)) = t ∧ ValidateJamTime t = None ∧
  Seconds (MkJamTime t (Unix t - Unix JamEpoch)) = (t - JamEpoch) / Second.
Proof. apply (time_roundtrip (time_Date 2025 3 7 8 9 10 11)). vm_compute. reflexivity. Defined.

(** A timeslot ends one nanosecond before the next one starts: [TimeslotEnd]
    succeeds on every slot but the last, its result is in the slot, and one
    nanosecond later the next slot starts. *)
Theorem timeslot_end ts :
  0 ≤ ts < MaxTimeslot →
  ∃ jt, TimeslotEnd ts = Ok jt ∧ ToTimeslot jt = ts ∧
        ToTime jt + Nanosecond = ToTime (FromTimeslot (ts + 1)).
Proof.
  unfold MaxTimeslot. intros H. unfold TimeslotEnd.
  rewrite (proj2 (Z.eqb_neq ts MaxTimeslot)) by (unfold MaxTimeslot; lia).
  rewrite uint32_small by lia.
  assert (FromTimeslot (ts + 1) = at_seconds (6 * (ts + 1))) as Hft.
  { unfold FromTimeslot. change (duration_Seconds TimeslotDuration) with 6.
    rewrite uint64_small by lia. f_equal. lia. }
  rewrite Hft, Add_before by lia.
  rewrite (proj2 (Z.eqb_neq (6 * (ts + 1) * Second - 1) 0)) by (unfold Second; lia).
  eexists. split_and!; [done| |].
  - unfold ToTimeslot. cbn [Seconds]. change (duration_Seconds TimeslotDuration) with 6.
    replace (6 * (ts + 1) - 1) with (ts * 6 + 5) by lia.
    rewrite Z.div_add_l, Z.div_small by lia. rewrite Z.add_0_r. apply uint32_small. lia.
  - rewrite ToTime_seconds by lia. unfold ToTime. cbn [src].
    rewrite (proj2 (Z.eqb_neq _ zero_time)).
    + unfold Nanosecond. lia.
    + rewrite JamEpoch_value, zero_time_value. unfold Second. lia.
Qed.

Lemma timeslot_end_witness :
  ∃ jt, TimeslotEnd 41 = Ok jt ∧ ToTimeslot jt = 41 ∧
        ToTime jt + Nanosecond = ToTime (FromTimeslot 42).
Proof. apply (timeslot_end 41). unfold MaxTimeslot. lia. Defined.

(** The last accepted times do not fit a timeslot.  Times up to
    [MaxRepresentableJamTime] are accepted, but from 2840-08-12 02:49:36 on the
    slot number wraps around to the first slots. *)
Theorem late_times_wrap t jt :
  JamEpoch + 2 ^ 32 * TimeslotDuration ≤ t ≤ MaxRepresentableJamTime → FromTime t = Ok jt →
  ToTimeslot jt = Seconds jt / 6 - 2 ^ 32 ∧ ToTimeslot jt < 56000.
Proof.
  intros Ht H. assert (FromTime t = Ok jt) as H' by done.
  rewrite FromTime_between in H'
    by (rewrite JamEpoch_value in *; unfold TimeslotDuration, Second in *; lia).
  injection H' as <-. cbn [Seconds]. unfold ToTimeslot. cbn [Seconds].
  change (duration_Seconds TimeslotDuration) with 6.
  rewrite JamEpoch_value, Max_value in Ht. unfold TimeslotDuration, Second in Ht.
  assert (27473914176 ≤ Unix t ≤ 27474249599) as Hu.
  { unfold Unix, Second. split; [apply Z.div_le_lower_bound; lia|].
    assert (t / 10 ^ 9 < 27474249600); [|lia]. apply Z.div_lt_upper_bound; lia. }
  assert (2 ^ 32 ≤ (Unix t - 1704110400) / 6 < 2 ^ 32 + 56000) as Hs.
  { split; [apply Z.div_le_lower_bound; lia|]. apply Z.div_lt_upper_bound; lia. }
  unfold uint32, wrapU. rewrite <- (Z.mod_add _ (-1)) by lia. rewrite Z.mod_small by lia. lia.
Qed.

Lemma late_times_wrap_witness :
  let t := time_Date 2840 8 15 0 0 0 0 in
  let jt := MkJamTime t (Unix t - Unix JamEpoch) in
  ToTimeslot jt = Seconds jt / 6 - 2 ^ 32 ∧ ToTimeslot jt < 56000.
Proof.
  apply (late_times_wrap (time_Date 2840 8 15 0 0 0 0)); vm_compute; [split; congruence|reflexivity].
Defined.
