(* ===== verification/Shuffle.v ===== *)
(** * Deterministic shuffling

    [internal/common/shuffling.go]: a Fisher-Yates shuffle driven by numbers
    drawn from a hash.  The hash function of [internal/crypto] wraps a library
    and is a parameter. *)
From S2P Require Export JamCodec.

(** [recursiveShuffle]; the number of elements drops by one in every call. *)
Fixpoint recursiveShuffle_n (l : nat) (s r : list Z) : res jam_error (list Z) :=
  match l with
  | O => Ok []
  | S l' =>
      let! r0 := go_index r 0 in
      let index := r0 `mod` uint32 (Z.of_nat l) in
      let! head := go_index s index in
      let! lastElem := go_index s (Z.of_nat l - 1) in
      let! sPost := go_update s index lastElem in
      let! sPost := go_slice sPost 0 (Z.of_nat l - 1) in
      let! r := go_slice_from r 1 in
      let! tail := recursiveShuffle_n l' sPost r in
      Ok (head :: tail)
  end.
Definition recursiveShuffle (s r : list Z) : res jam_error (list Z) :=
  recursiveShuffle_n (length s) s r.

Section hash.
Context (HashData : list Z → list Z).

(** [for j := uint32(0); j < 4; j++ { b[j] = hash[(p+j)%32] }] *)
Definition hash_window (hash : list Z) (p : Z) : res jam_error (list Z) :=
  let! b0 := go_index hash (uint32 (p + 0) `mod` 32) in
  let! b1 := go_index hash (uint32 (p + 1) `mod` 32) in
  let! b2 := go_index hash (uint32 (p + 2) `mod` 32) in
  let! b3 := go_index hash (uint32 (p + 3) `mod` 32) in
  Ok [b0; b1; b2; b3].

(** One turn of the loop of [generateRandomNumbers]. *)
Definition randomNumber (h : list Z) (i : Z) : res jam_error Z :=
  let k := i / 8 in
  let! kBytes := Marshal (TPrim false Uint32) (VNum k) in
  let hash := HashData (h ++ kBytes) in
  let p := uint32 (4 * i) `mod` 32 in
  let! b := hash_window hash p in
  let! rI := Unmarshal (TPrim false Uint32) b (VNum 0) in
  Ok (num_of rI).

Fixpoint generateRandomNumbers_loop (h : list Z) (i : Z) (n : nat) : res jam_error (list Z) :=
  match n with
  | O => Ok []
  | S n =>
      let! rI := randomNumber h i in
      let! rs := generateRandomNumbers_loop h (i + 1) n in
      Ok (rI :: rs)
  end.
Definition generateRandomNumbers (h : list Z) (l : Z) : res jam_error (list Z) :=
  let! _ := go_make 4 l 0 in
  generateRandomNumbers_loop h 0 (Z.to_nat l).

Definition DeterministicShuffle (s h : list Z) : res jam_error (list Z) :=
  let! r := generateRandomNumbers h (uint32 (len s)) in
  recursiveShuffle s r.
End hash.

(** ** The shuffle permutes *)

(** Moving the last element into a hole and dropping the last place removes the
    element that was there. *)
Lemma swap_remove_perm {A} (s : list A) (k : nat) x l :
  s !! k = Some x → s !! pred (length s) = Some l →
  x :: take (pred (length s)) (<[k := l]> s) ≡ₚ s.
Proof.
  intros Hx Hl. destruct s as [|a s] using rev_ind; [done|]. clear IHs.
  rewrite length_app in *. simpl in *. replace (pred (length s + 1)) with (length s) in * by lia.
  rewrite lookup_app_r, Nat.sub_diag in Hl by lia. injection Hl as ->.
  destruct (decide (k = length s)) as [->|].
  - rewrite lookup_app_r, Nat.sub_diag in Hx by lia. injection Hx as ->.
    rewrite insert_app_r_alt, take_app_length by lia. apply Permutation_cons_append.
  - pose proof (lookup_lt_Some _ _ _ Hx) as Hk. rewrite length_app in Hk. simpl in Hk.
    rewrite insert_app_l by lia.
    rewrite take_app_le, take_ge by (rewrite length_insert; lia).
    rewrite lookup_app_l in Hx by lia.
    rewrite <- Permutation_cons_append. transitivity (x :: l :: (take k s ++ drop (S k) s)).
    + constructor. rewrite insert_take_drop by lia. symmetry. apply Permutation_middle.
    + rewrite perm_swap. constructor. rewrite Permutation_middle. by rewrite take_drop_middle.
Qed.

Lemma go_slice_from_1 {E} (x : Z) r : @go_slice_from E _ (x :: r) 1 = Ok r.
Proof.
  unfold go_slice_from. rewrite go_slice_ok by (unfold len; simpl; lia).
  f_equal. apply take_ge. unfold len. simpl. lia.
Qed.

Lemma recursiveShuffle_n_perm s r :
  len s < 2 ^ 32 → (length s ≤ length r)%nat → Forall (inU 32) r →
  ∃ s', recursiveShuffle_n (length s) s r = Ok s' ∧ s' ≡ₚ s.
Proof.
  remember (length s) as n eqn:Hn. revert s r Hn.
  induction n as [|n IH]; intros s r Hn Hlt Hr HR.
  { exists []. destruct s; done. }
  destruct r as [|r0 r]; [simpl in Hr; lia|]. inversion HR as [|?? HR0 HR']; subst.
  cbn [recursiveShuffle_n]. rewrite uint32_small by (unfold len in *; lia).
  set (k := r0 `mod` Z.of_nat (S n)).
  assert (0 ≤ k < Z.of_nat (S n)) as Hk by (apply Z.mod_pos_bound; lia).
  change (go_index (r0 :: r) 0) with (@Ok jam_error _ r0). cbn [rbind].
  destruct (lookup_lt_is_Some_2 s (Z.to_nat k)) as [x Hx]; [lia|].
  destruct (lookup_lt_is_Some_2 s n) as [l Hl]; [lia|].
  rewrite (go_index_lookup s k x) by (done || lia). cbn [rbind].
  rewrite (go_index_lookup s (Z.of_nat (S n) - 1) l) by (lia || by rewrite <- Hl; f_equal; lia).
  cbn [rbind]. rewrite go_update_ok by (unfold len; lia). cbn [rbind].
  rewrite go_slice_ok by (unfold len; rewrite ?length_insert; lia). cbn [rbind].
  rewrite go_slice_from_1. cbn [rbind].
  change (Z.to_nat 0) with 0%nat. rewrite drop_0.
  replace (Z.to_nat (Z.of_nat (S n) - 1 - 0)) with n by lia.
  assert (length (take n (<[Z.to_nat k:=l]> s)) = n) as Hlen
    by (rewrite length_take, length_insert; lia).
  destruct (IH (take n (<[Z.to_nat k:=l]> s)) r) as (s' & Hs' & Hp); [done| | |done|].
  - unfold len in *. lia.
  - simpl in Hr. lia.
  - fold k. rewrite Hs'. cbn [rbind]. exists (x :: s'). split; [done|]. rewrite Hp.
    pose proof (swap_remove_perm s (Z.to_nat k) x l Hx) as Hsw. rewrite <- Hn in Hsw. by apply Hsw.
Qed.

(** ** The numbers *)

Section numbers.
Context (HashData : list Z → list Z).
Hypothesis HashData_32 : ∀ bs, length (HashData bs) = 32%nat ∧ bytes_ok (HashData bs).

Lemma hash_window_ok hash p :
  length hash = 32%nat → bytes_ok hash → 0 ≤ p < 32 →
  ∃ b, hash_window hash p = Ok b ∧ len b = 4 ∧ bytes_ok b ∧
    ∀ j, (j < 4)%nat → b !! j = hash !! Z.to_nat ((p + Z.of_nat j) `mod` 32).
Proof.
  intros Hl Hb Hp.
  assert (∀ j, 0 ≤ j < 4 → ∃ x, @go_index jam_error _ hash (uint32 (p + j) `mod` 32) = Ok x ∧
    is_byte x ∧ hash !! Z.to_nat ((p + j) `mod` 32) = Some x) as H.
  { intros j Hj. rewrite uint32_small by lia.
    pose proof (Z.mod_pos_bound (p + j) 32 ltac:(lia)) as Hm.
    destruct (lookup_lt_is_Some_2 hash (Z.to_nat ((p + j) `mod` 32))) as [x Hx]; [lia|].
    exists x. split_and!; [by apply go_index_lookup; [lia|]| |done].
    by eapply (Forall_lookup_1 _ _ _ _ Hb). }
  destruct (H 0 ltac:(lia)) as (x0 & H0 & B0 & L0). destruct (H 1 ltac:(lia)) as (x1 & H1 & B1 & L1).
  destruct (H 2 ltac:(lia)) as (x2 & H2 & B2 & L2). destruct (H 3 ltac:(lia)) as (x3 & H3 & B3 & L3).
  unfold hash_window. rewrite H0, H1, H2, H3. cbn [rbind]. exists [x0; x1; x2; x3].
  split_and!; [done|done|by rewrite !Forall_cons, Forall_nil|].
  intros [|[|[|[|j]]]] Hj; simpl; [done..|lia].
Qed.

(** Number [i] is a little-endian word of the hash of the seed and [i / 8]. *)
Definition number_spec (h : list Z) (i r : Z) : Prop :=
  ∃ w, length w = 4%nat ∧ r = little_endian_to_Z 8 w ∧
    ∀ j, (j < 4)%nat →
      w !! j = HashData (h ++ Z_to_little_endian 4 8 (i / 8)) !! Z.to_nat ((4 * i + Z.of_nat j) `mod` 32).

Lemma randomNumber_ok h i :
  0 ≤ i < 2 ^ 32 → ∃ r, randomNumber HashData h i = Ok r ∧ inU 32 r ∧ number_spec h i r.
Proof.
  intros Hi. unfold randomNumber. cbv zeta.
  assert (0 ≤ i / 8 < 2 ^ 32) as Hk
    by (split; [apply Z.div_pos; lia|apply Z.div_lt_upper_bound; lia]).
  assert (Marshal (TPrim false Uint32) (VNum (i / 8)) = Ok (serializeTrivialNatural (i / 8) 4)) as ->
    by done.
  cbn [rbind]. rewrite serializeTrivialNatural_le by (unfold inU; lia).
  set (hash := HashData _). destruct (HashData_32 (h ++ Z_to_little_endian 4 8 (i / 8))) as [Hl Hb].
  fold hash in Hl, Hb.
  assert (uint32 (4 * i) `mod` 32 = (4 * i) `mod` 32) as -> by (apply (wrapU_wrapU 5 32); lia).
  pose proof (Z.mod_pos_bound (4 * i) 32 ltac:(lia)) as Hp.
  destruct (hash_window_ok hash ((4 * i) `mod` 32) Hl Hb Hp) as (b & Hw & Hlen & Hbb & Hj).
  rewrite Hw. cbn [rbind]. destruct b as [|b0 b]; [done|].
  rewrite Unmarshal_prim. unfold unmarshal, unmarshal_prim. cbn [IntLength rbind]. unfold decodeFixedWidth_prim.
  rewrite go_make_small by (unfold maxAlloc; lia). cbn [rbind].
  rewrite <- (app_nil_r (b0 :: b)), read_exact by done. cbn [rbind map_err num_of].
  rewrite deserializeTrivialNatural_le by done. eexists. split; [done|].
  split; [by apply wrapU_range|]. exists (b0 :: b). split_and!.
  - unfold len in Hlen. lia.
  - apply wrapU_id. pose proof (le_value_bound (b0 :: b) Hbb) as HB. rewrite Hlen in HB. apply HB.
  - intros j Hj4. rewrite Hj by done. f_equal. by rewrite Z.add_mod_idemp_l by lia.
Qed.

Lemma generateRandomNumbers_loop_ok h i n :
  0 ≤ i → i + Z.of_nat n ≤ 2 ^ 32 →
  ∃ rs, generateRandomNumbers_loop HashData h i n = Ok rs ∧ length rs = n ∧ Forall (inU 32) rs ∧
    ∀ k r, rs !! k = Some r → number_spec h (i + Z.of_nat k) r.
Proof.
  revert i. induction n as [|n IH]; intros i Hi Hn; simpl.
  { exists []. split_and!; [done..|]. intros k r. by rewrite lookup_nil. }
  destruct (randomNumber_ok h i) as (r & -> & Hr & Hs); [lia|]. cbn [rbind].
  destruct (IH (i + 1)) as (rs & -> & Hl & Hf & Hk); [lia..|]. cbn [rbind].
  exists (r :: rs). split_and!; [done|by f_equal/=|by constructor|].
  intros [|k] r'; simpl.
  - intros [= <-]. by rewrite Z.add_0_r.
  - intros H. apply Hk in H. by replace (i + Z.of_nat (S k)) with (i + 1 + Z.of_nat k) by lia.
Qed.

Lemma generateRandomNumbers_ok h l :
  0 ≤ l < 2 ^ 32 →
  ∃ rs, generateRandomNumbers HashData h l = Ok rs ∧ len rs = l ∧ Forall (inU 32) rs ∧
    ∀ k r, rs !! k = Some r → number_spec h (Z.of_nat k) r.
Proof.
  intros Hl. unfold generateRandomNumbers. rewrite go_make_small by (unfold maxAlloc; lia).
  cbn [rbind]. destruct (generateRandomNumbers_loop_ok h 0 (Z.to_nat l)) as (rs & H & Hn & Hf & Hk);
    [lia..|]. exists rs. split_and!; [done|unfold len; lia|done|]. intros k r Hr. by apply Hk in Hr.
Qed.
End numbers.

(** ** Theorems

    The hash function is a parameter; what is assumed of it is that a hash is 32
    bytes, the size of [crypto.Hash]. *)

(** C36: for every list of fewer than 2^32 elements and every seed,
    [DeterministicShuffle] returns (it neither fails nor indexes out of range)
    and its result is a permutation of the input; it draws one number for each
    element, and number [k] is the little-endian 32-bit word that starts at byte
    [4k mod 32] of the hash of the seed followed by [k / 8]. *)
Theorem deterministic_shuffle (HashData : list Z → list Z) (s h : list Z)
    (HashData_32 : ∀ bs, length (HashData bs) = 32%nat ∧ Forall is_byte (HashData bs))
    (Hlen : len s < 2 ^ 32) :
  ∃ s' rs, DeterministicShuffle HashData s h = Ok s' ∧ s' ≡ₚ s ∧
    generateRandomNumbers HashData h (len s) = Ok rs ∧ len rs = len s ∧
    (∀ k r, rs !! k = Some r → number_spec HashData h (Z.of_nat k) r) ∧
    recursiveShuffle s rs = Ok s'.
Proof.
  assert (0 ≤ len s) as Hpos by (unfold len; lia).
  destruct (generateRandomNumbers_ok HashData HashData_32 h (len s)) as (rs & Hg & Hl & Hf & Hk);
    [lia|].
  destruct (recursiveShuffle_n_perm s rs) as (s' & Hs & Hp); [done|unfold len in *; lia|done|].
  exists s', rs. unfold DeterministicShuffle. rewrite uint32_small by lia. by rewrite Hg.
Qed.

(** A hash that is not constant: the byte sum of the data, then zeroes. *)
Definition sum_hash (bs : list Z) : list Z := (foldr Z.add 0 bs `mod` 256) :: replicate 31 0.

Lemma deterministic_shuffle_witness :
  ∃ s' rs, DeterministicShuffle sum_hash [10; 20; 30; 40; 50] [7] = Ok s' ∧ s' ≡ₚ [10; 20; 30; 40; 50] ∧
    generateRandomNumbers sum_hash [7] 5 = Ok rs ∧ len rs = 5 ∧
    (∀ k r, rs !! k = Some r → number_spec sum_hash [7] (Z.of_nat k) r) ∧
    recursiveShuffle [10; 20; 30; 40; 50] rs = Ok s'.
Proof.
  apply (deterministic_shuffle sum_hash [10; 20; 30; 40; 50] [7]); [|done].
  intros bs. split; [done|]. constructor.
  - apply Z.mod_pos_bound. lia.
  - by apply Forall_replicate.
Defined.
