(* ===== verification/Mmr.v ===== *)
(** * Merkle mountain ranges

    [internal/merkle/mountain_ranges/mmr.go].  A range is a list of optional
    peaks ([[]*crypto.Hash], nil for an empty position); the hash function is an
    argument of every operation in the source and a parameter here. *)
From S2P Require Export JamRoundtrip.

(** [crypto.Hash] is [[32]byte]. *)
Definition Hash : Type := list Z.
Definition ZeroHash : Hash := replicate 32 0.
Definition hash_type : gotype := TArray 32 (TPrim false Uint8).

#[export] Instance is_byte_dec z : Decision (is_byte z).
Proof. unfold is_byte, inU. apply _. Defined.

Inductive mmr_error : Type := ErrMarshal (e : jam_error).

Definition replacePeakAt (peaks : list (option Hash)) (index : Z) (value : option Hash)
  : res mmr_error (list (option Hash)) :=
  go_update peaks index value.

Section hash.
Context (hashFunc : list Z → Hash).

(** [placePeak]; every call moves one position up, [None] is a call too many. *)
Fixpoint placePeak (calls : nat) (peaks : list (option Hash)) (item : Hash) (position : Z)
  : option (res mmr_error (list (option Hash))) :=
  match calls with
  | O => None
  | S calls =>
      if len peaks <=? position then Some (Ok (peaks ++ [Some item]))
      else
        match go_index peaks position with
        | Ok None => Some (replacePeakAt peaks position (Some item))
        | Ok (Some peak) =>
            let hash := hashFunc (peak ++ item) in
            match replacePeakAt peaks position None with
            | Ok peaks => placePeak calls peaks hash (position + 1)
            | Err e => Some (Err e)
            | RuntimePanic => Some RuntimePanic
            end
        | Err e => Some (Err e)
        | RuntimePanic => Some RuntimePanic
        end
  end.

Definition Append (calls : nat) (r : list (option Hash)) (l : Hash)
  : option (res mmr_error (list (option Hash))) :=
  placePeak calls r l 0.

(** The bytes of ["peak"]. *)
Definition peakPrefix : list Z := [112; 101; 97; 107].

(** [SuperPeak]; every call drops the last peak. *)
Fixpoint SuperPeak (calls : nat) (peaks : list (option Hash)) : option (res mmr_error Hash) :=
  match calls with
  | O => None
  | S calls =>
      let validPeaks := filter is_Some peaks in
      if len validPeaks =? 0 then Some (Ok ZeroHash)
      else if len validPeaks =? 1 then
        Some (let! p := go_index validPeaks 0 in
              match p with Some h => Ok h | None => RuntimePanic end)
      else
        match (let! p := go_index validPeaks (len validPeaks - 1) in
               let! sub := go_slice validPeaks 0 (len validPeaks - 1) in
               match p with Some h => Ok (h, sub) | None => RuntimePanic end) with
        | Ok (lastHash, sub) =>
            match SuperPeak calls sub with
            | Some (Ok subPeak) => Some (Ok (hashFunc (peakPrefix ++ subPeak ++ lastHash)))
            | r => r
            end
        | Err e => Some (Err e)
        | RuntimePanic => Some RuntimePanic
        end
  end.
End hash.

Definition peak_value (p : option Hash) : goval :=
  match p with None => VNil | Some h => VPtr (VSeq (VNum <$> h)) end.
Definition peaks_type : gotype := TSlice (TPtr hash_type).
Definition peaks_value (peaks : list (option Hash)) : goval := VSeq (peak_value <$> peaks).

Definition Encode (peaks : list (option Hash)) : res mmr_error (list Z) :=
  map_err ErrMarshal (Marshal peaks_type (peaks_value peaks)).

(** ** What a range stands for

    Position [k] of a range that holds the leaves [ls], oldest first, is the
    root of a perfect binary tree of [2^k] of them, or empty. *)
Section spec.
Context (hashFunc : list Z → Hash).

(** [tree k h ls]: [h] is the root of the perfect tree of height [k] on [ls]. *)
Inductive tree : nat → Hash → list Hash → Prop :=
| tree_leaf l : tree 0 l [l]
| tree_node k h1 h2 ls1 ls2 :
    tree k h1 ls1 → tree k h2 ls2 → tree (S k) (hashFunc (h1 ++ h2)) (ls1 ++ ls2).

(** [mountains k peaks ls]: the peaks from position [k] up cover [ls]; the
    highest peak, which covers the oldest leaves, is present. *)
Inductive mountains : nat → list (option Hash) → list Hash → Prop :=
| mountains_end k : mountains k [] []
| mountains_gap k ps ls : mountains (S k) ps ls → ps ≠ [] → mountains k (None :: ps) ls
| mountains_peak k h ps ls bs :
    mountains (S k) ps ls → tree k h bs → mountains k (Some h :: ps) (ls ++ bs).

(** A tree of height [k] has [2^k] leaves. *)
Lemma tree_length k h ls : tree k h ls → length ls = (2 ^ k)%nat.
Proof. induction 1; simpl; [done|]. rewrite length_app. lia. Qed.

Lemma tree_nonempty k h ls : tree k h ls → ls ≠ [].
Proof.
  intros H ->. apply tree_length in H. pose proof (Nat.pow_nonzero 2 k ltac:(lia)). simpl in H. lia.
Qed.

(** The leaves determine the root, and the peaks. *)
Lemma tree_det k h ls : tree k h ls → ∀ h', tree k h' ls → h = h'.
Proof.
  induction 1 as [l|k h1 h2 ls1 ls2 H1 IH1 H2 IH2]; intros h' H'.
  { by inversion H'. }
  inversion H' as [|? h1' h2' ls1' ls2' H1' H2']; subst.
  match goal with E : _ ++ _ = _ ++ _ |- _ => apply app_inj_1 in E as [-> ->] end.
  - by rewrite (IH1 h1'), (IH2 h2').
  - by rewrite (tree_length _ _ _ H1), (tree_length _ _ _ H1').
Qed.

(** The range is the binary counter of its leaves. *)
Lemma mountains_length k ps ls :
  mountains k ps ls → ∃ n, length ls = (n * 2 ^ k)%nat ∧ (ps = [] ↔ n = 0%nat) ∧
    ∀ j, (∃ h, ps !! j = Some (Some h)) ↔ Nat.testbit n j = true.
Proof.
  induction 1 as [k|k ps ls H (n & Hl & He & Hb) Hne|k h ps ls bs H (n & Hl & He & Hb) Ht].
  - exists 0%nat. split_and!; [done|done|]. intros j. rewrite Nat.bits_0. split; [|done].
    intros [h Hh]. by rewrite lookup_nil in Hh.
  - exists (2 * n)%nat. split_and!.
    + rewrite Hl. simpl. lia.
    + split; [done|]. intros ?. destruct Hne. apply He. lia.
    + intros [|j]; simpl lookup.
      * rewrite Nat.testbit_even_0. split; [by intros [h [=]]|done].
      * by rewrite Nat.testbit_even_succ by lia.
  - exists (2 * n + 1)%nat. split_and!.
    + rewrite length_app, Hl, (tree_length _ _ _ Ht). simpl. lia.
    + split; [done|lia].
    + intros [|j]; simpl lookup.
      * rewrite Nat.testbit_odd_0. split; [done|eauto].
      * by rewrite Nat.testbit_odd_succ by lia.
Qed.

Lemma mountains_det k ps ls : mountains k ps ls → ∀ ps', mountains k ps' ls → ps = ps'.
Proof.
  assert (∀ k ps, mountains k ps [] → ps = []) as Hnil.
  { intros k0 ps0 H0. destruct (mountains_length _ _ _ H0) as (n & Hl & He & _).
    apply He. simpl in Hl. pose proof (Nat.pow_nonzero 2 k0 ltac:(lia)). nia. }
  assert (∀ k ps ls h bs, mountains (S k) ps ls → tree k h bs →
    ∀ ps' , mountains (S k) ps' (ls ++ bs) → False) as Hodd.
  { intros k0 ps0 ls0 h bs H0 Ht ps' H'.
    destruct (mountains_length _ _ _ H0) as (n & Hl & _).
    destruct (mountains_length _ _ _ H') as (n' & Hl' & _).
    rewrite length_app, Hl, (tree_length _ _ _ Ht) in Hl'. simpl in Hl'.
    pose proof (Nat.pow_nonzero 2 k0 ltac:(lia)).
    assert (2 * n + 1 = 2 * n')%nat; [|lia]. apply (Nat.mul_cancel_r _ _ (2 ^ k0)); [done|lia]. }
  induction 1 as [k|k ps ls H IH Hne|k h ps ls bs H IH Ht]; intros ps' H'.
  - symmetry. by apply (Hnil k).
  - inversion H' as [? E1 E2|? ps1 ls1 H1 Hne1|? h1 ps1 ls1 bs1 H1 Ht1]; subst.
    + by apply Hnil in H.
    + by rewrite (IH ps1).
    + by destruct (Hodd _ _ _ _ _ H1 Ht1 ps).
  - remember (ls ++ bs) as all eqn:Hall.
    destruct H' as [k|k ps1 ls1 H1 Hne1|k h1 ps1 ls1 bs1 H1 Ht1].
    + destruct (tree_nonempty _ _ _ Ht). by destruct ls, bs.
    + subst. by destruct (Hodd _ _ _ _ _ H Ht ps1).
    + apply app_inj_2 in Hall as [-> ->];
        [|by rewrite (tree_length _ _ _ Ht), (tree_length _ _ _ Ht1)].
      by rewrite (IH ps1), (tree_det _ _ _ Ht h1).
Qed.

(** ** Appending *)

Lemma placePeak_mountains calls pre k ps ls item bs :
  k = length pre → mountains k ps ls → tree k item bs → (length ps < calls)%nat →
  ∃ ps', placePeak hashFunc calls (pre ++ ps) item (Z.of_nat k) = Some (Ok (pre ++ ps')) ∧
    mountains k ps' (ls ++ bs).
Proof.
  revert pre k ps ls item bs. induction calls as [|calls IH]; intros pre k ps ls item bs Hk Hm Ht Hc;
    [lia|]. cbn [placePeak].
  destruct ps as [|[p|] ps].
  - rewrite (proj2 (Z.leb_le _ _)) by (unfold len; rewrite app_nil_r; lia).
    inversion Hm; subst. exists [Some item]. rewrite app_nil_r. split; [done|].
    apply (mountains_peak _ item [] []); [constructor|done].
  - rewrite (proj2 (Z.leb_gt _ _)) by (unfold len; rewrite length_app; simpl; lia).
    rewrite (go_index_lookup _ _ (Some p)) by (lia || rewrite Nat2Z.id, Hk; by apply list_lookup_middle).
    unfold replacePeakAt. rewrite go_update_ok by (unfold len; rewrite length_app; simpl; lia).
    rewrite Nat2Z.id, Hk, insert_app_r_alt, Nat.sub_diag by lia. simpl insert.
    inversion Hm as [| |? ? ? ls0 bs0 Hm0 Ht0]; subst.
    destruct (IH (pre ++ [None]) (S (length pre)) ps ls0 (hashFunc (p ++ item)) (bs0 ++ bs))
      as (ps' & Hp & Hm'); [rewrite length_app; simpl; lia|done|by constructor|simpl in Hc; lia|].
    rewrite <- app_assoc in Hp. cbn [app] in Hp.
    replace (Z.of_nat (length pre) + 1) with (Z.of_nat (S (length pre))) by lia.
    rewrite Hp. exists (None :: ps'). rewrite <- app_assoc. split; [done|].
    rewrite <- app_assoc. constructor; [done|].
    intros ->. inversion Hm' as [? Ek E| |]. destruct (tree_nonempty _ _ _ Ht). destruct bs; [done|].
    by destruct ls0, bs0.
  - rewrite (proj2 (Z.leb_gt _ _)) by (unfold len; rewrite length_app; simpl; lia).
    rewrite (go_index_lookup _ _ None) by (lia || rewrite Nat2Z.id, Hk; by apply list_lookup_middle).
    unfold replacePeakAt. rewrite go_update_ok by (unfold len; rewrite length_app; simpl; lia).
    rewrite Nat2Z.id, Hk, insert_app_r_alt, Nat.sub_diag by lia. simpl insert.
    inversion Hm as [|? ? ? Hm0 Hne|]; subst. exists (Some item :: ps). split; [done|].
    by constructor.
Qed.

(** Appending leaves one by one to a range. *)
Fixpoint appends (r : list (option Hash)) (ls : list Hash)
  : option (res mmr_error (list (option Hash))) :=
  match ls with
  | [] => Some (Ok r)
  | l :: ls =>
      match Append hashFunc (S (length r)) r l with
      | Some (Ok r) => appends r ls
      | x => x
      end
  end.

Lemma appends_mountains r ls0 ls :
  mountains 0 r ls0 → ∃ r', appends r ls = Some (Ok r') ∧ mountains 0 r' (ls0 ++ ls).
Proof.
  revert r ls0. induction ls as [|l ls IH]; intros r ls0 Hm; cbn [appends].
  { exists r. by rewrite app_nil_r. }
  destruct (placePeak_mountains (S (length r)) [] 0 r ls0 l [l]) as (r1 & Hr & Hm1);
    [done|done|constructor|lia|].
  unfold Append. cbn [app] in Hr. change (Z.of_nat 0) with 0 in Hr. rewrite Hr. destruct (IH r1 (ls0 ++ [l])) as (r' & -> & Hm'); [done|].
  exists r'. by rewrite <- app_assoc in Hm'.
Qed.
End spec.

(** ** The super-peak *)

(** The peaks that are present, lowest position first. *)
Definition present : list (option Hash) → list Hash := omap id.

Definition super (hashFunc : list Z → Hash) (hs : list Hash) : Hash :=
  match hs with
  | [] => ZeroHash
  | h :: hs => foldl (λ acc h, hashFunc (peakPrefix ++ acc ++ h)) h hs
  end.

Lemma filter_present peaks : filter is_Some peaks = Some <$> present peaks.
Proof.
  induction peaks as [|[h|] peaks IH]; [done| |].
  - rewrite filter_cons_True by done. simpl. by rewrite IH.
  - rewrite filter_cons_False by (intros [? [=]]). simpl. by rewrite IH.
Qed.

Lemma present_Some hs : present (Some <$> hs) = hs.
Proof. induction hs as [|h hs IH]; [done|]. unfold present in *. csimpl. by rewrite IH. Qed.

Lemma present_length peaks : (length (present peaks) ≤ length peaks)%nat.
Proof. induction peaks as [|[h|] peaks IH]; unfold present in *; csimpl; lia. Qed.

Lemma SuperPeak_present hashFunc calls peaks :
  (length (present peaks) < calls)%nat →
  SuperPeak hashFunc calls peaks = Some (Ok (super hashFunc (present peaks))).
Proof.
  revert peaks. induction calls as [|calls IH]; intros peaks Hc; [lia|]. cbn [SuperPeak].
  rewrite filter_present. generalize dependent (present peaks). clear peaks. intros hs Hc.
  destruct hs as [|h hs _] using rev_ind; [done|].
  rewrite length_app in Hc. simpl in Hc. destruct hs as [|h0 hs]; [done|].
  unfold len. rewrite length_fmap, length_app. simpl length.
  rewrite (proj2 (Z.eqb_neq _ _)), (proj2 (Z.eqb_neq _ _)) by lia.
  rewrite (go_index_lookup _ _ (Some h)); [|lia|].
  2:{ rewrite list_lookup_fmap, lookup_app_r by (simpl; lia).
      replace (Z.to_nat _ - length (h0 :: hs))%nat with 0%nat by (simpl; lia). done. }
  cbn [rbind]. rewrite go_slice_ok by (unfold len; rewrite ?length_fmap, ?length_app; simpl; lia).
  cbn [rbind]. change (Z.to_nat 0) with 0%nat. rewrite drop_0, fmap_app.
  rewrite take_app_le, take_ge by (rewrite ?length_fmap; simpl; lia).
  rewrite IH by (rewrite present_Some; simpl in *; lia). rewrite present_Some.
  simpl. by rewrite foldl_app.
Qed.

(** ** The encoding *)

Lemma peaks_value_typed peaks :
  Forall (λ p, ∀ h, p = Some h → length h = 32%nat ∧ bytes_ok h) peaks → len peaks < 2 ^ 64 →
  well_typed peaks_type (peaks_value peaks).
Proof.
  intros Hp Hl. split; [|unfold inU, len in *; rewrite length_fmap; split; [lia|done]].
  apply Forall_fmap. eapply Forall_impl; [done|]. intros [h|] Hh; [|done].
  destruct (Hh h eq_refl) as [H32 Hb]. simpl. split; [|by rewrite length_fmap].
  apply Forall_fmap. eapply Forall_impl; [done|]. done.
Qed.

Lemma peaks_value_canon peaks : canon peaks_type (peaks_value peaks) = peaks_value peaks.
Proof.
  unfold peaks_value. cbn. f_equal. induction peaks as [|[h|] peaks IH]; [done| |]; cbn; f_equal; try done.
  f_equal. f_equal. clear. induction h as [|b h IH]; [done|]. cbn. by f_equal.
Qed.

Lemma Encode_roundtrip peaks :
  Forall (λ p, ∀ h, p = Some h → length h = 32%nat ∧ bytes_ok h) peaks → len peaks < 2 ^ 64 →
  ∃ bs, Encode peaks = Ok bs ∧ ∀ rest, unmarshal peaks_type (bs ++ rest) = Ok (peaks_value peaks, rest).
Proof.
  intros Hp Hl. assert (encodable peaks_type) as He by (split; [done|by intros []]).
  destruct (marshal_roundtrip _ He _ (peaks_value_typed _ Hp Hl)) as (bs & Hbs & Hd).
  exists bs. unfold Encode, Marshal. rewrite Hbs. split; [done|]. by rewrite peaks_value_canon in Hd.
Qed.
