(* ===== verification/Trie.v ===== *)
(** * The state trie

    [internal/merkle/trie]: the 64-byte nodes of the binary Patricia trie
    ([node.go], [leaf.go], [branch.go]), the recursive root computation
    ([merkle.go]) and the database around it ([db.go]).  The hash function and
    the key-value store come from libraries and are parameters. *)
From S2P Require Export Mmr.

(** ** Nodes ([node.go]) *)

Definition NodeSize : Z := 64.
Definition LeafNodeFlag : Z := 128.
Definition NotEmbeddedLeafFlag : Z := 64.
Definition ValueSizeMask : Z := 63.
Definition EmbeddedValueMaxSize : Z := 32.
Definition StateKeySize : Z := 32.

(** [Node] is [[64]byte] and [StateKey] is [[32]byte]. *)
Definition Node : Type := list Z.
Definition StateKey : Type := list Z.

Inductive trie_error : Type :=
| ErrNotLeafNode
| ErrNotBranchNode
| ErrNotEmbeddedLeaf
| ErrEmbeddedLeafInsteadOfRegular
| ErrStore (msg : string).

(** [a[i]] on an array, where the constant index is in range. *)
Definition at_ (a : list Z) (i : nat) : Z := a !!! i.
(** [copy(a[lo:hi], src)] on an array. *)
Definition copy_into (a : list Z) (lo hi : nat) (src : list Z) : list Z :=
  take lo a ++ go_copy (take (hi - lo) (drop lo a)) src ++ drop hi a.
Definition array (n : nat) : list Z := replicate n 0.

Definition IsLeaf (n : Node) : bool := negb (Z.land (at_ n 0) LeafNodeFlag =? 0).
Definition IsBranch (n : Node) : bool := Z.land (at_ n 0) LeafNodeFlag =? 0.
Definition IsEmbeddedLeaf (n : Node) : bool :=
  IsLeaf n && (Z.land (at_ n 0) NotEmbeddedLeafFlag =? 0).

Definition GetEmbeddedValueSize (n : Node) : res trie_error Z :=
  if negb (IsEmbeddedLeaf n) then Err ErrNotEmbeddedLeaf
  else Ok (Z.land (at_ n 0) ValueSizeMask).

Definition GetBranchHashes (n : Node) : res trie_error (Hash * Hash) :=
  if negb (IsBranch n) then Err ErrNotBranchNode
  else
    let left := copy_into (array 32) 0 32 (take 31 (drop 1 n)) in
    let right := copy_into (array 32) 0 32 (drop 32 n) in
    Ok (left, right).

Definition GetLeafKey (n : Node) : res trie_error StateKey :=
  if negb (IsLeaf n) then Err ErrNotLeafNode
  else Ok (copy_into (array 32) 0 32 (take 31 (drop 1 n))).

Definition GetLeafValue (n : Node) : res trie_error (list Z) :=
  let! size := GetEmbeddedValueSize n in
  let! value := go_make 1 size 0 in
  let! src := go_slice n 32 (32 + size) in
  Ok (go_copy value src).

Definition GetLeafValueHash (n : Node) : res trie_error Hash :=
  if negb (IsLeaf n) then Err ErrNotLeafNode
  else if IsEmbeddedLeaf n then Err ErrEmbeddedLeafInsteadOfRegular
  else Ok (copy_into (array 32) 0 32 (drop 32 n)).

(** ** Encoding ([branch.go], [leaf.go]) *)

Definition EncodeBranchNode (left right : Hash) : Node :=
  let node := <[0%nat := Z.land (at_ left 0) 127]> (array 64) in
  let node := copy_into node 1 32 (drop 1 left) in
  copy_into node 32 64 right.

Section hash.
Context (HashData : list Z → Hash).

Definition EncodeLeafNode (key : StateKey) (value : list Z) : Node :=
  if len value <=? EmbeddedValueMaxSize then
    let node := <[0%nat := Z.lor LeafNodeFlag (uint8 (len value))]> (array 64) in
    let node := copy_into node 1 32 (take 31 key) in
    copy_into node 32 64 value
  else
    let node := <[0%nat := Z.lor LeafNodeFlag NotEmbeddedLeafFlag]> (array 64) in
    let node := copy_into node 1 32 (take 31 key) in
    let hash := HashData value in
    copy_into node 32 64 hash.

(** ** The root ([merkle.go]) *)

Definition bit (k : list Z) (i : Z) : res trie_error bool :=
  let! b := go_index k (i / 8) in
  Ok (negb (Z.land b (go_shl 8 1 (7 - i `mod` 8)) =? 0)).

(** The loop that splits the entries: left, then right, in order. *)
Fixpoint split_kvs (kvs : list (list Z * list Z)) (i : Z)
  : res trie_error (list (list Z * list Z) * list (list Z * list Z)) :=
  match kvs with
  | [] => Ok ([], [])
  | kv :: kvs =>
      let! b := bit kv.1 i in
      let! (leftKVs, rightKVs) := split_kvs kvs i in
      Ok (if b : bool then (leftKVs, kv :: rightKVs) else (kv :: leftKVs, rightKVs))
  end.

Context {St : Type} (storeNode : Hash → Node → St → res trie_error St).

(** [Merklize]; [storeNode] threads what it writes to, and the absent callback
    is [λ _ _ s, Ok s].  [None] is a call too many. *)
Fixpoint Merklize (calls : nat) (keyValues : list (list Z * list Z)) (i : Z) (s : St)
  : option (res trie_error (Hash * St)) :=
  match calls with
  | O => None
  | S calls =>
      match keyValues with
      | [] => Some (Ok (array 32, s))
      | [(key, value)] =>
          let stateKey := copy_into (array 32) 0 32 key in
          let leafNode := EncodeLeafNode stateKey value in
          let hash := HashData leafNode in
          Some (let! s := storeNode hash leafNode s in Ok (hash, s))
      | _ =>
          match split_kvs keyValues i with
          | Ok (leftKVs, rightKVs) =>
              match Merklize calls leftKVs (i + 1) s with
              | Some (Ok (leftHash, s)) =>
                  match Merklize calls rightKVs (i + 1) s with
                  | Some (Ok (rightHash, s)) =>
                      let branchNode := EncodeBranchNode leftHash rightHash in
                      let hash := HashData branchNode in
                      Some (let! s := storeNode hash branchNode s in Ok (hash, s))
                  | r => r
                  end
              | r => r
              end
          | Err e => Some (Err e)
          | RuntimePanic => Some RuntimePanic
          end
      end
  end.
End hash.

(** ** The database ([db.go])

    [pkg/db] is an interface over a key-value library: batches collect writes
    and are committed at once. *)
Record KVStore : Type := MkKVStore {
  Store : Type;
  Batch : Type;
  NewBatch : Store → Batch;
  Put : Batch → list Z → list Z → res trie_error Batch;
  Commit : Store → Batch → res trie_error Store;
  BatchClose : Store → option trie_error;  (* for a batch of that store *)
  StoreGet : Store → list Z → res trie_error (list Z);
}.

Section db.
Context (kv : KVStore) (HashData : list Z → Hash).

(** The lock only orders concurrent calls. *)
Record DB : Type := MkDB { store : Store kv; db_root : Hash }.

(** The deferred [batch.Close], whose error is a panic. *)
Definition close_batch {A} (s : DB) (r : res trie_error A) : res trie_error A :=
  match BatchClose kv (store s) with
  | None => r
  | Some _ => RuntimePanic
  end.

(** The callback of [MerklizeAndCommit]. *)
Definition putNode (hash : Hash) (node : Node) (batch : Batch kv) : res trie_error (Batch kv) :=
  Put kv batch hash node.

(** The result and the database afterwards; [None] is a recursion too deep. *)
Definition MerklizeAndCommit (calls : nat) (s : DB) (pairs : list (list Z * list Z))
  : option (res trie_error Hash * DB) :=
  let batch := NewBatch kv (store s) in
  match Merklize HashData putNode calls pairs 0 batch with
  | None => None
  | Some (Err e) => Some (close_batch s (Err e), s)
  | Some RuntimePanic => Some (RuntimePanic, s)
  | Some (Ok (root, batch)) =>
      match Commit kv (store s) batch with
      | Ok store' => Some (close_batch s (Ok root), MkDB store' root)
      | Err e => Some (close_batch s (Err e), s)
      | RuntimePanic => Some (RuntimePanic, s)
      end
  end.

(** [Node(data)] needs at least 64 bytes. *)
Definition Get (s : DB) (hash : Hash) : res trie_error Node :=
  let! data := StoreGet kv (store s) hash in
  if len data <? NodeSize then RuntimePanic else Ok (take 64 data).

Definition Root (s : DB) : Hash := db_root s.
End db.
Arguments MkDB {kv} _ _.
Arguments store {kv} _.
Arguments db_root {kv} _.
