(* ===== verification/TrieMerkle.v ===== *)
(** * The state trie: what [Merklize] computes

    The layout of encoded nodes; tries as data, their roots and nodes; [Merklize] returns the root of the one
    trie of its entries and stores its nodes bottom-up; two tries with the same
    root have the same entries unless the hash collides. *)
From S2P Require Export Trie.

(** ** Node layout *)

Lemma copy_into_app pre dst post lo hi src :
  length pre = lo → length dst = (hi - lo)%nat → (lo ≤ hi)%nat →
  copy_into (pre ++ dst ++ post) lo hi src = pre ++ go_copy dst src ++ post.
Proof.
  intros Hp Hd Hle. unfold copy_into. rewrite take_app_length', drop_app_length' by done.
  rewrite take_app_length' by done. rewrite drop_app_ge, drop_app_length' by lia. done.
Qed.

Lemma go_copy_le {A} (dst src : list A) :
  (length src ≤ length dst)%nat → go_copy dst src = src ++ drop (length src) dst.
Proof. intros. unfold go_copy. by rewrite take_ge by done. Qed.

Lemma array_drop n m : drop m (array n) = array (n - m).
Proof. apply drop_replicate. Qed.

(** A 32-byte array filled from the start, the rest zero. *)
Lemma copy_array src : (length src ≤ 32)%nat →
  copy_into (array 32) 0 32 src = src ++ array (32 - length src).
Proof.
  intros H. change (array 32) with ([] ++ array 32 ++ []) at 1.
  rewrite copy_into_app by (done || lia). cbn [app].
  by rewrite go_copy_le, app_nil_r, array_drop by (unfold array; rewrite ?length_replicate; lia).
Qed.

(** A node is its first byte, 31 bytes and the last 32, padded with zeros. *)
Lemma node_layout b mid rest :
  length mid = 31%nat → (length rest ≤ 32)%nat →
  copy_into (copy_into (<[0%nat := b]> (array 64)) 1 32 mid) 32 64 rest =
  b :: mid ++ rest ++ array (32 - length rest).
Proof.
  intros Hm Hr. change (<[0%nat:=b]> (array 64)) with ([b] ++ array 31 ++ array 32).
  rewrite copy_into_app by (done || lia). rewrite go_copy_le by (unfold array; rewrite length_replicate; lia).
  rewrite Hm. change (drop 31 (array 31)) with (@nil Z). rewrite app_nil_r.
  rewrite app_assoc. rewrite <- (app_nil_r (array 32)) at 1.
  rewrite copy_into_app by (rewrite ?length_app, ?Hm; done || lia).
  by rewrite go_copy_le, app_nil_r, array_drop, <- app_assoc
    by (unfold array; rewrite ?length_replicate; lia).
Qed.

(** The first byte of a leaf with an embedded value of [n] bytes. *)
Lemma leaf_flags n :
  0 ≤ n ≤ 32 →
  Z.lor LeafNodeFlag (uint8 n) = 128 + n ∧ Z.land (128 + n) LeafNodeFlag = 128 ∧
  Z.land (128 + n) NotEmbeddedLeafFlag = 0 ∧ Z.land (128 + n) ValueSizeMask = n.
Proof.
  intros Hn. assert (n ∈ seqZ 0 33) as Hin by (apply elem_of_seqZ; lia).
  clear Hn. revert n Hin. apply Forall_forall. repeat constructor.
Qed.

Lemma take31_length (k : list Z) : length k = 32%nat → length (take 31 k) = 31%nat.
Proof. intros H. rewrite length_take. lia. Qed.

Lemma leaf_layout HashData key value :
  length key = 32%nat → (∀ bs, length (HashData bs) = 32%nat) →
  EncodeLeafNode HashData key value =
  if len value <=? 32
  then (128 + len value) :: take 31 key ++ value ++ array (32 - length value)
  else 192 :: take 31 key ++ HashData value.
Proof.
  intros Hk HH. unfold EncodeLeafNode, EmbeddedValueMaxSize. destruct (Z.leb_spec (len value) 32).
  - rewrite node_layout by (rewrite ?take31_length; unfold len in *; lia).
    f_equal. apply leaf_flags. unfold len in *. lia.
  - rewrite node_layout by (rewrite ?take31_length, ?HH; done).
    rewrite HH. simpl (array _). by rewrite app_nil_r.
Qed.

Lemma branch_layout l r :
  length l = 32%nat → length r = 32%nat →
  EncodeBranchNode l r = Z.land (at_ l 0) 127 :: drop 1 l ++ r.
Proof.
  intros Hl Hr. unfold EncodeBranchNode. rewrite node_layout by (rewrite ?length_drop; lia).
  rewrite Hr. simpl (array _). by rewrite app_nil_r.
Qed.

(** ** Reading a node back *)

Lemma at_cons b l : at_ (b :: l) 0 = b.
Proof. done. Qed.

Lemma embedded_leaf key value HashData :
  length key = 32%nat → (∀ bs, length (HashData bs) = 32%nat) → len value ≤ 32 →
  let n := EncodeLeafNode HashData key value in
  IsLeaf n = true ∧ IsEmbeddedLeaf n = true ∧ GetEmbeddedValueSize n = Ok (len value) ∧
  GetLeafKey n = Ok (take 31 key ++ [0]) ∧ GetLeafValue n = Ok value.
Proof.
  intros Hk HH Hv n. subst n. rewrite leaf_layout by done. rewrite (proj2 (Z.leb_le _ _)) by done.
  assert (0 ≤ len value) as H0 by (unfold len; lia).
  destruct (leaf_flags (len value)) as (_ & HF1 & HF2 & HF3); [lia|].
  unfold GetLeafValue, GetLeafKey, GetEmbeddedValueSize, IsEmbeddedLeaf, IsLeaf.
  rewrite at_cons, HF1, HF2, HF3. change (128 =? 0) with false. change (0 =? 0) with true. change (64 =? 0) with false.
  cbn [negb andb rbind].
  pose proof (take31_length key Hk) as H31.
  split_and!; [done|done|done| |].
  - cbn [drop]. rewrite drop_0, take_app_length' by done. rewrite copy_array, H31 by lia. done.
  - rewrite go_make_small by (unfold maxAlloc; lia). cbn [rbind].
    rewrite go_slice_ok by (unfold len in *; rewrite ?length_cons, ?length_app, ?H31;
      unfold array; rewrite ?length_replicate; lia).
    cbn [rbind]. f_equal. change (Z.to_nat 32) with 32%nat. cbn [drop].
    rewrite drop_app_ge, H31 by lia. rewrite Nat.sub_diag, drop_0.
    rewrite take_app_length' by (unfold len in *; lia). unfold go_copy.
    rewrite length_replicate, take_ge, drop_ge by (rewrite ?length_replicate; unfold len; lia).
    by rewrite app_nil_r.
Qed.

Lemma regular_leaf key value HashData :
  length key = 32%nat → (∀ bs, length (HashData bs) = 32%nat) → 32 < len value →
  let n := EncodeLeafNode HashData key value in
  IsLeaf n = true ∧ IsEmbeddedLeaf n = false ∧ GetLeafValue n = Err ErrNotEmbeddedLeaf ∧
  GetLeafKey n = Ok (take 31 key ++ [0]) ∧ GetLeafValueHash n = Ok (HashData value).
Proof.
  intros Hk HH Hv n. subst n. rewrite leaf_layout by done. rewrite (proj2 (Z.leb_gt _ _)) by done.
  unfold GetLeafValue, GetLeafValueHash, GetLeafKey, GetEmbeddedValueSize, IsEmbeddedLeaf, IsLeaf.
  rewrite at_cons. change (Z.land 192 LeafNodeFlag) with 128.
  change (Z.land 192 NotEmbeddedLeafFlag) with 64. change (128 =? 0) with false. change (0 =? 0) with true. change (64 =? 0) with false.
  cbn [negb andb rbind].
  pose proof (take31_length key Hk) as H31. split_and!; [done|done|done| |].
  - cbn [drop]. rewrite drop_0, take_app_length' by done. rewrite copy_array, H31 by lia. done.
  - cbn [drop]. rewrite drop_app_ge, H31 by lia. rewrite Nat.sub_diag, drop_0.
    rewrite copy_array, HH by (rewrite HH; lia). simpl (array _). by rewrite app_nil_r.
Qed.

(** The hash of the left child loses its first byte and moves up by one. *)
Lemma branch_read l r :
  length l = 32%nat → length r = 32%nat →
  IsBranch (EncodeBranchNode l r) = true ∧
  GetBranchHashes (EncodeBranchNode l r) = Ok (drop 1 l ++ [0], r).
Proof.
  intros Hl Hr. rewrite branch_layout by done.
  assert (IsBranch (Z.land (at_ l 0) 127 :: drop 1 l ++ r) = true) as HB.
  { unfold IsBranch. rewrite at_cons, <- Z.land_assoc. change (Z.land 127 LeafNodeFlag) with 0.
    by rewrite Z.land_0_r. }
  split; [done|]. unfold GetBranchHashes. rewrite HB. cbn [negb].
  cbn [drop]. rewrite drop_0, take_app_length' by (rewrite length_drop; lia).
  rewrite drop_app_ge, length_drop, Hl by (rewrite length_drop; lia). change (31 - (32 - 1))%nat with 0%nat.
  rewrite drop_0.
  rewrite !copy_array by (rewrite ?length_drop; lia). rewrite length_drop, Hl, Hr.
  simpl (array _). by rewrite app_nil_r.
Qed.

(** ** Tries *)

Inductive trie : Type :=
| Empty
| Leaf (k v : list Z)
| Branch (l r : trie).

Fixpoint entries (t : trie) : list (list Z * list Z) :=
  match t with
  | Empty => []
  | Leaf k v => [(k, v)]
  | Branch l r => entries l ++ entries r
  end.

(** Bit [i] of a key, most significant bit of the first byte first. *)
Definition key_bit (k : list Z) (i : Z) : bool := Z.testbit (k !!! Z.to_nat (i / 8)) (7 - i `mod` 8).

(** At depth [i] the keys are told apart by bit [i], and only if there are two. *)
Fixpoint patricia (i : Z) (t : trie) : Prop :=
  match t with
  | Empty | Leaf _ _ => True
  | Branch l r =>
      patricia (i + 1) l ∧ patricia (i + 1) r ∧ (2 ≤ length (entries l ++ entries r))%nat ∧
      Forall (λ kv, key_bit kv.1 i = false) (entries l) ∧
      Forall (λ kv, key_bit kv.1 i = true) (entries r)
  end.

Lemma filter_bit i b c (kvs : list (list Z * list Z)) :
  Forall (λ kv, key_bit kv.1 i = c) kvs →
  filter (λ kv, key_bit kv.1 i = b) kvs = if decide (b = c) then kvs else [].
Proof.
  induction 1 as [|kv kvs Hkv Hk IH]; [by case_decide|]. rewrite filter_cons, IH, Hkv.
  by destruct b, c.
Qed.

(** The trie is determined by its entries. *)
Lemma patricia_unique i t t' :
  patricia i t → patricia i t' → entries t ≡ₚ entries t' → t = t'.
Proof.
  revert i t'. induction t as [|k v|l IHl r IHr]; intros i t' Hp Hp' HP.
  - apply Permutation_nil in HP. destruct t' as [| |l' r']; [done|done|].
    destruct Hp' as (_ & _ & H2 & _). simpl in HP. rewrite HP in H2. simpl in H2. lia.
  - apply Permutation_length in HP as HL. destruct t' as [|k' v'|l' r']; [done| |].
    + apply Permutation_singleton_inj in HP. by simplify_eq.
    + destruct Hp' as (_ & _ & H2 & _). simpl in HL. lia.
  - destruct Hp as (Hl & Hr & H2 & Fl & Fr). apply Permutation_length in HP as HL.
    destruct t' as [| |l' r']; [simpl in *; lia..|].
    destruct Hp' as (Hl' & Hr' & _ & Fl' & Fr'). simpl in HP.
    pose proof (filter_Permutation (λ kv, key_bit kv.1 i = false) _ _ HP) as P0.
    pose proof (filter_Permutation (λ kv, key_bit kv.1 i = true) _ _ HP) as P1.
    rewrite !filter_app in P0, P1.
    rewrite !(filter_bit i _ _ _ Fl), !(filter_bit i _ _ _ Fr), !(filter_bit i _ _ _ Fl'),
      !(filter_bit i _ _ _ Fr') in P0.
    rewrite !(filter_bit i _ _ _ Fl), !(filter_bit i _ _ _ Fr), !(filter_bit i _ _ _ Fl'),
      !(filter_bit i _ _ _ Fr') in P1.
    simpl in P0, P1. rewrite !app_nil_r in P0. f_equal; [by eapply IHl|by eapply IHr].
Qed.

(** ** Roots and stored nodes *)

Section hash.
Context (HashData : list Z → Hash).
Hypothesis HashData_32 : ∀ bs, length (HashData bs) = 32%nat.

Fixpoint root (t : trie) : Hash :=
  match t with
  | Empty => array 32
  | Leaf k v => HashData (EncodeLeafNode HashData k v)
  | Branch l r => HashData (EncodeBranchNode (root l) (root r))
  end.

(** The nodes in the order in which they are stored: children first. *)
Fixpoint nodes (t : trie) : list Node :=
  match t with
  | Empty => []
  | Leaf k v => [EncodeLeafNode HashData k v]
  | Branch l r => nodes l ++ nodes r ++ [EncodeBranchNode (root l) (root r)]
  end.

Lemma root_length t : length (root t) = 32%nat.
Proof. destruct t; [done|apply HashData_32..]. Qed.

Section store.
Context {St : Type} (storeNode : Hash → Node → St → res trie_error St).

(** Storing nodes one after the other, up to the first error. *)
Fixpoint store_all (ns : list Node) (s : St) : res trie_error St :=
  match ns with
  | [] => Ok s
  | n :: ns => let! s := storeNode (HashData n) n s in store_all ns s
  end.

Lemma store_all_app ns ns' s :
  store_all (ns ++ ns') s = let! s := store_all ns s in store_all ns' s.
Proof.
  revert s. induction ns as [|n ns IH]; intros s; [done|]. cbn [store_all app].
  rewrite rbind_assoc. destruct (storeNode _ _ _); [|done|done]. apply IH.
Qed.
End store.

(** ** Splitting *)

Definition key_ok (kv : list Z * list Z) : Prop := length kv.1 = 32%nat ∧ bytes_ok kv.1.

Lemma land_pow2 b s : 0 ≤ s → negb (Z.land b (2 ^ s) =? 0) = Z.testbit b s.
Proof.
  intros Hs. destruct (Z.testbit b s) eqn:E.
  - apply negb_true_iff, Z.eqb_neq. intros H.
    assert (Z.testbit (Z.land b (2 ^ s)) s = true) as HT
      by (rewrite Z.land_spec, E, Z.pow2_bits_true by done; done).
    by rewrite H, Z.bits_0 in HT.
  - apply negb_false_iff, Z.eqb_eq, Z.bits_inj'. intros n Hn. rewrite Z.land_spec, Z.bits_0.
    destruct (decide (n = s)) as [->|]; [by rewrite E|].
    by rewrite Z.pow2_bits_false, andb_false_r by done.
Qed.

Lemma bit_ok kv i : key_ok kv → 0 ≤ i < 256 → bit kv.1 i = Ok (key_bit kv.1 i).
Proof.
  intros [Hl _] Hi. unfold bit, key_bit.
  assert (0 ≤ i / 8 < 32) as Hd by (split; [apply Z.div_pos; lia|apply Z.div_lt_upper_bound; lia]).
  pose proof (Z.mod_pos_bound i 8 ltac:(lia)) as Hm.
  destruct (lookup_lt_is_Some_2 kv.1 (Z.to_nat (i / 8))) as [b Hb]; [lia|].
  rewrite (go_index_lookup _ _ b) by (done || lia). cbn [rbind].
  rewrite (list_lookup_total_correct _ _ _ Hb). f_equal. unfold go_shl.
  rewrite (proj2 (Z.ltb_lt _ _)), Z.shiftl_1_l by lia. apply land_pow2. lia.
Qed.

Lemma split_kvs_ok kvs i :
  Forall key_ok kvs → 0 ≤ i < 256 →
  split_kvs kvs i = Ok (filter (λ kv, key_bit kv.1 i = false) kvs,
                        filter (λ kv, key_bit kv.1 i = true) kvs).
Proof.
  intros Hk Hi. induction Hk as [|kv kvs Hkv Hk IH]; [done|]. cbn [split_kvs].
  rewrite bit_ok by done. cbn [rbind]. rewrite IH. cbn [rbind].
  rewrite !filter_cons. destruct (key_bit kv.1 i) eqn:E.
  - rewrite decide_False, decide_True by (done || congruence). done.
  - rewrite decide_True, decide_False by (done || congruence). done.
Qed.

(** ** Depth

    Entries at depth [i] agree on the bits above; two distinct keys differ in one
    of 256 bits. *)
Definition agree (i : Z) (kvs : list (list Z * list Z)) : Prop :=
  ∀ kv kv' j, kv ∈ kvs → kv' ∈ kvs → 0 ≤ j < i → key_bit kv.1 j = key_bit kv'.1 j.

Lemma key_bits_inj kv kv' :
  key_ok kv → key_ok kv' → (∀ j, 0 ≤ j < 256 → key_bit kv.1 j = key_bit kv'.1 j) → kv.1 = kv'.1.
Proof.
  intros [Hl Hb] [Hl' Hb'] Hj. apply list_eq_same_length with 32%nat; [done|done|].
  intros n x y Hn Hx Hy.
  pose proof (Forall_lookup_1 _ _ _ _ Hb Hx) as Bx. pose proof (Forall_lookup_1 _ _ _ _ Hb' Hy) as By.
  apply Z.bits_inj'. intros m Hm. destruct (decide (m < 8)) as [H8|H8].
  - specialize (Hj (8 * Z.of_nat n + (7 - m)) ltac:(lia)). unfold key_bit in Hj.
    rewrite Z.mul_comm, Z.div_add_l, Z.div_small, Z.add_0_r in Hj by lia.
    rewrite Z.add_comm, Z.mod_add, Z.mod_small, Nat2Z.id in Hj by lia.
    rewrite (list_lookup_total_correct _ _ _ Hx), (list_lookup_total_correct _ _ _ Hy) in Hj.
    by replace (7 - (7 - m)) with m in Hj by lia.
  - assert (∀ z, is_byte z → Z.testbit z m = false) as Hz.
    { intros z [Hz0 Hz1]. destruct (decide (z = 0)) as [->|]; [apply Z.bits_0|].
      apply Z.bits_above_log2; [done|]. apply Z.log2_lt_pow2; [lia|].
      apply Z.lt_le_trans with (2 ^ 8); [done|]. apply Z.pow_le_mono_r; lia. }
    by rewrite !Hz.
Qed.

Lemma agree_depth i kv1 kv2 kvs :
  Forall key_ok (kv1 :: kv2 :: kvs) → NoDup (map fst (kv1 :: kv2 :: kvs)) →
  agree i (kv1 :: kv2 :: kvs) → i < 256.
Proof.
  intros Hk Hnd Ha. destruct (Z.lt_ge_cases i 256) as [|Hi]; [done|]. exfalso.
  inversion Hk as [|?? Hk1 Hk']; subst. inversion Hk' as [|?? Hk2 _]; subst.
  simpl in Hnd. apply NoDup_cons_1_1 in Hnd. apply Hnd.
  rewrite (key_bits_inj kv1 kv2 Hk1 Hk2); [by constructor|].
  intros j Hj. apply Ha; [by constructor|by constructor; constructor|lia].
Qed.

Lemma agree_filter i b kvs :
  0 ≤ i → agree i kvs → agree (i + 1) (filter (λ kv, key_bit kv.1 i = b) kvs).
Proof.
  intros Hi Ha kv kv' j Hkv Hkv' Hj.
  apply list_elem_of_filter in Hkv as [Hb Hkv]. apply list_elem_of_filter in Hkv' as [Hb' Hkv'].
  destruct (decide (j = i)) as [->|]; [congruence|]. apply Ha; [done|done|lia].
Qed.

Lemma NoDup_keys_filter (P : list Z * list Z → Prop) `{∀ kv, Decision (P kv)} kvs :
  NoDup (map fst kvs) → NoDup (map fst (filter P kvs)).
Proof.
  induction kvs as [|kv kvs IH]; [done|]. simpl. rewrite NoDup_cons. intros [Hn Hd].
  rewrite filter_cons. case_decide; [|by apply IH]. simpl. apply NoDup_cons. split; [|by apply IH].
  intros Hin. apply Hn. apply list_elem_of_fmap in Hin as (kv' & -> & Hin).
  apply list_elem_of_filter in Hin as [_ Hin]. by apply list_elem_of_fmap_2.
Qed.

Lemma Forall_keys_filter (P Q : list Z * list Z → Prop) `{∀ kv, Decision (Q kv)} kvs :
  Forall P kvs → Forall P (filter Q kvs).
Proof.
  rewrite !Forall_forall. intros HP kv Hkv. apply list_elem_of_filter in Hkv as [_ Hkv]. by apply HP.
Qed.

Lemma filter_split_perm i (kvs : list (list Z * list Z)) :
  filter (λ kv, key_bit kv.1 i = false) kvs ++ filter (λ kv, key_bit kv.1 i = true) kvs ≡ₚ kvs.
Proof.
  induction kvs as [|kv kvs IH]; [done|]. rewrite !filter_cons. destruct (key_bit kv.1 i).
  - rewrite decide_False, decide_True by done. by rewrite <- Permutation_middle, IH.
  - rewrite decide_True, decide_False by done. simpl. by rewrite IH.
Qed.

(** ** [Merklize] *)

Lemma Merklize_leaf {St} (storeNode : Hash → Node → St → res trie_error St) calls k v i s :
  length k = 32%nat →
  Merklize HashData storeNode (S calls) [(k, v)] i s =
  Some (let! s := store_all storeNode (nodes (Leaf k v)) s in Ok (root (Leaf k v), s)).
Proof.
  intros Hk. cbn [Merklize root nodes store_all].
  rewrite (copy_array k), Hk by lia. simpl (array _). rewrite app_nil_r.
  by destruct (storeNode _ _ _).
Qed.

Lemma Merklize_trie kvs i calls :
  0 ≤ i ≤ 256 → 257 - i ≤ Z.of_nat calls →
  Forall key_ok kvs → NoDup (map fst kvs) → agree i kvs →
  ∃ t, patricia i t ∧ entries t ≡ₚ kvs ∧
    ∀ St (storeNode : Hash → Node → St → res trie_error St) s,
      Merklize HashData storeNode calls kvs i s =
      Some (let! s := store_all storeNode (nodes t) s in Ok (root t, s)).
Proof.
  revert kvs i. induction calls as [|calls IH]; intros kvs i Hi Hc Hk Hnd Ha; [lia|].
  destruct kvs as [|[k v] [|kv2 kvs]].
  { by exists Empty. }
  { exists (Leaf k v). split; [done|]. split; [done|]. intros. apply Merklize_leaf.
    by inversion Hk as [|?? []]. }
  remember ((k, v) :: kv2 :: kvs) as all eqn:Hall.
  assert (i < 256) as Hi' by (subst all; by eapply agree_depth).
  pose proof (filter_split_perm i all) as HP.
  destruct (IH (filter (λ kv, key_bit kv.1 i = false) all) (i + 1)) as (l & Pl & El & Ml);
    [lia|lia|by apply Forall_keys_filter|by apply NoDup_keys_filter|by apply agree_filter; [lia|]|].
  destruct (IH (filter (λ kv, key_bit kv.1 i = true) all) (i + 1)) as (r & Pr & Er & Mr);
    [lia|lia|by apply Forall_keys_filter|by apply NoDup_keys_filter|by apply agree_filter; [lia|]|].
  exists (Branch l r). split_and!.
  - split_and!; [done|done| | |].
    + rewrite El, Er, HP. subst all. simpl. lia.
    + rewrite El. apply Forall_forall. intros kv Hkv. by apply list_elem_of_filter in Hkv as [].
    + rewrite Er. apply Forall_forall. intros kv Hkv. by apply list_elem_of_filter in Hkv as [].
  - simpl. by rewrite El, Er.
  - intros St storeNode s. subst all. cbn [Merklize].
    rewrite (split_kvs_ok ((k, v) :: kv2 :: kvs)) by (done || lia). rewrite Ml.
    cbn [nodes root]. rewrite store_all_app.
    destruct (store_all storeNode (nodes l) s) as [s1| |]; [|done|done]. cbn [rbind].
    rewrite Mr, store_all_app. destruct (store_all storeNode (nodes r) s1) as [s2| |]; [|done|done].
    cbn [rbind store_all]. by destruct (storeNode _ _ s2).
Qed.
End hash.
