(* ===== verification/TrieDb.v ===== *)
(** * The state trie: binding roots, and the database

    A root commits to the entries of its trie, up to collisions of the hash; the
    database gives the nodes of the committed trie back, for every key-value
    store that keeps the promise of [StoreLaws]. *)
From S2P Require Export TrieMerkle.

(** ** Binding *)

Section binding.
Context (HashData : list Z → Hash).
Hypothesis HashData_32 : ∀ bs, length (HashData bs) = 32%nat.

(** What is hashed to compute the root of a trie. *)
Fixpoint hashed (t : trie) : list (list Z) :=
  match t with
  | Empty => []
  | Leaf k v => [EncodeLeafNode HashData k v; v]
  | Branch l r => hashed l ++ hashed r ++ [EncodeBranchNode (root HashData l) (root HashData r)]
  end.

(** A branch keeps 255 bits of its left child. *)
Definition mask (h : Hash) : Hash := Z.land (at_ h 0) 127 :: drop 1 h.

(** Two different inputs of the two computations whose hashes agree on those
    bits, or one whose hash is the root of the empty trie there. *)
Definition collision (t t' : trie) : Prop :=
  (∃ x y, x ∈ hashed t ∧ y ∈ hashed t' ∧ x ≠ y ∧ mask (HashData x) = mask (HashData y)) ∨
  (∃ x, (x ∈ hashed t ∨ x ∈ hashed t') ∧ mask (HashData x) = array 32).

Definition leaves_ok (t : trie) : Prop := Forall key_ok (entries t).

(** What a leaf keeps of an entry: 31 bytes of the key, and the value. *)
Definition kept_entry (kv : list Z * list Z) : list Z * list Z := (take 31 kv.1, kv.2).

Lemma collision_branch l r l' r' :
  collision l l' ∨ collision r r' → collision (Branch l r) (Branch l' r').
Proof.
  intros [[(x & y & Hx & Hy & H)|(x & Hx & H)]|[(x & y & Hx & Hy & H)|(x & Hx & H)]].
  1,3: left; exists x, y; simpl; rewrite !elem_of_app; tauto.
  all: right; exists x; simpl; rewrite !elem_of_app; tauto.
Qed.

(** The last input hashed: the root's. *)
Lemma root_hashed t : t ≠ Empty → ∃ x, x ∈ hashed t ∧ root HashData t = HashData x.
Proof.
  destruct t as [|k v|l r]; [done| |]; intros _.
  - exists (EncodeLeafNode HashData k v). split; [by constructor|done].
  - eexists. split; [|done]. simpl. rewrite !elem_of_app, list_elem_of_singleton. auto.
Qed.

Lemma leaf_node_inj k v k' v' :
  length k = 32%nat → length k' = 32%nat →
  EncodeLeafNode HashData k v = EncodeLeafNode HashData k' v' →
  take 31 k = take 31 k' ∧ (v = v' ∨ HashData v = HashData v').
Proof.
  intros Hk Hk' He. rewrite !leaf_layout in He by done.
  assert (0 ≤ len v ∧ 0 ≤ len v') as [? ?] by (unfold len; lia).
  destruct (Z.leb_spec (len v) 32), (Z.leb_spec (len v') 32);
    apply (f_equal (λ n, at_ n 0)) in He as Hb; apply (f_equal (drop 1)) in He;
    rewrite !at_cons in Hb; cbn [drop] in He; rewrite !drop_0 in He.
  2,3: lia.
  all: apply app_inj_1 in He as [-> He]; [|by rewrite !take31_length].
  - split; [done|]. left. apply app_inj_1 in He as [-> _]; [done|]. unfold len in *. lia.
  - auto.
Qed.

Lemma leaf_not_branch k v l r :
  length k = 32%nat → EncodeLeafNode HashData k v ≠ EncodeBranchNode (root HashData l) (root HashData r).
Proof.
  intros Hk He. destruct (branch_read _ _ (root_length HashData HashData_32 l)
    (root_length HashData HashData_32 r)) as [HB _].
  rewrite <- He in HB. unfold IsBranch in HB.
  rewrite leaf_layout in HB by done. destruct (Z.leb_spec (len v) 32).
  - destruct (leaf_flags (len v)) as (_ & HF & _); [unfold len in *; lia|].
    by rewrite at_cons, HF in HB.
  - done.
Qed.

Lemma branch_node_inj l r l' r' :
  EncodeBranchNode (root HashData l) (root HashData r) =
  EncodeBranchNode (root HashData l') (root HashData r') →
  mask (root HashData l) = mask (root HashData l') ∧ root HashData r = root HashData r'.
Proof.
  rewrite !branch_layout by (by apply root_length). unfold mask. intros [= H1 H2].
  apply app_inj_1 in H2 as [H2 H3]; [|by rewrite !length_drop, !root_length]. split; [congruence|done].
Qed.

Lemma same_node t t' x y :
  x ∈ hashed t → y ∈ hashed t' → mask (HashData x) = mask (HashData y) → x = y ∨ collision t t'.
Proof.
  intros Hx Hy Hm. destruct (decide (x = y)) as [->|Hne]; [by left|]. right. left. by exists x, y.
Qed.

Lemma root_binding t t' :
  leaves_ok t → leaves_ok t' → mask (root HashData t) = mask (root HashData t') →
  map kept_entry (entries t) ≡ₚ map kept_entry (entries t') ∨ collision t t'.
Proof.
  revert t'. induction t as [|k v|l IHl r IHr]; intros t' Ht Ht' Hm.
  - destruct (decide (entries t' = [])) as [E|]; [left; by rewrite E|].
    destruct (root_hashed t') as (x & Hx & Hr); [by intros ->|].
    right. right. exists x. rewrite <- Hr, <- Hm. auto.
  - apply Forall_singleton in Ht as [Hk _]. destruct t' as [|k' v'|l' r'].
    + right. right. exists (EncodeLeafNode HashData k v). split; [left; by constructor|exact Hm].
    + apply Forall_singleton in Ht' as [Hk' _]. simpl in Hk, Hk'.
      destruct (same_node (Leaf k v) (Leaf k' v') (EncodeLeafNode HashData k v)
        (EncodeLeafNode HashData k' v')) as [He|]; [by constructor|by constructor|done| |by right].
      destruct (leaf_node_inj _ _ _ _ Hk Hk' He) as [E31 [->|Hv]].
      { left. unfold kept_entry. simpl. by rewrite E31. }
      destruct (same_node (Leaf k v) (Leaf k' v') v v') as [->|];
        [by do 2 constructor|by do 2 constructor|by rewrite Hv| |by right].
      left. unfold kept_entry. simpl. by rewrite E31.
    + destruct (same_node (Leaf k v) (Branch l' r') (EncodeLeafNode HashData k v)
        (EncodeBranchNode (root HashData l') (root HashData r'))) as [He|]; [by constructor| |done| |by right].
      * simpl. rewrite !elem_of_app, list_elem_of_singleton. auto.
      * by apply leaf_not_branch in He.
  - apply Forall_app in Ht as [Htl Htr]. destruct t' as [|k' v'|l' r'].
    + destruct (root_hashed (Branch l r)) as (x & Hx & Hr); [done|].
      right. right. exists x. rewrite <- Hr. split; [auto|exact Hm].
    + apply Forall_singleton in Ht' as [Hk' _].
      destruct (same_node (Branch l r) (Leaf k' v') (EncodeBranchNode (root HashData l) (root HashData r))
        (EncodeLeafNode HashData k' v')) as [He|]; [|by constructor|done| |by right].
      * simpl. rewrite !elem_of_app, list_elem_of_singleton. auto.
      * symmetry in He. by apply leaf_not_branch in He.
    + apply Forall_app in Ht' as [Htl' Htr'].
      destruct (same_node (Branch l r) (Branch l' r') (EncodeBranchNode (root HashData l) (root HashData r))
        (EncodeBranchNode (root HashData l') (root HashData r'))) as [He|]; [| |done| |by right].
      1,2: simpl; rewrite !elem_of_app, list_elem_of_singleton; auto.
      apply branch_node_inj in He as [El Er].
      destruct (IHl l' Htl Htl' El) as [Pl|]; [|right; apply collision_branch; auto].
      destruct (IHr r' Htr Htr') as [Pr|]; [by rewrite Er| |right; apply collision_branch; auto].
      left. simpl. rewrite !map_app. by rewrite Pl, Pr.
Qed.
End binding.

(** ** The database *)

(** What a key-value store promises: a committed batch overwrites the keys it
    holds, and a batch holds what was put into it last. *)
Class StoreLaws (kv : KVStore) (held : Batch kv → list Z → option (list Z)) : Prop := {
  held_new s k : held (NewBatch kv s) k = None;
  held_put b k v b' k' :
    Put kv b k v = Ok b' → held b' k' = if decide (k' = k) then Some v else held b k';
  commit_get s b s' k :
    Commit kv s b = Ok s' →
    StoreGet kv s' k = match held b k with Some v => Ok v | None => StoreGet kv s k end;
}.

Section db.
Context (kv : KVStore) (held : Batch kv → list Z → option (list Z)) `{!StoreLaws kv held}.
Context (HashData : list Z → Hash).
Hypothesis HashData_32 : ∀ bs, length (HashData bs) = 32%nat.

Lemma nodes_length t n : leaves_ok t → n ∈ nodes HashData t → length n = 64%nat.
Proof.
  induction t as [|k v|l IHl r IHr]; simpl; intros Hk Hn.
  - by apply elem_of_nil in Hn.
  - apply list_elem_of_singleton in Hn as ->. apply Forall_singleton in Hk as [Hk _]. simpl in Hk.
    rewrite leaf_layout by done. destruct (Z.leb_spec (len v) 32) as [Hv|Hv]; unfold len in Hv;
      rewrite length_cons, !length_app, take31_length by done.
    + unfold array. rewrite length_replicate. lia.
    + by rewrite HashData_32.
  - apply Forall_app in Hk as [Hkl Hkr]. rewrite !elem_of_app in Hn.
    destruct Hn as [Hn|[Hn|Hn]]; [auto..|]. apply list_elem_of_singleton in Hn as ->.
    rewrite branch_layout by (by apply root_length).
    by rewrite length_cons, length_app, length_drop, !root_length.
Qed.

(** After storing nodes, the batch holds under the hash of each of them the last
    node with that hash. *)
Lemma held_store_all ns b b' :
  store_all HashData (putNode kv) ns b = Ok b' →
  (∀ n, n ∈ ns → ∃ n', n' ∈ ns ∧ HashData n' = HashData n ∧ held b' (HashData n) = Some n') ∧
  (∀ k, (∀ n, n ∈ ns → HashData n ≠ k) → held b' k = held b k).
Proof.
  revert b. induction ns as [|n0 ns IH]; intros b Hs; cbn [store_all] in Hs.
  { simplify_eq. split; [intros n Hn; by apply elem_of_nil in Hn|done]. }
  apply rbind_Ok_inv in Hs as (b1 & Hp & Hs). destruct (IH _ Hs) as [H1 H2]. split.
  - intros n Hn. destruct (decide (Exists (λ n', HashData n' = HashData n) ns)) as [Hex|Hex].
    + apply Exists_exists in Hex as (n1 & Hin & Heq). destruct (H1 n1 Hin) as (n' & Hn' & E & Hh).
      exists n'. split; [by constructor|]. rewrite <- Heq. done.
    + assert (n = n0) as ->.
      { apply elem_of_cons in Hn as [|Hn]; [done|]. destruct Hex. apply Exists_exists. by exists n. }
      exists n0. split; [by constructor|]. split; [done|]. rewrite H2.
      * unfold putNode in Hp. rewrite (held_put _ _ _ _ _ Hp). by rewrite decide_True.
      * intros n' Hn' E. destruct Hex. apply Exists_exists. by exists n'.
  - intros k Hk. rewrite H2 by (intros n Hn; apply Hk; by constructor).
    unfold putNode in Hp. rewrite (held_put _ _ _ _ _ Hp), decide_False; [done|].
    intros ->. by apply (Hk n0); constructor.
Qed.

(** The outcome of a commit, for the trie of the pairs. *)
Lemma MerklizeAndCommit_trie s pairs calls :
  (257 ≤ calls)%nat → Forall key_ok pairs → NoDup (map fst pairs) →
  ∃ t, patricia 0 t ∧ entries t ≡ₚ pairs ∧
    ∃ r s', MerklizeAndCommit kv HashData calls s pairs = Some (r, s') ∧
      match r with
      | Ok h => h = root HashData t ∧ Root kv s' = h ∧
          ∀ n, n ∈ nodes HashData t →
            (∀ n', n' ∈ nodes HashData t → HashData n' = HashData n → n' = n) →
            Get kv s' (HashData n) = Ok n
      | Err _ => s' = s
      | RuntimePanic => True
      end.
Proof.
  intros Hc Hk Hnd.
  destruct (Merklize_trie HashData pairs 0 calls) as (t & Hp & He & Hm);
    [lia|lia|done|done|intros ? ? ? _ _ ?; lia|].
  exists t. split; [done|]. split; [done|]. unfold MerklizeAndCommit. rewrite Hm.
  destruct (store_all _ _ _ _) as [b|e|] eqn:Hs; cbn [rbind].
  2:{ eexists _, _. split; [done|]. unfold close_batch. by destruct (BatchClose _ _). }
  2:{ by eexists _, _. }
  destruct (Commit kv (store s) b) as [st|e|] eqn:Hcm.
  2:{ eexists _, _. split; [done|]. unfold close_batch. by destruct (BatchClose _ _). }
  2:{ by eexists _, _. }
  eexists _, _. split; [done|]. unfold close_batch. destruct (BatchClose _ _); [done|].
  split; [done|]. split; [done|]. intros n Hn Hinj.
  destruct (held_store_all _ _ _ Hs) as [H1 _]. destruct (H1 n Hn) as (n' & Hn' & E & Hh).
  rewrite (Hinj n' Hn' E) in Hh. unfold Get. simpl store. rewrite (commit_get _ _ _ _ Hcm), Hh.
  cbn [rbind]. assert (length n = 64%nat) as H64.
  { apply (nodes_length t); [|done]. unfold leaves_ok. by rewrite He. }
  unfold len. rewrite H64. simpl. by rewrite take_ge by lia.
Qed.
End db.
