(* ===== verification/MerkleTheorems.v ===== *)
(** * Merkle structures: what is proved

    The properties of the mountain ranges of [internal/merkle/mountain_ranges]
    and of the state trie of [internal/merkle/trie].  Hash functions and the
    key-value store are parameters; what is assumed of a hash is its length. *)
From S2P Require Import TrieDb.

(** ** Mountain ranges *)

(** C32: A range is the binary counter of its leaves: appending any leaves one by
    one to the empty range succeeds; position [j] of the result is occupied
    exactly when bit [j] of the number of leaves is set, and then by the root of
    the perfect tree on its share of the leaves, in order; no other range stands
    for these leaves. *)
Theorem mmr_append (hashFunc : list Z → Hash) (ls : list Hash) :
  ∃ r, appends hashFunc [] ls = Some (Ok r) ∧ mountains hashFunc 0 r ls ∧
    (∀ r', mountains hashFunc 0 r' ls → r' = r) ∧
    (∀ j, (∃ h, r !! j = Some (Some h)) ↔ Nat.testbit (length ls) j = true).
Proof.
  destruct (appends_mountains hashFunc [] [] ls) as (r & Ha & Hm); [constructor|].
  exists r. split; [done|]. split; [done|]. split.
  - intros r' Hr'. by eapply mountains_det.
  - destruct (mountains_length _ _ _ _ Hm) as (n & Hl & _ & Hb). simpl in Hl.
    by replace (length ls) with n by lia.
Qed.

(** The super-peak combines the peaks that are present, from the lowest
    position up, each step hashing ["peak"], what was combined so far and the next
    peak; it is the zero hash of an empty range, and needs no more calls than
    there are positions and one. *)
Theorem mmr_super_peak (hashFunc : list Z → Hash) (peaks : list (option Hash)) :
  SuperPeak hashFunc (S (length peaks)) peaks = Some (Ok (super hashFunc (present peaks))).
Proof. apply SuperPeak_present. pose proof (present_length peaks). lia. Qed.

(** A range survives its encoding: for peaks of 32 bytes, [Encode] succeeds,
    and decoding the bytes as a list of optional hashes gives the peaks back. *)
Theorem mmr_encode_roundtrip (peaks : list (option Hash)) :
  Forall (λ p, ∀ h, p = Some h → length h = 32%nat ∧ bytes_ok h) peaks → len peaks < 2 ^ 64 →
  ∃ bs, Encode peaks = Ok bs ∧
    ∀ rest, unmarshal peaks_type (bs ++ rest) = Ok (peaks_value peaks, rest).
Proof. apply Encode_roundtrip. Qed.

Definition sample_peaks : list (option Hash) := [Some (replicate 32 3); None; Some (replicate 32 5)].

Lemma mmr_encode_roundtrip_witness :
  ∃ bs, Encode sample_peaks = Ok bs ∧
    ∀ rest, unmarshal peaks_type (bs ++ rest) = Ok (peaks_value sample_peaks, rest).
Proof.
  apply (mmr_encode_roundtrip sample_peaks); [|done].
  unfold sample_peaks. rewrite !Forall_cons, Forall_nil.
  split_and!; [intros h [= <-]|intros h [=]|intros h [= <-]|done]; (split; [done|]); by apply (bool_decide_unpack _).
Defined.

(** ** The state trie *)

(** A hash for the examples: the byte sum, then zeros. *)
Definition sum32 (bs : list Z) : Hash := (foldr Z.add 0 bs `mod` 256) :: replicate 31 0.
Definition pair_of (a b : Z) : list Z * list Z := (a :: replicate 31 b, [a; b]).
Definition sample_pairs : list (list Z * list Z) := [pair_of 1 2; pair_of 200 4; pair_of 1 6].
Lemma sample_pairs_ok : Forall key_ok sample_pairs ∧ NoDup (map fst sample_pairs).
Proof.
  split; [|by apply (bool_decide_unpack _)]. unfold sample_pairs. rewrite !Forall_cons, Forall_nil.
  split_and!; [..|done]; (split; [done|]); by apply (bool_decide_unpack _).
Qed.

(** C5: [Merklize] builds the one Patricia trie of its entries.  For distinct
    32-byte keys it returns within 257 nested calls, whatever the callback; its
    root is that of the trie, which does not depend on the order of the entries;
    and it stores exactly the nodes of the trie, children before parents, up to
    the first error of the callback, which it returns. *)
Theorem trie_merklize (HashData : list Z → Hash) (kvs : list (list Z * list Z)) :
  Forall key_ok kvs → NoDup (map fst kvs) →
  ∃ t, patricia 0 t ∧ entries t ≡ₚ kvs ∧
    ∀ kvs' calls St (storeNode : Hash → Node → St → res trie_error St) s,
      kvs' ≡ₚ kvs → (257 ≤ calls)%nat →
      Merklize HashData storeNode calls kvs' 0 s =
      Some (let! s := store_all HashData storeNode (nodes HashData t) s in Ok (root HashData t, s)).
Proof.
  intros Hk Hnd.
  destruct (Merklize_trie HashData kvs 0 257) as (t & Hp & He & _);
    [lia|lia|done|done|intros ? ? ? _ _ ?; lia|].
  exists t. split; [done|]. split; [done|]. intros kvs' calls St storeNode s HP Hc.
  destruct (Merklize_trie HashData kvs' 0 calls) as (t' & Hp' & He' & Hm');
    [lia|lia|by rewrite HP|by rewrite HP|intros ? ? ? _ _ ?; lia|].
  rewrite (patricia_unique 0 t t'); [apply Hm'|done|done|]. by rewrite He, He', HP.
Qed.

Lemma trie_merklize_witness :
  ∃ t, patricia 0 t ∧ entries t ≡ₚ sample_pairs ∧
    ∀ kvs' calls St (storeNode : Hash → Node → St → res trie_error St) s,
      kvs' ≡ₚ sample_pairs → (257 ≤ calls)%nat →
      Merklize sum32 storeNode calls kvs' 0 s =
      Some (let! s := store_all sum32 storeNode (nodes sum32 t) s in Ok (root sum32 t, s)).
Proof.
  apply (trie_merklize sum32 sample_pairs); apply sample_pairs_ok.
Defined.

(** A callback that stores nothing: the nil [storeNode]. *)
Definition noStore (_ : Hash) (_ : Node) (s : unit) : res trie_error unit := Ok s.

(** A root commits to its entries.  If two sets of entries have the same root,
    then they hold the same values under the same first 31 bytes of the keys, or
    the two computations hashed different inputs to hashes that agree on the 255
    bits a branch keeps, or one input to the root of the empty trie there. *)
Theorem trie_root_binding (HashData : list Z → Hash) kvs kvs' h :
  (∀ bs, length (HashData bs) = 32%nat) →
  Forall key_ok kvs → NoDup (map fst kvs) → Forall key_ok kvs' → NoDup (map fst kvs') →
  Merklize HashData noStore 257 kvs 0 () = Some (Ok (h, ())) →
  Merklize HashData noStore 257 kvs' 0 () = Some (Ok (h, ())) →
  ∃ t t', patricia 0 t ∧ entries t ≡ₚ kvs ∧ patricia 0 t' ∧ entries t' ≡ₚ kvs' ∧
    (map kept_entry kvs ≡ₚ map kept_entry kvs' ∨ collision HashData t t').
Proof.
  intros HH Hk Hnd Hk' Hnd' Hm Hm'.
  destruct (Merklize_trie HashData kvs 0 257) as (t & Hp & He & Ht);
    [lia|lia|done|done|intros ? ? ? _ _ ?; lia|].
  destruct (Merklize_trie HashData kvs' 0 257) as (t' & Hp' & He' & Ht');
    [lia|lia|done|done|intros ? ? ? _ _ ?; lia|].
  exists t, t'. split_and!; [done..|]. rewrite <- He, <- He'.
  apply root_binding; [done|unfold leaves_ok; by rewrite He|unfold leaves_ok; by rewrite He'|].
  rewrite Ht in Hm. rewrite Ht' in Hm'. injection Hm as Hm. injection Hm' as Hm'. go_inv. congruence.
Qed.

Lemma trie_root_binding_witness :
  ∃ t t', patricia 0 t ∧ entries t ≡ₚ sample_pairs ∧ patricia 0 t' ∧
    entries t' ≡ₚ reverse sample_pairs ∧
    (map kept_entry sample_pairs ≡ₚ map kept_entry (reverse sample_pairs) ∨ collision sum32 t t').
Proof.
  destruct sample_pairs_ok as [Hk Hnd].
  apply (trie_root_binding sum32 sample_pairs (reverse sample_pairs) (142 :: replicate 31 0));
    [done|done|done|by apply Forall_reverse| |by vm_compute|by vm_compute].
  by apply (bool_decide_unpack _).
Defined.

(** A key-value store in memory, with batches that collect writes. *)
Definition mapStore : KVStore := {|
  Store := gmap (list Z) (list Z);
  Batch := gmap (list Z) (list Z);
  NewBatch _ := ∅;
  Put b k v := Ok (<[k := v]> b);
  Commit s b := Ok (b ∪ s);
  BatchClose _ := None;
  StoreGet s k := match s !! k with Some v => Ok v | None => Err (ErrStore "not found") end;
|}.

#[local] Instance mapStore_laws : StoreLaws mapStore (λ b k, (b : gmap _ _) !! k).
Proof.
  split; simpl.
  - intros. apply lookup_empty.
  - intros b k v b' k' [= <-]. case_decide; subst; [by rewrite lookup_insert_eq|].
    by rewrite lookup_insert_ne.
  - intros s b s' k [= <-]. rewrite lookup_union. destruct (_ !! k); [by destruct (s !! k)|].
    by destruct (s !! k).
Qed.

(** C26: What is committed can be read back.  For every key-value store that keeps
    its promises, [MerklizeAndCommit] on distinct 32-byte keys returns; when it
    succeeds the root is that of the trie of the entries and is the database's new
    root, and every node of the trie whose hash no other node shares is found
    under its hash; when it fails the database is as it was. *)
Theorem trie_commit (kv : KVStore) held (HashData : list Z → Hash) s pairs calls :
  StoreLaws kv held → (∀ bs, length (HashData bs) = 32%nat) →
  (257 ≤ calls)%nat → Forall key_ok pairs → NoDup (map fst pairs) →
  ∃ t, patricia 0 t ∧ entries t ≡ₚ pairs ∧
    ∃ r s', MerklizeAndCommit kv HashData calls s pairs = Some (r, s') ∧
      match r with
      | Ok h => h = root HashData t ∧ Root kv s' = h ∧
          ∀ n, n ∈ nodes HashData t →
            (∀ n', n' ∈ nodes HashData t → HashData n' = HashData n → n' = n) →
            Get kv s' (HashData n) = Ok n
      | Err _ => s' = s
      | RuntimePanic => True
      end.
Proof. intros ? HH. by apply (MerklizeAndCommit_trie kv held HashData HH). Qed.

Lemma trie_commit_witness :
  ∃ t, patricia 0 t ∧ entries t ≡ₚ sample_pairs ∧
    ∃ r s', MerklizeAndCommit mapStore sum32 257 (MkDB ∅ []) sample_pairs = Some (r, s') ∧
      match r with
      | Ok h => h = root sum32 t ∧ Root mapStore s' = h ∧
          ∀ n, n ∈ nodes sum32 t →
            (∀ n', n' ∈ nodes sum32 t → sum32 n' = sum32 n → n' = n) →
            Get mapStore s' (sum32 n) = Ok n
      | Err _ => s' = MkDB ∅ []
      | RuntimePanic => True
      end.
Proof.
  destruct sample_pairs_ok as [Hk Hnd].
  by apply (trie_commit mapStore _ sum32 (MkDB ∅ []) sample_pairs 257 mapStore_laws).
Defined.

(** Nodes are read back.  A leaf with a value of at most 32 bytes is an
    embedded leaf that gives the value and its size back; one with a longer value
    is not and gives the hash of the value; both give the first 31 bytes of the
    key.  A branch gives the hash of its right child back, but not of its left
    child: the hash comes back without its first byte, moved up by one, with a
    zero at the end. *)
Theorem trie_node_roundtrip (HashData : list Z → Hash) key value l r :
  (∀ bs, length (HashData bs) = 32%nat) →
  length key = 32%nat → length l = 32%nat → length r = 32%nat →
  let n := EncodeLeafNode HashData key value in
  let b := EncodeBranchNode l r in
  IsLeaf n = true ∧ GetLeafKey n = Ok (take 31 key ++ [0]) ∧
  (if len value <=? 32
   then GetEmbeddedValueSize n = Ok (len value) ∧ GetLeafValue n = Ok value
   else GetLeafValue n = Err ErrNotEmbeddedLeaf ∧ GetLeafValueHash n = Ok (HashData value)) ∧
  IsBranch b = true ∧ GetBranchHashes b = Ok (drop 1 l ++ [0], r).
Proof.
  intros HH Hk Hl Hr n b. subst n b. destruct (branch_read l r Hl Hr) as [HB HG].
  destruct (Z.leb_spec (len value) 32) as [Hv|Hv].
  - destruct (embedded_leaf key value HashData Hk HH Hv) as (H1 & _ & H3 & H4 & H5). done.
  - destruct (regular_leaf key value HashData Hk HH Hv) as (H1 & _ & H3 & H4 & H5). done.
Qed.

Lemma trie_node_roundtrip_witness :
  let n := EncodeLeafNode sum32 (replicate 32 7) [1; 2; 3] in
  let b := EncodeBranchNode (replicate 32 200) (replicate 32 9) in
  IsLeaf n = true ∧ GetLeafKey n = Ok (take 31 (replicate 32 7) ++ [0]) ∧
  (GetEmbeddedValueSize n = Ok 3 ∧ GetLeafValue n = Ok [1; 2; 3]) ∧
  IsBranch b = true ∧ GetBranchHashes b = Ok (drop 1 (replicate 32 200) ++ [0], replicate 32 9).
Proof.
  by apply (trie_node_roundtrip sum32 (replicate 32 7) [1; 2; 3] (replicate 32 200) (replicate 32 9)).
Defined.
