(* ===== verification/Grid.v ===== *)
(** * The validator grid

    [internal/validator/grid.go] and [validators.go]: validators in a grid of 31
    columns, neighbours by row and column, lookups by key across epochs, and the
    nullification of offenders. *)
From S2P Require Export GoLib.

(** [internal/common/constants.go] *)
Definition NumberOfValidators : Z := 1023.

(** [crypto.ValidatorKey] *)
Record ValidatorKey : Type := MkValidatorKey {
  Bandersnatch : list Z;
  Ed25519 : list Z;
  Bls : list Z;
  Metadata : list Z;
}.

(** [[NumberOfValidators]*crypto.ValidatorKey] *)
Definition ValidatorsData : Type := list (option ValidatorKey).

Record GridMapper : Type := MkGridMapper {
  currentValidators : ValidatorsData;
  archivedValidators : ValidatorsData;
  queuedValidators : ValidatorsData;
}.

Record ValidatorState : Type := MkValidatorState {
  CurrentValidators : ValidatorsData;
  ArchivedValidators : ValidatorsData;
  QueuedValidators : ValidatorsData;
}.

Definition NewGridMapper (state : ValidatorState) : GridMapper :=
  MkGridMapper (CurrentValidators state) (ArchivedValidators state) (QueuedValidators state).

(** [ed25519.PublicKey.Equal] *)
Definition key_equal (a b : list Z) : bool := bool_decide (a = b).

(** ** The grid *)

(** [uint16(math.Floor(math.Sqrt(float64(common.NumberOfValidators))))] *)
Definition getGridWidth : Z := uint16 (Z.sqrt NumberOfValidators).

Definition areGridNeighbors (validatorIndex1 validatorIndex2 : Z) : bool :=
  let gridWidth := getGridWidth in
  let row1 := validatorIndex1 / gridWidth in
  let col1 := validatorIndex1 `mod` gridWidth in
  let row2 := validatorIndex2 / gridWidth in
  let col2 := validatorIndex2 `mod` gridWidth in
  (row1 =? row2) || (col1 =? col2).

(** [for i := lo; i < hi; i += step { if i != self { append i } }] on [uint16];
    at most [turns] turns. *)
Fixpoint others (turns : nat) (self lo hi step : Z) : list Z :=
  match turns with
  | O => []
  | S turns =>
      if lo <? hi then
        (if lo =? self then [] else [lo]) ++ others turns self (uint16 (lo + step)) hi step
      else []
  end.

(** A loop runs at most once for every value below its bound. *)
Definition loop_turns (hi : Z) : nat := Z.to_nat hi.

Definition getCurrentEpochNeighborIndices (validatorIndex : Z) : list Z :=
  let gridWidth := getGridWidth in
  let rowStart := uint16 (validatorIndex / gridWidth * gridWidth) in
  let rowEnd := Z.min (uint16 (rowStart + gridWidth)) NumberOfValidators in
  others (loop_turns rowEnd) validatorIndex rowStart rowEnd 1 ++
  others (loop_turns NumberOfValidators) validatorIndex (validatorIndex `mod` gridWidth)
    NumberOfValidators gridWidth.

(** ** Lookups *)

Fixpoint findValidatorIndexInSlice_from (i : Z) (validators : ValidatorsData) (key : list Z)
  : Z * bool :=
  match validators with
  | [] => (0, false)
  | validator :: validators =>
      if match validator with Some v => key_equal (Ed25519 v) key | None => false end
      then (uint16 i, true)
      else findValidatorIndexInSlice_from (i + 1) validators key
  end.
Definition findValidatorIndexInSlice (validators : ValidatorsData) (key : list Z) : Z * bool :=
  findValidatorIndexInSlice_from 0 validators key.

Definition FindValidatorIndex (m : GridMapper) : list Z → Z * bool :=
  findValidatorIndexInSlice (currentValidators m).
Definition FindValidatorIndexInArchived (m : GridMapper) : list Z → Z * bool :=
  findValidatorIndexInSlice (archivedValidators m).
Definition FindValidatorIndexInQueued (m : GridMapper) : list Z → Z * bool :=
  findValidatorIndexInSlice (queuedValidators m).

(** [if idx, found := ...; found { indices[idx] = true }] *)
Definition add_found (found : Z * bool) (indices : gset Z) : gset Z :=
  if found.2 then {[found.1]} ∪ indices else indices.

Definition getValidatorIndices (m : GridMapper) (key : list Z) : gset Z :=
  let indices := add_found (FindValidatorIndexInArchived m key) ∅ in
  let indices := add_found (FindValidatorIndex m key) indices in
  add_found (FindValidatorIndexInQueued m key) indices.

Definition IsNeighbor (m : GridMapper) (key1 key2 : list Z) (sameEpoch : bool) : bool :=
  if key_equal key1 key2 then false
  else if sameEpoch then
    let '(idx1, found1) := FindValidatorIndex m key1 in
    let '(idx2, found2) := FindValidatorIndex m key2 in
    if negb found1 || negb found2 then false else areGridNeighbors idx1 idx2
  else
    let indices1 := getValidatorIndices m key1 in
    if bool_decide (indices1 = ∅) then false
    else
      let indices2 := getValidatorIndices m key2 in
      existsb (λ idx, bool_decide (idx ∈ indices1)) (elements indices2).

(** ** Neighbour validators; these methods never return an error. *)

Definition GetCurrentEpochNeighborValidators (m : GridMapper) (index : Z)
  : res unit (list (option ValidatorKey)) :=
  foldr (λ idx acc,
    let! v := go_index (currentValidators m) idx in
    let! vs := acc in Ok (v :: vs)) (Ok []) (getCurrentEpochNeighborIndices index).

Definition GetAllEpochsNeighborValidators (m : GridMapper) (index : Z)
  : res unit (list (option ValidatorKey)) :=
  let! neighborsSameEpoch := GetCurrentEpochNeighborValidators m index in
  let! previous :=
    if index <? uint16 (len (archivedValidators m)) then
      let! v := go_index (archivedValidators m) index in Ok [v] else Ok [] in
  let! next :=
    if index <? uint16 (len (queuedValidators m)) then
      let! v := go_index (queuedValidators m) index in Ok [v] else Ok [] in
  Ok (previous ++ next ++ neighborsSameEpoch).

(** ** Offenders ([validators.go]) *)

Definition nullKey : ValidatorKey :=
  MkValidatorKey (replicate 32 0) (replicate 32 0) (replicate 144 0) (replicate 128 0).

(** [crypto.ED25519PublicKeySet]; [[32]byte(key)] panics on a shorter key and
    drops what is beyond 32 bytes of a longer one. *)
Definition key_array (key : list Z) : res unit (list Z) :=
  if len key <? 32 then RuntimePanic else Ok (take 32 key).

Fixpoint offenderSet (offenders : list (list Z)) (offenderMap : gset (list Z))
  : res unit (gset (list Z)) :=
  match offenders with
  | [] => Ok offenderMap
  | key :: offenders =>
      let! a := key_array key in offenderSet offenders ({[a]} ∪ offenderMap)
  end.

(** Reading the key of an empty place is a nil dereference. *)
Fixpoint nullify (offenderMap : gset (list Z)) (validators : ValidatorsData)
  : res unit ValidatorsData :=
  match validators with
  | [] => Ok []
  | None :: _ => RuntimePanic
  | Some validator :: validators =>
      let! a := key_array (Ed25519 validator) in
      let! rest := nullify offenderMap validators in
      Ok (Some (if bool_decide (a ∈ offenderMap) then nullKey else validator) :: rest)
  end.

Definition NullifyOffenders (queuedValidators : ValidatorsData) (offenders : list (list Z))
  : res unit ValidatorsData :=
  let! offenderMap := offenderSet offenders ∅ in
  nullify offenderMap queuedValidators.

(** ** The loops *)

Lemma elem_of_others turns self lo hi step x :
  0 ≤ lo → 0 < step → hi + step ≤ 2 ^ 16 → hi - lo ≤ Z.of_nat turns →
  x ∈ others turns self lo hi step ↔
  x ≠ self ∧ lo ≤ x < hi ∧ (x - lo) `mod` step = 0.
Proof.
  revert lo. induction turns as [|turns IH]; intros lo Hlo Hs Hhi Ht; cbn [others].
  { split; [intros H; by apply elem_of_nil in H|lia]. }
  destruct (Z.ltb_spec lo hi) as [Hl|Hl]; [|split; [intros H; by apply elem_of_nil in H|lia]].
  unfold uint16. rewrite wrapU_id by (unfold inU; lia). rewrite elem_of_app, IH by lia.
  replace (x - (lo + step)) with (x - lo + (-1) * step) by lia. rewrite Z.mod_add by lia.
  assert (x ∈ (if lo =? self then [] else [lo]) ↔ x = lo ∧ x ≠ self) as ->.
  { destruct (Z.eqb_spec lo self); [rewrite elem_of_nil|rewrite list_elem_of_singleton]; lia. }
  split.
  - intros [[-> Hx]|(Hx & Hr & Hm)]; [|split_and!; [done|lia|lia|done]].
    rewrite Z.sub_diag, Z.mod_0_l by lia. lia.
  - intros (Hx & Hr & Hm). destruct (decide (x = lo)) as [->|Hne]; [by left|]. right.
    split_and!; [done| |lia|done].
    apply Z.mod_divide in Hm as [q Hq]; [|lia]. assert (1 ≤ q) by nia. nia.
Qed.

Lemma others_NoDup turns self lo hi step :
  0 ≤ lo → 0 < step → hi + step ≤ 2 ^ 16 → hi - lo ≤ Z.of_nat turns →
  NoDup (others turns self lo hi step).
Proof.
  revert lo. induction turns as [|turns IH]; intros lo Hlo Hs Hhi Ht; cbn [others]; [constructor|].
  destruct (Z.ltb_spec lo hi) as [Hl|Hl]; [|constructor].
  unfold uint16. rewrite wrapU_id by (unfold inU; lia).
  specialize (IH (lo + step) ltac:(lia) Hs Hhi ltac:(lia)). destruct (lo =? self); [done|].
  constructor; [|done]. rewrite elem_of_others by lia. lia.
Qed.

Lemma getGridWidth_31 : getGridWidth = 31.
Proof. done. Qed.

(** The row of a validator, as the loop's bounds. *)
Lemma grid_row v u :
  0 ≤ v < NumberOfValidators → 0 ≤ u < NumberOfValidators →
  v / 31 * 31 ≤ u < v / 31 * 31 + 31 ↔ u / 31 = v / 31.
Proof.
  intros Hv Hu. pose proof (Z.div_mod u 31 ltac:(lia)). pose proof (Z.mod_pos_bound u 31 ltac:(lia)).
  split; [|lia]. intros Hr. symmetry. apply (Z.div_unique u 31 _ (u - v / 31 * 31)); lia.
Qed.

Lemma grid_column v u :
  0 ≤ v → 0 ≤ u → (v `mod` 31 ≤ u ∧ (u - v `mod` 31) `mod` 31 = 0) ↔ u `mod` 31 = v `mod` 31.
Proof.
  intros Hv Hu. pose proof (Z.mod_pos_bound u 31 ltac:(lia)). pose proof (Z.mod_pos_bound v 31 ltac:(lia)).
  pose proof (Z.mod_le u 31 ltac:(lia) ltac:(lia)).
  rewrite <- Z.add_opp_r. split.
  - intros [_ Hm]. apply Z.mod_divide in Hm as [q Hq]; [|lia].
    symmetry. apply (Z.mod_unique u 31 q); lia.
  - intros <-. split; [done|]. rewrite Z.add_opp_r, Zminus_mod_idemp_r, Z.sub_diag. done.
Qed.

(** Rows are full: the bounds of the row loop. *)
Lemma row_bounds v :
  0 ≤ v < NumberOfValidators →
  uint16 (v / 31 * 31) = v / 31 * 31 ∧
  Z.min (uint16 (uint16 (v / 31 * 31) + 31)) NumberOfValidators = v / 31 * 31 + 31 ∧
  0 ≤ v / 31 * 31 ∧ v / 31 * 31 + 31 ≤ NumberOfValidators.
Proof.
  unfold NumberOfValidators. intros Hv. assert (0 ≤ v / 31 < 33) as Hd
    by (split; [apply Z.div_pos; lia|apply Z.div_lt_upper_bound; lia]).
  unfold uint16. rewrite !wrapU_id by (unfold inU; try rewrite wrapU_id; unfold inU; lia). lia.
Qed.

Lemma neighbours_spec v u :
  0 ≤ v < NumberOfValidators →
  u ∈ getCurrentEpochNeighborIndices v ↔
  u ≠ v ∧ 0 ≤ u < NumberOfValidators ∧ areGridNeighbors v u = true.
Proof.
  intros Hv. destruct (row_bounds v Hv) as (E1 & E2 & B1 & B2).
  unfold getCurrentEpochNeighborIndices, areGridNeighbors, loop_turns. rewrite getGridWidth_31, E2, E1.
  pose proof (Z.mod_pos_bound v 31 ltac:(lia)) as Hm. unfold NumberOfValidators in *.
  rewrite elem_of_app, !elem_of_others by lia. rewrite orb_true_iff, !Z.eqb_eq, Z.mod_1_r.
  split.
  - intros [(Hn & Hr & _)|(Hn & Hr & Hc)]; (split; [done|]; split; [lia|]).
    + left. symmetry. apply grid_row; unfold NumberOfValidators; lia.
    + right. symmetry. apply grid_column; lia.
  - intros (Hn & Hu & [Hr|Hc]); [left|right]; (split; [done|]).
    + split; [|done]. apply grid_row; unfold NumberOfValidators; lia.
    + destruct (proj2 (grid_column v u ltac:(lia) ltac:(lia))) as [H1 H2]; [done|]. split; [lia|done].
Qed.

Lemma neighbours_NoDup v : 0 ≤ v < NumberOfValidators → NoDup (getCurrentEpochNeighborIndices v).
Proof.
  intros Hv. destruct (row_bounds v Hv) as (E1 & E2 & B1 & B2).
  unfold getCurrentEpochNeighborIndices, loop_turns. rewrite getGridWidth_31, E2, E1.
  pose proof (Z.mod_pos_bound v 31 ltac:(lia)) as Hm. unfold NumberOfValidators in *.
  apply NoDup_app. split; [apply others_NoDup; lia|]. split; [|apply others_NoDup; lia].
  intros u Hu Hu'. rewrite elem_of_others in Hu, Hu' by lia. destruct Hu as (Hn & Hr & _).
  destruct Hu' as (_ & Hr' & Hc).
  assert (u / 31 = v / 31) as Hd by (apply grid_row; unfold NumberOfValidators; lia).
  assert (u `mod` 31 = v `mod` 31) as Hmm by (apply grid_column; lia).
  apply Hn. rewrite (Z.div_mod u 31), (Z.div_mod v 31) by lia. congruence.
Qed.

Lemma areGridNeighbors_sym v u : areGridNeighbors v u = areGridNeighbors u v.
Proof. unfold areGridNeighbors. by rewrite (Z.eqb_sym (v / _)), (Z.eqb_sym (v `mod` _)). Qed.

(** ** Theorems *)

(** A computation for every validator index. *)
Lemma validator_indices (p : Z → bool) :
  forallb (λ n, p (Z.of_nat n)) (seq 0 (Z.to_nat NumberOfValidators)) = true →
  ∀ v, 0 ≤ v < NumberOfValidators → p v = true.
Proof.
  intros H v Hv. rewrite forallb_forall in H. specialize (H (Z.to_nat v)).
  rewrite Z2Nat.id in H by lia. apply H, in_seq. unfold NumberOfValidators in *. lia.
Qed.

Lemma neighbours_count v :
  0 ≤ v < NumberOfValidators → length (getCurrentEpochNeighborIndices v) = 62%nat.
Proof.
  intros Hv. apply Nat.eqb_eq.
  apply (validator_indices (λ v, Nat.eqb (length (getCurrentEpochNeighborIndices v)) 62)); [|done].
  vm_compute. reflexivity.
Qed.

(** the neighbours of a validator in the grid of an epoch: the list that
    [getCurrentEpochNeighborIndices] builds with its two loops over [uint16] is,
    without repetition, the set of all other validators for which
    [areGridNeighbors] holds; the relation is symmetric, so two validators always
    agree on whether they are connected.  A validator has 62 neighbours (30 in
    its row, 32 in its column). *)
Theorem grid_neighbours v :
  0 ≤ v < NumberOfValidators →
  NoDup (getCurrentEpochNeighborIndices v) ∧
  length (getCurrentEpochNeighborIndices v) = 62%nat ∧
  ∀ u, 0 ≤ u < NumberOfValidators →
    (u ∈ getCurrentEpochNeighborIndices v ↔ u ≠ v ∧ areGridNeighbors v u = true) ∧
    (u ∈ getCurrentEpochNeighborIndices v ↔ v ∈ getCurrentEpochNeighborIndices u).
Proof.
  intros Hv. split_and!; [by apply neighbours_NoDup|by apply neighbours_count|]. intros u Hu.
  rewrite (areGridNeighbors_sym v u), !neighbours_spec, (areGridNeighbors_sym v u) by done.
  split; split; intros; destruct_and?; split_and!; try done; lia.
Qed.

Lemma grid_neighbours_witness :
  length (getCurrentEpochNeighborIndices 100) = 62%nat ∧ (998 ∉ getCurrentEpochNeighborIndices 100) ∧
  999 ∈ getCurrentEpochNeighborIndices 1016.
Proof.
  split; [by apply (grid_neighbours 100)|]. split.
  - rewrite (proj1 (proj2 (proj2 (grid_neighbours 100 ltac:(done))) 998 ltac:(done))).
    intros [_ H]. vm_compute in H. discriminate.
  - apply (proj1 (proj2 (proj2 (grid_neighbours 1016 ltac:(done))) 999 ltac:(done))). by split.
Defined.
