(* ===== verification/Blocks.v ===== *)
(** * Blocks and state: the data

    The types of [internal/block], [internal/state], [internal/service] and
    [internal/safrole] the state transition works on, with the small functions
    the packages define on them.  Arrays are lists of the array's length; Go maps
    are finite maps; pointers are options. *)
From S2P Require Export Mmr JamTime Grid.

(** [internal/common/constants.go] *)
Definition AvailabilityThreshold : Z := 2 * NumberOfValidators / 3.
Definition TotalNumberOfCores : Z := 341.
Definition ValidatorsSuperMajority : Z := 2 * NumberOfValidators / 3 + 1.
Definition WorkReportTimeoutPeriod : Z := 5.
Definition ValidatorRotationPeriod : Z := 10.
Definition MaxTicketExtrinsicSize : Z := 16.
Definition MaxTicketAttempts : Z := 2.
Definition MaxHistoricalTimeslotsForPreimageMeta : Z := 3.
Definition MaxAllocatedGasAccumulation : Z := 10000000.
Definition WorkReportMaxSumOfDependencies : Z := 8.
Definition MaxWorkPackageSizeBytes : Z := 48 * 1024.

(** [internal/state/constants.go] *)
Definition MaxTimeslotsForPreimage : Z := 14400.
Definition MaxRecentBlocks : Z := 8.
Definition MaxAuthorizersPerCore : Z := 8.
Definition PendingAuthorizersQueueSize : Z := 80.

(** [zbool] decides a comparison of lengths or numbers. *)
Ltac zbool :=
  first [apply Z.ltb_lt | apply Z.ltb_ge | apply Z.leb_le | apply Z.leb_gt
        | apply Z.eqb_eq | apply Z.eqb_neq];
  unfold len in *; cbn [length] in *; lia.

(** The bytes of an ASCII literal. *)
Fixpoint ascii_bytes (s : string) : list Z :=
  match s with
  | EmptyString => []
  | String a s => Z.of_N (Ascii.N_of_ascii a) :: ascii_bytes s
  end.
Definition SignatureContextGuarantee : list Z := ascii_bytes "jam_guarantee".
Definition SignatureContextAvailable : list Z := ascii_bytes "jam_available".
Definition SignatureContextValid : list Z := ascii_bytes "jam_valid".
Definition SignatureContextInvalid : list Z := ascii_bytes "jam_invalid".

(** Errors of the state transition: a message, one of the codec, or one of the
    store. *)
Inductive st_error : Type :=
| StErr (msg : string)
| StJam (e : jam_error)
| StStore (msg : string).

Definition ErrTimeslotOutOfRange : st_error := StErr "timeslot out of range".
Definition ErrWrongAssignment : st_error := StErr "wrong assignment".
Definition ErrBadSignature : st_error := StErr "bad signature".
Definition ErrReportTimeout : st_error := StErr "report timeout".
Definition ErrBadAttestationParent : st_error := StErr "bad attestation parent".
Definition ErrBadOrder : st_error := StErr "bad order".
Definition ErrCoreNotEngaged : st_error := StErr "core not engaged".
Definition ErrBadValidatorIndex : st_error := StErr "bad validator index".

(** Following a pointer. *)
Definition deref {E A} (p : option A) : res E A :=
  match p with Some a => Ok a | None => RuntimePanic end.

(** [for _, x := range l { if err := f(x); err != nil { return err } }] *)
Fixpoint each {E A} (f : A → res E unit) (l : list A) : res E unit :=
  match l with
  | [] => Ok tt
  | x :: l => let! _ := f x in each f l
  end.

(** A loop from 1 that compares every element with the one before it. *)
Fixpoint neighbours {A} (ok : A → A → bool) (l : list A) : bool :=
  match l with
  | [] => true
  | x :: rest =>
      match rest with
      | [] => true
      | y :: _ => ok x y && neighbours ok rest
      end
  end.

(** [if b { return err }] *)
Definition guard_not {E} (b : bool) (e : E) : res E unit := if b then Err e else Ok tt.

Lemma each_Ok {E A} (f : A → res E unit) l :
  each f l = Ok tt ↔ Forall (λ x, f x = Ok tt) l.
Proof.
  induction l as [|x l IH]; simpl; [by split|]. rewrite Forall_cons, <- IH.
  destruct (f x) as [[]| |]; simpl; naive_solver.
Qed.

Lemma each_no_panic {E A} (f : A → res E unit) l :
  Forall (λ x, f x ≠ RuntimePanic) l → each f l ≠ RuntimePanic.
Proof. induction 1 as [|x l Hx _ IH]; simpl; [done|]. by destruct (f x). Qed.

Lemma guard_not_Ok {E} b (e : E) : guard_not b e = Ok tt ↔ b = false.
Proof. by destruct b. Qed.

(** A list of which nothing passes the filter. *)
Lemma filter_none {A} (P : A → Prop) `{∀ x, Decision (P x)} l :
  Forall (λ x, ¬ P x) l → filter P l = [].
Proof. induction 1 as [|x l Hx _ IH]; [done|]. by rewrite filter_cons_False. Qed.

(** A list of which everything passes. *)
Lemma filter_all {A} (P : A → Prop) `{∀ x, Decision (P x)} l : Forall P l → filter P l = l.
Proof. induction 1 as [|x l Hx _ IH]; [done|]. by rewrite filter_cons_True, IH. Qed.

(** ** Work reports ([block/guarantee.go]) *)

Record WorkPackageSpecification : Type := MkSpec {
  WorkPackageHash : Hash;
  AuditableWorkBundleLength : Z;
  ErasureRoot : Hash;
  SegmentRoot : Hash;
  SegmentCount : Z;
}.

Record RefinementContextAnchor : Type := MkAnchor {
  anchor_HeaderHash : Hash;
  PosteriorStateRoot : Hash;
  PosteriorBeefyRoot : Hash;
}.

Record RefinementContextLookupAnchor : Type := MkLookupAnchor {
  lookup_HeaderHash : Hash;
  lookup_Timeslot : Z;
}.

Record RefinementContext : Type := MkContext {
  Anchor : RefinementContextAnchor;
  LookupAnchor : RefinementContextLookupAnchor;
  PrerequisiteWorkPackage : list Hash;
}.

Inductive WorkResultError : Type :=
| OutOfGas | UnexpectedTermination | CodeNotAvailable | CodeTooLarge.

(** [WorkResultOutputOrError]: its [Inner] is bytes or an error. *)
Inductive WorkResultOutput : Type :=
| ResultOutput (data : list Z)
| ResultError (e : WorkResultError).

Record WorkResult : Type := MkWorkResult {
  ServiceId : Z;
  ServiceHashCode : Hash;
  PayloadHash : Hash;
  GasPrioritizationRatio : Z;
  result_Output : WorkResultOutput;
}.

Record WorkReport : Type := MkWorkReport {
  Specification : WorkPackageSpecification;
  RefContext : RefinementContext;
  CoreIndex : Z;
  AuthorizerHash : Hash;
  report_Output : list Z;
  SegmentRootLookup : gmap Hash Hash;
  WorkResults : list WorkResult;
}.

Definition IsSuccessful (r : WorkResult) : bool :=
  match result_Output r with ResultOutput _ => true | ResultError _ => false end.

Definition OutputSizeIsValid (w : WorkReport) : bool :=
  let totalOutputSize :=
    foldl (λ acc r, match result_Output r with ResultOutput d => acc + len d | _ => acc end)
      0 (WorkResults w) in
  totalOutputSize + len (report_Output w) <=? MaxWorkPackageSizeBytes.

(** ** Their encoding: the struct types and values given to the codec *)

Definition field (name : string) : field_info := FieldInfo name true NoTag.

Definition spec_type : gotype := TStruct
  [(field "WorkPackageHash", hash_type); (field "AuditableWorkBundleLength", TPrim false Uint32);
   (field "ErasureRoot", hash_type); (field "SegmentRoot", hash_type);
   (field "SegmentCount", TPrim false Uint16)].
Definition context_type : gotype := TStruct
  [(field "Anchor", TStruct [(field "HeaderHash", hash_type);
      (field "PosteriorStateRoot", hash_type); (field "PosteriorBeefyRoot", hash_type)]);
   (field "LookupAnchor", TStruct [(field "HeaderHash", hash_type);
      (field "Timeslot", TPrim true Uint32)]);
   (field "PrerequisiteWorkPackage", TSlice hash_type)].
(** [ValueAt]: bytes at index 0, a bare error at 1 to 4. *)
Definition output_type : gotype :=
  TEnum ErrUnknownEnumTypeValue [Some TBytes; None; None; None; None].
Definition result_type : gotype := TStruct
  [(field "ServiceId", TPrim true Uint32); (field "ServiceHashCode", hash_type);
   (field "PayloadHash", hash_type); (field "GasPrioritizationRatio", TPrim false Uint64);
   (field "Output", output_type)].
Definition report_type : gotype := TStruct
  [(field "WorkPackageSpecification", spec_type); (field "RefinementContext", context_type);
   (field "CoreIndex", TPrim false Uint16); (field "AuthorizerHash", hash_type);
   (field "Output", TBytes); (field "SegmentRootLookup", TMap hash_type hash_type);
   (field "WorkResults", TSlice result_type)].

Definition hash_value (h : Hash) : goval := VSeq (VNum <$> h).
Definition spec_value (s : WorkPackageSpecification) : goval := VSeq
  [hash_value (WorkPackageHash s); VNum (AuditableWorkBundleLength s); hash_value (ErasureRoot s);
   hash_value (SegmentRoot s); VNum (SegmentCount s)].
Definition context_value (x : RefinementContext) : goval := VSeq
  [VSeq [hash_value (anchor_HeaderHash (Anchor x)); hash_value (PosteriorStateRoot (Anchor x));
         hash_value (PosteriorBeefyRoot (Anchor x))];
   VSeq [hash_value (lookup_HeaderHash (LookupAnchor x)); VNum (lookup_Timeslot (LookupAnchor x))];
   VSeq (hash_value <$> PrerequisiteWorkPackage x)].
Definition error_index (e : WorkResultError) : Z :=
  match e with
  | OutOfGas => 1 | UnexpectedTermination => 2 | CodeNotAvailable => 3 | CodeTooLarge => 4
  end.
(** [IndexValue] *)
Definition output_value (o : WorkResultOutput) : goval :=
  match o with
  | ResultOutput d => VEnum 0 (Some (VBytes d))
  | ResultError e => VEnum (error_index e) None
  end.
Definition result_value (r : WorkResult) : goval := VSeq
  [VNum (ServiceId r); hash_value (ServiceHashCode r); hash_value (PayloadHash r);
   VNum (GasPrioritizationRatio r); output_value (result_Output r)].
Definition report_value (w : WorkReport) : goval := VSeq
  [spec_value (Specification w); context_value (RefContext w); VNum (CoreIndex w);
   hash_value (AuthorizerHash w); VBytes (report_Output w);
   VMap ((λ kv, (hash_value kv.1, hash_value kv.2)) <$> map_to_list (SegmentRootLookup w));
   VSeq (result_value <$> WorkResults w)].

(** [WorkReport.Encode] marshals the pointer it is called on, which writes a
    marker for a non-nil pointer first. *)
Definition Encode_report (w : WorkReport) : res st_error (list Z) :=
  map_err StJam (Marshal (TPtr report_type) (VPtr (report_value w))).
Definition Hash_report (HashData : list Z → Hash) (w : WorkReport) : res st_error Hash :=
  let! encodedData := Encode_report w in Ok (HashData encodedData).
(** [jam.Marshal(guarantee.WorkReport)], on the struct itself. *)
Definition Marshal_report (w : WorkReport) : res st_error (list Z) :=
  map_err StJam (Marshal report_type (report_value w)).

(** ** Extrinsics and headers ([internal/block]) *)

Record CredentialSignature : Type := MkCredential {
  cred_ValidatorIndex : Z;
  cred_Signature : list Z;
}.

Record Guarantee : Type := MkGuarantee {
  guarantee_WorkReport : WorkReport;
  guarantee_Timeslot : Z;
  Credentials : list CredentialSignature;
}.

Record Judgement : Type := MkJudgement {
  judgement_IsValid : bool;
  judgement_ValidatorIndex : Z;
  judgement_Signature : list Z;
}.

(** [Judgements] is an array of [ValidatorsSuperMajority] judgements. *)
Record Verdict : Type := MkVerdict {
  verdict_ReportHash : Hash;
  EpochIndex : Z;
  Judgements_of : list Judgement;
}.

Record Culprit : Type := MkCulprit {
  culprit_ReportHash : Hash;
  culprit_Key : list Z;
  culprit_Signature : list Z;
}.

Record Fault : Type := MkFault {
  fault_ReportHash : Hash;
  fault_IsValid : bool;
  fault_Key : list Z;
  fault_Signature : list Z;
}.

Record DisputeExtrinsic : Type := MkDisputes {
  Verdicts : list Verdict;
  Culprits : list Culprit;
  Faults : list Fault;
}.

Definition CountPositiveJudgments (judgments : list Judgement) : Z :=
  foldl (λ count j, if judgement_IsValid j then count + 1 else count) 0 judgments.

(** [Bitfield] is an array of 43 bytes. *)
Record Assurance : Type := MkAssurance {
  assurance_Anchor : Hash;
  Bitfield : list Z;
  assurance_ValidatorIndex : Z;
  assurance_Signature : list Z;
}.

Definition HasAssuranceForCore {E} (a : Assurance) (coreIndex : Z) : res E bool :=
  let byteIndex := coreIndex / 8 in
  let bitIndex := coreIndex `mod` 8 in
  let! b := go_index (Bitfield a) byteIndex in
  Ok (negb (Z.land b (go_shl 8 1 bitIndex) =? 0)).

Record Preimage : Type := MkPreimage {
  ServiceIndex : Z;
  preimage_Data : list Z;
}.

Record Ticket : Type := MkTicket {
  Identifier : Hash;
  EntryIndex : Z;
}.

Record TicketProof : Type := MkTicketProof {
  proof_EntryIndex : Z;
  Proof_ : list Z;
}.

Record EpochMarker : Type := MkEpochMarker {
  marker_Entropy : Hash;
  TicketsEntropy : Hash;
  marker_Keys : list (list Z);
}.

Record Header : Type := MkHeader {
  ParentHash : Hash;
  PriorStateRoot : Hash;
  ExtrinsicHash : Hash;
  TimeSlotIndex : Z;
  header_EpochMarker : option EpochMarker;
  WinningTicketsMarker : option (list Ticket);
  OffendersMarkers : list (list Z);
  BlockAuthorIndex : Z;
  VRFSignature : list Z;
  BlockSealSignature : list Z;
}.

Definition octets_type (n : nat) : gotype := TArray n (TPrim false Uint8).
Definition ticket_type : gotype := TStruct
  [(field "Identifier", octets_type 32); (field "EntryIndex", TPrim false Uint8)].
Definition epoch_marker_type : gotype := TStruct
  [(field "Entropy", hash_type); (field "TicketsEntropy", hash_type);
   (field "Keys", TArray (Z.to_nat NumberOfValidators) (octets_type 32))].
Definition header_type : gotype := TStruct
  [(field "ParentHash", hash_type); (field "PriorStateRoot", hash_type);
   (field "ExtrinsicHash", hash_type); (field "TimeSlotIndex", TPrim true Uint32);
   (field "EpochMarker", TPtr epoch_marker_type);
   (field "WinningTicketsMarker", TPtr (TArray (Z.to_nat TimeslotsPerEpoch) ticket_type));
   (field "OffendersMarkers", TSlice TPublicKey); (field "BlockAuthorIndex", TPrim false Uint16);
   (field "VRFSignature", octets_type 96); (field "BlockSealSignature", octets_type 96)].

Definition ptr_value (v : option goval) : goval :=
  match v with Some v => VPtr v | None => VNil end.
Definition ticket_value (t : Ticket) : goval := VSeq [hash_value (Identifier t); VNum (EntryIndex t)].
Definition epoch_marker_value (m : EpochMarker) : goval := VSeq
  [hash_value (marker_Entropy m); hash_value (TicketsEntropy m); VSeq (hash_value <$> marker_Keys m)].
(** All fields but the seal, which is the last. *)
Definition unsealed_values (h : Header) : list goval :=
  [hash_value (ParentHash h); hash_value (PriorStateRoot h); hash_value (ExtrinsicHash h);
   VNum (TimeSlotIndex h); ptr_value (epoch_marker_value <$> header_EpochMarker h);
   ptr_value ((λ ts, VSeq (ticket_value <$> ts)) <$> WinningTicketsMarker h);
   VSeq (VBytes <$> OffendersMarkers h); VNum (BlockAuthorIndex h); hash_value (VRFSignature h)].
Definition header_value (h : Header) : goval :=
  VSeq (unsealed_values h ++ [hash_value (BlockSealSignature h)]).

Definition Bytes_header (h : Header) : res st_error (list Z) :=
  map_err StJam (Marshal header_type (header_value h)).
Definition Hash_header (HashData : list Z → Hash) (h : Header) : res st_error Hash :=
  let! jamBytes := Bytes_header h in Ok (HashData jamBytes).

(** ** Services ([internal/service]) *)

Definition PreImageMetaKey : Type := Hash * Z.

Record ServiceAccount : Type := MkAccount {
  Storage : gmap Hash (list Z);
  PreimageLookup : gmap Hash (list Z);
  PreimageMeta : gmap PreImageMetaKey (list Z);
  CodeHash : Hash;
  Balance : Z;
  GasLimitForAccumulator : Z;
  GasLimitOnTransfer : Z;
}.

(** The value of a missing key in a Go map of accounts. *)
Definition zeroAccount : ServiceAccount := MkAccount ∅ ∅ ∅ ZeroHash 0 0 0.

Definition ServiceState : Type := gmap Z ServiceAccount.

Record PrivilegedServices : Type := MkPrivileged {
  ManagerServiceId : Z;
  AssignServiceId : Z;
  DesignateServiceId : Z;
  AmountOfGasPerServiceId : gmap Z Z;
}.

Record DeferredTransfer : Type := MkTransfer {
  SenderServiceIndex : Z;
  ReceiverServiceIndex : Z;
  transfer_Balance : Z;
  Memo : list Z;
  transfer_GasLimit : Z;
}.

(** ** State ([internal/state], [internal/safrole]) *)

Record Assignment : Type := MkAssignment {
  assigned_WorkReport : option WorkReport;
  Time : Z;
}.

(** [TotalNumberOfCores] optional assignments. *)
Definition CoreAssignments : Type := list (option Assignment).

Record Judgements : Type := MkJudgements {
  BadWorkReports : list Hash;
  GoodWorkReports : list Hash;
  WonkyWorkReports : list Hash;
  OffendingValidators : list (list Z);
}.

(** A work report with the work packages it waits for. *)
Record QueuedReport : Type := MkQueued {
  queued_WorkReport : WorkReport;
  Dependencies : gset Hash;
}.

Record BlockState : Type := MkBlockState {
  block_HeaderHash : Hash;
  StateRoot : Hash;
  AccumulationResultMMR : list (option Hash);
  WorkReportHashes : gmap Hash Hash;
}.

(** [TicketsOrKeys]: the tickets of an epoch or, as a fallback, keys. *)
Inductive TicketsOrKeys : Type :=
| TicketsBodies (tickets : list Ticket)
| EpochKeys (keys : list (list Z)).

Record SafroleState : Type := MkSafrole {
  NextValidators : ValidatorsData;
  TicketAccumulator : list Ticket;
  SealingKeySeries : option TicketsOrKeys;
  RingCommitment : list Z;
}.

Record AccumulationState : Type := MkAccState {
  acc_ServiceState : ServiceState;
  acc_ValidatorKeys : ValidatorsData;
  acc_PendingAuthorizersQueues : list (list Hash);
  acc_PrivilegedServices : PrivilegedServices;
}.

Record AccumulationOperand : Type := MkOperand {
  operand_Output : WorkResultOutput;
  operand_PayloadHash : Hash;
  operand_WorkPackageHash : Hash;
  AuthorizationOutput : list Z;
}.
