(* ===== verification/Services.v ===== *)
(** * Service accounts

    [internal/service/service.go] and [util.go]: footprints and thresholds,
    preimages and their historical availability, and the derivation of fresh
    service indices. *)
From S2P Require Export Blocks.

Definition BasicMinimumBalance : Z := 100.
Definition AdditionalMinimumBalancePerItem : Z := 10.
Definition AdditionalMinimumBalancePerOctet : Z := 1.
Definition TotalGasAccumulation : Z := 341000000.

(** [Code]; nil when there is none. *)
Definition Code (sa : ServiceAccount) : option (list Z) := PreimageLookup sa !! CodeHash sa.

(** [len] of a Go map *)
Definition map_len {K A} `{Countable K} (m : gmap K A) : Z := Z.of_nat (size m).

Definition TotalItems (sa : ServiceAccount) : Z :=
  let totalPreimages := map_len (PreimageLookup sa) in
  let totalStorageItems := map_len (Storage sa) in
  let ai := 2 * totalPreimages + totalStorageItems in
  uint32 ai.

Definition TotalStorageSize (sa : ServiceAccount) : Z :=
  let al := map_fold (λ _ z al, uint64 (al + uint64 (81 + len z))) 0 (PreimageLookup sa) in
  map_fold (λ _ x al, uint64 (al + uint64 (32 + len x))) al (Storage sa).

Definition ThresholdBalance (sa : ServiceAccount) : Z :=
  let ai := TotalItems sa in
  let al := TotalStorageSize sa in
  uint64 (BasicMinimumBalance + AdditionalMinimumBalancePerItem * ai
          + AdditionalMinimumBalancePerOctet * al).

Definition with_preimages (p : gmap Hash (list Z)) (m : gmap PreImageMetaKey (list Z))
    (sa : ServiceAccount) : ServiceAccount :=
  MkAccount (Storage sa) p m (CodeHash sa) (Balance sa) (GasLimitForAccumulator sa)
    (GasLimitOnTransfer sa).

(** [AddPreimage] writes to the account's maps. *)
Definition AddPreimage (HashData : list Z → Hash) (p : list Z) (currentTimeslot : Z)
    (sa : ServiceAccount) : ServiceAccount :=
  let h := HashData p in
  let metaKey := (h, uint32 (len p)) in
  match PreimageLookup sa !! h with
  | Some _ =>
      match PreimageMeta sa !! metaKey with
      | None => sa
      | Some metadata =>
          if len metadata <? MaxHistoricalTimeslotsForPreimageMeta
          then with_preimages (PreimageLookup sa)
                 (<[metaKey := metadata ++ [currentTimeslot]]> (PreimageMeta sa)) sa
          else sa
      end
  | None =>
      with_preimages (<[h := p]> (PreimageLookup sa))
        (<[metaKey := [currentTimeslot]]> (PreimageMeta sa)) sa
  end.

Definition isPreimageAvailableAt (metadata : list Z) (t : Z) : bool :=
  match metadata with
  | [] => false
  | [m0] => m0 <=? t
  | [m0; m1] => (m0 <=? t) && (t <? m1)
  | [m0; m1; m2] => ((m0 <=? t) && (t <? m1)) || (m2 <=? t)
  | _ => false
  end.

Definition LookupPreimage (t : Z) (h : Hash) (sa : ServiceAccount) : option (list Z) :=
  match PreimageLookup sa !! h with
  | None => None
  | Some p =>
      match PreimageMeta sa !! (h, uint32 (len p)) with
      | None => None
      | Some metadata => if isPreimageAvailableAt metadata t then Some p else None
      end
  end.

(** ** Indices ([util.go]) *)

Definition bit8 : Z := 2 ^ 8.
Definition bit9 : Z := 2 ^ 9.
Definition bit32 : Z := 2 ^ 32.

(** All arithmetic is on [uint32]. *)
Definition BumpIndex (serviceIndex : Z) : Z :=
  uint32 (uint32 (uint32 (serviceIndex - bit8) + 42) `mod` (bit32 - bit9) + bit8).

Definition nextIndex (serviceIndex : Z) : Z :=
  uint32 (uint32 (uint32 (serviceIndex - bit8) + 1) `mod` (bit32 - bit9) + bit8).

(** [CheckIndex] tries one index after the other; [None] is a try too many. *)
Fixpoint CheckIndex (tries : nat) (serviceIndex : Z) (serviceState : ServiceState) : option Z :=
  match tries with
  | O => None
  | S tries =>
      match serviceState !! serviceIndex with
      | None => Some serviceIndex
      | Some _ => CheckIndex tries (nextIndex serviceIndex) serviceState
      end
  end.

Definition DeriveIndex (tries : nat) (serviceIndex : Z) (serviceState : ServiceState) : option Z :=
  CheckIndex tries (nextIndex serviceIndex) serviceState.

(** ** Theorems *)

(** ** Indices *)

Definition indexCount : Z := bit32 - bit9.

(** The indices [nextIndex] cycles through. *)
Definition public_index (i : Z) : Prop := bit8 ≤ i < bit8 + indexCount.

Definition index_at (start : Z) (k : nat) : Z := (start - bit8 + Z.of_nat k) `mod` indexCount + bit8.

Lemma nextIndex_range i : public_index (nextIndex i).
Proof.
  unfold nextIndex, uint32.
  pose proof (Z.mod_pos_bound (wrapU 32 (wrapU 32 (i - bit8) + 1)) (bit32 - bit9)) as H.
  rewrite wrapU_id; unfold public_index, indexCount, inU, bit8, bit9, bit32 in *; lia.
Qed.

Lemma index_at_range start k : public_index (index_at start k).
Proof.
  unfold public_index, index_at.
  pose proof (Z.mod_pos_bound (start - bit8 + Z.of_nat k) indexCount).
  unfold indexCount, bit8, bit9, bit32 in *. lia.
Qed.

Lemma nextIndex_at start k : nextIndex (index_at start k) = index_at start (S k).
Proof.
  pose proof (index_at_range start k) as Hr. unfold nextIndex.
  assert (uint32 (index_at start k - bit8) = index_at start k - bit8) as ->.
  { apply wrapU_id. unfold public_index, indexCount, inU, bit8, bit9, bit32 in *. lia. }
  assert (uint32 (index_at start k - bit8 + 1) = index_at start k - bit8 + 1) as ->.
  { apply wrapU_id. unfold public_index, indexCount, inU, bit8, bit9, bit32 in *. lia. }
  assert ((index_at start k - bit8 + 1) `mod` (bit32 - bit9) + bit8 = index_at start (S k)) as ->.
  { unfold index_at. change (bit32 - bit9) with indexCount. rewrite Z.add_simpl_r.
    rewrite Zplus_mod_idemp_l. do 2 f_equal. lia. }
  apply wrapU_id. pose proof (index_at_range start (S k)).
  unfold public_index, indexCount, inU, bit8, bit9, bit32 in *. lia.
Qed.

Lemma index_at_0 start : public_index start → index_at start 0 = start.
Proof. unfold index_at, public_index. intros H. rewrite Z.mod_small; lia. Qed.

Lemma index_at_inj start j k :
  Z.of_nat j < indexCount → Z.of_nat k < indexCount → index_at start j = index_at start k → j = k.
Proof.
  unfold index_at. intros Hj Hk E. assert (0 < indexCount) by done.
  assert ((start - bit8 + Z.of_nat j) `mod` indexCount = (start - bit8 + Z.of_nat k) `mod` indexCount)
    as E' by lia.
  pose proof (Z.div_mod (start - bit8 + Z.of_nat j) indexCount ltac:(lia)).
  pose proof (Z.div_mod (start - bit8 + Z.of_nat k) indexCount ltac:(lia)).
  set (q := (start - bit8 + Z.of_nat j) / indexCount) in *.
  set (q' := (start - bit8 + Z.of_nat k) / indexCount) in *.
  assert (Z.of_nat j - Z.of_nat k = indexCount * (q - q')) as Hd by lia.
  destruct (Z.lt_trichotomy (q - q') 0) as [?|[?|?]]; nia.
Qed.

(** What [CheckIndex] does, counted from a first index. *)
Lemma CheckIndex_spec tries start k services :
  (∃ j, (k ≤ j < k + tries)%nat ∧
     CheckIndex tries (index_at start k) services = Some (index_at start j) ∧
     services !! index_at start j = None ∧
     ∀ i, (k ≤ i < j)%nat → is_Some (services !! index_at start i)) ∨
  (CheckIndex tries (index_at start k) services = None ∧
   ∀ i, (k ≤ i < k + tries)%nat → is_Some (services !! index_at start i)).
Proof.
  revert k. induction tries as [|tries IH]; intros k; simpl; [right; split; [done|lia]|].
  destruct (services !! index_at start k) eqn:E.
  - rewrite nextIndex_at. destruct (IH (S k)) as [(j & Hj & Hc & Hn & Hs)|[Hc Hs]].
    + left. exists j. split_and!; [lia..|done|done|]. intros i Hi.
      destruct (decide (i = k)) as [->|]; [by rewrite E|apply Hs; lia].
    + right. split; [done|]. intros i Hi.
      destruct (decide (i = k)) as [->|]; [by rewrite E|apply Hs; lia].
  - left. exists k. split_and!; [lia..|done|done|lia].
Qed.

(** Tries that all failed are as many services. *)
Lemma occupied_size start (services : ServiceState) n :
  Z.of_nat n ≤ indexCount →
  (∀ i, (i < n)%nat → is_Some (services !! index_at start i)) → (n ≤ size services)%nat.
Proof.
  intros Hn Hs. rewrite <- (size_dom (D := gset Z) services).
  assert (list_to_set (C := gset Z) (index_at start <$> seq 0 n) ⊆ dom services) as Hsub.
  { intros x. rewrite elem_of_list_to_set. intros (i & -> & Hi%elem_of_seq)%list_elem_of_fmap.
    apply elem_of_dom, Hs. lia. }
  apply subseteq_size in Hsub. rewrite size_list_to_set in Hsub.
  - by rewrite length_fmap, length_seq in Hsub.
  - apply NoDup_fmap_2_strong; [|apply NoDup_seq].
    intros i j Hi%elem_of_seq Hj%elem_of_seq. apply index_at_inj; lia.
Qed.

(** [DeriveIndex] ends and returns a service index that is free:
    as long as not all 2^32 - 2^9 public indices are taken, one more try than
    there are services is enough; the index is in the public range, no service
    has it, and it is the first free one in cyclic order from the given one. *)
Theorem derive_index_fresh (services : ServiceState) (serviceIndex : Z) :
  Z.of_nat (size services) < indexCount →
  ∃ k, DeriveIndex (S (size services)) serviceIndex services =
         Some (index_at (nextIndex serviceIndex) k) ∧
       (k ≤ size services)%nat ∧
       services !! index_at (nextIndex serviceIndex) k = None ∧
       public_index (index_at (nextIndex serviceIndex) k) ∧
       ∀ i, (i < k)%nat → is_Some (services !! index_at (nextIndex serviceIndex) i).
Proof.
  intros Hn. unfold DeriveIndex. set (start := nextIndex serviceIndex).
  replace (CheckIndex (S (size services)) start services)
    with (CheckIndex (S (size services)) (index_at start 0) services)
    by (by rewrite index_at_0 by apply nextIndex_range).
  destruct (CheckIndex_spec (S (size services)) start 0 services)
    as [(k & Hk & -> & Hfree & Hocc)|[_ Hocc]].
  - exists k. split_and!; [done|lia|done|apply index_at_range|]. intros i Hi. apply Hocc. lia.
  - exfalso. cut (S (size services) ≤ size services)%nat; [lia|].
    apply (occupied_size start); [lia|]. intros i Hi. apply Hocc. lia.
Qed.

Lemma derive_index_fresh_witness :
  let services := {[65 + 256 := zeroAccount; 66 + 256 := zeroAccount]} : ServiceState in
  ∃ k, DeriveIndex 3 320 services = Some (index_at 321 k).
Proof.
  intros services. destruct (derive_index_fresh services 320) as (k & E & _); [by vm_compute|].
  by exists k.
Defined.

(** ** Preimages *)

(** a preimage that is added can be looked up: by its hash, from the time
    it was added on and not before, and the lookup returns it; other preimages
    keep their availability; adding it once more at a later time makes it
    unavailable from then on, and a third time available again. *)
Theorem preimage_lookup (HashData : list Z → Hash) (p : list Z) (t : Z) (sa : ServiceAccount) :
  PreimageLookup sa !! HashData p = None →
  let sa1 := AddPreimage HashData p t sa in
  (∀ t', LookupPreimage t' (HashData p) sa1 = if t <=? t' then Some p else None) ∧
  (∀ h t', h ≠ HashData p → LookupPreimage t' h sa1 = LookupPreimage t' h sa) ∧
  (∀ t2 t', LookupPreimage t' (HashData p) (AddPreimage HashData p t2 sa1) =
     if (t <=? t') && (t' <? t2) then Some p else None) ∧
  (∀ t2 t3 t', LookupPreimage t' (HashData p)
       (AddPreimage HashData p t3 (AddPreimage HashData p t2 sa1)) =
     if ((t <=? t') && (t' <? t2)) || (t3 <=? t') then Some p else None).
Proof.
  intros Hnew sa1. unfold sa1, AddPreimage, LookupPreimage, with_preimages. rewrite Hnew. simpl.
  rewrite !lookup_insert_eq. simpl. rewrite !lookup_insert_eq. simpl.
  split_and!; intros; simpl; rewrite ?lookup_insert_eq; simpl; rewrite ?lookup_insert_eq; try done.
  rewrite lookup_insert_ne by done. destruct (PreimageLookup sa !! h); [|done].
  rewrite lookup_insert_ne; [done|]. intros [=]. congruence.
Qed.

Lemma preimage_lookup_witness :
  LookupPreimage 9 (take 1 [7; 8]) (AddPreimage (take 1) [7; 8] 5 zeroAccount) = Some [7; 8].
Proof. apply (preimage_lookup (take 1) [7; 8] 5 zeroAccount eq_refl). Defined.
