(* ===== verification/Accumulation.v ===== *)
(** * Accumulation: queue and merge

    [internal/statetransition]: the queue of work reports that wait for others
    ([updateQueue], [accumulationPriority] and their helpers), the selection of
    reports by gas (the loop of [SequentialDelta]), the critical sections of
    [ParallelDelta] and the new queue of [CalculateWorkReportsAndAccumulate].  The
    functions that run services are in [AccumulateInvoke]. *)
From S2P Require Export Services.

(** ** The queue *)

Definition package_hash (w : WorkReport) : Hash := WorkPackageHash (Specification w).

Definition updateQueue (workRepAndDep : list QueuedReport) (hashSet : gset Hash)
  : list QueuedReport :=
  foldl (λ acc wd,
    if bool_decide (package_hash (queued_WorkReport wd) ∈ hashSet) then acc
    else acc ++ [MkQueued (queued_WorkReport wd) (Dependencies wd ∖ hashSet)])
    [] workRepAndDep.

Definition getWorkPackageHashes (workReports : list WorkReport) : gset Hash :=
  foldl (λ hashes w, {[package_hash w]} ∪ hashes) ∅ workReports.

Definition getWorkReportDependencies (workReport : WorkReport) : QueuedReport :=
  let deps := foldl (λ deps h, {[h]} ∪ deps) ∅
                (PrerequisiteWorkPackage (RefContext workReport)) in
  MkQueued workReport (dom (SegmentRootLookup workReport) ∪ deps).

Definition flattenAccumulationHistory (accHistory : list (gset Hash)) : gset Hash :=
  foldl (λ hashes h, h ∪ hashes) ∅ accHistory.

(** [accumulationPriority]; [None] is a recursion too deep. *)
Fixpoint accumulationPriority (calls : nat) (workReportAndDeps : list QueuedReport)
  : option (list WorkReport) :=
  match calls with
  | O => None
  | S calls =>
      let workReports := queued_WorkReport <$> workReportAndDeps in
      if len workReports =? 0 then Some []
      else accumulationPriority calls
             (updateQueue workReportAndDeps (getWorkPackageHashes workReports))
  end.

(** The loop that separates reports without dependencies. *)
Definition has_dependencies (w : WorkReport) : bool :=
  negb ((len (PrerequisiteWorkPackage (RefContext w)) =? 0)
        && (map_len (SegmentRootLookup w) =? 0)).
Definition splitReports (workReports : list WorkReport) : list WorkReport * list QueuedReport :=
  foldl (λ '(imm, deps) w,
    if has_dependencies w then (imm, deps ++ [getWorkReportDependencies w])
    else (imm ++ [w], deps)) ([], []) workReports.

Definition transfersForReceiver (transfers : list DeferredTransfer) (serviceId : Z)
  : list DeferredTransfer :=
  sort_by (λ a b, SenderServiceIndex a <? SenderServiceIndex b)
    (filter (λ t, ReceiverServiceIndex t = serviceId) transfers).

(** ** Selecting reports by gas *)

Definition report_gas (w : WorkReport) : Z :=
  foldl (λ g r, uint64 (g + GasPrioritizationRatio r)) 0 (WorkResults w).

(** The loop of [SequentialDelta]: how many reports fit the limit. *)
Fixpoint reports_within (gasLimit totalGas : Z) (workReports : list WorkReport) : nat :=
  match workReports with
  | [] => 0
  | w :: workReports =>
      if gasLimit <? uint64 (totalGas + report_gas w) then 0
      else S (reports_within gasLimit (uint64 (totalGas + report_gas w)) workReports)
  end.

Definition HashPair : Type := Z * Hash.

(** [sort.Slice] of the pairs by service *)
Definition sort_pairs (pairs : list HashPair) : list HashPair :=
  sort_by (λ a b, a.1 <? b.1) pairs.

(** The work items of a service in a report. *)
Definition service_results (serviceIndex : Z) (w : WorkReport) : list WorkResult :=
  filter (λ r, ServiceId r = serviceIndex) (WorkResults w).

(** The services of [serviceIndices]. *)
Definition service_indices (workReports : list WorkReport) (privilegedGas : gmap Z Z) : gset Z :=
  list_to_set (w ← workReports; ServiceId <$> WorkResults w) ∪ dom privilegedGas.

(** ** The critical sections of [ParallelDelta]

    One goroutine per service accumulates it and merges the result under a mutex.
    [A] is what the map of services holds. *)
Section merge.
Context {A : Type}.

(** What the accumulation of a service returns to its goroutine: the services of
    the resulting state, the transfers, the optional hash, and the gas. *)
Definition Invocation : Type := gmap Z A * list DeferredTransfer * option Hash * Z.

(** The variables the goroutines share. *)
Record merge_state : Type := MkMerge {
  totalGasUsed : Z;
  allTransfers : list DeferredTransfer;
  accumHashPairs : list HashPair;
  allResultServices : gmap Z A;
  resultServicesExclude : gset Z;
}.

Definition merge_empty : merge_state := MkMerge 0 [] [] ∅ ∅.

(** The critical section of the goroutine of one service, where [initial] are the
    services of the state before. *)
Definition merge_service (initial : gmap Z A) (serviceId : Z) (r : Invocation) (m : merge_state)
  : merge_state :=
  let '(services, deferredTransfers, resultHash, gasUsed) := r in
  let resultServices := filter (λ kv, kv.1 = serviceId ∨ initial !! kv.1 = None) services in
  let gone := dom initial ∖ dom services in
  MkMerge (uint64 (totalGasUsed m + gasUsed))
    (allTransfers m ++ deferredTransfers)
    (accumHashPairs m ++
       match resultHash with Some h => [(serviceId, h)] | None => [] end)
    (resultServices ∪ allResultServices m)
    (gone ∪ resultServicesExclude m).

(** [(d ∪ n) ∖ m], after [wg.Wait] *)
Definition merged_services (initial : gmap Z A) (m : merge_state) : gmap Z A :=
  filter (λ kv, kv.1 ∉ resultServicesExclude m) (allResultServices m ∪ initial).
End merge.
Arguments Invocation : clear implicits.
Arguments merge_state : clear implicits.

(** ** Queue and history after a block *)

(** [(timeslotPerEpoch - jamtime.Timeslot(i)) % jamtime.TimeslotsPerEpoch], on
    [uint32] *)
Definition indexPerEpoch (timeslotPerEpoch i : Z) : Z :=
  uint32 (timeslotPerEpoch - i) `mod` TimeslotsPerEpoch.

(** One turn of the loop that fills [newAccumulationQueue]. *)
Definition fill_slot (timeslotPerEpoch elapsed : Z) (queue : list (list QueuedReport))
    (queuedWorkReports : list QueuedReport) (lastAccumulation : gset Hash)
    (newQueue : list (list QueuedReport)) (i : Z) : list (list QueuedReport) :=
  let index := Z.to_nat (indexPerEpoch timeslotPerEpoch i) in
  if i =? 0 then <[index := updateQueue queuedWorkReports lastAccumulation]> newQueue
  else if (1 <=? i) && (i <? elapsed) then <[index := []]> newQueue
  else if elapsed <=? i then
    <[index := updateQueue (queue !!! index) lastAccumulation]> newQueue
  else newQueue.

Definition newAccumulationQueue (timeslotPerEpoch elapsed : Z) (queue : list (list QueuedReport))
    (queuedWorkReports : list QueuedReport) (lastAccumulation : gset Hash)
  : list (list QueuedReport) :=
  foldl (fill_slot timeslotPerEpoch elapsed queue queuedWorkReports lastAccumulation)
    (replicate (Z.to_nat TimeslotsPerEpoch) []) (seqZ 0 TimeslotsPerEpoch).

(** [max(GT, GA * C + the gas of the privileged services)] *)
Definition accumulationGasLimit (amountOfGas : gmap Z Z) : Z :=
  let privSvcGas := map_fold (λ _ gas acc, uint64 (acc + gas)) 0 amountOfGas in
  Z.max TotalGasAccumulation (uint64 (MaxAllocatedGasAccumulation * TotalNumberOfCores + privSvcGas)).
