(* ===== verification/AccumulationRun.v ===== *)
(** * Accumulation: the queue and interleavings

    The queue as an algebra of updates, the slots of the new queue and the
    selection by gas; the critical sections of [ParallelDelta]'s goroutines run in
    any order the scheduler likes, as a step relation, and for given results every
    order gives one outcome. *)
From S2P Require Export JamSafety Accumulation.
From Stdlib Require Import Sorted.

(** ** The queue *)

(** [updateQueue] as a list comprehension. *)
Definition E_spec (r : list QueuedReport) (x : gset Hash) : list QueuedReport :=
  wd ← r; if bool_decide (package_hash (queued_WorkReport wd) ∈ x) then []
          else [MkQueued (queued_WorkReport wd) (Dependencies wd ∖ x)].

Lemma updateQueue_spec r x : updateQueue r x = E_spec r x.
Proof.
  unfold updateQueue.
  enough (∀ acc, foldl (λ acc wd,
    if bool_decide (package_hash (queued_WorkReport wd) ∈ x) then acc
    else acc ++ [MkQueued (queued_WorkReport wd) (Dependencies wd ∖ x)]) acc r =
    acc ++ E_spec r x) as H by apply (H []).
  induction r as [|wd r IH]; intros acc; simpl; [by rewrite app_nil_r|].
  rewrite IH. case_bool_decide; [done|]. by rewrite <- app_assoc.
Qed.

Lemma updateQueue_cons wd r x :
  updateQueue (wd :: r) x =
  (if bool_decide (package_hash (queued_WorkReport wd) ∈ x) then []
   else [MkQueued (queued_WorkReport wd) (Dependencies wd ∖ x)]) ++ updateQueue r x.
Proof. by rewrite !updateQueue_spec. Qed.

Lemma updateQueue_app r r' x : updateQueue (r ++ r') x = updateQueue r x ++ updateQueue r' x.
Proof. rewrite !updateQueue_spec. unfold E_spec. apply bind_app. Qed.

Lemma updateQueue_union r x y : updateQueue (updateQueue r x) y = updateQueue r (x ∪ y).
Proof.
  induction r as [|wd r IH]; [done|]. rewrite !updateQueue_cons, updateQueue_app, IH. f_equal.
  case_bool_decide as Hx.
  - rewrite bool_decide_true by set_solver. done.
  - rewrite updateQueue_cons. simpl. case_bool_decide as Hy.
    + rewrite bool_decide_true by set_solver. done.
    + rewrite bool_decide_false by set_solver. simpl. f_equal. f_equal. set_solver.
Qed.

Lemma updateQueue_elem r x wd :
  wd ∈ updateQueue r x →
  (package_hash (queued_WorkReport wd) ∉ x) ∧ (Dependencies wd ## x) ∧
  ∃ wd0, wd0 ∈ r ∧ queued_WorkReport wd0 = queued_WorkReport wd ∧
         Dependencies wd = Dependencies wd0 ∖ x.
Proof.
  rewrite updateQueue_spec. unfold E_spec. intros (wd0 & Hin & H0)%list_elem_of_bind.
  case_bool_decide as Hx; [by apply elem_of_nil in Hin|].
  apply list_elem_of_singleton in Hin as ->. simpl. split_and!; [done|set_solver|].
  by exists wd0.
Qed.

Lemma getWorkPackageHashes_spec ws : getWorkPackageHashes ws = list_to_set (package_hash <$> ws).
Proof.
  unfold getWorkPackageHashes. rewrite <- (union_empty_r_L (list_to_set _)).
  generalize (∅ : gset Hash). induction ws as [|w ws IH]; intros acc; simpl; [set_solver|].
  rewrite IH. set_solver.
Qed.

Lemma flattenAccumulationHistory_spec hs : flattenAccumulationHistory hs = ⋃ hs.
Proof.
  unfold flattenAccumulationHistory. rewrite <- (union_empty_r_L (⋃ hs)).
  generalize (∅ : gset Hash). induction hs as [|h hs IH]; intros acc; simpl; [set_solver|].
  rewrite IH. set_solver.
Qed.

(** Updating a queue by the packages of its own reports empties it. *)
Lemma updateQueue_own r : updateQueue r (getWorkPackageHashes (queued_WorkReport <$> r)) = [].
Proof.
  destruct (updateQueue r _) as [|wd q] eqn:E; [done|]. exfalso.
  destruct (updateQueue_elem r (getWorkPackageHashes (queued_WorkReport <$> r)) wd)
    as (Hn & _ & wd0 & Hin & Heq & _); [rewrite E; by constructor|].
  apply Hn. rewrite getWorkPackageHashes_spec, elem_of_list_to_set, <- Heq.
  by apply list_elem_of_fmap_2, list_elem_of_fmap_2.
Qed.

Lemma accumulationPriority_empty q calls :
  (2 ≤ calls)%nat → accumulationPriority calls q = Some [].
Proof.
  destruct calls as [|[|calls]]; [lia..|]. intros _. cbn [accumulationPriority].
  rewrite updateQueue_own. by destruct (len _ =? 0).
Qed.

(** The reports taken at once and those that wait: together all of them. *)
Lemma splitReports_spec ws :
  splitReports ws = (filter (λ w, has_dependencies w = false) ws,
                     getWorkReportDependencies <$> filter (λ w, has_dependencies w = true) ws).
Proof.
  unfold splitReports.
  assert (∀ imm deps, foldl (λ '(imm, deps) w, if has_dependencies w
      then (imm, deps ++ [getWorkReportDependencies w]) else (imm ++ [w], deps)) (imm, deps) ws =
    (imm ++ filter (λ w, has_dependencies w = false) ws,
     deps ++ (getWorkReportDependencies <$> filter (λ w, has_dependencies w = true) ws))) as H;
    [|by rewrite H].
  induction ws as [|w ws IH]; intros imm deps; simpl; [by rewrite !app_nil_r|].
  rewrite !filter_cons. destruct (has_dependencies w) eqn:E; rewrite IH.
  - rewrite decide_False, decide_True by done. simpl. by rewrite <- app_assoc.
  - rewrite decide_True, decide_False by done. by rewrite <- app_assoc.
Qed.

(** ** The slots of the new queue *)

Section slots.
Context (m elapsed : Z) (queue : list (list QueuedReport)) (queued : list QueuedReport)
  (last : gset Hash).

(** What turn [i] writes. *)
Definition slot_value (i : Z) : list QueuedReport :=
  if i =? 0 then updateQueue queued last
  else if i <? elapsed then []
  else updateQueue (queue !!! Z.to_nat (indexPerEpoch m i)) last.

Lemma fill_slot_spec q i : 0 ≤ i →
  fill_slot m elapsed queue queued last q i =
  <[Z.to_nat (indexPerEpoch m i) := slot_value i]> q.
Proof.
  intros Hi. unfold fill_slot, slot_value. destruct (i =? 0) eqn:E0; [done|].
  replace (1 <=? i) with true by lia. destruct (i <? elapsed) eqn:E1; [done|].
  by replace (elapsed <=? i) with true by lia.
Qed.

Lemma fill_slots_length turns q :
  Forall (λ i, 0 ≤ i) turns →
  length (foldl (fill_slot m elapsed queue queued last) q turns) = length q.
Proof.
  intros H. revert q. induction H as [|i turns Hi _ IH]; intros q; simpl; [done|].
  by rewrite IH, fill_slot_spec, length_insert.
Qed.

(** Turns that write elsewhere leave a slot alone. *)
Lemma fill_slots_other turns q (j : nat) :
  Forall (λ i, 0 ≤ i ∧ Z.to_nat (indexPerEpoch m i) ≠ j) turns →
  foldl (fill_slot m elapsed queue queued last) q turns !! j = q !! j.
Proof.
  intros H. revert q. induction H as [|i turns [Hi Hj] _ IH]; intros q; simpl; [done|].
  by rewrite IH, fill_slot_spec, list_lookup_insert_ne.
Qed.

(** The last turn that writes a slot decides it. *)
Lemma fill_slots_last i n1 n2 :
  seqZ 0 TimeslotsPerEpoch = n1 ++ i :: n2 → 0 ≤ i → Forall (λ k, 0 ≤ k) n1 →
  Forall (λ k, 0 ≤ k ∧ indexPerEpoch m k ≠ indexPerEpoch m i) n2 →
  newAccumulationQueue m elapsed queue queued last !! Z.to_nat (indexPerEpoch m i) =
  Some (slot_value i).
Proof.
  intros Hseq Hi Hn1 Hn2. unfold newAccumulationQueue. rewrite Hseq, foldl_app. cbn [foldl].
  rewrite fill_slots_other.
  - rewrite fill_slot_spec by done. apply list_lookup_insert_eq.
    rewrite fill_slots_length, length_replicate by done.
    assert (0 ≤ indexPerEpoch m i < TimeslotsPerEpoch) by (by apply Z.mod_pos_bound). lia.
  - eapply Forall_impl; [exact Hn2|]. intros k [Hk Hne]. split; [done|]. intros E. apply Hne.
    assert (0 ≤ indexPerEpoch m i) by (by apply Z.mod_pos_bound).
    assert (0 ≤ indexPerEpoch m k) by (by apply Z.mod_pos_bound). lia.
Qed.
End slots.

(** The slot of turn [i]: past the block's phase the [uint32] difference wraps,
    and 2^32 is 496 modulo the length of an epoch. *)
Lemma indexPerEpoch_spec m i :
  0 ≤ m < TimeslotsPerEpoch → 0 ≤ i < TimeslotsPerEpoch →
  indexPerEpoch m i = if i <=? m then m - i else (m - i + 496) `mod` TimeslotsPerEpoch.
Proof.
  unfold indexPerEpoch, uint32, wrapU, TimeslotsPerEpoch. intros Hm Hi.
  destruct (i <=? m) eqn:E; [rewrite (Z.mod_small (m - i) (2 ^ 32)), Z.mod_small; lia|].
  replace ((m - i) `mod` 2 ^ 32) with (m - i + 496 + 7158278 * 600).
  - by rewrite Z.mod_add.
  - symmetry. rewrite <- (Z.mod_add _ 1), Z.mod_small; lia.
Qed.

Lemma seqZ_split a n i : a ≤ i < a + n → seqZ a n = seqZ a (i - a) ++ i :: seqZ (i + 1) (a + n - i - 1).
Proof.
  intros H. replace n with ((i - a) + (a + n - i)) at 1 by lia.
  rewrite seqZ_app by lia. f_equal. rewrite seqZ_cons by lia. do 2 f_equal; lia.
Qed.

Lemma seqZ_Forall (P : Z → Prop) a n : (∀ i, a ≤ i < a + n → P i) → Forall P (seqZ a n).
Proof. intros H. apply Forall_forall. intros i Hi%elem_of_seqZ. by apply H. Qed.

Lemma newAccumulationQueue_length m elapsed queue queued last :
  length (newAccumulationQueue m elapsed queue queued last) = Z.to_nat TimeslotsPerEpoch.
Proof.
  unfold newAccumulationQueue. rewrite fill_slots_length, length_replicate; [done|].
  apply seqZ_Forall. lia.
Qed.

(** ** Selection by gas *)

Lemma reports_within_le limit total ws : (reports_within limit total ws ≤ length ws)%nat.
Proof.
  revert total. induction ws as [|w ws IH]; intros total; simpl; [done|].
  destruct (_ <? _); [lia|]. specialize (IH (uint64 (total + report_gas w))). lia.
Qed.

(** The gas of reports together, as [uint64] sums. *)
Definition reports_gas (total : Z) (ws : list WorkReport) : Z :=
  foldl (λ g w, uint64 (g + report_gas w)) total ws.

(** The selected prefix fits the limit, and the next report would not. *)
Lemma reports_within_fits limit total ws k :
  (0 < k ≤ reports_within limit total ws)%nat →
  reports_gas total (take k ws) ≤ limit.
Proof.
  revert total k. induction ws as [|w ws IH]; intros total k; simpl; [lia|].
  destruct (_ <? _) eqn:E; [lia|]. intros Hk. destruct k as [|k]; [lia|]. simpl.
  destruct k as [|k]; [simpl; lia|]. unfold reports_gas in *. simpl. apply (IH _ (S k)). lia.
Qed.

Lemma reports_within_next limit total ws w :
  ws !! reports_within limit total ws = Some w →
  limit < uint64 (reports_gas total (take (reports_within limit total ws) ws) + report_gas w).
Proof.
  revert total. induction ws as [|w' ws IH]; intros total; simpl; [done|].
  destruct (_ <? _) eqn:E; simpl; [intros [= ->]; unfold reports_gas; simpl; lia|].
  intros H. unfold reports_gas in *. simpl. by apply IH.
Qed.

(** ** Interleavings *)

(** Transfers reach the accounts per receiver and in order of the sender; what
    matters of their order is the order among those of one sender. *)
Definition transfers_equiv (t t' : list DeferredTransfer) : Prop :=
  ∀ s, filter (λ x, SenderServiceIndex x = s) t = filter (λ x, SenderServiceIndex x = s) t'.

#[global] Instance transfers_equiv_equivalence : Equivalence transfers_equiv.
Proof. split; [by intros ??|by intros ????|]. intros t u v H1 H2 s. by rewrite H1. Qed.

#[global] Instance transfers_app_proper :
  Proper (transfers_equiv ==> transfers_equiv ==> transfers_equiv) app.
Proof. intros t t' Ht u u' Hu s. by rewrite !filter_app, Ht, Hu. Qed.

Section merge_equiv.
Context {A : Type}.

(** Two merged states the rest of [ParallelDelta] cannot tell apart. *)
Record merge_equiv (a b : merge_state A) : Prop := MkMergeEquiv {
  merge_gas : totalGasUsed a = totalGasUsed b;
  merge_transfers : transfers_equiv (allTransfers a) (allTransfers b);
  merge_pairs : accumHashPairs a ≡ₚ accumHashPairs b;
  merge_services : allResultServices a = allResultServices b;
  merge_exclude : resultServicesExclude a = resultServicesExclude b;
}.

#[global] Instance merge_equiv_equivalence : Equivalence merge_equiv.
Proof.
  split; [by intros a|by intros a b []|].
  intros a b c [H1 H2 H3 H4 H5] [H1' H2' H3' H4' H5']. split; etransitivity; eassumption.
Qed.

#[global] Instance merge_service_proper initial s r :
  Proper (merge_equiv ==> merge_equiv) (merge_service initial s r).
Proof.
  intros a b [H1 H2 H3 H4 H5]. destruct r as [[[st tr] h] g]. split; simpl.
  - by rewrite H1.
  - by rewrite H2.
  - by rewrite H3.
  - by rewrite H4.
  - by rewrite H5.
Qed.

End merge_equiv.

(** The accounts a service's accumulation may write: its own and new ones. *)
Definition kept_services {A} (initial : gmap Z A) (s : Z) (r : Invocation A) : gmap Z A :=
  filter (λ kv, kv.1 = s ∨ initial !! kv.1 = None) r.1.1.1.

Definition transfers_of {A} (r : Invocation A) : list DeferredTransfer := r.1.1.2.

Section interleaving.
Context {A : Type} (initial : gmap Z A) (result : Z → Invocation A).

(** A pending goroutine takes the mutex and merges. *)
Inductive merge_step : gset Z * merge_state A → gset Z * merge_state A → Prop :=
| MergeStep s pending m :
    s ∈ pending →
    merge_step (pending, m) (pending ∖ {[s]}, merge_service initial s (result s) m).

Definition merge_in_order (m : merge_state A) (order : list Z) : merge_state A :=
  foldl (λ m s, merge_service initial s (result s) m) m order.

(** A run to completion is an order of the services. *)
Lemma merge_steps_order c c' :
  rtc merge_step c c' → c'.1 = ∅ →
  ∃ order, order ≡ₚ elements c.1 ∧ c'.2 = merge_in_order c.2 order.
Proof.
  induction 1 as [[P m]|c1 c2 c3 H12 _ IH]; intros E; simpl in *.
  - subst. exists []. by rewrite elements_empty.
  - destruct H12 as [s P m Hs]. destruct (IH E) as (order & Hp & ->). simpl in *.
    exists (s :: order). split; [|done]. rewrite Hp.
    rewrite (union_difference_singleton_L s P Hs) at 2. symmetry.
    rewrite elements_union_singleton by set_solver. done.
Qed.

(** Every order is a run. *)
Lemma merge_order_steps order pending m :
  NoDup order → pending = list_to_set order →
  rtc merge_step (pending, m) (∅, merge_in_order m order).
Proof.
  revert pending m. induction order as [|s order IH]; intros pending m Hnd ->; [done|].
  inversion Hnd as [|?? Hs Hnd']; subst. eapply rtc_l; [apply (MergeStep s); set_solver|].
  apply IH; [done|]. assert (s ∉@{gset Z} list_to_set order) by (by rewrite elem_of_list_to_set).
  set_solver.
Qed.

Lemma transfers_comm t t' s s' :
  Forall (λ t, SenderServiceIndex t = s) t → Forall (λ t, SenderServiceIndex t = s') t' → s ≠ s' →
  transfers_equiv (t ++ t') (t' ++ t).
Proof.
  intros Ht Ht' Hne u. rewrite !filter_app. destruct (decide (u = s)) as [->|Hu].
  - rewrite (filter_none _ t'); [by rewrite app_nil_r|].
    eapply Forall_impl; [exact Ht'|]. naive_solver.
  - rewrite (filter_none _ t); [by rewrite app_nil_r|].
    eapply Forall_impl; [exact Ht|]. naive_solver.
Qed.

Context (services : gset Z).
(** What the goroutines owe each other: services that create accounts create
    different ones, and the transfers of a service name it as their sender. *)
Hypothesis created_disjoint : ∀ s s', s ∈ services → s' ∈ services → s ≠ s' →
  dom (kept_services initial s (result s)) ## dom (kept_services initial s' (result s')).
Hypothesis own_transfers : ∀ s, s ∈ services →
  Forall (λ t, SenderServiceIndex t = s) (transfers_of (result s)).

(** Two critical sections commute. *)
Lemma merge_service_comm s s' m :
  s ∈ services → s' ∈ services → s ≠ s' →
  merge_equiv (merge_service initial s (result s) (merge_service initial s' (result s') m))
              (merge_service initial s' (result s') (merge_service initial s (result s) m)).
Proof.
  intros Hs Hs' Hne.
  pose proof (created_disjoint s s' Hs Hs' Hne) as Hd.
  pose proof (own_transfers s Hs) as Ht. pose proof (own_transfers s' Hs') as Ht'.
  destruct (result s) as [[[st tr] h] g], (result s') as [[[st' tr'] h'] g'].
  unfold kept_services, transfers_of in *. simpl in *. split; simpl.
  - unfold uint64, wrapU. rewrite !Zplus_mod_idemp_l. f_equal. lia.
  - rewrite <- !app_assoc. apply transfers_app_proper; [done|].
    by apply (transfers_comm _ _ s' s).
  - rewrite <- !app_assoc. apply Permutation_app_head, Permutation_app_comm.
  - rewrite !(assoc_L (∪)). f_equal. apply map_union_comm. by apply map_disjoint_dom_2.
  - set_solver.
Qed.

(** What a service may write arrives, and nobody overwrites it. *)
Lemma merge_in_order_kept order m k s a :
  s ∈ order → (∀ s, s ∈ order → s ∈ services) → NoDup order →
  kept_services initial s (result s) !! k = Some a →
  allResultServices (merge_in_order m order) !! k = Some a.
Proof.
  intros Hs Hin Hnd Hk. assert (∀ s' m, s' ∈ services → allResultServices m !! k = Some a →
    allResultServices (merge_service initial s' (result s') m) !! k = Some a) as Hkeep.
  { intros s' m' Hs' Hm. destruct (decide (s' = s)) as [->|Hne].
    - unfold kept_services in Hk. destruct (result s) as [[[st tr] h] g]. simpl in *.
      by apply lookup_union_Some_l.
    - assert (kept_services initial s' (result s') !! k = None) as Hn.
      { apply not_elem_of_dom. intros Hd. apply (created_disjoint s' s Hs' (Hin _ Hs) Hne k Hd).
        by apply elem_of_dom_2 in Hk. }
      unfold kept_services in Hn. destruct (result s') as [[[st tr] h] g]. simpl in *.
      by rewrite lookup_union_r. }
  revert m. induction order as [|s' order IH]; intros m; simpl; [by apply not_elem_of_nil in Hs|].
  inversion Hnd as [|? ? Hn Hnd']; subst. apply elem_of_cons in Hs as [<-|Hs].
  - assert (allResultServices (merge_service initial s (result s) m) !! k = Some a) as Hm.
    { unfold kept_services in Hk. destruct (result s) as [[[st tr] h] g]. simpl in *.
      by apply lookup_union_Some_l. }
    clear IH Hnd Hnd' Hn. revert Hm. generalize (merge_service initial s (result s) m).
    induction order as [|s' order IH]; intros m' Hm; simpl; [done|]. apply IH; [set_solver|].
    apply Hkeep; [set_solver|done].
  - apply IH; [done|set_solver|done].
Qed.

Lemma merge_in_order_unkept order m k :
  (∀ s, s ∈ order → kept_services initial s (result s) !! k = None) →
  allResultServices (merge_in_order m order) !! k = allResultServices m !! k.
Proof.
  revert m. induction order as [|s order IH]; intros m Hn; simpl; [done|].
  rewrite IH by set_solver. specialize (Hn s ltac:(set_solver)). unfold kept_services in Hn.
  destruct (result s) as [[[st tr] h] g]. simpl in *. by rewrite lookup_union_r.
Qed.

Lemma merge_in_order_exclude order m k :
  k ∈ resultServicesExclude (merge_in_order m order) ↔
  k ∈ resultServicesExclude m ∨ ∃ s, s ∈ order ∧ k ∈ dom initial ∧ k ∉ dom (result s).1.1.1.
Proof.
  revert m. induction order as [|s order IH]; intros m; simpl.
  { split; [by left|]. intros [H|(s & Hs & _)]; [done|]. by apply not_elem_of_nil in Hs. }
  rewrite IH. assert (k ∈ resultServicesExclude (merge_service initial s (result s) m) ↔
    k ∈ resultServicesExclude m ∨ k ∈ dom initial ∧ k ∉ dom (result s).1.1.1) as ->.
  { destruct (result s) as [[[st tr] h] g]. simpl. rewrite elem_of_union, elem_of_difference. tauto. }
  setoid_rewrite elem_of_cons. split.
  - intros [[H|H]|(s' & Hs' & H)]; [by left|right; exists s; auto|right; exists s'; auto].
  - intros [H|(s' & [->|Hs'] & H)]; [by left; left|by left; right|right; by exists s'].
Qed.

(** The services after the merge. *)
Lemma merged_lookup order k :
  (∀ s, s ∈ order ↔ s ∈ services) → NoDup order →
  let m := merge_in_order merge_empty order in
  ((∃ s, s ∈ services ∧ k ∈ dom initial ∧ k ∉ dom (result s).1.1.1) →
   merged_services initial m !! k = None) ∧
  ((∀ s, s ∈ services → k ∈ dom initial → k ∈ dom (result s).1.1.1) →
   (∀ s a, s ∈ services → kept_services initial s (result s) !! k = Some a →
      merged_services initial m !! k = Some a) ∧
   ((∀ s, s ∈ services → kept_services initial s (result s) !! k = None) →
      merged_services initial m !! k = initial !! k)).
Proof.
  intros Hin Hnd m. unfold merged_services. pose proof (merge_in_order_exclude order merge_empty k) as Hx.
  fold m in Hx. split.
  - intros (s & Hs & H1 & H2). apply map_lookup_filter_None. right. intros a _ Hn. apply Hn. simpl.
    apply Hx. right. exists s. by rewrite Hin.
  - intros Hall. assert (k ∉ resultServicesExclude m) as Hk.
    { rewrite Hx. intros [H|(s & Hs & H1 & H2)]; [set_solver|]. apply H2, Hall; [by apply Hin|done]. }
    split.
    + intros s a Hs Ha. apply map_lookup_filter_Some. split; [|done]. apply lookup_union_Some_l.
      apply (merge_in_order_kept order merge_empty k s a); [by apply Hin|naive_solver|done|done].
    + intros Hn. rewrite map_lookup_filter, lookup_union_r.
      * by destruct (initial !! k); simpl; rewrite ?option_guard_True by done.
      * unfold m. rewrite merge_in_order_unkept; [done|]. intros s Hs. apply Hn. by apply Hin.
Qed.

#[local] Instance merge_in_order_proper :
  Proper (merge_equiv ==> eq ==> merge_equiv) merge_in_order.
Proof.
  intros m m' Hm order ? <-. revert m m' Hm.
  induction order as [|s order IH]; intros m m' Hm; simpl; [done|]. apply IH. by rewrite Hm.
Qed.

Lemma merge_in_order_perm order order' m :
  order ≡ₚ order' → NoDup order → (∀ s, s ∈ order → s ∈ services) →
  merge_equiv (merge_in_order m order) (merge_in_order m order').
Proof.
  intros Hp. revert m. induction Hp as [|s l l' Hp IH|s s' l|l l' l'' H1 IH1 H2 IH2];
    intros m Hnd Hin; simpl.
  - done.
  - inversion Hnd; subst. apply IH; [done|]. set_solver.
  - inversion Hnd as [|?? Hn _]; subst. apply merge_in_order_proper; [|done].
    apply merge_service_comm; set_solver.
  - rewrite IH1 by done. apply IH2; [by rewrite <- H1|]. intros s. rewrite <- H1. apply Hin.
Qed.
End interleaving.

(** ** Transfers in order of the sender *)

Section stable.
Context {A : Type} (key : A → Z).
Let less (a b : A) : bool := key a <? key b.

Lemma insert_by_filter x l s :
  filter (λ y, key y = s) (insert_by less x l) = filter (λ y, key y = s) (x :: l).
Proof.
  induction l as [|y l IH]; simpl; [done|]. unfold less at 1. destruct (key y <? key x) eqn:E; [|done].
  rewrite !filter_cons in *. rewrite IH. repeat case_decide; try done. lia.
Qed.

(** Sorting is stable. *)
Lemma sort_by_filter l s :
  filter (λ y, key y = s) (sort_by less l) = filter (λ y, key y = s) l.
Proof.
  induction l as [|x l IH]; [done|]. unfold sort_by in *. simpl. rewrite insert_by_filter.
  by rewrite !filter_cons, IH.
Qed.

Lemma insert_by_sorted x l :
  StronglySorted (λ a b, key a ≤ key b) l → StronglySorted (λ a b, key a ≤ key b) (insert_by less x l).
Proof.
  induction 1 as [|y l Hl IH Hy]; simpl; [repeat constructor|]. unfold less at 1.
  destruct (key y <? key x) eqn:E.
  - constructor; [done|]. rewrite insert_by_perm. constructor; [lia|done].
  - constructor; [by constructor|]. constructor; [lia|].
    eapply Forall_impl; [exact Hy|]. simpl. lia.
Qed.

Lemma sort_by_sorted l : StronglySorted (λ a b, key a ≤ key b) (sort_by less l).
Proof. induction l as [|x l IH]; [constructor|]. by apply insert_by_sorted. Qed.

(** A sorted list is given by the elements of every key. *)
Lemma sorted_filters_eq l k :
  StronglySorted (λ a b, key a ≤ key b) l → StronglySorted (λ a b, key a ≤ key b) k →
  (∀ s, filter (λ y, key y = s) l = filter (λ y, key y = s) k) → l = k.
Proof.
  intros Hl. revert k. induction Hl as [|x l Hl IH Hx]; intros k Hk Hf.
  - destruct k as [|y k]; [done|]. specialize (Hf (key y)). by rewrite filter_cons_True in Hf.
  - destruct Hk as [|y k Hk Hy].
    { specialize (Hf (key x)). by rewrite filter_cons_True in Hf. }
    assert (key x = key y) as Hxy.
    { rewrite Forall_forall in Hx, Hy.
      assert (x ∈ y :: k) as Hxk.
      { apply (proj1 (list_elem_of_filter (λ z, key z = key x) _ _)). rewrite <- Hf.
        rewrite filter_cons_True by done. constructor. }
      assert (y ∈ x :: l) as Hyl.
      { apply (proj1 (list_elem_of_filter (λ z, key z = key y) _ _)). rewrite Hf.
        rewrite filter_cons_True by done. constructor. }
      apply elem_of_cons in Hxk as [->|Hxk]; [done|]. apply elem_of_cons in Hyl as [->|Hyl]; [done|].
      specialize (Hx y Hyl). specialize (Hy x Hxk). lia. }
    pose proof (Hf (key x)) as Hfx. rewrite !filter_cons_True in Hfx by done.
    injection Hfx as <- _. f_equal. apply IH; [done|]. intros s. specialize (Hf s).
    rewrite !filter_cons in Hf. by case_decide; simplify_eq.
Qed.
End stable.

#[global] Instance transfersForReceiver_proper :
  Proper (transfers_equiv ==> eq ==> eq) transfersForReceiver.
Proof.
  intros t t' Ht s ? <-. unfold transfersForReceiver.
  apply (sorted_filters_eq SenderServiceIndex); [apply sort_by_sorted..|].
  intros u. rewrite !(sort_by_filter SenderServiceIndex). specialize (Ht u).
  assert (∀ l : list DeferredTransfer,
    filter (λ x, SenderServiceIndex x = u) (filter (λ x, ReceiverServiceIndex x = s) l) =
               filter (λ x, ReceiverServiceIndex x = s) (filter (λ x, SenderServiceIndex x = u) l))
    as Hc; [|by rewrite !Hc, Ht].
  intros l. rewrite !list_filter_filter. apply list_filter_iff. naive_solver.
Qed.

(** The hash pairs, one per service, are sorted by service. *)
Lemma sort_pairs_perm p p' :
  p ≡ₚ p' → NoDup (map fst p) → sort_pairs p = sort_pairs p'.
Proof.
  intros. apply (sort_by_perm_eq fst _ (λ _, True)); try done; intros; simpl in *; try lia.
  by apply Forall_true.
Qed.
