(* ===== verification/Safrole.v ===== *)
(** * Safrole

    [internal/safrole] and the ticket part of [internal/statetransition]: the
    validation of submitted tickets, the accumulator, the entropy pool, and the
    change of epoch with its choice of sealing keys.  The ring VRF is code behind
    a foreign-function interface: its three operations are arguments. *)
From S2P Require Export Blocks.

Definition TicketSealContext : list Z := ascii_bytes "jam_ticket_seal".

(** [validator.ValidatorState] with its safrole part. *)
Record Validators : Type := MkValidators {
  keys_of : ValidatorState;
  SafroleOf : SafroleState;
}.

Definition EntropyPool : Type := list Hash.

Definition entropy (pool : EntropyPool) (i : nat) : Hash := default ZeroHash (pool !! i).

Record SafroleInput : Type := MkSafroleInput {
  in_TimeSlot : Z;
  in_Tickets : list TicketProof;
  in_Entropy : Hash;
  in_Offenders : list (list Z);
}.

Record SafroleOutput : Type := MkSafroleOutput {
  EpochMark : option EpochMarker;
  WinningTicketMark : option (list Ticket);
}.

(** [OutsideInSequence]: [left] and [right] are the next indices. *)
Fixpoint outside_in {E} (tickets : list Ticket) (turns : nat) (i left right : Z)
  : res E (list Ticket) :=
  match turns with
  | O => Ok []
  | S turns =>
      if i `mod` 2 =? 0 then
        let! t := go_index tickets left in
        let! rest := outside_in tickets turns (i + 1) (left + 1) right in
        Ok (t :: rest)
      else
        let! t := go_index tickets right in
        let! rest := outside_in tickets turns (i + 1) left (right - 1) in
        Ok (t :: rest)
  end.
Definition OutsideInSequence {E} (tickets : list Ticket) : res E (list Ticket) :=
  outside_in tickets (length tickets) 0 0 (len tickets - 1).

(** The conversion of a slice to [[600]T] panics when it is shorter. *)
Definition epoch_array {E A} (l : list A) : res E (list A) :=
  if len l <? TimeslotsPerEpoch then RuntimePanic else Ok (take (Z.to_nat TimeslotsPerEpoch) l).

Section safrole.
Context (HashData : list Z → Hash).

(** [bandersnatch.NewRingVerifier] returns a nil pointer when this is false;
    [Commitment] and [Verify] of the ring of the given keys. *)
Context (RingOk : list (list Z) → bool).
Context (Commitment : list (list Z) → option (list Z)).
Context (Verify : list (list Z) → list Z → list Z → list Z → list Z → option Hash).

(** Reading the Bandersnatch keys follows the pointers. *)
Fixpoint bandersnatch_keys {E} (validators : ValidatorsData) : res E (list (list Z)) :=
  match validators with
  | [] => Ok []
  | vd :: validators =>
      let! vd := deref vd in
      let! rest := bandersnatch_keys validators in
      Ok (Bandersnatch vd :: rest)
  end.

(** [RingVerifier] with the callers' [defer ringVerifier.Free()], which reads a
    field of the nil pointer when the verifier could not be made. *)
Definition RingVerifier {E} (state : SafroleState) : res E (list (list Z)) :=
  let! ring := bandersnatch_keys (NextValidators state) in
  if RingOk ring then Ok ring else RuntimePanic.

Definition CalculateRingCommitment (state : SafroleState) : res st_error (list Z) :=
  let! ring := RingVerifier state in
  match Commitment ring with
  | None => Err (StErr "error getting ring commitment")
  | Some c => Ok c
  end.

(** One key: the hash of the entropy and [i] gives the index. *)
Definition fallback_key (r : Hash) (currentValidators : ValidatorsData) (i : Z)
  : res st_error (list Z) :=
  let! iBytes := map_err StJam (Marshal (TPrim false Uint32) (VNum i)) in
  let! index := map_err StJam (Unmarshal (TPrim false Uint32) (HashData (r ++ iBytes)) (VNum 0)) in
  let! n := (match index with VNum n => Ok n | _ => RuntimePanic end) in
  let! vd := go_index currentValidators (n `mod` uint32 (len currentValidators)) in
  let! vd := deref vd in
  Ok (Bandersnatch vd).

Fixpoint fallback_keys (r : Hash) (currentValidators : ValidatorsData) (is_ : list Z)
  : res st_error (list (list Z)) :=
  match is_ with
  | [] => Ok []
  | i :: is_ =>
      let! k := fallback_key r currentValidators i in
      let! rest := fallback_keys r currentValidators is_ in
      Ok (k :: rest)
  end.

Definition SelectFallbackKeys (r : Hash) (currentValidators : ValidatorsData)
  : res st_error (list (list Z)) :=
  fallback_keys r currentValidators (seqZ 0 TimeslotsPerEpoch).

(** ** Tickets *)

(** The loop over the proofs of [calculateTickets]. *)
Fixpoint verify_tickets (ring : list (list Z)) (commitment : list Z) (eta2 : Hash)
    (existingIds : gset Hash) (ticketProofs : list TicketProof) : res st_error (list Ticket) :=
  match ticketProofs with
  | [] => Ok []
  | tp :: ticketProofs =>
      if MaxTicketAttempts <=? proof_EntryIndex tp then Err (StErr "bad ticket attempt")
      else
        let vrfInputData := TicketSealContext ++ eta2 ++ [proof_EntryIndex tp] in
        match Verify ring vrfInputData [] commitment (Proof_ tp) with
        | None => Err (StErr "bad ticket proof")
        | Some outputHash =>
            if bool_decide (outputHash ∈ existingIds) then Err (StErr "duplicate ticket")
            else
              let! rest := verify_tickets ring commitment eta2 existingIds ticketProofs in
              Ok (MkTicket outputHash (proof_EntryIndex tp) :: rest)
        end
  end.

(** The loop that checks the order of neighbours. *)
Fixpoint tickets_ordered (tickets : list Ticket) : bool :=
  match tickets with
  | [] => true
  | t :: rest =>
      match rest with
      | [] => true
      | u :: _ => bytes_less (Identifier t) (Identifier u) && tickets_ordered rest
      end
  end.

Definition ticket_ids (tickets : list Ticket) : gset Hash := list_to_set (Identifier <$> tickets).

Definition calculateTickets (safstate : SafroleState) (entropyPool : EntropyPool)
    (ticketProofs : list TicketProof) : res st_error (list Ticket) :=
  if MaxTicketExtrinsicSize <? len ticketProofs then Err (StErr "too many tickets")
  else
    let! ring := RingVerifier safstate in
    let! tickets := verify_tickets ring (RingCommitment safstate) (entropy entropyPool 2)
                      (ticket_ids (TicketAccumulator safstate)) ticketProofs in
    if tickets_ordered tickets then Ok tickets else Err (StErr "bad ticket order").

Definition rotateEntropyPool (pool : EntropyPool) : EntropyPool :=
  match pool with
  | [p0; p1; p2; p3] => [p0; p0; p1; p2]
  | _ => pool
  end.

Definition calculateNewEntropyPool (currentTimeslot newTimeslot : Z) (entropyInput : Hash)
    (entropyPool : EntropyPool) : EntropyPool :=
  let newEntropyPool :=
    if Timeslot_ToEpoch newTimeslot >? Timeslot_ToEpoch currentTimeslot
    then rotateEntropyPool entropyPool else entropyPool in
  <[0%nat := HashData (entropy entropyPool 0 ++ entropyInput)]> newEntropyPool.

(** [sort.Slice] by identifier. *)
Definition sort_tickets (tickets : list Ticket) : list Ticket :=
  sort_by (λ a b, bytes_less (Identifier a) (Identifier b)) tickets.

(** The accumulator with the submitted tickets; every one of them must be in it. *)
Definition accumulate_tickets (accumulator tickets : list Ticket) : res st_error (list Ticket) :=
  let sorted := sort_tickets (accumulator ++ tickets) in
  let allTickets :=
    if TimeslotsPerEpoch <? len sorted then take (Z.to_nat TimeslotsPerEpoch) sorted else sorted in
  if forallb (λ t, bool_decide (Identifier t ∈ ticket_ids allTickets)) tickets
  then Ok allTickets else Err (StErr "useless ticket").

(** The tickets of a block: the new accumulator. *)
Definition process_tickets (safstate : SafroleState) (entropyPool : EntropyPool)
    (ticketProofs : list TicketProof) : res st_error (list Ticket) :=
  if 0 <? len ticketProofs then
    let! tickets := calculateTickets safstate entropyPool ticketProofs in
    accumulate_tickets (TicketAccumulator safstate) tickets
  else Ok (TicketAccumulator safstate).

(** The sealing keys of the new epoch. *)
Definition sealing_keys (preTimeSlot epoch preEpoch : Z) (ticketAccumulatorFull : bool)
    (accumulator : list Ticket) (newEntropyPool : EntropyPool) (newCurrent : ValidatorsData)
  : res st_error TicketsOrKeys :=
  if (epoch =? uint32 (preEpoch + 1)) && negb (IsTicketSubmissionPeriod preTimeSlot)
     && ticketAccumulatorFull
  then
    let! seq := OutsideInSequence accumulator in
    let! bodies := epoch_array seq in
    Ok (TicketsBodies bodies)
  else
    let! fallback := SelectFallbackKeys (entropy newEntropyPool 2) newCurrent in
    Ok (EpochKeys fallback).

(** The branch [epoch > preEpoch]. *)
Definition change_epoch (preTimeSlot epoch preEpoch : Z) (full : bool) (offenders : list (list Z))
    (entropyPool newEntropyPool : EntropyPool) (validatorState : Validators)
    (accumulator : list Ticket) : res st_error (Validators * EpochMarker) :=
  let keys := keys_of validatorState in
  let safrole := SafroleOf validatorState in
  let! next := map_err (λ _, StErr "") (NullifyOffenders (QueuedValidators keys) offenders) in
  let newKeys := MkValidatorState (NextValidators safrole) (CurrentValidators keys)
                   (QueuedValidators keys) in
  let! ringCommitment :=
    map_err (λ _, StErr "unable to calculate ring commitment")
      (CalculateRingCommitment (MkSafrole next accumulator (SealingKeySeries safrole)
                                  (RingCommitment safrole))) in
  let! seal := sealing_keys preTimeSlot epoch preEpoch full accumulator newEntropyPool
                 (CurrentValidators newKeys) in
  let! markerKeys := bandersnatch_keys next in
  Ok (MkValidators newKeys (MkSafrole next [] (Some seal) ringCommitment),
      MkEpochMarker (entropy entropyPool 0) (entropy entropyPool 1) markerKeys).

(** [UpdateSafroleState]; an error leaves pool and validators as they were. *)
Definition UpdateSafroleState (input : SafroleInput) (preTimeSlot : Z) (entropyPool : EntropyPool)
    (validatorState : Validators) : res st_error (EntropyPool * Validators * SafroleOutput) :=
  if in_TimeSlot input <=? preTimeSlot then Err (StErr "bad slot")
  else
    let nextTimeSlot := in_TimeSlot input in
    let newEntropyPool :=
      calculateNewEntropyPool preTimeSlot nextTimeSlot (in_Entropy input) entropyPool in
    if negb (IsTicketSubmissionPeriod nextTimeSlot) && (0 <? len (in_Tickets input))
    then Err (StErr "unexpected ticket")
    else
      let safrole := SafroleOf validatorState in
      let! accumulator := process_tickets safrole entropyPool (in_Tickets input) in
      let epoch := Timeslot_ToEpoch nextTimeSlot in
      let preEpoch := Timeslot_ToEpoch preTimeSlot in
      let ticketAccumulatorFull := len (TicketAccumulator safrole) =? TimeslotsPerEpoch in
      if epoch >? preEpoch then
        let! (newState, mark) :=
          change_epoch preTimeSlot epoch preEpoch ticketAccumulatorFull (in_Offenders input)
            entropyPool newEntropyPool validatorState accumulator in
        Ok (newEntropyPool, newState, MkSafroleOutput (Some mark) None)
      else
        let newState := MkValidators (keys_of validatorState)
          (MkSafrole (NextValidators safrole) accumulator (SealingKeySeries safrole)
             (RingCommitment safrole)) in
        if (epoch =? preEpoch) && IsWinningTicketMarkerPeriod nextTimeSlot preTimeSlot
           && ticketAccumulatorFull
        then
          let! winning := OutsideInSequence accumulator in
          let! mark := epoch_array winning in
          Ok (newEntropyPool, newState, MkSafroleOutput None (Some mark))
        else Ok (newEntropyPool, newState, MkSafroleOutput None None).
End safrole.
