(* ===== verification/SafroleProps.v ===== *)
(** * Safrole: lemmas *)
From S2P Require Export JamRoundtrip Safrole.
From Stdlib Require Import Sorted.

(** ** The outside-in order *)

Lemma go_index_nat {E A} (l : list A) i a : l !! i = Some a →
  (go_index l (Z.of_nat i) : res E A) = Ok a.
Proof. intros H. apply go_index_lookup; [lia|]. by rewrite Nat2Z.id. Qed.

(** The element at position [i] of the outside-in order of a list of [n]. *)
Definition outside_in_index (n i : nat) : nat :=
  if Nat.even i then Nat.div2 i else (n - 1 - Nat.div2 i)%nat.

Lemma outside_in_index_lt n i : (i < n)%nat → (outside_in_index n i < n)%nat.
Proof. intros ?. unfold outside_in_index. pose proof (Nat.div2_odd i).
  destruct (Nat.even i), (Nat.odd i); cbn [Nat.b2n] in *; lia. Qed.

Lemma outside_in_index_inj n i j :
  (i < n)%nat → (j < n)%nat → outside_in_index n i = outside_in_index n j → i = j.
Proof.
  unfold outside_in_index. intros Hi Hj.
  pose proof (Nat.div2_odd i). pose proof (Nat.div2_odd j).
  rewrite <- !Nat.negb_odd. destruct (Nat.odd i), (Nat.odd j); cbn [Nat.b2n negb] in *; lia.
Qed.

Lemma outside_in_spec {E} (l : list Ticket) turns i :
  (turns + i = length l)%nat →
  ∃ r, (outside_in l turns (Z.of_nat i) (Z.of_nat (Nat.div2 (S i)))
          (Z.of_nat (length l) - 1 - Z.of_nat (Nat.div2 i)) : res E (list Ticket)) = Ok r ∧
    length r = turns ∧
    ∀ k, (k < turns)%nat → r !! k = l !! outside_in_index (length l) (i + k).
Proof.
  revert i. induction turns as [|turns IH]; intros i Hi.
  { exists []. split_and!; [done|done|lia]. }
  destruct (IH (S i)) as (r & Hr & Hlen & Hl); [lia|].
  destruct (lookup_lt_is_Some_2 l (outside_in_index (length l) i)) as [t Ht];
    [apply outside_in_index_lt; lia|].
  exists (t :: r). split_and!; [|simpl; lia|].
  - cbn [outside_in]. pose proof (Nat.div2_odd i) as Ho. unfold outside_in_index in Ht.
    rewrite <- Nat.negb_odd in Ht.
    replace (Z.of_nat (S i)) with (Z.of_nat i + 1) in Hr by lia.
    change (Nat.div2 (S (S i))) with (S (Nat.div2 i)) in Hr. destruct (Nat.odd i) eqn:Ei; cbn [Nat.b2n negb] in Ho, Ht.
    + replace (Z.of_nat i `mod` 2 =? 0) with false.
      2:{ symmetry. apply Z.eqb_neq.
          replace (Z.of_nat i) with (1 + Z.of_nat (Nat.div2 i) * 2) by lia. by rewrite Z.mod_add. }
      replace (Z.of_nat (length l) - 1 - Z.of_nat (Nat.div2 i))
        with (Z.of_nat (length l - 1 - Nat.div2 i)) at 1 by lia.
      rewrite (go_index_nat _ _ _ Ht). cbn [rbind].
      assert (Nat.div2 (S i) = S (Nat.div2 i)) as Hs.
      { rewrite Ho at 1. replace (S (2 * Nat.div2 i + 1)) with (2 * S (Nat.div2 i))%nat by lia.
        apply Nat.div2_double. }
      rewrite Hs in *. replace (Z.of_nat (length l) - 1 - Z.of_nat (Nat.div2 i) - 1)
        with (Z.of_nat (length l) - 1 - Z.of_nat (S (Nat.div2 i))) by lia.
      by rewrite Hr.
    + replace (Z.of_nat i `mod` 2 =? 0) with true.
      2:{ symmetry. apply Z.eqb_eq.
          replace (Z.of_nat i) with (0 + Z.of_nat (Nat.div2 i) * 2) by lia. by rewrite Z.mod_add. }
      assert (Nat.div2 (S i) = Nat.div2 i) as Hs.
      { rewrite Ho at 1. replace (S (2 * Nat.div2 i + 0)) with (S (2 * Nat.div2 i)) by lia.
        apply Nat.div2_succ_double. }
      rewrite Hs in *. rewrite (go_index_nat _ _ _ Ht). cbn [rbind].
      replace (Z.of_nat (Nat.div2 i) + 1) with (Z.of_nat (S (Nat.div2 i))) by lia.
      by rewrite Hr.
  - intros [|k] Hk; [by rewrite Nat.add_0_r|]. simpl. rewrite Hl by lia. do 2 f_equal. lia.
Qed.

Lemma OutsideInSequence_spec {E} (l : list Ticket) :
  ∃ r, (OutsideInSequence l : res E (list Ticket)) = Ok r ∧ length r = length l ∧
    ∀ k, (k < length l)%nat → r !! k = l !! outside_in_index (length l) k.
Proof.
  unfold OutsideInSequence, len. destruct (@outside_in_spec E l (length l) 0) as (r & Hr & H); [lia|].
  simpl in Hr. rewrite Z.sub_0_r in Hr. by exists r.
Qed.

Lemma OutsideInSequence_perm {E} (l : list Ticket) :
  ∃ r, (OutsideInSequence l : res E (list Ticket)) = Ok r ∧ r ≡ₚ l.
Proof.
  destruct (@OutsideInSequence_spec E l) as (r & Hr & Hlen & Hl). exists r. split; [done|].
  apply Permutation_inj. split; [done|].
  exists (λ i, if decide (i < length l)%nat then outside_in_index (length l) i else i). split.
  - intros i j. pose proof (outside_in_index_lt (length l) i).
    pose proof (outside_in_index_lt (length l) j). repeat case_decide; try lia.
    by apply outside_in_index_inj.
  - intros i. case_decide; [by apply Hl|]. rewrite !lookup_ge_None_2; [done|lia..].
Qed.

(** ** Ticket lists in order of their identifiers *)

Definition before (a b : Ticket) : Prop := bytes_less (Identifier a) (Identifier b) = true.

#[export] Instance before_trans : Transitive before.
Proof. intros a b c. apply bytes_less_trans. Qed.

Definition ids_sorted (l : list Ticket) : Prop := StronglySorted before l.

Lemma ids_sorted_NoDup l : ids_sorted l → NoDup (Identifier <$> l).
Proof.
  induction 1 as [|t l _ IH Ht]; [constructor|]. rewrite fmap_cons. constructor; [|done].
  intros (u & Hu & Hin)%list_elem_of_fmap. rewrite Forall_forall in Ht. specialize (Ht u Hin).
  unfold before in Ht. by rewrite Hu, bytes_less_irrefl in Ht.
Qed.

Lemma tickets_ordered_sorted l : tickets_ordered l = true → ids_sorted l.
Proof.
  intros H. apply Sorted_StronglySorted; [exact before_trans|].
  induction l as [|t l IH]; [constructor|]. cbn [tickets_ordered] in H.
  destruct l as [|u l]; [repeat constructor|]. apply andb_prop in H as [Htu H].
  constructor; [by apply IH|by constructor].
Qed.

Lemma insert_ticket_sorted t l :
  ids_sorted l → Identifier t ∉ Identifier <$> l →
  ids_sorted (insert_by (λ a b, bytes_less (Identifier a) (Identifier b)) t l).
Proof.
  induction 1 as [|u l Hl IH Hu]; intros Hn; simpl; [repeat constructor|].
  rewrite fmap_cons, not_elem_of_cons in Hn. destruct Hn as [Hne Hn].
  destruct (bytes_less (Identifier u) (Identifier t)) eqn:E.
  - constructor; [by apply IH|]. rewrite insert_by_perm. by constructor.
  - assert (before t u) as Htu by (destruct (bytes_less_total (Identifier t) (Identifier u))
      as [?|[?|?]]; [done|done|congruence]).
    constructor; [by constructor|]. constructor; [done|].
    eapply Forall_impl; [exact Hu|]. intros v. by apply before_trans.
Qed.

Lemma sort_tickets_perm l : sort_tickets l ≡ₚ l.
Proof. apply sort_by_perm. Qed.

Lemma sort_tickets_sorted l : NoDup (Identifier <$> l) → ids_sorted (sort_tickets l).
Proof.
  induction l as [|t l IH]; intros Hnd; [constructor|]. inversion Hnd; subst.
  apply insert_ticket_sorted; [by apply IH|]. fold (sort_tickets l). by rewrite sort_tickets_perm.
Qed.

(** A sorted list stays as it is. *)
Lemma sort_sorted_tickets l : ids_sorted l → sort_tickets l = l.
Proof.
  induction 1 as [|t l Hl IH Ht]; [done|]. unfold sort_tickets, sort_by in *. simpl. rewrite IH.
  destruct l as [|u l]; [done|]. simpl. inversion Ht as [|?? Hu _]; subst.
  destruct (bytes_less (Identifier u) (Identifier t)) eqn:E; [|done].
  pose proof (bytes_less_trans _ _ _ Hu E) as Hx. by rewrite bytes_less_irrefl in Hx.
Qed.

Lemma StronglySorted_take {A} (R : A → A → Prop) n l :
  StronglySorted R l → StronglySorted R (take n l).
Proof.
  intros H. revert n. induction H as [|x l Hl IH Hx]; intros [|n]; simpl; try constructor; [done|].
  by apply Forall_take.
Qed.

(** What [accumulate_tickets] returns: the lowest identifiers of both lists. *)
Lemma accumulate_tickets_Ok acc ts acc' :
  NoDup (Identifier <$> acc ++ ts) → accumulate_tickets acc ts = Ok acc' →
  acc' = take (Z.to_nat TimeslotsPerEpoch) (sort_tickets (acc ++ ts)) ∧ ids_sorted acc' ∧
  len acc' ≤ TimeslotsPerEpoch ∧ (∀ t, t ∈ acc' → t ∈ acc ∨ t ∈ ts) ∧
  (∀ t, t ∈ ts → t ∈ acc').
Proof.
  intros Hnd. unfold accumulate_tickets. set (sorted := sort_tickets (acc ++ ts)).
  assert ((if TimeslotsPerEpoch <? len sorted then take (Z.to_nat TimeslotsPerEpoch) sorted
           else sorted) = take (Z.to_nat TimeslotsPerEpoch) sorted) as ->.
  { destruct (Z.ltb_spec TimeslotsPerEpoch (len sorted)); [done|]. rewrite take_ge; [done|].
    unfold len in *. lia. }
  destruct (forallb _ _) eqn:E; intros [= <-].
  assert (∀ t, t ∈ take (Z.to_nat TimeslotsPerEpoch) sorted → t ∈ acc ∨ t ∈ ts) as Hsub.
  { intros t (i & Hi%list_elem_of_lookup_2 & _)%elem_of_take. unfold sorted in Hi.
    rewrite sort_tickets_perm in Hi. by apply elem_of_app. }
  split_and!; [done|by apply StronglySorted_take, sort_tickets_sorted| |done|].
  - unfold len. rewrite length_take. unfold TimeslotsPerEpoch. lia.
  - intros t Ht. rewrite forallb_forall in E.
    specialize (E t (proj1 (list_elem_of_In _ _) Ht)). apply bool_decide_eq_true in E.
    unfold ticket_ids in E. rewrite elem_of_list_to_set in E.
    apply list_elem_of_fmap in E as (u & Hu & Hin).
    assert (u ∈ acc ++ ts) as Hu' by (apply elem_of_app; by apply Hsub).
    assert (t ∈ acc ++ ts) as Ht' by (apply elem_of_app; by right).
    apply list_elem_of_lookup in Hu' as [i Hi]. apply list_elem_of_lookup in Ht' as [j Hj].
    assert (i = j) as ->.
    { eapply (NoDup_lookup _ _ _ (Identifier t) Hnd); rewrite list_lookup_fmap;
        [by rewrite Hi, Hu|by rewrite Hj]. }
    congruence.
Qed.

(** ** Validated tickets *)

Section tickets.
Context (RingOk : list (list Z) → bool).
Context (Verify : list (list Z) → list Z → list Z → list Z → list Z → option Hash).

(** A ticket made from a proof: its attempt is allowed, and its identifier is the
    output of the ring signature on the context, the entropy and the attempt. *)
Definition ticket_of (ring : list (list Z)) (commitment : list Z) (eta2 : Hash)
    (tp : TicketProof) (t : Ticket) : Prop :=
  proof_EntryIndex tp < MaxTicketAttempts ∧ EntryIndex t = proof_EntryIndex tp ∧
  Verify ring (TicketSealContext ++ eta2 ++ [EntryIndex t]) [] commitment (Proof_ tp) =
    Some (Identifier t).

Lemma verify_tickets_Ok ring commitment eta2 ids proofs ts :
  verify_tickets Verify ring commitment eta2 ids proofs = Ok ts →
  Forall2 (ticket_of ring commitment eta2) proofs ts ∧ Forall (λ t, Identifier t ∉ ids) ts.
Proof.
  revert ts. induction proofs as [|tp proofs IH]; intros ts H; simpl in H; [by simplify_eq|].
  destruct (Z.leb_spec MaxTicketAttempts (proof_EntryIndex tp)); [done|].
  destruct (Verify _ _ _ _ _) as [h|] eqn:Hv; [|done]. case_bool_decide as Hin; [done|].
  go_inv. destruct (IH _ H1) as [H2 H3]. split; constructor; try done.
Qed.

Lemma verify_tickets_no_panic ring commitment eta2 ids proofs :
  verify_tickets Verify ring commitment eta2 ids proofs ≠ RuntimePanic.
Proof.
  induction proofs as [|tp proofs IH]; simpl; [done|]. destruct (_ <=? _); [done|].
  destruct (Verify _ _ _ _ _); [|done]. case_bool_decide; [done|].
  by destruct (verify_tickets _ _ _ _ _ _).
Qed.

Lemma calculateTickets_Ok safstate pool proofs ts :
  calculateTickets RingOk Verify safstate pool proofs = Ok ts →
  len proofs ≤ MaxTicketExtrinsicSize ∧ ids_sorted ts ∧
  Forall (λ t, Identifier t ∉ ticket_ids (TicketAccumulator safstate)) ts ∧
  ∃ ring, bandersnatch_keys (E := st_error) (NextValidators safstate) = Ok ring ∧
    Forall2 (ticket_of ring (RingCommitment safstate) (entropy pool 2)) proofs ts.
Proof.
  unfold calculateTickets, RingVerifier.
  destruct (Z.ltb_spec MaxTicketExtrinsicSize (len proofs)); [done|]. intros Hc.
  destruct (bandersnatch_keys _) as [ring| |] eqn:Hring; simpl in Hc; try done.
  destruct (RingOk ring); simpl in Hc; [|done].
  destruct (verify_tickets _ _ _ _ _ _) as [ts'| |] eqn:Hv; simpl in Hc; try done.
  destruct (tickets_ordered ts') eqn:Ho; [|done]. injection Hc as <-.
  apply verify_tickets_Ok in Hv as [H1 H2]. split_and!; [lia|by apply tickets_ordered_sorted|done|].
  by exists ring.
Qed.

(** Old and new identifiers together are distinct. *)
Lemma calculateTickets_NoDup safstate pool proofs ts :
  ids_sorted (TicketAccumulator safstate) → calculateTickets RingOk Verify safstate pool proofs = Ok ts →
  NoDup (Identifier <$> TicketAccumulator safstate ++ ts).
Proof.
  intros Hs (_ & Hts & Hd & _)%calculateTickets_Ok. rewrite fmap_app. apply NoDup_app.
  split_and!; [by apply ids_sorted_NoDup| |by apply ids_sorted_NoDup].
  intros h Hh (t & -> & Ht)%list_elem_of_fmap. rewrite Forall_forall in Hd.
  apply (Hd t Ht). unfold ticket_ids. by rewrite elem_of_list_to_set.
Qed.
End tickets.

(** ** Validator arrays *)

(** All places filled, with full keys. *)
Definition filled (vs : ValidatorsData) : Prop :=
  len vs = NumberOfValidators ∧
  Forall (λ v, ∃ k, v = Some k ∧ len (Ed25519 k) = 32 ∧ len (Bandersnatch k) = 32) vs.

Lemma bandersnatch_keys_filled {E} vs :
  Forall (λ v, ∃ k, v = Some k ∧ len (Ed25519 k) = 32 ∧ len (Bandersnatch k) = 32) vs →
  ∃ ks, (bandersnatch_keys vs : res E (list (list Z))) = Ok ks ∧
    Forall2 (λ v k, ∃ vk, v = Some vk ∧ k = Bandersnatch vk) vs ks.
Proof.
  induction 1 as [|v vs (k & -> & Hk) _ (ks & IH & IH')]; simpl; [by exists []|].
  rewrite IH. eexists. split; [done|]. constructor; [by eexists|done].
Qed.

Lemma offenderSet_ok offenders S :
  Forall (λ k, 32 ≤ len k) offenders →
  offenderSet offenders S = Ok (list_to_set (take 32 <$> offenders) ∪ S).
Proof.
  intros H. revert S. induction H as [|k offenders Hk _ IH]; intros S; simpl.
  - f_equal. set_solver.
  - unfold key_array. replace (len k <? 32) with false by lia. simpl. rewrite IH. f_equal. set_solver.
Qed.

(** An offender's keys become zero, the others stay. *)
Lemma NullifyOffenders_ok vs offenders :
  filled vs → Forall (λ k, 32 ≤ len k) offenders →
  ∃ vs', NullifyOffenders vs offenders = Ok vs' ∧ filled vs' ∧
    Forall2 (λ v v', ∃ k, v = Some k ∧
      v' = Some (if bool_decide (Ed25519 k ∈ take 32 <$> offenders) then nullKey else k)) vs vs'.
Proof.
  intros [Hlen Hall] Ho. unfold NullifyOffenders. rewrite offenderSet_ok by done. cbn [rbind].
  set (S := _ ∪ _).
  assert (∀ x, x ∈ S ↔ x ∈ take 32 <$> offenders) as HS
    by (intros x; unfold S; rewrite elem_of_union, elem_of_list_to_set; set_solver).
  clearbody S. unfold filled. rewrite <- Hlen. clear Hlen. induction Hall as [|v vs Hv _ IH]; simpl.
  - by exists [].
  - destruct Hv as (k & -> & Hk & Hb). unfold key_array. replace (len (Ed25519 k) <? 32) with false by lia.
    cbn [rbind]. destruct IH as (vs' & -> & [Hlen Hf] & H2). cbn [rbind].
    rewrite take_ge by (unfold len in Hk; lia).
    rewrite (bool_decide_ext _ _ (HS (Ed25519 k))).
    eexists. split; [done|]. split; [split|].
    + unfold len in *. simpl. lia.
    + constructor; [|done]. case_bool_decide; eexists; split; try done.
    + constructor; [by eexists|done].
Qed.

(** ** Sealing keys *)

Lemma unmarshal_uint32_ok data : (0 < length data)%nat →
  ∃ n, Unmarshal (TPrim false Uint32) data (VNum 0) = Ok (VNum n).
Proof. destruct data; [simpl; lia|]. intros _. eexists. reflexivity. Qed.

Lemma epoch_array_ok {E A} (l : list A) :
  length l = Z.to_nat TimeslotsPerEpoch → (epoch_array l : res E (list A)) = Ok l.
Proof.
  intros H. unfold epoch_array, len. rewrite H.
  change (Z.of_nat (Z.to_nat TimeslotsPerEpoch) <? TimeslotsPerEpoch) with false. cbv iota.
  by rewrite take_ge by lia.
Qed.

Section keys.
Context (HashData : list Z → Hash).
Hypothesis HashData_length : ∀ data, length (HashData data) = 32%nat.

Lemma fallback_key_ok r vs i : filled vs →
  ∃ k, fallback_key HashData r vs i = Ok (Bandersnatch k) ∧ Some k ∈ vs.
Proof.
  intros [Hlen Hall]. unfold fallback_key.
  assert (∃ bs, Marshal (TPrim false Uint32) (VNum i) = Ok bs) as [bs ->] by (eexists; reflexivity).
  cbn [map_err rbind].
  destruct (unmarshal_uint32_ok (HashData (r ++ bs))) as [n ->]; [rewrite HashData_length; lia|].
  cbn [map_err rbind]. unfold len in Hlen. unfold len. rewrite Hlen.
  change (uint32 NumberOfValidators) with NumberOfValidators.
  pose proof (Z.mod_pos_bound n NumberOfValidators eq_refl) as Hm.
  destruct (lookup_lt_is_Some_2 vs (Z.to_nat (n `mod` NumberOfValidators))) as [v Hv];
    [unfold NumberOfValidators in *; lia|].
  rewrite <- (Z2Nat.id (n `mod` NumberOfValidators)) by lia.
  rewrite (go_index_nat _ _ _ Hv). cbn [rbind].
  pose proof (Forall_lookup_1 _ _ _ _ Hall Hv) as (k & -> & _). simpl. exists k. split; [done|].
  by eapply list_elem_of_lookup_2.
Qed.

Lemma SelectFallbackKeys_ok r vs : filled vs →
  ∃ ks, SelectFallbackKeys HashData r vs = Ok ks ∧ length ks = Z.to_nat TimeslotsPerEpoch ∧
    Forall (λ b, ∃ k, Some k ∈ vs ∧ b = Bandersnatch k) ks.
Proof.
  intros Hf. unfold SelectFallbackKeys. rewrite <- (length_seqZ 0 TimeslotsPerEpoch).
  generalize (seqZ 0 TimeslotsPerEpoch). intros l.
  induction l as [|i l (ks & IH & IHl & IHf)]; simpl; [by exists []|].
  destruct (fallback_key_ok r vs i Hf) as (k & -> & Hk). rewrite IH.
  exists (Bandersnatch k :: ks). simpl. split_and!; [done|lia|]. constructor; [by exists k|done].
Qed.
End keys.
