(* ===== verification/SafroleTheorems.v ===== *)
(** * Safrole: theorems *)
From S2P Require Export SafroleProps.
From Stdlib Require Import Sorted.

(** ** The outside-in order *)

(** [OutsideInSequence] never indexes out of range and returns a
    permutation of the tickets: position [2k] holds ticket [k], position [2k+1]
    the [k]th from the end. *)
Theorem outside_in_sequence (tickets : list Ticket) :
  ∃ r, (OutsideInSequence tickets : res st_error (list Ticket)) = Ok r ∧ r ≡ₚ tickets ∧
    ∀ i, (i < length tickets)%nat →
      r !! i = tickets !! (if Nat.even i then Nat.div2 i else length tickets - 1 - Nat.div2 i)%nat.
Proof.
  destruct (@OutsideInSequence_spec st_error tickets) as (r & Hr & _ & Hl).
  destruct (@OutsideInSequence_perm st_error tickets) as (r' & Hr' & Hp). rewrite Hr in Hr'. injection Hr' as <-.
  exists r. split_and!; [done|done|]. exact Hl.
Qed.

(** ** One block *)

(** The accumulator's invariant. *)
Definition accumulator_ok (accumulator : list Ticket) : Prop :=
  ids_sorted accumulator ∧ len accumulator ≤ TimeslotsPerEpoch ∧
  Forall (λ t, EntryIndex t < MaxTicketAttempts) accumulator.

(** What a state must have for the update not to run into nil pointers. *)
Record safrole_wf (v : Validators) : Prop := MkSafroleWf {
  wf_current : filled (CurrentValidators (keys_of v));
  wf_archived : filled (ArchivedValidators (keys_of v));
  wf_queued : filled (QueuedValidators (keys_of v));
  wf_next : filled (NextValidators (SafroleOf v));
  wf_accumulator : accumulator_ok (TicketAccumulator (SafroleOf v));
  wf_series : match SealingKeySeries (SafroleOf v) with
              | Some (TicketsBodies ts) => len ts = TimeslotsPerEpoch
              | Some (EpochKeys ks) => len ks = TimeslotsPerEpoch
              | None => True
              end;
}.

Section update.
Context (HashData : list Z → Hash) (RingOk : list (list Z) → bool)
  (Commitment : list (list Z) → option (list Z))
  (Verify : list (list Z) → list Z → list Z → list Z → list Z → option Hash).

Lemma process_tickets_ok safstate pool proofs accumulator :
  accumulator_ok (TicketAccumulator safstate) →
  process_tickets RingOk Verify safstate pool proofs = Ok accumulator →
  accumulator_ok accumulator ∧
  ∃ ring ts,
    (proofs ≠ [] → bandersnatch_keys (E := st_error) (NextValidators safstate) = Ok ring) ∧
    Forall2 (ticket_of Verify ring (RingCommitment safstate) (entropy pool 2)) proofs ts ∧
    ids_sorted ts ∧ (∀ t, t ∈ ts → Identifier t ∉ Identifier <$> TicketAccumulator safstate) ∧
    (∀ t, t ∈ ts → t ∈ accumulator) ∧
    accumulator = take (Z.to_nat TimeslotsPerEpoch) (sort_tickets (TicketAccumulator safstate ++ ts)).
Proof.
  intros (Hs & Hlen & Hidx). unfold process_tickets. destruct proofs as [|p proofs].
  { simpl. intros [= <-]. split; [done|]. exists [], []. rewrite app_nil_r.
    split_and!; [done|constructor|constructor|set_solver|set_solver|].
    rewrite take_ge.
    - symmetry. by apply sort_sorted_tickets.
    - rewrite sort_tickets_perm. unfold len in Hlen. lia. }
  replace (0 <? len (p :: proofs)) with true by (symmetry; zbool). intros H. go_inv.
  pose proof (calculateTickets_NoDup _ _ _ _ _ _ Hs H0) as Hnd.
  apply calculateTickets_Ok in H0 as (_ & Hts & Hd & ring & Hring & H2).
  destruct (accumulate_tickets_Ok _ _ _ Hnd H) as (-> & Hs' & Hl' & Hsub & Hin).
  split.
  - split_and!; [done..|]. apply Forall_forall. intros t Ht. rewrite Forall_forall in Hidx.
    destruct (Hsub t Ht) as [?|Hx]; [by apply Hidx|].
    apply list_elem_of_lookup in Hx as [i Hi].
    destruct (Forall2_lookup_r _ _ _ _ _ H2 Hi) as (q & _ & Hq & He & _). lia.
  - exists ring, x. split_and!; try done. intros t Ht. rewrite Forall_forall in Hd.
    specialize (Hd t Ht). unfold ticket_ids in Hd. by rewrite elem_of_list_to_set in Hd.
Qed.

(** What the change of epoch does to a filled state. *)
Lemma change_epoch_ok preTimeSlot epoch preEpoch full offenders pool pool' v accumulator :
  (∀ data, length (HashData data) = 32%nat) → (∀ ring, RingOk ring = true) → safrole_wf v →
  Forall (λ k, 32 ≤ len k) offenders →
  (full = true → length accumulator = Z.to_nat TimeslotsPerEpoch) →
  change_epoch HashData RingOk Commitment preTimeSlot epoch preEpoch full offenders pool pool' v
    accumulator = Err (StErr "unable to calculate ring commitment") ∨
  ∃ next c seal marker,
    change_epoch HashData RingOk Commitment preTimeSlot epoch preEpoch full offenders pool pool' v
      accumulator =
      Ok (MkValidators (MkValidatorState (NextValidators (SafroleOf v)) (CurrentValidators (keys_of v))
                          (QueuedValidators (keys_of v))) (MkSafrole next [] (Some seal) c), marker) ∧
    NullifyOffenders (QueuedValidators (keys_of v)) offenders = Ok next ∧ filled next ∧
    Commitment (marker_Keys marker) = Some c ∧
    sealing_keys HashData preTimeSlot epoch preEpoch full accumulator pool'
      (NextValidators (SafroleOf v)) = Ok seal ∧
    match seal with
    | TicketsBodies ts => len ts = TimeslotsPerEpoch ∧ ts ≡ₚ accumulator
    | EpochKeys ks => len ks = TimeslotsPerEpoch ∧
        Forall (λ b, ∃ k, Some k ∈ NextValidators (SafroleOf v) ∧ b = Bandersnatch k) ks
    end ∧
    marker_Entropy marker = entropy pool 0 ∧ TicketsEntropy marker = entropy pool 1 ∧
    Forall2 (λ v k, ∃ vk, v = Some vk ∧ k = Bandersnatch vk) next (marker_Keys marker).
Proof.
  intros Hh Hr [] Ho Hfull. unfold change_epoch.
  destruct (NullifyOffenders_ok (QueuedValidators (keys_of v)) offenders) as (next & -> & Hn & _);
    [done..|]. cbn [map_err rbind].
  unfold CalculateRingCommitment, RingVerifier. cbn [NextValidators].
  destruct (@bandersnatch_keys_filled st_error next (proj2 Hn)) as (ring & Hring & Hr2).
  rewrite Hring. cbn [rbind]. rewrite Hr. cbn [rbind].
  destruct (Commitment ring) as [c|] eqn:Hcm; cbn [map_err rbind]; [right|by left].
  assert (∃ seal, sealing_keys HashData preTimeSlot epoch preEpoch full accumulator pool'
      (NextValidators (SafroleOf v)) = Ok seal ∧
    match seal with
    | TicketsBodies ts => len ts = TimeslotsPerEpoch ∧ ts ≡ₚ accumulator
    | EpochKeys ks => len ks = TimeslotsPerEpoch ∧
        Forall (λ b, ∃ k, Some k ∈ NextValidators (SafroleOf v) ∧ b = Bandersnatch k) ks
    end) as (seal & Hseal & Hs).
  { unfold sealing_keys. destruct (_ && full) eqn:E.
    - apply andb_prop in E as [_ ->].
      destruct (@OutsideInSequence_perm st_error accumulator) as (r & -> & Hp). cbn [rbind].
      assert (length r = Z.to_nat TimeslotsPerEpoch) as Hl by (rewrite Hp; by apply Hfull).
      rewrite epoch_array_ok by done. cbn [rbind]. eexists. split; [done|]. split; [|done].
      unfold len. rewrite Hl. done.
    - destruct (SelectFallbackKeys_ok HashData Hh (entropy pool' 2) (NextValidators (SafroleOf v)))
        as (ks & -> & Hl & Hk); [done|]. cbn [rbind]. eexists. split; [done|]. split; [|done].
      unfold len. rewrite Hl. done. }
  cbn [CurrentValidators]. rewrite Hseal. cbn [rbind]. eexists next, c, seal, _.
  split_and!; [reflexivity|done..|]. exact Hr2.
Qed.

Lemma process_tickets_no_panic safstate pool proofs :
  (∀ ring, RingOk ring = true) → filled (NextValidators safstate) →
  process_tickets RingOk Verify safstate pool proofs ≠ RuntimePanic.
Proof.
  intros Hr [_ Hf]. unfold process_tickets. destruct (0 <? _); [|done].
  unfold calculateTickets, RingVerifier. destruct (_ <? _); [done|].
  destruct (@bandersnatch_keys_filled st_error _ Hf) as (ring & -> & _). cbn [rbind]. rewrite Hr.
  cbn [rbind]. pose proof (verify_tickets_no_panic Verify ring (RingCommitment safstate)
    (entropy pool 2) (ticket_ids (TicketAccumulator safstate)) proofs) as Hv.
  destruct (verify_tickets _ _ _ _ _ _); [|done..]. cbn [rbind].
  destruct (tickets_ordered _); [|done]. cbn [rbind]. unfold accumulate_tickets.
  by destruct (forallb _ _).
Qed.

(** A full accumulator stays full. *)
Lemma process_tickets_full safstate pool proofs accumulator :
  accumulator_ok (TicketAccumulator safstate) →
  process_tickets RingOk Verify safstate pool proofs = Ok accumulator →
  len (TicketAccumulator safstate) = TimeslotsPerEpoch →
  length accumulator = Z.to_nat TimeslotsPerEpoch.
Proof.
  intros Hok H Hfull.
  destruct (process_tickets_ok safstate pool proofs accumulator Hok H)
    as (_ & ring & ts & _ & _ & _ & _ & _ & ->).
  rewrite length_take, sort_tickets_perm, length_app. unfold len in Hfull. lia.
Qed.
End update.

(** ** Values for the witnesses *)

Definition a_validator : ValidatorKey :=
  MkValidatorKey (replicate 32 1) (replicate 32 2) (replicate 144 0) (replicate 128 0).
Definition all_validators : ValidatorsData := replicate 1023 (Some a_validator).
Definition a_pool : EntropyPool := [replicate 32 1; replicate 32 2; replicate 32 3; replicate 32 4].
Definition a_validators : Validators :=
  MkValidators (MkValidatorState all_validators all_validators all_validators)
    (MkSafrole all_validators [] None []).
(** A ring signature scheme in which the proof's first 32 bytes are the output. *)
Definition a_verify (ring : list (list Z)) (data aux commitment proof : list Z) : option Hash :=
  Some (take 32 proof).
Definition a_hashing (data : list Z) : Hash := replicate 32 7.
Definition a_proof : TicketProof := MkTicketProof 1 (replicate 784 9).

Lemma all_validators_filled : filled all_validators.
Proof. split; [done|]. apply Forall_replicate. by exists a_validator. Qed.

Lemma a_validators_wf : safrole_wf a_validators.
Proof. split; [apply all_validators_filled..| |done]. repeat constructor. done. Qed.

(** The update of a well-formed state: an error, or a well-formed state. *)
Lemma UpdateSafroleState_safe HashData RingOk Commitment Verify input preTimeSlot pool v :
  (∀ data, length (HashData data) = 32%nat) → (∀ ring, RingOk ring = true) →
  safrole_wf v → length pool = 4%nat → Forall (λ k, 32 ≤ len k) (in_Offenders input) →
  (∃ e, UpdateSafroleState HashData RingOk Commitment Verify input preTimeSlot pool v = Err e) ∨
  ∃ pool' v' out,
    UpdateSafroleState HashData RingOk Commitment Verify input preTimeSlot pool v =
      Ok (pool', v', out) ∧
    safrole_wf v' ∧ length pool' = 4%nat.
Proof.
  intros Hh Hr Hwf Hp Ho. unfold UpdateSafroleState.
  destruct (_ <=? _); [left; by eexists|]. destruct (_ && _); [left; by eexists|].
  assert (∀ t t' e, length (calculateNewEntropyPool HashData t t' e pool) = 4%nat) as Hpool.
  { intros. destruct pool as [|? [|? [|? [|? [|]]]]]; try done.
    unfold calculateNewEntropyPool. by destruct (_ >? _). }
  pose proof (process_tickets_no_panic RingOk Verify (SafroleOf v) pool (in_Tickets input) Hr
    (wf_next _ Hwf)) as Hnp.
  destruct (process_tickets _ _ _ _ _) as [acc|e|] eqn:Hacc; [|left; by eexists|done].
  destruct (process_tickets_ok RingOk Verify _ _ _ _ (wf_accumulator _ Hwf) Hacc) as [Hok _].
  assert ((len (TicketAccumulator (SafroleOf v)) =? TimeslotsPerEpoch) = true →
    length acc = Z.to_nat TimeslotsPerEpoch) as Hfull.
  { intros E%Z.eqb_eq. by apply (process_tickets_full RingOk Verify _ _ _ _ (wf_accumulator _ Hwf) Hacc). }
  cbn [rbind]. destruct (_ >? _).
  - destruct (change_epoch_ok HashData RingOk Commitment preTimeSlot
      (Timeslot_ToEpoch (in_TimeSlot input)) (Timeslot_ToEpoch preTimeSlot)
      (len (TicketAccumulator (SafroleOf v)) =? TimeslotsPerEpoch) (in_Offenders input) pool
      (calculateNewEntropyPool HashData preTimeSlot (in_TimeSlot input) (in_Entropy input) pool) v acc
      Hh Hr Hwf Ho Hfull)
      as [->|(next & c & seal & marker & -> & _ & Hnext & _ & _ & Hseal & _)]; [left; by eexists|].
    right. cbn [rbind]. eexists _, _, _. split; [reflexivity|]. split; [|apply Hpool].
    destruct Hwf. split; simpl; try done; [repeat constructor; done|]. by destruct seal as [|]; destruct Hseal.
  - right. assert (safrole_wf (MkValidators (keys_of v) (MkSafrole (NextValidators (SafroleOf v)) acc
      (SealingKeySeries (SafroleOf v)) (RingCommitment (SafroleOf v))))) as Hwf'
      by (destruct Hwf; by split).
    destruct (_ && (len _ =? _)) eqn:E; [|eexists _, _, _; split_and!; [reflexivity|done|apply Hpool]].
    apply andb_prop in E as [_ E].
    destruct (@OutsideInSequence_perm st_error acc) as (r & -> & Hperm). cbn [rbind].
    rewrite epoch_array_ok by (rewrite Hperm; by apply Hfull). cbn [rbind].
    eexists _, _, _. split_and!; [reflexivity|done|apply Hpool].
Qed.

(** C14: on a well-formed state a block cannot make [UpdateSafroleState]
    panic: all validator arrays are filled, the accumulator is sorted by
    identifier without duplicates, holds at most an epoch's number of tickets
    with allowed attempts, and the sealing series has one entry per slot of the
    epoch; the update returns an error or a state that is well-formed again. *)
Theorem safrole_update_safe HashData RingOk Commitment Verify input preTimeSlot pool v :
  (∀ data, length (HashData data) = 32%nat) → (∀ ring, RingOk ring = true) →
  safrole_wf v → length pool = 4%nat → Forall (λ k, 32 ≤ len k) (in_Offenders input) →
  (∃ e, UpdateSafroleState HashData RingOk Commitment Verify input preTimeSlot pool v = Err e) ∨
  ∃ pool' v' out,
    UpdateSafroleState HashData RingOk Commitment Verify input preTimeSlot pool v =
      Ok (pool', v', out) ∧
    safrole_wf v' ∧ length pool' = 4%nat.
Proof. apply UpdateSafroleState_safe. Qed.

Lemma safrole_update_safe_witness :
  ∃ r, UpdateSafroleState a_hashing (λ _, true) (λ _, Some []) a_verify
         (MkSafroleInput 5 [a_proof] (replicate 32 0) []) 4 a_pool a_validators = r ∧ r ≠ RuntimePanic.
Proof.
  destruct (safrole_update_safe a_hashing (λ _, true) (λ _, Some []) a_verify
    (MkSafroleInput 5 [a_proof] (replicate 32 0) []) 4 a_pool a_validators)
    as [[e E]|(p & v & o & E & _)]; [done|done|apply a_validators_wf|done|constructor| |];
    rewrite E; eexists; by split.
Defined.

(** C30: the tickets of a block inside an epoch: each proof is checked against
    the ring of the next validators, the context, the attempt and the third
    entry of the pool, gives a ticket that is new and in order, and the new
    accumulator is exactly the lowest 600 identifiers of the old tickets and the
    new ones, all of which are among them. *)
Theorem safrole_tickets HashData RingOk Commitment Verify input preTimeSlot pool v pool' v' out :
  accumulator_ok (TicketAccumulator (SafroleOf v)) →
  UpdateSafroleState HashData RingOk Commitment Verify input preTimeSlot pool v = Ok (pool', v', out) →
  Timeslot_ToEpoch (in_TimeSlot input) = Timeslot_ToEpoch preTimeSlot →
  (in_Tickets input ≠ [] → IsTicketSubmissionPeriod (in_TimeSlot input) = true) ∧
  ∃ ring ts,
    Forall2 (ticket_of Verify ring (RingCommitment (SafroleOf v)) (entropy pool 2)) (in_Tickets input) ts ∧
    ids_sorted ts ∧
    (∀ t, t ∈ ts → Identifier t ∉ Identifier <$> TicketAccumulator (SafroleOf v)) ∧
    (∀ t, t ∈ ts → t ∈ TicketAccumulator (SafroleOf v')) ∧
    TicketAccumulator (SafroleOf v') =
      take (Z.to_nat TimeslotsPerEpoch) (sort_tickets (TicketAccumulator (SafroleOf v) ++ ts)) ∧
    keys_of v' = keys_of v ∧ SealingKeySeries (SafroleOf v') = SealingKeySeries (SafroleOf v).
Proof.
  intros Hok H He. unfold UpdateSafroleState in H. destruct (_ <=? _); [done|].
  destruct (negb _ && _) eqn:Hsub; [done|]. split.
  { intros Hne. destruct (IsTicketSubmissionPeriod _); [done|]. simpl in Hsub.
    destruct (in_Tickets input); [done|]. exfalso. apply Z.ltb_ge in Hsub. unfold len in Hsub.
    cbn [length] in Hsub. lia. }
  rewrite He in H. rewrite Z.gtb_ltb, Z.ltb_irrefl in H. go_inv.
  destruct (process_tickets_ok RingOk Verify _ _ _ _ Hok H0)
    as (_ & ring & ts & _ & H2 & Hs & Hn & Hin & Heq).
  assert (v' = MkValidators (keys_of v) (MkSafrole (NextValidators (SafroleOf v)) x
      (SealingKeySeries (SafroleOf v)) (RingCommitment (SafroleOf v)))) as ->
    by (match type of H with (if ?b then _ else _) = _ => destruct b end; by go_inv).
  exists ring, ts. by split_and!.
Qed.

(** One of the values above, updated at slot [slot] after slot [pre]. *)
Definition a_update (slot pre : Z) : res st_error (EntropyPool * Validators * SafroleOutput) :=
  UpdateSafroleState a_hashing (λ _, true) (λ _, Some []) a_verify
    (MkSafroleInput slot [a_proof] (replicate 32 0) []) pre a_pool a_validators.

Lemma accepted_update (r : res st_error (EntropyPool * Validators * SafroleOutput)) :
  match r with Ok _ => true | _ => false end = true → ∃ pool v out, r = Ok (pool, v, out).
Proof. destruct r as [[[pool v] out]| |]; try done. intros _. by exists pool, v, out. Qed.

Lemma a_update_inside : ∃ pool v out, a_update 5 4 = Ok (pool, v, out).
Proof. apply accepted_update. vm_compute. reflexivity. Qed.

Lemma safrole_tickets_witness :
  ∃ pool' v' out, a_update 5 4 = Ok (pool', v', out) ∧ IsTicketSubmissionPeriod 5 = true ∧
    keys_of v' = keys_of a_validators.
Proof.
  destruct a_update_inside as (pool' & v' & out & H). exists pool', v', out. split; [exact H|].
  destruct (safrole_tickets a_hashing (λ _, true) (λ _, Some []) a_verify
       (MkSafroleInput 5 [a_proof] (replicate 32 0) []) 4 a_pool a_validators pool' v' out
       (wf_accumulator _ a_validators_wf) H eq_refl) as (Hp & ring & ts & _ & _ & _ & _ & _ & Hk & _).
  split; [by apply Hp|exact Hk].
Defined.

(** The outside-in order takes elements from both ends in turn. *)
Definition outside_in_order (l r : list Ticket) : Prop :=
  length r = length l ∧ ∀ k, (k < length l)%nat → r !! k = l !! outside_in_index (length l) k.

(** The sealing series of a new epoch, as equation 69 has it: the tickets if the
    epoch is the following one, the previous block was past the submission period
    and the accumulator was full, and otherwise the fallback keys. *)
Definition sealing_series (HashData : list Z → Hash) (preTimeSlot timeSlot : Z) (eta2 : Hash)
    (accumulator : list Ticket) (current : ValidatorsData) (series : option TicketsOrKeys) : Prop :=
  let by_tickets := Timeslot_ToEpoch timeSlot = Timeslot_ToEpoch preTimeSlot + 1 ∧
    TicketSubmissionTimeSlots ≤ preTimeSlot `mod` TimeslotsPerEpoch ∧
    len accumulator = TimeslotsPerEpoch in
  match series with
  | Some (TicketsBodies ts) => by_tickets ∧ outside_in_order accumulator ts
  | Some (EpochKeys ks) => ¬ by_tickets ∧ SelectFallbackKeys HashData eta2 current = Ok ks
  | None => False
  end.

Lemma sealing_keys_series HashData preTimeSlot timeSlot accumulator pool' current seal :
  0 ≤ preTimeSlot < 2 ^ 32 →
  sealing_keys HashData preTimeSlot (Timeslot_ToEpoch timeSlot) (Timeslot_ToEpoch preTimeSlot)
    (len accumulator =? TimeslotsPerEpoch) accumulator pool' current = Ok seal →
  sealing_series HashData preTimeSlot timeSlot (entropy pool' 2) accumulator current (Some seal).
Proof.
  intros Hpre. unfold sealing_keys, sealing_series.
  destruct (Timeslot_split preTimeSlot Hpre) as (He & Hs & Hsplit).
  assert (Timeslot_ToEpoch preTimeSlot < 2 ^ 32 - 1) as Hlt.
  { change MaxEpoch with 7158278 in He. lia. }
  rewrite uint32_small by lia.
  assert (TimeslotInEpoch preTimeSlot = preTimeSlot `mod` TimeslotsPerEpoch) as Hm.
  { unfold TimeslotInEpoch. apply uint32_small. unfold TimeslotsPerEpoch.
    pose proof (Z.mod_pos_bound preTimeSlot 600 ltac:(lia)). lia. }
  unfold IsTicketSubmissionPeriod. rewrite Hm. destruct (_ && _ && _) eqn:E.
  - apply andb_prop in E as [[E1%Z.eqb_eq E2%negb_true_iff%Z.ltb_ge]%andb_prop E3%Z.eqb_eq].
    destruct (@OutsideInSequence_spec st_error accumulator) as (r & -> & Hr). cbn [rbind].
    rewrite epoch_array_ok by (unfold len in E3; destruct Hr; lia). cbn [rbind]. by intros [= <-].
  - intros H. apply rbind_Ok_inv in H as (ks & Hks & H). injection H as <-. split; [|done].
    intros (E1 & E2%Z.ltb_ge & E3%Z.eqb_eq). apply Z.eqb_eq in E1. by rewrite E1, E2, E3 in E.
Qed.

Lemma calculateNewEntropyPool_rotates HashData preTimeSlot timeSlot input pool :
  length pool = 4%nat → Timeslot_ToEpoch preTimeSlot < Timeslot_ToEpoch timeSlot →
  calculateNewEntropyPool HashData preTimeSlot timeSlot input pool =
  [HashData (entropy pool 0 ++ input); entropy pool 0; entropy pool 1; entropy pool 2].
Proof.
  intros Hp He. destruct pool as [|? [|? [|? [|? [|]]]]]; try done. unfold calculateNewEntropyPool.
  by rewrite (proj2 (Z.gtb_gt _ _)) by lia.
Qed.

(** C28: a block without tickets that enters a later epoch: the validators move on
    (next to current, current to archived, the queued ones without the offenders to
    next), the entropy pool rotates, the ring commitment is that of the new next
    validators, the epoch marker carries the old entropies and the new keys, the
    sealing series is the outside-in sequence of the accumulator exactly if the
    epoch is the following one, the previous block was past the submission period
    and the accumulator was full, and otherwise the fallback keys of the validators
    that become current; the accumulator is empty.  (A block that enters an epoch
    with tickets loses them: [entry_tickets_lost].) *)
Theorem safrole_epoch_change HashData RingOk Commitment Verify input preTimeSlot pool v pool' v' out :
  (∀ data, length (HashData data) = 32%nat) → (∀ ring, RingOk ring = true) →
  safrole_wf v → length pool = 4%nat → Forall (λ k, 32 ≤ len k) (in_Offenders input) →
  in_Tickets input = [] → 0 ≤ preTimeSlot < 2 ^ 32 →
  UpdateSafroleState HashData RingOk Commitment Verify input preTimeSlot pool v = Ok (pool', v', out) →
  Timeslot_ToEpoch preTimeSlot < Timeslot_ToEpoch (in_TimeSlot input) →
  pool' = [HashData (entropy pool 0 ++ in_Entropy input); entropy pool 0; entropy pool 1;
           entropy pool 2] ∧
  CurrentValidators (keys_of v') = NextValidators (SafroleOf v) ∧
  ArchivedValidators (keys_of v') = CurrentValidators (keys_of v) ∧
  QueuedValidators (keys_of v') = QueuedValidators (keys_of v) ∧
  NullifyOffenders (QueuedValidators (keys_of v)) (in_Offenders input) =
    Ok (NextValidators (SafroleOf v')) ∧
  TicketAccumulator (SafroleOf v') = [] ∧ WinningTicketMark out = None ∧
  (∃ marker, EpochMark out = Some marker ∧ marker_Entropy marker = entropy pool 0 ∧
     TicketsEntropy marker = entropy pool 1 ∧
     Forall2 (λ x k, ∃ vk, x = Some vk ∧ k = Bandersnatch vk) (NextValidators (SafroleOf v'))
       (marker_Keys marker) ∧
     Commitment (marker_Keys marker) = Some (RingCommitment (SafroleOf v'))) ∧
  sealing_series HashData preTimeSlot (in_TimeSlot input) (entropy pool' 2)
    (TicketAccumulator (SafroleOf v)) (CurrentValidators (keys_of v')) (SealingKeySeries (SafroleOf v')).
Proof.
  intros Hh Hr Hwf Hp Ho Hnone Hpre H He. unfold UpdateSafroleState, process_tickets in H. rewrite Hnone in H.
  destruct (_ <=? _); [done|]. destruct (negb _ && _); [done|].
  change (0 <? len (@nil TicketProof)) with false in H. cbn [rbind] in H.
  rewrite (proj2 (Z.gtb_gt _ _)) in H by lia.
  rewrite calculateNewEntropyPool_rotates in H by done.
  match type of H with context [change_epoch ?hd ?ro ?cm ?a ?b ?c ?d ?e ?f ?g ?h ?i] =>
    destruct (change_epoch_ok hd ro cm a b c d e f g h i Hh Hr Hwf Ho)
      as [Ec|(next & c0 & seal & marker & Ec & Hnull & _ & Hc & Hseal & _ & Hm1 & Hm2 & Hm3)];
    [|rewrite Ec in H; done|rewrite Ec in H; cbn [rbind] in H]
  end.
  { intros E%Z.eqb_eq. unfold len in E. lia. }
  simplify_eq. simpl. split_and!; try done.
  - by exists marker.
  - by apply sealing_keys_series.
Qed.

(** A block that enters an epoch with a ticket: the update accepts it, and the new
    accumulator does not hold it, where equation 79 keeps it. *)
Theorem entry_tickets_lost :
  match a_update 600 599 with Ok (_, v', _) => TicketAccumulator (SafroleOf v') = [] | _ => False end.
Proof. vm_compute. reflexivity. Qed.

(** The state with a full accumulator before the first block of an epoch. *)
Definition full_accumulator : list Ticket :=
  (λ i, MkTicket (replicate 30 0 ++ [i / 256; i `mod` 256]) 0) <$> seqZ 0 600.
Definition full_validators : Validators :=
  MkValidators (keys_of a_validators) (MkSafrole all_validators full_accumulator None []).
#[local] Abbreviation enter_epoch v :=
  (UpdateSafroleState a_hashing (λ _, true) (λ _, Some [5]) a_verify
    (MkSafroleInput 600 [] (replicate 32 0) []) 599 a_pool v).

Lemma full_validators_wf : safrole_wf full_validators.
Proof.
  split; [apply all_validators_filled..| |done]. split_and!; [|by vm_compute|].
  - apply tickets_ordered_sorted. vm_compute. reflexivity.
  - apply Forall_fmap, Forall_forall. intros i _. by vm_compute.
Qed.
Lemma enter_epoch_full : ∃ pool v out, enter_epoch full_validators = Ok (pool, v, out).
Proof. apply accepted_update. vm_compute. reflexivity. Qed.
Lemma enter_epoch_empty : ∃ pool v out, enter_epoch a_validators = Ok (pool, v, out).
Proof. apply accepted_update. vm_compute. reflexivity. Qed.

Lemma safrole_epoch_change_witness :
  (∃ pool' v' out, enter_epoch full_validators = Ok (pool', v', out) ∧
     sealing_series a_hashing 599 600 (entropy pool' 2) full_accumulator all_validators
       (SealingKeySeries (SafroleOf v'))) ∧
  (∃ pool' v' out, enter_epoch a_validators = Ok (pool', v', out) ∧
     sealing_series a_hashing 599 600 (entropy pool' 2) [] all_validators (SealingKeySeries (SafroleOf v'))).
Proof.
  split.
  - destruct enter_epoch_full as (pool' & v' & out & H). exists pool', v', out. split; [exact H|].
    destruct (safrole_epoch_change a_hashing (λ _, true) (λ _, Some [5]) a_verify
      (MkSafroleInput 600 [] (replicate 32 0) []) 599 a_pool full_validators pool' v' out)
      as (_ & Hc & _ & _ & _ & _ & _ & _ & Hs);
      [reflexivity|reflexivity|apply full_validators_wf|reflexivity|constructor|reflexivity|clear H; lia|exact H|
       reflexivity|].
    rewrite Hc in Hs. exact Hs.
  - destruct enter_epoch_empty as (pool' & v' & out & H). exists pool', v', out. split; [exact H|].
    destruct (safrole_epoch_change a_hashing (λ _, true) (λ _, Some [5]) a_verify
      (MkSafroleInput 600 [] (replicate 32 0) []) 599 a_pool a_validators pool' v' out)
      as (_ & Hc & _ & _ & _ & _ & _ & _ & Hs);
      [reflexivity|reflexivity|apply a_validators_wf|reflexivity|constructor|reflexivity|clear H; lia|exact H|
       reflexivity|].
    rewrite Hc in Hs. exact Hs.
Defined.
