(* ===== verification/BlockSeal.v ===== *)
(** * Block seals

    [internal/state/block_seal.go]: a block is sealed with the ticket or key that
    won its slot, and the seal is checked against it.  The Bandersnatch VRF is
    code behind a foreign-function interface: its operations are a class. *)
From S2P Require Export Safrole.

Definition FallbackSealContext : list Z := ascii_bytes "jam_fallback_seal".
Definition EntropyContext : list Z := ascii_bytes "jam_entropy".
Definition ErrBlockSealInvalidAuthor : st_error := StErr "invalid block seal author".

(** [bandersnatch.Public], [Sign], [Verify] and [OutputHash]; [None] and [false]
    are failures. *)
Class Bandersnatch_ops : Type := {
  Public : list Z → option (list Z);
  Sign : list Z → list Z → list Z → option (list Z);
  VrfVerify : list Z → list Z → list Z → list Z → bool;
  OutputHash : list Z → option Hash;
}.

Inductive TicketOrKey : Type :=
| WinningTicket (t : Ticket)
| WinningKey (k : list Z).

(** The part of the state the seal depends on. *)
Record SealState : Type := MkSealState {
  seal_Series : option TicketsOrKeys;
  seal_Entropy : EntropyPool;
  seal_Current : ValidatorsData;
}.

Definition getWinningTicketOrKey (header : Header) (state : SealState) : res st_error TicketOrKey :=
  let index := TimeslotInEpoch (TimeSlotIndex header) in
  match seal_Series state with
  | Some (TicketsBodies value) => let! t := go_index value index in Ok (WinningTicket t)
  | Some (EpochKeys value) => let! k := go_index value index in Ok (WinningKey k)
  | None => Err (StErr "unexpected type in TicketsOrKeys")
  end.

Definition buildTicketSealContext (eta3 : Hash) (ticketAttempt : Z) : list Z :=
  TicketSealContext ++ eta3 ++ [ticketAttempt].
Definition buildTicketFallbackContext (eta3 : Hash) : list Z := FallbackSealContext ++ eta3.
Definition buildVRFContext (sealOutputHash : Hash) : list Z := EntropyContext ++ sealOutputHash.

(** The encoding without its last 96 bytes, the seal. *)
Definition encodeUnsealedHeader (header : Header) : res st_error (list Z) :=
  let! bytes := Bytes_header header in
  go_slice bytes 0 (len bytes - 96).

Definition with_vrf (vrf : list Z) (h : Header) : Header :=
  MkHeader (ParentHash h) (PriorStateRoot h) (ExtrinsicHash h) (TimeSlotIndex h)
    (header_EpochMarker h) (WinningTicketsMarker h) (OffendersMarkers h) (BlockAuthorIndex h) vrf
    (BlockSealSignature h).
Definition with_seal (seal : list Z) (h : Header) : Header :=
  MkHeader (ParentHash h) (PriorStateRoot h) (ExtrinsicHash h) (TimeSlotIndex h)
    (header_EpochMarker h) (WinningTicketsMarker h) (OffendersMarkers h) (BlockAuthorIndex h)
    (VRFSignature h) seal.

Section seal.
Context `{Bandersnatch_ops}.

(** A call of the VRF that may fail. *)
Definition vrf_call {A} (msg : string) (r : option A) : res st_error A :=
  match r with Some a => Ok a | None => Err (StErr msg) end.

Definition signBlockVRFS (sealOutputHash : Hash) (privateKey : list Z) : res st_error (list Z) :=
  vrf_call "error generating signature" (Sign privateKey (buildVRFContext sealOutputHash) []).

(** The final seal over the header with its VRF signature. *)
Definition seal_with_vrf (header : Header) (privateKey sealContext vrfSignature : list Z)
  : res st_error (list Z * list Z) :=
  let! unsealedHeader := encodeUnsealedHeader (with_vrf vrfSignature header) in
  let! sealSignature :=
    vrf_call "error generating signature" (Sign privateKey sealContext unsealedHeader) in
  Ok (sealSignature, vrfSignature).

Definition SignBlockWithTicket (header : Header) (ticket : Ticket) (privateKey : list Z)
    (eta3 : Hash) : res st_error (list Z * list Z) :=
  let sealContext := buildTicketSealContext eta3 (EntryIndex ticket) in
  let! sealVRFSignature :=
    vrf_call "error generating signature" (Sign privateKey sealContext []) in
  let! sealOutputHash := vrf_call "error getting output hash" (OutputHash sealVRFSignature) in
  if negb (bool_decide (sealOutputHash = Identifier ticket)) then Err ErrBlockSealInvalidAuthor
  else
    let! vrfSignature := signBlockVRFS sealOutputHash privateKey in
    seal_with_vrf header privateKey sealContext vrfSignature.

Definition SignBlockWithFallback (header : Header) (winningKey privateKey : list Z) (eta3 : Hash)
  : res st_error (list Z * list Z) :=
  let! ownerPublicKey := vrf_call "error generating private key" (Public privateKey) in
  if negb (bool_decide (ownerPublicKey = winningKey)) then Err ErrBlockSealInvalidAuthor
  else
    let sealContext := buildTicketFallbackContext eta3 in
    let! sealVRFSignature :=
      vrf_call "error generating signature" (Sign privateKey sealContext []) in
    let! sealOutputHash := vrf_call "error getting output hash" (OutputHash sealVRFSignature) in
    let! vrfSignature := signBlockVRFS sealOutputHash privateKey in
    seal_with_vrf header privateKey sealContext vrfSignature.

Definition SignBlock (header : Header) (ticketOrKey : TicketOrKey) (privateKey : list Z)
    (eta3 : Hash) : res st_error (list Z * list Z) :=
  match ticketOrKey with
  | WinningTicket tok => SignBlockWithTicket header tok privateKey eta3
  | WinningKey tok => SignBlockWithFallback header tok privateKey eta3
  end.

(** [SealBlock] writes both signatures into the header. *)
Definition SealBlock (header : Header) (state : SealState) (privateKey : list Z)
  : res st_error Header :=
  let! winningTicketOrKey := getWinningTicketOrKey header state in
  let! (sealSignature, vrfSignature) :=
    SignBlock header winningTicketOrKey privateKey (entropy (seal_Entropy state) 3) in
  Ok (with_vrf vrfSignature (with_seal sealSignature header)).

Definition zeroKey : list Z := replicate 32 0.

(** The loop over the validators: the first key that verifies the seal. *)
Fixpoint findSigner (currentValidators : ValidatorsData) (sealContext unsealedHeader seal : list Z)
  : list Z :=
  match currentValidators with
  | [] => zeroKey
  | None :: rest => findSigner rest sealContext unsealedHeader seal
  | Some keys :: rest =>
      if VrfVerify (Bandersnatch keys) sealContext unsealedHeader seal then Bandersnatch keys
      else findSigner rest sealContext unsealedHeader seal
  end.

Definition VerifyBlockSignatures (header : Header) (ticketOrKey : TicketOrKey)
    (currentValidators : ValidatorsData) (eta3 : Hash) : res st_error bool :=
  let! unsealedHeader := encodeUnsealedHeader header in
  let! sealOutputHash :=
    vrf_call "error getting output hash" (OutputHash (BlockSealSignature header)) in
  match ticketOrKey with
  | WinningTicket tok =>
      if negb (bool_decide (sealOutputHash = Identifier tok)) then Ok false
      else
        let publicKey := findSigner currentValidators (buildTicketSealContext eta3 (EntryIndex tok))
                           unsealedHeader (BlockSealSignature header) in
        if bool_decide (publicKey = zeroKey) then Ok false
        else Ok (VrfVerify publicKey (buildVRFContext sealOutputHash) [] (VRFSignature header))
  | WinningKey tok =>
      if negb (VrfVerify tok (buildTicketFallbackContext eta3) unsealedHeader
                 (BlockSealSignature header)) then Ok false
      else Ok (VrfVerify tok (buildVRFContext sealOutputHash) [] (VRFSignature header))
  end.

Definition VerifyBlockSeal (header : Header) (state : SealState) : res st_error bool :=
  let! winningTicketOrKey := getWinningTicketOrKey header state in
  VerifyBlockSignatures header winningTicketOrKey (seal_Current state)
    (entropy (seal_Entropy state) 3).
End seal.
