(* ===== verification/BlockSealTheorems.v ===== *)
(** * Block seals: theorems *)
From S2P Require Export BlockSeal.

(** What the sources rely on of the VRF: signatures have the size of the array
    they are copied to, they verify with the signer's key and no other, and their
    output depends on the key and the input data only. *)
Class BandersnatchLaws `{Bandersnatch_ops} : Prop := {
  sign_length sk data aux s : Sign sk data aux = Some s → length s = 96%nat;
  sign_verify sk pk data aux s :
    Sign sk data aux = Some s → Public sk = Some pk → VrfVerify pk data aux s = true;
  sign_output sk data aux aux' s s' :
    Sign sk data aux = Some s → Sign sk data aux' = Some s' → OutputHash s = OutputHash s';
  verify_signer sk pk pk' data aux s :
    Sign sk data aux = Some s → Public sk = Some pk → VrfVerify pk' data aux s = true → pk' = pk;
}.

(** ** The unsealed header *)

Lemma encodeStruct_app m fs fs' vs vs' :
  length fs = length vs →
  encodeStruct m (fs ++ fs') (vs ++ vs') =
  let! a := encodeStruct m fs vs in let! b := encodeStruct m fs' vs' in Ok (a ++ b).
Proof.
  revert vs. induction fs as [|[i t] fs IH]; intros [|v vs] Hl; try done.
  - simpl. by destruct (encodeStruct m fs' vs').
  - cbn [app encodeStruct]. injection Hl as Hl. rewrite (IH vs Hl).
    destruct (field_exported i); [|done]. destruct (field_tag i); [|done|].
    + destruct (map_err _ (m t v)); [|done..]. cbn [rbind].
      destruct (encodeStruct m fs vs); [|done..]. cbn [rbind].
      destruct (encodeStruct m fs' vs'); [|done..]. cbn [rbind]. by rewrite app_assoc.
    + destruct (map_err _ _); [|done..]. cbn [rbind].
      destruct (encodeStruct m fs vs); [|done..]. cbn [rbind].
      destruct (encodeStruct m fs' vs'); [|done..]. cbn [rbind]. by rewrite app_assoc.
Qed.

Lemma marshal_octets n s :
  ∃ bs, marshal (octets_type n) (hash_value s) = Ok bs ∧ length bs = length s.
Proof.
  cbn [octets_type hash_value marshal]. unfold encodeArray.
  induction s as [|z s (bs & IH & Hl)]; [by exists []|]. cbn [fmap list_fmap encode_all].
  fold (VNum <$> s). rewrite IH.
  assert (∃ b, marshal (TPrim false Uint8) (VNum z) = Ok [b]) as [b ->] by (eexists; reflexivity).
  cbn [rbind app]. exists (b :: bs). simpl. by rewrite Hl.
Qed.

Definition unsealed_fields : list (field_info * gotype) :=
  match header_type with TStruct fs => take 9 fs | _ => [] end.

(** The unsealed header is the encoding of the fields before the seal. *)
Lemma encodeUnsealedHeader_spec h :
  length (BlockSealSignature h) = 96%nat →
  encodeUnsealedHeader h =
  map_err StJam (encodeStruct marshal unsealed_fields (unsealed_values h)).
Proof.
  intros Hs. unfold encodeUnsealedHeader, Bytes_header, Marshal.
  assert (marshal header_type (header_value h) =
    let! a := encodeStruct marshal unsealed_fields (unsealed_values h) in
    let! b := encodeStruct marshal [(field "BlockSealSignature", octets_type 96)]
                [hash_value (BlockSealSignature h)] in Ok (a ++ b)) as ->
    by (apply (encodeStruct_app marshal unsealed_fields [(field "BlockSealSignature", octets_type 96)]
          (unsealed_values h)); reflexivity).
  destruct (encodeStruct marshal unsealed_fields _) as [a| |]; [|done..]. cbn [rbind encodeStruct field].
  destruct (marshal_octets 96 (BlockSealSignature h)) as (bs & -> & Hl).
  cbn [field field_exported field_tag map_err rbind]. rewrite app_nil_r.
  cbn [map_err rbind]. unfold go_slice.
  assert (len bs = 96) as Hb by (unfold len; rewrite Hl, Hs; done).
  rewrite len_app, Hb, Z.add_simpl_r. pose proof (len_nonneg a).
  rewrite (proj2 (Z.leb_le 0 (len a))), (proj2 (Z.leb_le (len a) _)) by lia. cbn [andb Z.leb Z.compare].
  rewrite drop_0, Z.sub_0_r. unfold len. rewrite Nat2Z.id. by rewrite take_app_length.
Qed.

Lemma encodeUnsealedHeader_seal h s :
  length (BlockSealSignature h) = 96%nat → length s = 96%nat →
  encodeUnsealedHeader (with_seal s h) = encodeUnsealedHeader h.
Proof. intros. by rewrite !encodeUnsealedHeader_spec. Qed.

Section laws.
Context `{BandersnatchLaws}.

Lemma findSigner_signer vs data aux s sk pk :
  Sign sk data aux = Some s → Public sk = Some pk →
  (∃ keys, Some keys ∈ vs ∧ Bandersnatch keys = pk) → findSigner vs data aux s = pk.
Proof.
  intros Hs Hp (keys & Hin & Hk). induction vs as [|v vs IH]; [by apply elem_of_nil in Hin|].
  destruct v as [k|]; simpl.
  - destruct (VrfVerify _ _ _ _) eqn:E; [by eapply verify_signer|]. apply IH.
    apply elem_of_cons in Hin as [[= ->]|Hin]; [|done]. subst pk.
    by rewrite (sign_verify sk _ data aux s Hs Hp) in E.
  - apply IH. by apply elem_of_cons in Hin as [|Hin].
Qed.

(** What signing returns: a seal over the header with the new VRF signature, and
    the VRF signature over the seal's output. *)
Lemma seal_with_vrf_Ok h sk ctx vrf seal vrf' :
  seal_with_vrf h sk ctx vrf = Ok (seal, vrf') →
  vrf' = vrf ∧ ∃ u, encodeUnsealedHeader (with_vrf vrf h) = Ok u ∧ Sign sk ctx u = Some seal.
Proof.
  unfold seal_with_vrf. destruct (encodeUnsealedHeader _) as [u| |]; [|done..]. cbn [rbind].
  destruct (Sign sk ctx u) eqn:E; [|done]. simpl. intros [= -> ->]. by eauto.
Qed.

Lemma SignBlock_Ok h tok sk eta3 seal vrf :
  SignBlock h tok sk eta3 = Ok (seal, vrf) →
  ∃ ctx u y,
    ctx = match tok with
          | WinningTicket t => buildTicketSealContext eta3 (EntryIndex t)
          | WinningKey _ => buildTicketFallbackContext eta3
          end ∧
    encodeUnsealedHeader (with_vrf vrf h) = Ok u ∧ Sign sk ctx u = Some seal ∧
    OutputHash seal = Some y ∧ Sign sk (buildVRFContext y) [] = Some vrf ∧
    match tok with
    | WinningTicket t => y = Identifier t
    | WinningKey k => Public sk = Some k
    end.
Proof.
  destruct tok as [t|k]; simpl; unfold SignBlockWithTicket, SignBlockWithFallback, signBlockVRFS.
  - set (ctx := buildTicketSealContext _ _). destruct (Sign sk ctx []) as [s0|] eqn:E0; [|done].
    cbn [vrf_call rbind]. destruct (OutputHash s0) as [y|] eqn:Ey; [|done]. cbn [vrf_call rbind].
    case_bool_decide as Hy; [|done]. cbn [negb].
    destruct (Sign sk (buildVRFContext y) []) as [v|] eqn:Ev; [|done]. cbn [vrf_call rbind].
    intros (-> & u & Hu & Hs)%seal_with_vrf_Ok. exists ctx, u, y. split_and!; try done.
    by rewrite (sign_output sk ctx u [] seal s0 Hs E0).
  - destruct (Public sk) as [pk|] eqn:Ep; [|done]. cbn [vrf_call rbind].
    case_bool_decide as Hk; [|done]. cbn [negb]. set (ctx := buildTicketFallbackContext _).
    destruct (Sign sk ctx []) as [s0|] eqn:E0; [|done].
    cbn [vrf_call rbind]. destruct (OutputHash s0) as [y|] eqn:Ey; [|done]. cbn [vrf_call rbind].
    destruct (Sign sk (buildVRFContext y) []) as [v|] eqn:Ev; [|done]. cbn [vrf_call rbind].
    intros (-> & u & Hu & Hs)%seal_with_vrf_Ok. exists ctx, u, y. split_and!; try done; [|by subst].
    by rewrite (sign_output sk ctx u [] seal s0 Hs E0).
Qed.
End laws.

(** ** The round trip *)

(** C20: a block that [SealBlock] seals for a signer who is one of the current
    validators, with a key that is not the zero key and a header whose seal field
    holds 96 bytes, passes [VerifyBlockSeal] on the same state, both with a winning
    ticket and with a fallback key; sealing changes the two signatures of the header
    and nothing else.  ([SealBlock] itself does not look at the current validators:
    see [outsider_seals].)  The VRF is given by its laws. *)
Theorem seal_roundtrip `{BandersnatchLaws} (h h' : Header) (st : SealState) (sk pk : list Z) :
  length (BlockSealSignature h) = 96%nat → Public sk = Some pk → pk ≠ zeroKey →
  (∃ keys, Some keys ∈ seal_Current st ∧ Bandersnatch keys = pk) →
  SealBlock h st sk = Ok h' →
  VerifyBlockSeal h' st = Ok true ∧
  h' = with_vrf (VRFSignature h') (with_seal (BlockSealSignature h') h) ∧
  length (BlockSealSignature h') = 96%nat.
Proof.
  intros Hl Hpk Hnz Hin. unfold SealBlock.
  destruct (getWinningTicketOrKey h st) as [tok| |] eqn:Htok; [|done..]. cbn [rbind].
  destruct (SignBlock _ _ _ _) as [[seal vrf]| |] eqn:Hsign; [|done..]. cbn [rbind]. intros [= <-].
  apply SignBlock_Ok in Hsign as (ctx & u & y & -> & Hu & Hs & Hy & Hv & Htk).
  assert (length seal = 96%nat) as Hseal by (by eapply sign_length). split_and!; [|done..].
  unfold VerifyBlockSeal.
  change (getWinningTicketOrKey (with_vrf vrf (with_seal seal h)) st)
    with (getWinningTicketOrKey h st). rewrite Htok. cbn [rbind]. unfold VerifyBlockSignatures.
  change (with_vrf vrf (with_seal seal h)) with (with_seal seal (with_vrf vrf h)).
  rewrite encodeUnsealedHeader_seal, Hu by done. cbn [rbind BlockSealSignature with_seal].
  rewrite Hy. cbn [vrf_call rbind VRFSignature with_vrf]. destruct tok as [t|k].
  - rewrite bool_decide_true by done. cbn [negb].
    rewrite (findSigner_signer (seal_Current st) _ u seal sk pk) by done.
    rewrite bool_decide_false by done. f_equal. by eapply sign_verify.
  - rewrite (sign_verify sk k _ u seal) by done. cbn [negb]. f_equal. by eapply sign_verify.
Qed.

(** A toy VRF: a signature is the key followed by a digest of the input data and
    the auxiliary data. *)
Definition digest (n : nat) (data : list Z) : list Z :=
  take n (data ++ replicate n 0).
#[global] Instance toy_vrf : Bandersnatch_ops := {
  Public sk := Some sk;
  Sign sk data aux := if bool_decide (length sk = 32%nat) then
                        Some (sk ++ digest 32 (rev data) ++ digest 32 aux) else None;
  VrfVerify pk data aux s := bool_decide (s = pk ++ digest 32 (rev data) ++ digest 32 aux ∧
                                          length pk = 32%nat);
  OutputHash s := Some (take 64 s);
}.

Lemma length_digest n data : length (digest n data) = n.
Proof. unfold digest. rewrite length_take, length_app, length_replicate. lia. Qed.

#[global] Instance toy_vrf_laws : BandersnatchLaws.
Proof.
  split; simpl.
  - intros sk data aux s. case_bool_decide as Hk; [|done]. intros [= <-].
    by rewrite !length_app, !length_digest, Hk.
  - intros sk pk data aux s. case_bool_decide as Hk; [|done]. intros [= <-] [= <-].
    by apply bool_decide_true.
  - intros sk data aux aux' s s'. case_bool_decide as Hk; [|done]. intros [= <-] [= <-].
    rewrite !app_assoc, !(take_app_le (sk ++ digest 32 (rev data)));
      [done|rewrite length_app, length_digest; lia..].
  - intros sk pk pk' data aux s. case_bool_decide as Hk; [|done].
    intros [= <-] [= <-] [E Hk']%bool_decide_eq_true. symmetry.
    apply (app_inj_1 _ _ _ _) in E as [E _]; [done|by rewrite Hk, Hk'].
Qed.

Definition a_header : Header :=
  MkHeader ZeroHash ZeroHash ZeroHash 7 None None [] 0 (replicate 96 0) (replicate 96 0).
Definition a_seal_state : SealState :=
  MkSealState (Some (EpochKeys (replicate 600 (replicate 32 5)))) (replicate 4 ZeroHash)
    [Some (MkValidatorKey (replicate 32 5) (replicate 32 5) [] [])].

(** The same validator, with a ticket for every slot of the epoch. *)
Definition a_ticket : Ticket :=
  MkTicket (replicate 32 5 ++ digest 32 (rev (buildTicketSealContext ZeroHash 1))) 1.
Definition a_ticket_state : SealState :=
  MkSealState (Some (TicketsBodies (replicate 600 a_ticket))) (replicate 4 ZeroHash)
    (seal_Current a_seal_state).

Lemma seal_roundtrip_witness :
  (∃ h', SealBlock a_header a_seal_state (replicate 32 5) = Ok h' ∧
         VerifyBlockSeal h' a_seal_state = Ok true) ∧
  (∃ h', SealBlock a_header a_ticket_state (replicate 32 5) = Ok h' ∧
         VerifyBlockSeal h' a_ticket_state = Ok true).
Proof.
  split; eexists; (split; [vm_compute; reflexivity|]).
  - refine (proj1 (seal_roundtrip a_header _ a_seal_state (replicate 32 5) (replicate 32 5) _ _ _ _ _));
      [done|done|done| |vm_compute; reflexivity].
    eexists. split; [by constructor|done].
  - refine (proj1 (seal_roundtrip a_header _ a_ticket_state (replicate 32 5) (replicate 32 5) _ _ _ _ _));
      [done|done|done| |vm_compute; reflexivity].
    eexists. split; [by constructor|done].
Defined.

(** [SealBlock] does not check that the holder of the winning ticket is a current
    validator: a block it seals may be refused. *)
Theorem outsider_seals :
  ∃ (st : SealState) (sk : list Z) (h' : Header),
    SealBlock a_header st sk = Ok h' ∧ VerifyBlockSeal h' st = Ok false.
Proof.
  exists (MkSealState (Some (TicketsBodies (replicate 600 a_ticket))) (replicate 4 ZeroHash) []),
    (replicate 32 5).
  eexists. split; [vm_compute; reflexivity|]. vm_compute; reflexivity.
Qed.
