(* ===== verification/Bandersnatch.v ===== *)
(** * The Bandersnatch VRF

    [internal/crypto/bandersnatch/bandersnatch.go] and the C interface behind it,
    [bandersnatch/src/lib.rs].  The crate [ark_ec_vrfs], with its curves, proofs and
    compressed encodings, is a parameter.  The library's two cells that are set once
    and the boxes it hands out as opaque pointers are a state that the calls pass
    on. *)
From S2P Require Export BlockSeal.

(** ** What the library uses of [ark_ec_vrfs] *)

(** Ring operations depend on the size of the ring; those that are [None] panic. *)
Record Ark : Type := MkArk {
  ASecret : Type; APublic : Type; AInput : Type; AOutput : Type;
  AProof : Type; ARingProof : Type; ARingCommitment : Type;
  from_seed : list Z → ASecret;
  public_of : ASecret → APublic;
  input_new : list Z → option AInput;
  output : ASecret → AInput → AOutput;
  output_hash : AOutput → list Z;
  ietf_prove : ASecret → AInput → AOutput → list Z → AProof;
  ietf_verify : APublic → AInput → AOutput → list Z → AProof → bool;
  from_srs : Z → bool;
  padding_point : Z → APublic;
  ring_prove : Z → list APublic → Z → ASecret → AInput → AOutput → list Z → option ARingProof;
  ring_commitment : Z → list APublic → option ARingCommitment;
  ring_verify : Z → ARingCommitment → AInput → AOutput → list Z → ARingProof → bool;
  (* [serialize_compressed], [deserialize_compressed] *)
  secret_ser : ASecret → list Z; secret_de : list Z → option ASecret;
  public_ser : APublic → list Z; public_de : list Z → option APublic;
  ietf_ser : AOutput * AProof → list Z; ietf_de : list Z → option (AOutput * AProof);
  ring_ser : AOutput * ARingProof → list Z; ring_de : list Z → option (AOutput * ARingProof);
  commitment_ser : ARingCommitment → list Z; commitment_de : list Z → option ARingCommitment;
}.

(** ** Pointers to bytes *)

(** [None] is the null pointer, also that of a nil slice. *)
Definition buf : Type := option (list Z).
Definition is_null (p : buf) : bool := match p with None => true | Some _ => false end.

(** Reading and writing beyond the memory of a pointer is undefined. *)
Definition from_raw_parts (p : buf) (n : Z) : res string (list Z) :=
  match p with
  | Some b => if n <=? len b then Ok (take (Z.to_nat n) b) else RuntimePanic
  | None => RuntimePanic
  end.
Definition copy_nonoverlapping (src : list Z) (dst : buf) (n : Z) : res string buf :=
  match dst with
  | Some b =>
      if (n <=? len src) && (n <=? len b)
      then Ok (Some (take (Z.to_nat n) src ++ drop (Z.to_nat n) b)) else RuntimePanic
  | None => RuntimePanic
  end.

(** [serialize_compressed(&mut buf[..])] with a buffer of [n] zeros. *)
Definition serialize (bytes : list Z) (n : Z) : option (list Z) :=
  if len bytes <=? n then Some (bytes ++ replicate (Z.to_nat (n - len bytes)) 0) else None.

(** [output.hash()[..n]] *)
Definition hash_prefix (h : list Z) (n : Z) : res string (list Z) := go_slice h 0 n.

(** ** [bandersnatch/src/lib.rs] *)

Module Rust.
Definition DEFAULT_RING_SIZE : Z := 1023.
Definition SECRET_KEY_LENGTH : Z := 32.
Definition PUBLIC_KEY_LENGTH : Z := 32.
Definition IETF_VRF_SIGNATURE_LENGTH : Z := 96.
Definition IETF_VRF_HASH_OUTPUT_LENGTH : Z := 32.
Definition RING_VRF_COMMITMENT_LENGTH : Z := 144.
Definition RING_VRF_SIGNATURE_LENGTH : Z := 784.
Definition RING_VRF_HASH_OUTPUT_LENGTH : Z := 32.

Section lib.
Context (ark : Ark).

Definition vrf_input_point (vrf_input_data : list Z) : res string (AInput ark) :=
  match input_new ark vrf_input_data with Some i => Ok i | None => RuntimePanic end.

Definition ietf_vrf_sign_impl (secret : ASecret ark) (vrf_input_data aux_data : list Z)
  : res string (AOutput ark * AProof ark) :=
  let! input := vrf_input_point vrf_input_data in
  let out := output ark secret input in
  Ok (out, ietf_prove ark secret input out aux_data).

(** [None] is the error. *)
Definition ietf_vrf_verify_impl (public : APublic ark) (vrf_input_data aux_data : list Z)
    (signature : AOutput ark * AProof ark) : res string (option (list Z)) :=
  let! input := vrf_input_point vrf_input_data in
  if negb (ietf_verify ark public input signature.1 aux_data signature.2) then Ok None
  else
    let! h := hash_prefix (output_hash ark signature.1) IETF_VRF_HASH_OUTPUT_LENGTH in Ok (Some h).

(** *** The state of the library *)

Inductive ring_box : Type :=
| BoxVerifier (ring : list (APublic ark))
| BoxProver (secret : ASecret ark) (ring : list (APublic ark)) (prover_idx : Z).

(** The two [OnceLock]s, the second one with the size of its context, and the
    boxes by their address. *)
Record Lib : Type := MkLib {
  RING_SIZE : option Z;
  RING_CTX : option Z;
  boxes : gmap Z ring_box;
  next_box : Z;
}.

Definition init_ring_size_impl (size : Z) (lib : Lib) : Lib :=
  match RING_SIZE lib with
  | Some _ => lib
  | None => MkLib (Some size) (RING_CTX lib) (boxes lib) (next_box lib)
  end.
Definition ring_size (lib : Lib) : Lib * Z :=
  match RING_SIZE lib with
  | Some n => (lib, n)
  | None => (init_ring_size_impl DEFAULT_RING_SIZE lib, DEFAULT_RING_SIZE)
  end.
Definition ring_context (lib : Lib) : res string (Lib * Z) :=
  match RING_CTX lib with
  | Some n => Ok (lib, n)
  | None =>
      let '(lib, n) := ring_size lib in
      if from_srs ark n then Ok (MkLib (RING_SIZE lib) (Some n) (boxes lib) (next_box lib), n)
      else RuntimePanic
  end.

(** [Box::into_raw(Box::new(...))] *)
Definition into_raw (b : ring_box) (lib : Lib) : Lib * Z :=
  (MkLib (RING_SIZE lib) (RING_CTX lib) (<[next_box lib := b]> (boxes lib)) (next_box lib + 1), next_box lib).

(** *** The methods of the ring types *)

Definition prover_sign (lib : Lib) (secret : ASecret ark) (ring : list (APublic ark)) (prover_idx : Z)
    (vrf_input_data aux_data : list Z) : res string (Lib * (AOutput ark * ARingProof ark)) :=
  let! input := vrf_input_point vrf_input_data in
  let out := output ark secret input in
  let! (lib, n) := ring_context lib in
  match ring_prove ark n ring prover_idx secret input out aux_data with
  | Some proof => Ok (lib, (out, proof))
  | None => RuntimePanic
  end.

Definition verifier_commitment (lib : Lib) (ring : list (APublic ark)) : res string (Lib * ARingCommitment ark) :=
  let! (lib, n) := ring_context lib in
  match ring_commitment ark n ring with Some c => Ok (lib, c) | None => RuntimePanic end.

Definition verifier_verify (lib : Lib) (vrf_input_data aux_data : list Z) (commitment : ARingCommitment ark)
    (signature : AOutput ark * ARingProof ark) : res string (Lib * option (list Z)) :=
  let! input := vrf_input_point vrf_input_data in
  let! (lib, n) := ring_context lib in
  if negb (ring_verify ark n commitment input signature.1 aux_data signature.2) then Ok (lib, None)
  else
    let! h := hash_prefix (output_hash ark signature.1) RING_VRF_HASH_OUTPUT_LENGTH in Ok (lib, Some h).

(** *** The C interface: the status, and the memory of the output pointer *)

Definition init_ring_size (size : Z) (lib : Lib) : Lib * Z := (init_ring_size_impl size lib, 0).
Definition get_ring_size (lib : Lib) : Lib * Z := ring_size lib.

Definition new_secret (seed : buf) (seed_len : Z) (secret_out : buf) : res string (Z * buf) :=
  if is_null seed || is_null secret_out then Ok (-1, secret_out)
  else
    let! seed_slice := from_raw_parts seed seed_len in
    match serialize (secret_ser ark (from_seed ark seed_slice)) SECRET_KEY_LENGTH with
    | None => Ok (-1, secret_out)
    | Some secret_buf =>
        let! secret_out := copy_nonoverlapping secret_buf secret_out SECRET_KEY_LENGTH in
        Ok (0, secret_out)
    end.

Definition secret_public (secret public_out : buf) : res string (Z * buf) :=
  if is_null secret || is_null public_out then Ok (-1, public_out)
  else
    let! secret_slice := from_raw_parts secret SECRET_KEY_LENGTH in
    match secret_de ark secret_slice with
    | None => Ok (-1, public_out)
    | Some secret =>
        match serialize (public_ser ark (public_of ark secret)) PUBLIC_KEY_LENGTH with
        | None => Ok (-1, public_out)
        | Some public_buf =>
            let! public_out := copy_nonoverlapping public_buf public_out PUBLIC_KEY_LENGTH in
            Ok (0, public_out)
        end
    end.

Definition ietf_vrf_sign (secret vrf_input_data : buf) (vrf_input_data_len : Z) (aux_data : buf)
    (aux_data_len : Z) (signature_out : buf) : res string (Z * buf) :=
  if is_null secret || is_null vrf_input_data || is_null aux_data || is_null signature_out
  then Ok (-1, signature_out)
  else
    let! secret_slice := from_raw_parts secret SECRET_KEY_LENGTH in
    let! vrf_input_data := from_raw_parts vrf_input_data vrf_input_data_len in
    let! aux_data := from_raw_parts aux_data aux_data_len in
    match secret_de ark secret_slice with
    | None => Ok (-1, signature_out)
    | Some secret =>
        let! signature := ietf_vrf_sign_impl secret vrf_input_data aux_data in
        match serialize (ietf_ser ark signature) IETF_VRF_SIGNATURE_LENGTH with
        | None => Ok (-1, signature_out)
        | Some signature_buf =>
            let! signature_out := copy_nonoverlapping signature_buf signature_out (len signature_buf) in
            Ok (0, signature_out)
        end
    end.

Definition ietf_vrf_verify (public_key vrf_input_data : buf) (vrf_input_data_len : Z) (aux_data : buf)
    (aux_data_len : Z) (signature output_hash_out : buf) : res string (Z * buf) :=
  if is_null public_key || is_null vrf_input_data || is_null aux_data || is_null signature
     || is_null output_hash_out
  then Ok (-1, output_hash_out)
  else
    let! public_key_slice := from_raw_parts public_key PUBLIC_KEY_LENGTH in
    let! vrf_input_data_slice := from_raw_parts vrf_input_data vrf_input_data_len in
    let! aux_data_slice := from_raw_parts aux_data aux_data_len in
    let! signature_slice := from_raw_parts signature IETF_VRF_SIGNATURE_LENGTH in
    match public_de ark public_key_slice, ietf_de ark signature_slice with
    | Some public, Some signature =>
        let! r := ietf_vrf_verify_impl public vrf_input_data_slice aux_data_slice signature in
        match r with
        | Some vrf_output_hash =>
            let! output_hash_out :=
              copy_nonoverlapping vrf_output_hash output_hash_out IETF_VRF_HASH_OUTPUT_LENGTH in
            Ok (0, output_hash_out)
        | None => Ok (-1, output_hash_out)
        end
    | _, _ => Ok (-1, output_hash_out)
    end.

Definition ietf_vrf_output_hash (signature output_hash_out : buf) : res string (Z * buf) :=
  if is_null signature || is_null output_hash_out then Ok (-1, output_hash_out)
  else
    let! signature_slice := from_raw_parts signature IETF_VRF_SIGNATURE_LENGTH in
    match ietf_de ark signature_slice with
    | None => Ok (-1, output_hash_out)
    | Some signature =>
        let! output_hash_out := copy_nonoverlapping (output_hash ark signature.1) output_hash_out
                                  IETF_VRF_HASH_OUTPUT_LENGTH in
        Ok (0, output_hash_out)
    end.

Definition ring_vrf_output_hash (signature output_hash_out : buf) : res string (Z * buf) :=
  if is_null signature || is_null output_hash_out then Ok (-1, output_hash_out)
  else
    let! signature_slice := from_raw_parts signature RING_VRF_SIGNATURE_LENGTH in
    match ring_de ark signature_slice with
    | None => Ok (-1, output_hash_out)
    | Some signature =>
        let! output_hash_out := copy_nonoverlapping (output_hash ark signature.1) output_hash_out
                                  RING_VRF_HASH_OUTPUT_LENGTH in
        Ok (0, output_hash_out)
    end.

(** Slices of the flat array; an invalid key becomes the padding point. *)
Fixpoint chunks (n : nat) (fuel : nat) (l : list Z) : list (list Z) :=
  match fuel, l with
  | _, [] | O, _ => []
  | S fuel, _ => take n l :: chunks n fuel (drop n l)
  end.
Definition ring_of (size : Z) (public_keys_slice : list Z) : list (APublic ark) :=
  (λ chunk, default (padding_point ark size) (public_de ark chunk)) <$>
    chunks (Z.to_nat PUBLIC_KEY_LENGTH) (length public_keys_slice) public_keys_slice.

(** The pointer is [None] if it is null. *)
Definition new_ring_vrf_verifier (public_keys : buf) (public_keys_len : Z) (lib : Lib)
  : res string (Lib * option Z) :=
  if is_null public_keys || negb (public_keys_len `mod` PUBLIC_KEY_LENGTH =? 0) then Ok (lib, None)
  else
    let! public_keys_slice := from_raw_parts public_keys public_keys_len in
    let num_keys := public_keys_len `div` PUBLIC_KEY_LENGTH in
    let! (lib, size) := ring_context lib in
    let ring := ring_of size public_keys_slice in
    if negb (len ring =? num_keys) then Ok (lib, None)
    else let '(lib, p) := into_raw (BoxVerifier ring) lib in Ok (lib, Some p).

Definition new_ring_vrf_prover (secret public_keys : buf) (public_keys_len prover_idx : Z) (lib : Lib)
  : res string (Lib * option Z) :=
  if is_null secret || is_null public_keys || negb (public_keys_len `mod` PUBLIC_KEY_LENGTH =? 0)
  then Ok (lib, None)
  else
    let! secret_slice := from_raw_parts secret SECRET_KEY_LENGTH in
    let! public_keys_slice := from_raw_parts public_keys public_keys_len in
    match secret_de ark secret_slice with
    | None => Ok (lib, None)
    | Some secret =>
        let num_keys := public_keys_len `div` PUBLIC_KEY_LENGTH in
        let! (lib, size) := ring_context lib in
        let ring := ring_of size public_keys_slice in
        if negb (len ring =? num_keys) then Ok (lib, None)
        else let '(lib, p) := into_raw (BoxProver secret ring prover_idx) lib in Ok (lib, Some p)
    end.

(** Freeing what is not allocated is undefined. *)
Definition free_box (p : option Z) (lib : Lib) : res string Lib :=
  match p with
  | None => Ok lib
  | Some p =>
      match boxes lib !! p with
      | Some _ => Ok (MkLib (RING_SIZE lib) (RING_CTX lib) (delete p (boxes lib)) (next_box lib))
      | None => RuntimePanic
      end
  end.
Definition free_ring_vrf_verifier : option Z → Lib → res string Lib := free_box.
Definition free_ring_vrf_prover : option Z → Lib → res string Lib := free_box.

Definition ring_vrf_verifier_commitment (verifier : option Z) (commitment_out : buf) (lib : Lib)
  : res string (Lib * (Z * buf)) :=
  match verifier with
  | None => Ok (lib, (-1, commitment_out))
  | Some p =>
      if is_null commitment_out then Ok (lib, (-1, commitment_out))
      else
        match boxes lib !! p with
        | Some (BoxVerifier ring) =>
            let! (lib, commitment) := verifier_commitment lib ring in
            match serialize (commitment_ser ark commitment) RING_VRF_COMMITMENT_LENGTH with
            | None => Ok (lib, (-1, commitment_out))
            | Some commitment_buf =>
                let! commitment_out :=
                  copy_nonoverlapping commitment_buf commitment_out RING_VRF_COMMITMENT_LENGTH in
                Ok (lib, (0, commitment_out))
            end
        | _ => RuntimePanic
        end
  end.

Definition ring_vrf_verifier_verify (verifier : option Z) (vrf_input_data : buf) (vrf_input_data_len : Z)
    (aux_data : buf) (aux_data_len : Z) (commitment signature output_hash_out : buf) (lib : Lib)
  : res string (Lib * (Z * buf)) :=
  match verifier with
  | None => Ok (lib, (-1, output_hash_out))
  | Some p =>
      if is_null vrf_input_data || is_null aux_data || is_null commitment || is_null signature
         || is_null output_hash_out
      then Ok (lib, (-1, output_hash_out))
      else
        let! vrf_input_data := from_raw_parts vrf_input_data vrf_input_data_len in
        let! aux_data := from_raw_parts aux_data aux_data_len in
        let! commitment_slice := from_raw_parts commitment RING_VRF_COMMITMENT_LENGTH in
        let! signature_slice := from_raw_parts signature RING_VRF_SIGNATURE_LENGTH in
        match commitment_de ark commitment_slice, ring_de ark signature_slice with
        | Some commitment, Some signature =>
            match boxes lib !! p with
            | Some (BoxVerifier _) =>
                let! (lib, r) := verifier_verify lib vrf_input_data aux_data commitment signature in
                match r with
                | Some vrf_output_hash =>
                    let! output_hash_out :=
                      copy_nonoverlapping vrf_output_hash output_hash_out RING_VRF_HASH_OUTPUT_LENGTH in
                    Ok (lib, (0, output_hash_out))
                | None => Ok (lib, (-1, output_hash_out))
                end
            | _ => RuntimePanic
            end
        | _, _ => Ok (lib, (-1, output_hash_out))
        end
  end.

Definition ring_vrf_prover_sign (prover : option Z) (vrf_input_data : buf) (vrf_input_data_len : Z)
    (aux_data : buf) (aux_data_len : Z) (signature_out : buf) (lib : Lib) : res string (Lib * (Z * buf)) :=
  match prover with
  | None => Ok (lib, (-1, signature_out))
  | Some p =>
      if is_null vrf_input_data || is_null aux_data || is_null signature_out
      then Ok (lib, (-1, signature_out))
      else
        let! vrf_input_data := from_raw_parts vrf_input_data vrf_input_data_len in
        let! aux_data := from_raw_parts aux_data aux_data_len in
        match boxes lib !! p with
        | Some (BoxProver secret ring prover_idx) =>
            let! (lib, signature) := prover_sign lib secret ring prover_idx vrf_input_data aux_data in
            match serialize (ring_ser ark signature) RING_VRF_SIGNATURE_LENGTH with
            | None => Ok (lib, (-1, signature_out))
            | Some signature_buf =>
                let! signature_out := copy_nonoverlapping signature_buf signature_out (len signature_buf) in
                Ok (lib, (0, signature_out))
            end
        | _ => RuntimePanic
        end
  end.
End lib.
End Rust.

(** ** [internal/crypto/bandersnatch/bandersnatch.go] *)

Module Vrf.
(** An array that is filled by the library, and the address and length of a
    slice. *)
Definition array (n : Z) : buf := Some (replicate (Z.to_nat n) 0).
Definition slice_len (s : buf) : Z := match s with Some b => len b | None => 0 end.
Definition contents (b : buf) : list Z := default [] b.

Section wrapper.
Context (ark : Ark).
#[local] Abbreviation Lib := (Rust.Lib ark).

(** A status other than 0 is an error. *)
Definition checked (msg : string) (r : res string (Z * buf)) : res string (list Z) :=
  let! (result, out) := r in if negb (result =? 0) then Err msg else Ok (contents out).

Definition InitRingSize (size : Z) (lib : Lib) : Lib * res string unit :=
  let '(lib, result) := Rust.init_ring_size ark size lib in
  (lib, if negb (result =? 0) then Err "error initializing ring size" else Ok ()).
Definition GetRingSize (lib : Lib) : Lib * Z := Rust.get_ring_size ark lib.

(** What [init] does once the library is loaded. *)
Definition init_ (lib : Lib) : res string Lib :=
  match InitRingSize NumberOfValidators lib with
  | (lib, Ok _) => Ok lib
  | (_, _) => RuntimePanic
  end.

Definition NewPrivateKeyFromSeed (seed : list Z) : res string (list Z) :=
  checked "error generating private key" (Rust.new_secret ark (Some seed) (len seed) (array 32)).
Definition Public (secret : list Z) : res string (list Z) :=
  checked "error generating private key" (Rust.secret_public ark (Some secret) (array 32)).
Definition Sign (secret : list Z) (vrfInputData auxData : buf) : res string (list Z) :=
  checked "error generating signature"
    (Rust.ietf_vrf_sign ark (Some secret) vrfInputData (slice_len vrfInputData)
       auxData (slice_len auxData) (array 96)).

(** [valid] and the output hash. *)
Definition Verify (public : list Z) (vrfInputData auxData : buf) (signature : list Z)
  : res string (option (list Z)) :=
  let! (result, outputHash) :=
    Rust.ietf_vrf_verify ark (Some public) vrfInputData (slice_len vrfInputData)
      auxData (slice_len auxData) (Some signature) (array 32) in
  if negb (result =? 0) then Ok None else Ok (Some (contents outputHash)).
Definition OutputHash (signature : list Z) : res string (list Z) :=
  checked "error getting output hash" (Rust.ietf_vrf_output_hash ark (Some signature) (array 32)).

(** The loop copies every key to its place. *)
Fixpoint copy_keys (i : Z) (keys : list (list Z)) (result : list Z) : list Z :=
  match keys with
  | [] => result
  | key :: keys =>
      let k := Z.to_nat (i * 32) in
      copy_keys (i + 1) keys (take k result ++ go_copy (drop k result) key)
  end.
Definition flattenPublicKeys (keys : list (list Z)) : list Z :=
  copy_keys 0 keys (replicate (Z.to_nat (len keys * 32)) 0).

(** The field [ptr] of a verifier or prover; [None] is nil. *)
Record RingVrf : Type := MkRing { ptr : option Z }.

Definition NewRingVerifier (publicKeys : list (list Z)) (lib : Lib) : res string (Lib * res string RingVrf) :=
  let flatKeys := flattenPublicKeys publicKeys in
  let! (lib, p) := Rust.new_ring_vrf_verifier ark (Some flatKeys) (len flatKeys) lib in
  match p with
  | None => Ok (lib, Err "unable to create RingVrfVerifier")
  | Some p => Ok (lib, Ok (MkRing (Some p)))
  end.

Definition FreeVerifier (r : RingVrf) (lib : Lib) : res string (Lib * RingVrf) :=
  match ptr r with
  | None => Ok (lib, r)
  | Some p => let! lib := Rust.free_ring_vrf_verifier ark (Some p) lib in Ok (lib, MkRing None)
  end.

Definition Commitment (r : RingVrf) (lib : Lib) : res string (Lib * res string (list Z)) :=
  match ptr r with
  | None => Ok (lib, Err "nil RingVrfVerifier")
  | Some p =>
      let! (lib, (result, commitment)) := Rust.ring_vrf_verifier_commitment ark (Some p) (array 144) lib in
      if negb (result =? 0) then Ok (lib, Err "error getting ring commitment")
      else Ok (lib, Ok (contents commitment))
  end.

Definition RingVerify (r : RingVrf) (vrfInputData auxData : buf) (commitment signature : list Z) (lib : Lib)
  : res string (Lib * option (list Z)) :=
  match ptr r with
  | None => RuntimePanic
  | Some p =>
      let! (lib, (result, outputHash)) :=
        Rust.ring_vrf_verifier_verify ark (Some p) vrfInputData (slice_len vrfInputData)
          auxData (slice_len auxData) (Some commitment) (Some signature) (array 32) lib in
      if negb (result =? 0) then Ok (lib, None) else Ok (lib, Some (contents outputHash))
  end.

Definition NewRingProver (secret : list Z) (publicKeys : list (list Z)) (proverIdx : Z) (lib : Lib)
  : res string (Lib * res string RingVrf) :=
  let flatKeys := flattenPublicKeys publicKeys in
  let! (lib, p) :=
    Rust.new_ring_vrf_prover ark (Some secret) (Some flatKeys) (len flatKeys) proverIdx lib in
  match p with
  | None => Ok (lib, Err "unable to create RingVrfProver")
  | Some p => Ok (lib, Ok (MkRing (Some p)))
  end.

Definition FreeProver (r : RingVrf) (lib : Lib) : res string (Lib * RingVrf) :=
  match ptr r with
  | None => Ok (lib, r)
  | Some p => let! lib := Rust.free_ring_vrf_prover ark (Some p) lib in Ok (lib, MkRing None)
  end.

Definition RingSign (r : RingVrf) (vrfInputData auxData : buf) (lib : Lib)
  : res string (Lib * res string (list Z)) :=
  match ptr r with
  | None => Ok (lib, Err "nil RingVrfProver")
  | Some p =>
      let! (lib, (result, signature)) :=
        Rust.ring_vrf_prover_sign ark (Some p) vrfInputData (slice_len vrfInputData)
          auxData (slice_len auxData) (array 784) lib in
      if negb (result =? 0) then Ok (lib, Err "error generating signature")
      else Ok (lib, Ok (contents signature))
  end.
End wrapper.
End Vrf.

(** ** The ring of the ticket contest

    [RingVerifier] and [CalculateRingCommitment] of [internal/safrole/state.go] and
    [calculateTickets] of [internal/statetransition/state_transition.go] as they call
    the wrapper, with the state of the library.  The outer result is a panic or a
    return with the library as it is then, the inner one is what Go returns.
    [Safrole] has the same functions over the answers of a ring. *)

Module Contest.
Section contest.
Context (ark : Ark).
#[local] Abbreviation Lib := (Rust.Lib ark).
#[local] Abbreviation call A := (res string (Lib * res st_error A)).

Definition RingVerifier (state : SafroleState) (lib : Lib) : call Vrf.RingVrf :=
  let! ring := bandersnatch_keys (NextValidators state) in
  let! (lib, ringVerifier) := Vrf.NewRingVerifier ark ring lib in
  Ok (lib, map_err StErr ringVerifier).

(** [ringVerifier, err := state.RingVerifier(); defer ringVerifier.Free()], and the
    rest of the function: the verifier is freed on every return, and on an error
    [Free] reads a field of the nil pointer. *)
Definition defer_Free {A} (state : SafroleState) (lib : Lib)
    (rest : Vrf.RingVrf → Lib → call A) : call A :=
  let! (lib, ringVerifier) := RingVerifier state lib in
  match ringVerifier with
  | Ok ringVerifier =>
      let! (lib, result) := rest ringVerifier lib in
      let! (lib, _) := Vrf.FreeVerifier ark ringVerifier lib in
      Ok (lib, result)
  | _ => RuntimePanic
  end.

Definition CalculateRingCommitment (state : SafroleState) (lib : Lib) : call (list Z) :=
  defer_Free state lib (λ ringVerifier lib,
    let! (lib, commitment) := Vrf.Commitment ark ringVerifier lib in
    Ok (lib, map_err StErr commitment)).

(** The loop over the proofs. *)
Fixpoint verify_tickets (ringVerifier : Vrf.RingVrf) (commitment : list Z) (eta2 : Hash)
    (existingIds : gset Hash) (ticketProofs : list TicketProof) (lib : Lib) : call (list Ticket) :=
  match ticketProofs with
  | [] => Ok (lib, Ok [])
  | tp :: ticketProofs =>
      if MaxTicketAttempts <=? proof_EntryIndex tp then Ok (lib, Err (StErr "bad ticket attempt"))
      else
        let vrfInputData := TicketSealContext ++ eta2 ++ [proof_EntryIndex tp] in
        let! (lib, outputHash) :=
          Vrf.RingVerify ark ringVerifier (Some vrfInputData) (Some []) commitment (Proof_ tp) lib in
        match outputHash with
        | None => Ok (lib, Err (StErr "bad ticket proof"))
        | Some outputHash =>
            if bool_decide (outputHash ∈ existingIds) then Ok (lib, Err (StErr "duplicate ticket"))
            else
              let! (lib, rest) :=
                verify_tickets ringVerifier commitment eta2 existingIds ticketProofs lib in
              Ok (lib, let! rest := rest in Ok (MkTicket outputHash (proof_EntryIndex tp) :: rest))
        end
  end.

Definition calculateTickets (safstate : SafroleState) (entropyPool : EntropyPool)
    (ticketProofs : list TicketProof) (lib : Lib) : call (list Ticket) :=
  if MaxTicketExtrinsicSize <? len ticketProofs then Ok (lib, Err (StErr "too many tickets"))
  else
    defer_Free safstate lib (λ ringVerifier lib,
      let! (lib, tickets) :=
        verify_tickets ringVerifier (RingCommitment safstate) (entropy entropyPool 2)
          (ticket_ids (TicketAccumulator safstate)) ticketProofs lib in
      Ok (lib, let! tickets := tickets in
               if tickets_ordered tickets then Ok tickets else Err (StErr "bad ticket order"))).
End contest.
End Contest.
