(* ===== verification/BandersnatchTheorems.v ===== *)
(** * The Bandersnatch VRF: theorems

    What [ark_ec_vrfs] promises, that the Go wrapper and the C interface turn it into
    the interface the block seals are proved against, and the way of a ticket from
    an anonymous ring signature to the seal of its block. *)
From S2P Require Import Bandersnatch BlockSealTheorems.

(** ** What [ark_ec_vrfs] promises *)

(** Every byte string gives an input point, hashes of outputs have 64 bytes,
    compressed encodings have fixed lengths and are decoded again, that of a public
    key is unique; proofs verify, those of the non-anonymous VRF only with the
    signer's key, and ring proofs with the commitment of a ring that holds the key. *)
Class ArkLaws (ark : Ark) : Prop := {
  ark_input d : is_Some (input_new ark d);
  ark_hash o : length (output_hash ark o) = 64%nat;
  ark_secret s : length (secret_ser ark s) = 32%nat ∧ secret_de ark (secret_ser ark s) = Some s;
  ark_public k : length (public_ser ark k) = 32%nat ∧ public_de ark (public_ser ark k) = Some k;
  ark_public_unique b s : length b = 32%nat → public_de ark b = Some (public_of ark s) →
    b = public_ser ark (public_of ark s);
  ark_ietf x : length (ietf_ser ark x) = 96%nat ∧ ietf_de ark (ietf_ser ark x) = Some x;
  ark_ring x : length (ring_ser ark x) = 784%nat ∧ ring_de ark (ring_ser ark x) = Some x;
  ark_commitment c : length (commitment_ser ark c) = 144%nat ∧ commitment_de ark (commitment_ser ark c) = Some c;
  ark_verify s k i aux :
    ietf_verify ark k i (output ark s i) aux (ietf_prove ark s i (output ark s i) aux) = true ↔ k = public_of ark s;
  ark_srs n : 0 < n ≤ Rust.DEFAULT_RING_SIZE → from_srs ark n = true;
  ark_ring_commitment n ring : from_srs ark n = true → len ring ≤ n → is_Some (ring_commitment ark n ring);
  ark_ring_prove n ring idx s i o aux : from_srs ark n = true → len ring ≤ n → 0 ≤ idx < len ring →
    is_Some (ring_prove ark n ring idx s i o aux);
  ark_ring_verify n ring idx s i aux c π :
    ring !! Z.to_nat idx = Some (public_of ark s) → 0 ≤ idx →
    ring_commitment ark n ring = Some c → ring_prove ark n ring idx s i (output ark s i) aux = Some π →
    ring_verify ark n c i (output ark s i) aux π = true;
}.

(** ** Memory *)

Lemma from_raw_parts_all b : from_raw_parts (Some b) (len b) = Ok b.
Proof.
  unfold from_raw_parts. rewrite (proj2 (Z.leb_le _ _)) by lia. unfold len. by rewrite Nat2Z.id, take_ge.
Qed.
Lemma from_raw_parts_n b n : len b = n → from_raw_parts (Some b) n = Ok b.
Proof. intros <-. apply from_raw_parts_all. Qed.

Lemma serialize_exact bytes n : len bytes = n → serialize bytes n = Some bytes.
Proof.
  intros <-. unfold serialize. rewrite (proj2 (Z.leb_le _ _)), Z.sub_diag by lia. by rewrite app_nil_r.
Qed.

Lemma copy_to_array src n : len src = n → copy_nonoverlapping src (Vrf.array n) n = Ok (Some src).
Proof.
  intros Hn. unfold copy_nonoverlapping, Vrf.array. assert (len (replicate (Z.to_nat n) 0) = n) as Hl
    by (unfold len in *; rewrite length_replicate; lia).
  rewrite Hl, Hn, Z.leb_refl. cbn [andb]. rewrite take_ge, drop_ge, app_nil_r; [done| |].
  - unfold len in Hl. lia.
  - unfold len in Hn. lia.
Qed.

Lemma copy_prefix src n :
  0 ≤ n ≤ len src → copy_nonoverlapping src (Vrf.array n) n = Ok (Some (take (Z.to_nat n) src)).
Proof.
  intros Hn. unfold copy_nonoverlapping, Vrf.array. assert (len (replicate (Z.to_nat n) 0) = n) as Hl
    by (unfold len in *; rewrite length_replicate; lia).
  rewrite Hl, Z.leb_refl, (proj2 (Z.leb_le _ _)) by lia. cbn [andb].
  rewrite drop_ge, app_nil_r by (unfold len in Hl; lia). done.
Qed.

Lemma hash_prefix_ok h n : 0 ≤ n ≤ len h → hash_prefix h n = Ok (take (Z.to_nat n) h).
Proof.
  intros Hn. unfold hash_prefix, go_slice. rewrite !(proj2 (Z.leb_le _ _)) by lia. cbn [andb].
  by rewrite drop_0, Z.sub_0_r.
Qed.

(** The calls the seals make, on values of the array types of Go. *)
Definition is_array (n : nat) (b : list Z) : bool := bool_decide (length b = n).
Definition to_option {E A} (r : res E A) : option A := match r with Ok a => Some a | _ => None end.

Definition wrapper_ops (ark : Ark) : Bandersnatch_ops := {|
  Public sk := if is_array 32 sk then to_option (Vrf.Public ark sk) else None;
  Sign sk data aux := if is_array 32 sk then to_option (Vrf.Sign ark sk (Some data) (Some aux)) else None;
  VrfVerify pk data aux s :=
    is_array 32 pk && is_array 96 s &&
    match Vrf.Verify ark pk (Some data) (Some aux) s with Ok (Some _) => true | _ => false end;
  OutputHash s := if is_array 96 s then to_option (Vrf.OutputHash ark s) else None;
|}.

Section laws.
Context (ark : Ark) `{!ArkLaws ark}.

(** The input point of a byte string, and the hash of an output. *)
Lemma vrf_input_point_ok d : ∃ i, input_new ark d = Some i ∧ Rust.vrf_input_point ark d = Ok i.
Proof using Type*. destruct (ark_input d) as [i Hi]. exists i. unfold Rust.vrf_input_point. by rewrite Hi. Qed.

Definition id_of (o : AOutput ark) : Hash := take 32 (output_hash ark o).

Lemma id_of_length o : length (id_of o) = 32%nat.
Proof using Type*. unfold id_of. rewrite length_take, ark_hash. done. Qed.

Lemma output_prefix o : hash_prefix (output_hash ark o) 32 = Ok (id_of o).
Proof using Type*. apply hash_prefix_ok. unfold len. rewrite ark_hash. lia. Qed.

Lemma len_nat {A} (l : list A) n : length l = n → len l = Z.of_nat n.
Proof. by intros <-. Qed.

(** *** The operations without a ring *)

Lemma Public_ok sk : length sk = 32%nat → Vrf.Public ark sk =
  match secret_de ark sk with
  | Some s => Ok (public_ser ark (public_of ark s))
  | None => Err "error generating private key"%string
  end.
Proof using Type*.
  intros Hl. unfold Vrf.Public, Rust.secret_public. cbn [is_null orb Vrf.array].
  rewrite from_raw_parts_n by (by apply (len_nat sk 32)). cbn [rbind].
  destruct (secret_de ark sk) as [s|]; [|done]. destruct (ark_public (public_of ark s)) as [Hp _].
  rewrite serialize_exact by (by apply (len_nat _ 32)). change (Some (replicate (Z.to_nat 32) 0)) with (Vrf.array 32).
  by rewrite copy_to_array by (by apply (len_nat _ 32)).
Qed.

(** The signature of a secret, as a pair and as bytes. *)
Definition signature (s : ASecret ark) (i : AInput ark) (aux : list Z) : AOutput ark * AProof ark :=
  (output ark s i, ietf_prove ark s i (output ark s i) aux).

Lemma Sign_ok sk data aux : length sk = 32%nat → ∃ i, input_new ark data = Some i ∧
  Vrf.Sign ark sk (Some data) (Some aux) =
  match secret_de ark sk with
  | Some s => Ok (ietf_ser ark (signature s i aux))
  | None => Err "error generating signature"%string
  end.
Proof using Type*.
  intros Hl. destruct (vrf_input_point_ok data) as (i & Hi & Hip). exists i. split; [done|].
  unfold Vrf.Sign, Rust.ietf_vrf_sign. cbn [is_null orb Vrf.array Vrf.slice_len].
  rewrite from_raw_parts_n by (by apply (len_nat sk 32)). cbn [rbind]. rewrite !from_raw_parts_all. cbn [rbind].
  destruct (secret_de ark sk) as [s|]; [|done]. unfold Rust.ietf_vrf_sign_impl. rewrite Hip. cbn [rbind].
  destruct (ark_ietf (signature s i aux)) as [Hs _]. fold (signature s i aux).
  rewrite serialize_exact by (by apply (len_nat _ 96)). rewrite (len_nat _ 96 Hs).
  change (Some (replicate (Z.to_nat 96) 0)) with (Vrf.array 96).
  by rewrite copy_to_array by (by apply (len_nat _ 96)).
Qed.

Lemma Verify_ok pk data aux sig :
  length pk = 32%nat → length sig = 96%nat → ∃ i, input_new ark data = Some i ∧
  Vrf.Verify ark pk (Some data) (Some aux) sig = Ok
    match public_de ark pk, ietf_de ark sig with
    | Some k, Some (o, π) => if ietf_verify ark k i o aux π then Some (id_of o) else None
    | _, _ => None
    end.
Proof using Type*.
  intros Hk Hs. destruct (vrf_input_point_ok data) as (i & Hi & Hip). exists i. split; [done|].
  unfold Vrf.Verify, Rust.ietf_vrf_verify. cbn [is_null orb Vrf.array Vrf.slice_len].
  rewrite from_raw_parts_n by (by apply (len_nat pk 32)). cbn [rbind]. rewrite !from_raw_parts_all. cbn [rbind].
  rewrite from_raw_parts_n by (by apply (len_nat sig 96)). cbn [rbind].
  destruct (public_de ark pk) as [k|]; [|done]. destruct (ietf_de ark sig) as [[o π]|]; [|done].
  unfold Rust.ietf_vrf_verify_impl. rewrite Hip. cbn [rbind fst snd]. destruct (ietf_verify ark k i o aux π); [|done].
  cbn [negb]. rewrite output_prefix. cbn [rbind]. change (Some (replicate (Z.to_nat 32) 0)) with (Vrf.array 32).
  by rewrite copy_to_array by (apply (len_nat _ 32), id_of_length).
Qed.

Lemma OutputHash_ok sig : length sig = 96%nat → Vrf.OutputHash ark sig =
  match ietf_de ark sig with
  | Some (o, _) => Ok (id_of o)
  | None => Err "error getting output hash"%string
  end.
Proof using Type*.
  intros Hs. unfold Vrf.OutputHash, Rust.ietf_vrf_output_hash. cbn [is_null orb Vrf.array].
  rewrite from_raw_parts_n by (by apply (len_nat sig 96)). cbn [rbind].
  destruct (ietf_de ark sig) as [[o π]|]; [|done]. cbn [fst].
  change (Some (replicate (Z.to_nat 32) 0)) with (Vrf.array 32).
  rewrite copy_prefix; [done|]. unfold len. rewrite ark_hash. done.
Qed.

#[local] Instance ops_of_ark : Bandersnatch_ops := wrapper_ops ark.

(** A signature that was made, and its parts. *)
Lemma Sign_Some sk data aux sig :
  Sign sk data aux = Some sig → length sk = 32%nat ∧ ∃ s i, secret_de ark sk = Some s ∧
    input_new ark data = Some i ∧ sig = ietf_ser ark (signature s i aux).
Proof using Type*.
  cbn [Sign ops_of_ark wrapper_ops]. unfold is_array. case_bool_decide as Hl; [|done]. destruct (Sign_ok sk data aux Hl) as (i & Hi & ->).
  destruct (secret_de ark sk) as [s|]; [|done]. intros [= <-]. eauto 10.
Qed.

Lemma Public_Some sk pk :
  Public sk = Some pk → ∃ s, secret_de ark sk = Some s ∧ pk = public_ser ark (public_of ark s).
Proof using Type*.
  cbn [Public ops_of_ark wrapper_ops]. unfold is_array. case_bool_decide as Hl; [|done]. rewrite Public_ok by done.
  destruct (secret_de ark sk) as [s|]; [|done]. intros [= <-]. eauto.
Qed.

Lemma VrfVerify_signature pk data aux s i :
  input_new ark data = Some i →
  VrfVerify pk data aux (ietf_ser ark (signature s i aux)) = true ↔
  length pk = 32%nat ∧ public_de ark pk = Some (public_of ark s).
Proof using Type*.
  intros Hi. destruct (ark_ietf (signature s i aux)) as [Hl Hde]. cbn [VrfVerify ops_of_ark wrapper_ops]. unfold is_array.
  rewrite (bool_decide_true (length (ietf_ser _ _) = _)) by done. case_bool_decide as Hk; cbn [andb];
    [|split; [done|by intros [? _]]].
  destruct (Verify_ok pk data aux _ Hk Hl) as (i' & Hi' & ->). rewrite Hi in Hi'. injection Hi' as <-. rewrite Hde.
  destruct (public_de ark pk) as [k|]; [|split; [done|by intros [_ ?]]]. cbn [signature].
  destruct (ietf_verify _ _ _ _ _ _) eqn:E.
  - apply ark_verify in E as ->. done.
  - split; [done|]. intros [_ [= ->]]. rewrite (proj2 (ark_verify s _ i aux) eq_refl) in E. done.
Qed.

Lemma OutputHash_signature s i aux : OutputHash (ietf_ser ark (signature s i aux)) = Some (id_of (output ark s i)).
Proof using Type*.
  destruct (ark_ietf (signature s i aux)) as [Hl Hde].
  cbn [OutputHash ops_of_ark wrapper_ops]. unfold is_array. rewrite bool_decide_true by done.
  rewrite OutputHash_ok by done. by rewrite Hde.
Qed.
End laws.

(** C21: The wrapper and the C interface implement the VRF that blocks are sealed
    with: for every library that keeps its promises, the calls of [Public], [Sign],
    [Verify] and [OutputHash] obey the laws from which it is proved that sealed
    blocks verify. *)
Theorem vrf_implemented ark : ArkLaws ark → @BandersnatchLaws (wrapper_ops ark).
Proof.
  intros Hark. split.
  - intros sk data aux sig (_ & s & i & _ & _ & ->)%Sign_Some; [|done]. apply ark_ietf.
  - intros sk pk data aux sig (_ & s & i & Hs & Hi & ->)%Sign_Some (s' & Hs' & ->)%Public_Some; [|done..].
    rewrite Hs in Hs'. injection Hs' as <-. apply VrfVerify_signature; [done..|]. apply ark_public.
  - intros sk data aux aux' sig sig' (_ & s & i & Hs & Hi & ->)%Sign_Some (_ & s' & i' & Hs' & Hi' & ->)%Sign_Some; [|done..].
    rewrite Hs in Hs'. rewrite Hi in Hi'. injection Hs' as <-. injection Hi' as <-. by rewrite !OutputHash_signature.
  - intros sk pk pk' data aux sig (_ & s & i & Hs & Hi & ->)%Sign_Some (s' & Hs' & ->)%Public_Some Hv; [|done..].
    rewrite Hs in Hs'. injection Hs' as <-. apply VrfVerify_signature in Hv as [Hl Hd]; [|done..].
    by apply ark_public_unique.
Qed.

(** ** Rings *)

Lemma copy_keys_join keys pre :
  Forall (λ k, length k = 32%nat) keys → Forall (λ k, length k = 32%nat) pre →
  Vrf.copy_keys (len pre) keys (mjoin pre ++ replicate (32 * length keys) 0) = mjoin pre ++ mjoin keys.
Proof.
  intros Hk. revert pre. induction Hk as [|k keys Hl Hk IH]; intros pre Hpre; [done|].
  assert (length (mjoin pre) = Z.to_nat (len pre * 32)) as Hj.
  { unfold len. clear -Hpre. induction Hpre as [|x pre Hx Hpre IH]; [done|]. cbn [mjoin list_join].
    change (length (x ++ mjoin pre) = Z.to_nat (Z.of_nat (S (length pre)) * 32)). rewrite length_app. lia. }
  cbn [Vrf.copy_keys]. rewrite <- Hj, take_app_length, drop_app_length.
  replace (32 * length (k :: keys))%nat with (32 + 32 * length keys)%nat by (cbn [length]; lia).
  rewrite replicate_add. unfold go_copy. rewrite take_ge by (rewrite length_app, length_replicate; lia).
  rewrite drop_app_length' by (rewrite length_replicate; lia).
  assert (mjoin pre ++ k = mjoin (pre ++ [k])) as Hsnoc by (rewrite join_app; cbn; by rewrite app_nil_r).
  rewrite app_assoc, Hsnoc. replace (len pre + 1) with (len (pre ++ [k])) by (unfold len; rewrite length_app; cbn; lia).
  rewrite IH by (apply Forall_app; split; [done|by constructor]).
  rewrite <- Hsnoc, <- app_assoc. done.
Qed.

Lemma flatten_join keys : Forall (λ k, length k = 32%nat) keys → Vrf.flattenPublicKeys keys = mjoin keys.
Proof.
  intros Hk. unfold Vrf.flattenPublicKeys. replace (Z.to_nat (len keys * 32)) with (32 * length keys)%nat by (unfold len; lia).
  apply (copy_keys_join keys []); done.
Qed.

Lemma join_length (keys : list (list Z)) :
  Forall (λ k, length k = 32%nat) keys → length (mjoin keys) = (32 * length keys)%nat.
Proof.
  induction 1 as [|k keys Hk _ IH]; [done|].
  change (length (k ++ mjoin keys) = 32 * S (length keys))%nat. rewrite length_app. lia.
Qed.

Lemma chunks_join keys fuel :
  Forall (λ k, length k = 32%nat) keys → (length (mjoin keys) ≤ fuel)%nat → Rust.chunks 32 fuel (mjoin keys) = keys.
Proof.
  intros Hk. revert fuel. induction Hk as [|k keys Hl Hk IH]; intros fuel Hf; [by destruct fuel|].
  change (mjoin (k :: keys)) with (k ++ mjoin keys) in *. rewrite length_app in Hf. destruct fuel as [|fuel]; [lia|].
  cbn [Rust.chunks]. destruct (k ++ mjoin keys) as [|x l] eqn:E.
  { apply (f_equal length) in E. rewrite length_app, Hl in E. cbn in E. lia. }
  rewrite <- E, take_app_length', drop_app_length' by done. f_equal. apply IH. lia.
Qed.

Section rings.
Context (ark : Ark) `{!ArkLaws ark}.

(** The points of a ring of keys: invalid keys are padding. *)
Definition ring_points (n : Z) (keys : list (list Z)) : list (APublic ark) :=
  (λ k, default (padding_point ark n) (public_de ark k)) <$> keys.

Lemma ring_of_join n keys :
  Forall (λ k, length k = 32%nat) keys → Rust.ring_of ark n (mjoin keys) = ring_points n keys.
Proof. intros Hk. unfold Rust.ring_of. by rewrite chunks_join. Qed.

(** The size of the ring context, which may still have to be built. *)
Definition ctx_size (lib : Rust.Lib ark) : Z :=
  match Rust.RING_CTX ark lib with
  | Some n => n
  | None => default Rust.DEFAULT_RING_SIZE (Rust.RING_SIZE ark lib)
  end.

(** The library with rings of size [n]: both cells agree, and addresses are new. *)
Record lib_ok (n : Z) (lib : Rust.Lib ark) : Prop := MkLibOk {
  lib_size : Rust.RING_SIZE ark lib = Some n;
  lib_ctx : Rust.RING_CTX ark lib = None ∨ Rust.RING_CTX ark lib = Some n;
  lib_srs : from_srs ark n = true;
  lib_new p : Rust.next_box ark lib ≤ p → Rust.boxes ark lib !! p = None;
}.

(** The same boxes. *)
Definition same_boxes (lib lib' : Rust.Lib ark) : Prop :=
  Rust.boxes ark lib' = Rust.boxes ark lib ∧ Rust.next_box ark lib' = Rust.next_box ark lib.

Lemma ring_context_ok n lib :
  lib_ok n lib → ∃ lib', Rust.ring_context ark lib = Ok (lib', n) ∧ lib_ok n lib' ∧ same_boxes lib lib'.
Proof.
  intros [Hs Hc Hsrs Hnew]. unfold Rust.ring_context, Rust.ring_size. destruct Hc as [Hc|Hc]; rewrite Hc.
  - rewrite Hs, Hsrs. eexists. split; [done|]. split; [|done]. split; cbn; auto.
  - exists lib. split; [done|]. split; [|done]. split; auto.
Qed.

Lemma into_raw_ok n lib b lib' p :
  lib_ok n lib → Rust.into_raw ark b lib = (lib', p) →
  lib_ok n lib' ∧ p = Rust.next_box ark lib ∧ Rust.boxes ark lib' = <[p := b]> (Rust.boxes ark lib) ∧
  Rust.boxes ark lib !! p = None.
Proof.
  intros [Hs Hc Hsrs Hnew] [= <- <-]. split_and!; [|done|done|apply Hnew; lia]. split; cbn; auto.
  intros q Hq. rewrite lookup_insert_ne by lia. apply Hnew. lia.
Qed.

Lemma len_join (keys : list (list Z)) : Forall (λ k, length k = 32%nat) keys → len (mjoin keys) = 32 * len keys.
Proof. intros Hk. unfold len. rewrite join_length by done. lia. Qed.

Lemma len_points n (keys : list (list Z)) : len (ring_points n keys) = len keys.
Proof. unfold len, ring_points. by rewrite length_fmap. Qed.

(** A handle on a new box. *)
Definition new_handle (n : Z) (lib lib' : Rust.Lib ark) (b : Rust.ring_box ark) (p : Z) : Prop :=
  lib_ok n lib' ∧ Rust.boxes ark lib !! p = None ∧ Rust.boxes ark lib' = <[p := b]> (Rust.boxes ark lib).

Lemma NewRingVerifier_ok n lib keys :
  lib_ok n lib → Forall (λ k, length k = 32%nat) keys →
  ∃ lib' p, Vrf.NewRingVerifier ark keys lib = Ok (lib', Ok (Vrf.MkRing (Some p))) ∧
    new_handle n lib lib' (Rust.BoxVerifier ark (ring_points n keys)) p.
Proof.
  intros Hlib Hk. unfold Vrf.NewRingVerifier, Rust.new_ring_vrf_verifier. rewrite flatten_join by done.
  cbn [is_null orb]. rewrite (len_join keys Hk). change Rust.PUBLIC_KEY_LENGTH with 32.
  rewrite (Z.mul_comm 32), Z.mod_mul, Z.div_mul by done. cbn [Z.eqb negb].
  rewrite from_raw_parts_n by (rewrite (len_join keys Hk); lia). cbn [rbind].
  destruct (ring_context_ok n lib Hlib) as (lib1 & -> & Hlib1 & Hb1 & Hn1). cbn [rbind].
  rewrite ring_of_join, len_points, Z.eqb_refl by done. cbn [negb].
  destruct (Rust.into_raw ark _ lib1) as [lib2 p] eqn:E.
  destruct (into_raw_ok n _ _ _ _ Hlib1 E) as (Hlib2 & _ & Hb2 & Hfree). cbn [rbind].
  exists lib2, p. split; [done|]. split_and!; [done|by rewrite <- Hb1|by rewrite Hb2, Hb1].
Qed.

Lemma NewRingProver_ok n lib sk s keys idx :
  lib_ok n lib → Forall (λ k, length k = 32%nat) keys → length sk = 32%nat → secret_de ark sk = Some s →
  ∃ lib' p, Vrf.NewRingProver ark sk keys idx lib = Ok (lib', Ok (Vrf.MkRing (Some p))) ∧
    new_handle n lib lib' (Rust.BoxProver ark s (ring_points n keys) idx) p.
Proof.
  intros Hlib Hk Hl Hs. unfold Vrf.NewRingProver, Rust.new_ring_vrf_prover. rewrite flatten_join by done.
  cbn [is_null orb]. rewrite (len_join keys Hk). change Rust.PUBLIC_KEY_LENGTH with 32.
  rewrite (Z.mul_comm 32), Z.mod_mul, Z.div_mul by done. cbn [Z.eqb negb].
  rewrite from_raw_parts_n by (by apply (len_nat sk 32)). cbn [rbind].
  rewrite from_raw_parts_n by (rewrite (len_join keys Hk); lia). cbn [rbind]. rewrite Hs.
  destruct (ring_context_ok n lib Hlib) as (lib1 & -> & Hlib1 & Hb1 & Hn1). cbn [rbind].
  rewrite ring_of_join, len_points, Z.eqb_refl by done. cbn [negb].
  destruct (Rust.into_raw ark _ lib1) as [lib2 p] eqn:E.
  destruct (into_raw_ok n _ _ _ _ Hlib1 E) as (Hlib2 & _ & Hb2 & Hfree). cbn [rbind].
  exists lib2, p. split; [done|]. split_and!; [done|by rewrite <- Hb1|by rewrite Hb2, Hb1].
Qed.

Lemma free_box_ok n lib p b :
  lib_ok n lib → Rust.boxes ark lib !! p = Some b →
  ∃ lib', Rust.free_box ark (Some p) lib = Ok lib' ∧ lib_ok n lib' ∧
    Rust.boxes ark lib' = delete p (Rust.boxes ark lib).
Proof.
  intros [Hs Hc Hsrs Hnew] Hp. unfold Rust.free_box. rewrite Hp. eexists. split; [done|]. split; [|done].
  split; cbn; auto. intros q Hq. apply lookup_delete_None. right. by apply Hnew.
Qed.

Lemma Commitment_ok n lib p ring :
  lib_ok n lib → Rust.boxes ark lib !! p = Some (Rust.BoxVerifier ark ring) → len ring ≤ n →
  ∃ lib' c, ring_commitment ark n ring = Some c ∧
    Vrf.Commitment ark (Vrf.MkRing (Some p)) lib = Ok (lib', Ok (commitment_ser ark c)) ∧
    lib_ok n lib' ∧ same_boxes lib lib'.
Proof using Type*.
  intros Hlib Hp Hn. unfold Vrf.Commitment, Rust.ring_vrf_verifier_commitment. cbn [Vrf.ptr is_null Vrf.array].
  rewrite Hp. unfold Rust.verifier_commitment. destruct (ring_context_ok n lib Hlib) as (lib1 & -> & Hlib1 & Hb1).
  cbn [rbind]. destruct (ark_ring_commitment n ring (lib_srs _ _ Hlib) Hn) as [c Hc]. rewrite Hc. cbn [rbind].
  destruct (ark_commitment c) as [Hl _]. rewrite serialize_exact by (by apply (len_nat _ 144)).
  change (Some (replicate (Z.to_nat 144) 0)) with (Vrf.array 144).
  rewrite copy_to_array by (by apply (len_nat _ 144)). cbn [rbind Z.eqb negb Vrf.contents default from_option id].
  by exists lib1, c.
Qed.

Lemma RingSign_ok n lib p s ring idx data aux :
  lib_ok n lib → Rust.boxes ark lib !! p = Some (Rust.BoxProver ark s ring idx) → len ring ≤ n → 0 ≤ idx < len ring →
  ∃ lib' i π, input_new ark data = Some i ∧ ring_prove ark n ring idx s i (output ark s i) aux = Some π ∧
    Vrf.RingSign ark (Vrf.MkRing (Some p)) (Some data) (Some aux) lib =
      Ok (lib', Ok (ring_ser ark (output ark s i, π))) ∧ lib_ok n lib' ∧ same_boxes lib lib'.
Proof using Type*.
  intros Hlib Hp Hn Hidx. unfold Vrf.RingSign, Rust.ring_vrf_prover_sign.
  cbn [Vrf.ptr is_null Vrf.array orb Vrf.slice_len]. rewrite !from_raw_parts_all. cbn [rbind]. rewrite Hp.
  unfold Rust.prover_sign. destruct (vrf_input_point_ok ark data) as (i & Hi & ->). cbn [rbind].
  destruct (ring_context_ok n lib Hlib) as (lib1 & -> & Hlib1 & Hb1). cbn [rbind].
  destruct (ark_ring_prove n ring idx s i (output ark s i) aux (lib_srs _ _ Hlib) Hn Hidx) as [π Hπ]. rewrite Hπ.
  cbn [rbind]. destruct (ark_ring (output ark s i, π)) as [Hl _].
  rewrite serialize_exact by (by apply (len_nat _ 784)). rewrite (len_nat _ 784 Hl).
  change (Some (replicate (Z.to_nat 784) 0)) with (Vrf.array 784).
  rewrite copy_to_array by (by apply (len_nat _ 784)). cbn [rbind Z.eqb negb Vrf.contents default from_option id].
  by exists lib1, i, π.
Qed.

(** The answer of a verifier on arrays of Go, as a function of its arguments. *)
Definition ring_verdict (n : Z) (data aux commitment sig : list Z) : option Hash :=
  match commitment_de ark commitment, ring_de ark sig, input_new ark data with
  | Some c, Some (o, π), Some i => if ring_verify ark n c i o aux π then Some (id_of ark o) else None
  | _, _, _ => None
  end.

Lemma RingVerify_ok n lib p ring data aux commitment sig :
  lib_ok n lib → Rust.boxes ark lib !! p = Some (Rust.BoxVerifier ark ring) →
  length commitment = 144%nat → length sig = 784%nat →
  ∃ lib', Vrf.RingVerify ark (Vrf.MkRing (Some p)) (Some data) (Some aux) commitment sig lib =
      Ok (lib', ring_verdict n data aux commitment sig) ∧ lib_ok n lib' ∧ same_boxes lib lib'.
Proof using Type*.
  intros Hlib Hp Hlc Hlr. unfold Vrf.RingVerify, Rust.ring_vrf_verifier_verify, ring_verdict.
  cbn [Vrf.ptr is_null Vrf.array orb Vrf.slice_len]. rewrite !from_raw_parts_all. cbn [rbind].
  rewrite from_raw_parts_n by (by apply (len_nat _ 144)). cbn [rbind].
  rewrite from_raw_parts_n by (by apply (len_nat _ 784)). cbn [rbind].
  destruct (commitment_de ark commitment) as [c|]; [|by exists lib].
  destruct (ring_de ark sig) as [[o π]|]; [|by exists lib]. rewrite Hp.
  unfold Rust.verifier_verify. destruct (vrf_input_point_ok ark data) as (i & Hi & ->). rewrite Hi. cbn [rbind].
  destruct (ring_context_ok n lib Hlib) as (lib1 & -> & Hlib1 & Hb1). cbn [rbind fst snd].
  exists lib1. destruct (ring_verify ark n c i o aux π); [|done]. cbn [negb].
  rewrite output_prefix by done. cbn [rbind]. change (Some (replicate (Z.to_nat 32) 0)) with (Vrf.array 32).
  rewrite copy_to_array by (apply (len_nat _ 32); by apply id_of_length). done.
Qed.

(** *** Sequences of calls *)

(** Every call of the wrapper that returns. *)
Inductive vrf_step (lib : Rust.Lib ark) : Rust.Lib ark → Prop :=
| step_init size : vrf_step lib (Vrf.InitRingSize ark size lib).1
| step_size : vrf_step lib (Vrf.GetRingSize ark lib).1
| step_verifier keys lib' r : Vrf.NewRingVerifier ark keys lib = Ok (lib', r) → vrf_step lib lib'
| step_prover sk keys idx lib' r : Vrf.NewRingProver ark sk keys idx lib = Ok (lib', r) → vrf_step lib lib'
| step_commitment r lib' c : Vrf.Commitment ark r lib = Ok (lib', c) → vrf_step lib lib'
| step_verify r data aux c sig lib' h : Vrf.RingVerify ark r data aux c sig lib = Ok (lib', h) → vrf_step lib lib'
| step_sign r data aux lib' sig : Vrf.RingSign ark r data aux lib = Ok (lib', sig) → vrf_step lib lib'
| step_free_verifier r lib' r' : Vrf.FreeVerifier ark r lib = Ok (lib', r') → vrf_step lib lib'
| step_free_prover r lib' r' : Vrf.FreeProver ark r lib = Ok (lib', r') → vrf_step lib lib'.

Lemma ring_context_inv n lib lib' m :
  lib_ok n lib → Rust.ring_context ark lib = Ok (lib', m) → lib_ok n lib'.
Proof. intros Hlib H. destruct (ring_context_ok n lib Hlib) as (lib1 & E & Hlib1 & _). rewrite E in H. by injection H as <-. Qed.

Lemma free_box_inv n lib lib' p : lib_ok n lib → Rust.free_box ark p lib = Ok lib' → lib_ok n lib'.
Proof.
  intros Hlib H. destruct p as [p|]; [|by injection H as <-].
  destruct (Rust.boxes ark lib !! p) as [b|] eqn:E; [|cbn in H; by rewrite E in H].
  destruct (free_box_ok n lib p b Hlib E) as (lib1 & E1 & Hlib1 & _). rewrite E1 in H. by injection H as <-.
Qed.
End rings.

(** Case analysis on calls that returned. *)
Ltac call_inv :=
  repeat match goal with
    | H : Ok _ = Ok _ |- _ => injection H as H; subst
    | H : Err _ = Ok _ |- _ => discriminate H
    | H : RuntimePanic = Ok _ |- _ => discriminate H
    | H : (_, _) = (_, _) |- _ => injection H as H; subst
    | H : rbind _ _ = Ok _ |- _ => apply rbind_Ok_inv in H as (? & ? & H)
    | H : (if ?b then _ else _) = Ok _ |- _ => destruct b
    | H : (let '(_, _) := ?x in _) = Ok _ |- _ => destruct x eqn:?
    | H : match ?x with _ => _ end = Ok _ |- _ => destruct x eqn:?
    end.

Section sequences.
Context (ark : Ark) `{!ArkLaws ark}.

Lemma into_raw_inv n lib b lib' p : lib_ok ark n lib → Rust.into_raw ark b lib = (lib', p) → lib_ok ark n lib'.
Proof. intros Hlib H. by destruct (into_raw_ok ark n lib b lib' p Hlib H). Qed.

Lemma vrf_step_ok n lib lib' : lib_ok ark n lib → vrf_step ark lib lib' → lib_ok ark n lib'.
Proof.
  intros Hlib Hstep. destruct Hstep as [size| |keys lib' r H|sk keys idx lib' r H|r lib' c H|r data aux c sig lib' h H
    |r data aux lib' sig H|r lib' r' H|r lib' r' H].
  - destruct Hlib as [Hs ???]. cbn. unfold Rust.init_ring_size_impl. rewrite Hs. by split.
  - destruct Hlib as [Hs ???]. unfold Vrf.GetRingSize, Rust.get_ring_size, Rust.ring_size. rewrite Hs. by split.
  - unfold Vrf.NewRingVerifier, Rust.new_ring_vrf_verifier in H. call_inv; eauto using ring_context_inv, into_raw_inv.
  - unfold Vrf.NewRingProver, Rust.new_ring_vrf_prover in H. call_inv; eauto using ring_context_inv, into_raw_inv.
  - unfold Vrf.Commitment, Rust.ring_vrf_verifier_commitment, Rust.verifier_commitment in H.
    call_inv; eauto using ring_context_inv.
  - unfold Vrf.RingVerify, Rust.ring_vrf_verifier_verify, Rust.verifier_verify in H. call_inv; eauto using ring_context_inv.
  - unfold Vrf.RingSign, Rust.ring_vrf_prover_sign, Rust.prover_sign in H. call_inv; eauto using ring_context_inv.
  - unfold Vrf.FreeVerifier in H. call_inv; eauto using free_box_inv.
  - unfold Vrf.FreeProver in H. call_inv; eauto using free_box_inv.
Qed.

Lemma vrf_steps_ok n lib lib' : lib_ok ark n lib → rtc (vrf_step ark) lib lib' → lib_ok ark n lib'.
Proof. intros Hlib. induction 1; [done|]. eauto using vrf_step_ok. Qed.

(** The library as it is loaded. *)
Definition fresh_lib : Rust.Lib ark := Rust.MkLib ark None None ∅ 0.

Lemma init_lib_ok lib : Vrf.init_ ark fresh_lib = Ok lib → lib_ok ark NumberOfValidators lib.
Proof using Type*.
  intros [= <-]. split; cbn; [done|by left|by apply ark_srs|done].
Qed.
End sequences.

(** Once [init] has run, every ring has 1023 members: no later call of
    [InitRingSize], which reports no error, changes that. *)
Theorem ring_size_fixed ark lib0 lib size :
  ArkLaws ark → Vrf.init_ ark (fresh_lib ark) = Ok lib0 → rtc (vrf_step ark) lib0 lib →
  (Vrf.GetRingSize ark lib).2 = NumberOfValidators ∧
  Vrf.InitRingSize ark size lib = (lib, Ok ()) ∧ ∀ lib' m, Rust.ring_context ark lib = Ok (lib', m) → m = NumberOfValidators.
Proof.
  intros Hark H0 Hr. pose proof (vrf_steps_ok ark _ _ _ (init_lib_ok ark lib0 H0) Hr) as Hlib.
  pose proof (lib_size _ _ _ Hlib) as Hs. split_and!.
  - unfold Vrf.GetRingSize, Rust.get_ring_size, Rust.ring_size. by rewrite Hs.
  - unfold Vrf.InitRingSize, Rust.init_ring_size, Rust.init_ring_size_impl. by rewrite Hs.
  - intros lib' m H. destruct (ring_context_ok ark _ _ Hlib) as (lib1 & E & _). rewrite E in H. by injection H as <-.
Qed.

(** ** Tickets *)

(** The next validators are filled with keys of 32 bytes, no more than a ring
    holds. *)
Definition ring_keys (n : Z) (state : SafroleState) (keys : list (list Z)) : Prop :=
  (∃ vs, NextValidators state = Some <$> vs ∧ keys = Bandersnatch <$> vs) ∧
  Forall (λ k, length k = 32%nat) keys ∧ len keys ≤ n.

Lemma bandersnatch_keys_all {E} (vs : list ValidatorKey) :
  @bandersnatch_keys E (Some <$> vs) = Ok (Bandersnatch <$> vs).
Proof. induction vs as [|v vs IH]; [done|]. cbn. by rewrite IH. Qed.

Section tickets.
Context (ark : Ark) `{!ArkLaws ark}.

(** A verifier is made, asked, and freed whatever the answer: the boxes are those of
    before. *)
Lemma defer_Free_ok {A} n lib state keys
    (rest : Vrf.RingVrf → Rust.Lib ark → res string (Rust.Lib ark * res st_error A)) a :
  lib_ok ark n lib → ring_keys n state keys →
  (∀ lib p, lib_ok ark n lib → Rust.boxes ark lib !! p = Some (Rust.BoxVerifier ark (ring_points ark n keys)) →
     ∃ lib', rest (Vrf.MkRing (Some p)) lib = Ok (lib', a) ∧ lib_ok ark n lib' ∧ same_boxes ark lib lib') →
  ∃ lib', Contest.defer_Free ark state lib rest = Ok (lib', a) ∧ lib_ok ark n lib' ∧
    Rust.boxes ark lib' = Rust.boxes ark lib.
Proof.
  intros Hlib ((vs & Hvs & Hkeys) & Hk & _) Hf. unfold Contest.defer_Free, Contest.RingVerifier.
  rewrite Hvs, bandersnatch_keys_all, <- Hkeys. cbn [rbind].
  destruct (NewRingVerifier_ok ark n lib keys Hlib Hk) as (lib1 & p & -> & Hlib1 & Hfree & Hb1). cbn [rbind map_err].
  destruct (Hf lib1 p Hlib1) as (lib2 & -> & Hlib2 & Hb2 & _); [rewrite Hb1; apply lookup_insert_eq|]. cbn [rbind].
  unfold Vrf.FreeVerifier. cbn [Vrf.ptr].
  destruct (free_box_ok ark n lib2 p _ Hlib2 ltac:(rewrite Hb2, Hb1; apply lookup_insert_eq)) as (lib3 & E & Hlib3 & Hb3).
  unfold Rust.free_ring_vrf_verifier. rewrite E. cbn [rbind]. exists lib3. split_and!; [done|done|].
  rewrite Hb3, Hb2, Hb1. by apply delete_insert_id.
Qed.

(** The answers of the library as the parameters of [Safrole]. *)
Definition lib_Commitment (n : Z) (keys : list (list Z)) : option (list Z) :=
  commitment_ser ark <$> ring_commitment ark n (ring_points ark n keys).
Definition lib_Verify (n : Z) (_ : list (list Z)) (data aux commitment sig : list Z) : option Hash :=
  ring_verdict ark n data aux commitment sig.

Lemma contest_commitment n lib state keys :
  lib_ok ark n lib → ring_keys n state keys →
  ∃ lib', Contest.CalculateRingCommitment ark state lib =
    Ok (lib', CalculateRingCommitment (λ _, true) (lib_Commitment n) state) ∧
    lib_ok ark n lib' ∧ Rust.boxes ark lib' = Rust.boxes ark lib.
Proof using Type*.
  intros Hlib Hr. unfold CalculateRingCommitment, RingVerifier, Contest.CalculateRingCommitment.
  pose proof Hr as ((vs & Hvs & Hkeys) & Hk & Hn). rewrite Hvs, bandersnatch_keys_all, <- Hkeys. cbn [rbind].
  apply (defer_Free_ok n lib state keys); [done..|]. intros lib1 p Hlib1 Hp.
  destruct (Commitment_ok ark n lib1 p _ Hlib1 Hp) as (lib2 & c & Hc & -> & Hok); [by rewrite len_points|].
  exists lib2. unfold lib_Commitment. by rewrite Hc.
Qed.

Lemma contest_verify_tickets n ring p keys commitment eta2 ids proofs : ∀ lib,
  lib_ok ark n lib → Rust.boxes ark lib !! p = Some (Rust.BoxVerifier ark ring) →
  length commitment = 144%nat → Forall (λ tp, length (Proof_ tp) = 784%nat) proofs →
  ∃ lib', Contest.verify_tickets ark (Vrf.MkRing (Some p)) commitment eta2 ids proofs lib =
    Ok (lib', verify_tickets (lib_Verify n) keys commitment eta2 ids proofs) ∧
    lib_ok ark n lib' ∧ same_boxes ark lib lib'.
Proof using Type*.
  induction proofs as [|tp proofs IH]; intros lib Hlib Hp Hc Hs; [by exists lib|].
  apply Forall_cons in Hs as [Htp Hs]. cbn [Contest.verify_tickets verify_tickets].
  destruct (_ <=? _); [by exists lib|]. set (data := TicketSealContext ++ _).
  destruct (RingVerify_ok ark n lib p ring data [] commitment (Proof_ tp) Hlib Hp Hc Htp)
    as (lib1 & -> & Hlib1 & Hsb). cbn [rbind].
  change (lib_Verify n keys data [] commitment (Proof_ tp)) with (ring_verdict ark n data [] commitment (Proof_ tp)).
  destruct (ring_verdict ark n data [] commitment (Proof_ tp)) as [h|]; [|by exists lib1].
  destruct (decide (h ∈ ids)) as [Hd|Hd]; [rewrite !bool_decide_true by done; by exists lib1|].
  rewrite !bool_decide_false by done. destruct Hsb as [Hb1 Hn1].
  destruct (IH lib1 Hlib1 ltac:(by rewrite Hb1) Hc Hs) as (lib2 & -> & Hlib2 & Hb2 & Hn2).
  exists lib2. split_and!; [done|done|]. split; congruence.
Qed.

Lemma contest_tickets n lib state pool proofs keys :
  lib_ok ark n lib → ring_keys n state keys →
  length (RingCommitment state) = 144%nat → Forall (λ tp, length (Proof_ tp) = 784%nat) proofs →
  ∃ lib', Contest.calculateTickets ark state pool proofs lib =
    Ok (lib', calculateTickets (λ _, true) (lib_Verify n) state pool proofs) ∧
    lib_ok ark n lib' ∧ Rust.boxes ark lib' = Rust.boxes ark lib.
Proof using Type*.
  intros Hlib Hr Hc Hs. unfold Contest.calculateTickets, calculateTickets, RingVerifier.
  destruct (_ <? _); [by exists lib|].
  pose proof Hr as ((vs & Hvs & Hkeys) & Hk & Hn). rewrite Hvs, bandersnatch_keys_all, <- Hkeys. cbn [rbind].
  apply (defer_Free_ok n lib state keys); [done..|]. intros lib1 p Hlib1 Hp.
  destruct (contest_verify_tickets n _ p keys (RingCommitment state) (entropy pool 2)
    (ticket_ids (TicketAccumulator state)) proofs lib1 Hlib1 Hp Hc Hs) as (lib2 & -> & Hok).
  by exists lib2.
Qed.

(** A prover is made, signs, and is freed. *)
Lemma ring_signature n lib sk s keys idx data aux :
  lib_ok ark n lib → Forall (λ k, length k = 32%nat) keys → length sk = 32%nat → secret_de ark sk = Some s →
  len keys ≤ n → 0 ≤ idx < len keys →
  ∃ lib1 r lib2 i π lib3, Vrf.NewRingProver ark sk keys idx lib = Ok (lib1, Ok r) ∧
    Vrf.RingSign ark r (Some data) (Some aux) lib1 = Ok (lib2, Ok (ring_ser ark (output ark s i, π))) ∧
    Vrf.FreeProver ark r lib2 = Ok (lib3, Vrf.MkRing None) ∧
    input_new ark data = Some i ∧
    ring_prove ark n (ring_points ark n keys) idx s i (output ark s i) aux = Some π ∧
    lib_ok ark n lib3 ∧ Rust.boxes ark lib3 = Rust.boxes ark lib.
Proof using Type*.
  intros Hlib Hk Hl Hs Hn Hidx.
  destruct (NewRingProver_ok ark n lib sk s keys idx Hlib Hk Hl Hs) as (lib1 & p & E1 & Hlib1 & Hfree & Hb1).
  destruct (RingSign_ok ark n lib1 p s (ring_points ark n keys) idx data aux Hlib1) as (lib2 & i & π & Hi & Hπ & E2 & Hlib2 & Hb2 & _);
    [rewrite Hb1; apply lookup_insert_eq|by rewrite len_points..|].
  destruct (free_box_ok ark n lib2 p _ Hlib2 ltac:(rewrite Hb2, Hb1; apply lookup_insert_eq)) as (lib3 & E & Hlib3 & Hb3).
  exists lib1, (Vrf.MkRing (Some p)), lib2, i, π, lib3. split_and!; try done.
  - unfold Vrf.FreeProver, Rust.free_ring_vrf_prover. cbn [Vrf.ptr]. by rewrite E.
  - rewrite Hb3, Hb2, Hb1. by apply delete_insert_id.
Qed.

Lemma NewPrivateKeyFromSeed_ok seed :
  Vrf.NewPrivateKeyFromSeed ark seed = Ok (secret_ser ark (from_seed ark seed)).
Proof using Type*.
  unfold Vrf.NewPrivateKeyFromSeed, Rust.new_secret. cbn [is_null orb Vrf.array]. rewrite from_raw_parts_all. cbn [rbind].
  destruct (ark_secret (from_seed ark seed)) as [Hl _]. rewrite serialize_exact by (by apply (len_nat _ 32)).
  change (Some (replicate (Z.to_nat 32) 0)) with (Vrf.array 32). by rewrite copy_to_array by (by apply (len_nat _ 32)).
Qed.
Lemma Sign_secret s d aux :
  ∃ j, input_new ark d = Some j ∧
    @Sign (wrapper_ops ark) (secret_ser ark s) d aux = Some (ietf_ser ark (signature ark s j aux)).
Proof using Type*.
  destruct (ark_secret s) as [Hl Hs]. destruct (Sign_ok ark (secret_ser ark s) d aux Hl) as (j & Hj & E).
  exists j. split; [done|]. cbn [Sign wrapper_ops]. unfold is_array. by rewrite bool_decide_true, E, Hs.
Qed.

(** A key seals with a ticket whose identifier is its own output. *)
Lemma seal_own_ticket s i header eta attempt :
  input_new ark (TicketSealContext ++ eta ++ [attempt]) = Some i →
  (∀ vrf, length vrf = 96%nat → ∃ u, encodeUnsealedHeader (with_vrf vrf header) = Ok u) →
  ∃ seal vrf, @SignBlockWithTicket (wrapper_ops ark) header (MkTicket (id_of ark (output ark s i)) attempt)
    (secret_ser ark s) eta = Ok (seal, vrf).
Proof using Type*.
  intros Hi Hh. unfold SignBlockWithTicket. cbn [EntryIndex Identifier].
  change (buildTicketSealContext eta attempt) with (TicketSealContext ++ eta ++ [attempt]).
  destruct (Sign_secret s (TicketSealContext ++ eta ++ [attempt]) []) as (j & Hj & ->).
  rewrite Hi in Hj. injection Hj as <-. cbn [vrf_call rbind].
  rewrite (OutputHash_signature ark). cbn [vrf_call rbind]. rewrite bool_decide_true by done. cbn [negb].
  unfold signBlockVRFS. destruct (Sign_secret s (buildVRFContext (id_of ark (output ark s i))) []) as (j & Hj & ->).
  cbn [vrf_call rbind]. unfold seal_with_vrf. destruct (Hh (ietf_ser ark (signature ark s j []))) as [u ->]; [apply ark_ietf|].
  cbn [rbind]. destruct (Sign_secret s (TicketSealContext ++ eta ++ [attempt]) u) as (j' & _ & ->). cbn [vrf_call rbind]. eauto.
Qed.

Lemma commitment_of_ring lib state keys :
  lib_ok ark NumberOfValidators lib → ring_keys NumberOfValidators state keys →
  ∃ lib' c, ring_commitment ark NumberOfValidators (ring_points ark NumberOfValidators keys) = Some c ∧
    Contest.CalculateRingCommitment ark state lib = Ok (lib', Ok (commitment_ser ark c)) ∧
    lib_ok ark NumberOfValidators lib' ∧ Rust.boxes ark lib' = Rust.boxes ark lib.
Proof using Type*.
  intros Hlib Hr. destruct (contest_commitment _ lib state keys Hlib Hr) as (lib' & E & Hok).
  pose proof Hr as ((vs & Hvs & Hkeys) & _ & Hn).
  destruct (ark_ring_commitment _ (ring_points ark NumberOfValidators keys) (lib_srs _ _ _ Hlib)) as [c Hc];
    [by rewrite len_points|]. exists lib', c. split_and!; try apply Hok; [done|]. rewrite E.
  unfold CalculateRingCommitment, RingVerifier, lib_Commitment. rewrite Hvs, bandersnatch_keys_all, <- Hkeys.
  cbn [rbind]. by rewrite Hc.
Qed.

(** A proof that the ring of the state verifies is a new ticket. *)
Lemma own_ticket_accepted lib state state' keys pool eta attempt c i o π :
  lib_ok ark NumberOfValidators lib → ring_keys NumberOfValidators state keys →
  NextValidators state' = NextValidators state → RingCommitment state' = commitment_ser ark c →
  entropy pool 2 = eta → id_of ark o ∉ ticket_ids (TicketAccumulator state') → 0 ≤ attempt < MaxTicketAttempts →
  input_new ark (TicketSealContext ++ eta ++ [attempt]) = Some i →
  ring_verify ark NumberOfValidators c i o [] π = true →
  ∃ lib', Contest.calculateTickets ark state' pool [MkTicketProof attempt (ring_ser ark (o, π))] lib =
    Ok (lib', Ok [MkTicket (id_of ark o) attempt]) ∧ Rust.boxes ark lib' = Rust.boxes ark lib.
Proof using Type*.
  intros Hlib ((vs & Hvs & Hkeys) & Hk & Hn) Hv Hc Heta Hid Hatt Hi Hver. rewrite Hvs in Hv.
  destruct (contest_tickets _ lib state' pool [MkTicketProof attempt (ring_ser ark (o, π))] keys Hlib)
    as (lib' & E & _ & Hb).
  - split_and!; [by exists vs|done..].
  - rewrite Hc. apply ark_commitment.
  - constructor; [apply ark_ring|done].
  - exists lib'. split; [|done]. rewrite E. unfold calculateTickets, RingVerifier.
    rewrite Hv, bandersnatch_keys_all. change (MaxTicketExtrinsicSize <? len [_]) with false.
    cbn [rbind verify_tickets proof_EntryIndex Proof_]. rewrite (proj2 (Z.leb_gt _ _)) by lia.
    unfold lib_Verify, ring_verdict. rewrite Hc, Heta, Hi, (proj2 (ark_commitment c)), (proj2 (ark_ring (o, π))), Hver.
    by rewrite bool_decide_false.
Qed.
End tickets.

(** C23: Over the wrapper and the C interface, with the state of the library, the
    commitment of the ring of the next validators and the check of a block's ticket
    proofs are those of the Safrole model with the answers of the library for
    [Commitment] and [Verify].  The deferred [Free] leaves the boxes of the library
    as they were on every return, with a result or with an error.  The validators
    are filled with keys of 32 bytes; commitment and proofs are arrays of 144 and
    784 bytes. *)
Theorem contest_refines ark lib0 lib state keys pool proofs :
  ArkLaws ark → Vrf.init_ ark (fresh_lib ark) = Ok lib0 → rtc (vrf_step ark) lib0 lib →
  ring_keys NumberOfValidators state keys →
  length (RingCommitment state) = 144%nat → Forall (λ tp, length (Proof_ tp) = 784%nat) proofs →
  (∃ lib', Contest.CalculateRingCommitment ark state lib =
     Ok (lib', CalculateRingCommitment (λ _, true) (lib_Commitment ark NumberOfValidators) state) ∧
     Rust.boxes ark lib' = Rust.boxes ark lib) ∧
  (∃ lib', Contest.calculateTickets ark state pool proofs lib =
     Ok (lib', calculateTickets (λ _, true) (lib_Verify ark NumberOfValidators) state pool proofs) ∧
     Rust.boxes ark lib' = Rust.boxes ark lib).
Proof.
  intros Hark H0 Hr Hk Hc Hs. pose proof (vrf_steps_ok ark _ _ _ (init_lib_ok ark lib0 H0) Hr) as Hlib. split.
  - destruct (contest_commitment ark _ lib state keys Hlib Hk) as (lib' & E & _ & Hb). eauto.
  - destruct (contest_tickets ark _ lib state pool proofs keys Hlib Hk Hc Hs) as (lib' & E & _ & Hb). eauto.
Qed.

(** C22: A ticket from its submission to the seal of its block.  Whatever rings the
    node has used since it started, the ring of the next validators has a
    commitment, and the holder of a key from a seed that is in this ring can make a
    ring signature.  Whatever happens to the library afterwards, the proof passes
    the check of submitted tickets of a state with these validators and this
    commitment, unless the accumulator holds the ticket already, and gives the
    ticket's identifier; and the same key, with the entropy and the attempt of the
    ticket, seals a block with it.  Commitment, signature and check leave the boxes
    of the library as they were. *)
Theorem ticket_life ark lib0 lib seed state keys idx eta attempt :
  ArkLaws ark → Vrf.init_ ark (fresh_lib ark) = Ok lib0 → rtc (vrf_step ark) lib0 lib →
  ring_keys NumberOfValidators state keys → 0 ≤ idx → 0 ≤ attempt < MaxTicketAttempts →
  (∃ sk pk, Vrf.NewPrivateKeyFromSeed ark seed = Ok sk ∧ Vrf.Public ark sk = Ok pk ∧ keys !! Z.to_nat idx = Some pk) →
  ∃ sk lib1 commitment lib2 r lib3 proof lib4 id,
    Vrf.NewPrivateKeyFromSeed ark seed = Ok sk ∧
    Contest.CalculateRingCommitment ark state lib = Ok (lib1, Ok commitment) ∧
    Vrf.NewRingProver ark sk keys idx lib1 = Ok (lib2, Ok r) ∧
    Vrf.RingSign ark r (Some (TicketSealContext ++ eta ++ [attempt])) (Some []) lib2 = Ok (lib3, Ok proof) ∧
    Vrf.FreeProver ark r lib3 = Ok (lib4, Vrf.MkRing None) ∧
    Rust.boxes ark lib4 = Rust.boxes ark lib ∧
    (∀ lib5 state' pool, rtc (vrf_step ark) lib4 lib5 → NextValidators state' = NextValidators state →
       RingCommitment state' = commitment → entropy pool 2 = eta → id ∉ ticket_ids (TicketAccumulator state') →
       ∃ lib6, Contest.calculateTickets ark state' pool [MkTicketProof attempt proof] lib5 =
           Ok (lib6, Ok [MkTicket id attempt]) ∧ Rust.boxes ark lib6 = Rust.boxes ark lib5) ∧
    ∀ header, (∀ vrf, length vrf = 96%nat → ∃ u, encodeUnsealedHeader (with_vrf vrf header) = Ok u) →
      ∃ seal vrf, @SignBlockWithTicket (wrapper_ops ark) header (MkTicket id attempt) sk eta = Ok (seal, vrf).
Proof.
  intros Hark H0 Hr Hrk Hidx Hatt (sk & pk & Hsk & Hpk & Hin).
  pose proof (vrf_steps_ok ark _ _ _ (init_lib_ok ark lib0 H0) Hr) as Hlib.
  rewrite NewPrivateKeyFromSeed_ok in Hsk by done. injection Hsk as <-. set (s := from_seed ark seed) in *.
  destruct (ark_secret s) as [Hl Hs]. rewrite Public_ok, Hs in Hpk by done. injection Hpk as <-.
  destruct (commitment_of_ring ark lib state keys Hlib Hrk) as (lib1 & c & Hc & Ec & Hlib1 & Hb1).
  pose proof Hrk as (_ & Hk & Hn). pose proof (lookup_lt_Some _ _ _ Hin) as Hlt.
  destruct (ring_signature ark _ lib1 _ s keys idx (TicketSealContext ++ eta ++ [attempt]) [] Hlib1 Hk Hl Hs Hn)
    as (lib2 & r & lib3 & i & π & lib4 & E1 & E2 & E3 & Hi & Hπ & Hlib4 & Hb4); [unfold len; lia|].
  exists (secret_ser ark s), lib1, (commitment_ser ark c), lib2, r, lib3, (ring_ser ark (output ark s i, π)), lib4,
    (id_of ark (output ark s i)).
  split_and!; [by apply NewPrivateKeyFromSeed_ok|done|done|done|done|congruence| |].
  - intros lib5 state' pool Hr5 Hv Hcm Heta Hid. pose proof (vrf_steps_ok ark _ _ _ Hlib4 Hr5) as Hlib5.
    eapply own_ticket_accepted; try done.
    apply (ark_ring_verify _ (ring_points ark NumberOfValidators keys) idx); [|done..].
    unfold ring_points. rewrite list_lookup_fmap, Hin. cbn. by rewrite (proj2 (ark_public _)).
  - intros header Hh. by apply (seal_own_ticket ark s i).
Qed.

(** ** A library with two keys *)

Definition code (n : nat) (b : bool) : list Z := (if b then 1 else 0) :: replicate (n - 1) 0.
Definition decode (n : nat) (l : list Z) : option bool :=
  if decide (l = code n true) then Some true else if decide (l = code n false) then Some false else None.

Lemma decode_code n b : decode n (code n b) = Some b.
Proof. unfold decode. destruct b; [by rewrite decide_True|]. rewrite decide_False by done. by rewrite decide_True. Qed.
Lemma code_decode n b l : decode n l = Some b → l = code n b.
Proof. unfold decode. case_decide; [by intros [= <-]|]. case_decide; [by intros [= <-]|done]. Qed.
Lemma code_length n b : (0 < n)%nat → length (code n b) = n.
Proof. intros Hn. cbn. rewrite length_replicate. lia. Qed.

Definition toy_ark : Ark := {|
  ASecret := bool; APublic := bool; AInput := unit; AOutput := bool;
  AProof := unit; ARingProof := unit; ARingCommitment := bool;
  from_seed seed := bool_decide (seed = []);
  public_of s := s; input_new _ := Some (); output s _ := s;
  output_hash o := code 64 o; ietf_prove s _ _ _ := (); ietf_verify k _ o _ _ := eqb k o;
  from_srs n := (0 <? n) && (n <=? 1023); padding_point _ := false;
  ring_prove _ _ _ _ _ _ _ := Some (); ring_commitment _ _ := Some true; ring_verify _ _ _ _ _ _ := true;
  secret_ser := code 32; secret_de := decode 32; public_ser := code 32; public_de := decode 32;
  ietf_ser x := code 96 x.1; ietf_de l := (λ b, (b, ())) <$> decode 96 l;
  ring_ser x := code 784 x.1; ring_de l := (λ b, (b, ())) <$> decode 784 l;
  commitment_ser := code 144; commitment_de := decode 144;
|}.

Lemma toy_ark_laws : ArkLaws toy_ark.
Proof.
  split; cbn [toy_ark ASecret APublic AInput AOutput AProof ARingProof ARingCommitment from_seed public_of input_new output
    output_hash ietf_prove ietf_verify from_srs padding_point ring_prove ring_commitment ring_verify secret_ser secret_de
    public_ser public_de ietf_ser ietf_de ring_ser ring_de commitment_ser commitment_de].
  - done.
  - intros o. apply code_length; lia.
  - intros s. split; [apply code_length; lia|apply decode_code].
  - intros k. split; [apply code_length; lia|apply decode_code].
  - intros b s _ H. by apply code_decode.
  - intros [o []]. split; [apply code_length; lia|]. cbn [fst]. by rewrite decode_code.
  - intros [o []]. split; [apply code_length; lia|]. cbn [fst]. by rewrite decode_code.
  - intros c. split; [apply code_length; lia|apply decode_code].
  - intros s k i aux. apply eqb_true_iff.
  - intros n [Hlo Hhi]. unfold Rust.DEFAULT_RING_SIZE in Hhi.
    by rewrite (proj2 (Z.ltb_lt 0 n) Hlo), (proj2 (Z.leb_le n 1023) Hhi).
  - done.
  - done.
  - done.
Qed.

Lemma vrf_implemented_witness :
  ∃ s, @Sign (wrapper_ops toy_ark) (code 32 true) [1] [] = Some s ∧
    @VrfVerify (wrapper_ops toy_ark) (code 32 true) [1] [] s = true.
Proof.
  exists (code 96 true). split; [vm_compute; reflexivity|].
  apply (@sign_verify _ (vrf_implemented toy_ark toy_ark_laws) (code 32 true)); vm_compute; reflexivity.
Defined.

(** A library after [init], and a state whose next validators are the two keys. *)
Definition toy_lib : Rust.Lib toy_ark := Rust.MkLib toy_ark (Some 1023) None ∅ 0.
Definition toy_validator (b : bool) : ValidatorKey := MkValidatorKey (code 32 b) ZeroHash [] [].
Definition toy_state (commitment : list Z) : SafroleState :=
  MkSafrole [Some (toy_validator false); Some (toy_validator true)] [] None commitment.

Lemma toy_ring_keys commitment :
  ring_keys NumberOfValidators (toy_state commitment) [code 32 false; code 32 true].
Proof.
  split_and!; [by exists [toy_validator false; toy_validator true]| |done].
  apply Forall_cons; split; [done|]. by apply Forall_singleton.
Qed.

Lemma contest_refines_witness :
  ∃ lib', Contest.calculateTickets toy_ark (toy_state (code 144 true)) (replicate 4 ZeroHash)
      [MkTicketProof 1 (code 784 true)] toy_lib = Ok (lib', Ok [MkTicket (code 32 true) 1]) ∧
    Rust.boxes toy_ark lib' = ∅.
Proof.
  destruct (contest_refines toy_ark toy_lib toy_lib (toy_state (code 144 true)) [code 32 false; code 32 true]
    (replicate 4 ZeroHash) [MkTicketProof 1 (code 784 true)] toy_ark_laws eq_refl) as [_ (lib' & E & Hb)].
  - constructor.
  - apply toy_ring_keys.
  - done.
  - by apply Forall_singleton.
  - exists lib'. split; [|exact Hb]. rewrite E. vm_compute. reflexivity.
Defined.

Lemma ticket_life_witness :
  ∃ proof id lib4, Rust.boxes toy_ark lib4 = ∅ ∧
    ∃ lib6, Contest.calculateTickets toy_ark (toy_state (code 144 true)) (replicate 4 ZeroHash)
        [MkTicketProof 1 proof] lib4 = Ok (lib6, Ok [MkTicket id 1]) ∧ Rust.boxes toy_ark lib6 = ∅.
Proof.
  destruct (ticket_life toy_ark toy_lib toy_lib [] (toy_state ZeroHash) [code 32 false; code 32 true] 1 ZeroHash 1
    toy_ark_laws eq_refl) as (sk & lib1 & c & lib2 & r & lib3 & proof & lib4 & id & _ & Hc & _ & _ & _ & Hb & Hv & _).
  - constructor.
  - apply toy_ring_keys.
  - lia.
  - unfold MaxTicketAttempts. lia.
  - exists (code 32 true), (code 32 true). by vm_compute.
  - exists proof, id, lib4. split; [exact Hb|].
    destruct (Hv lib4 (toy_state (code 144 true)) (replicate 4 ZeroHash)) as (lib6 & E & Hb6).
    + constructor.
    + done.
    + vm_compute in Hc. by injection Hc as _ <-.
    + done.
    + set_solver.
    + exists lib6. split; [exact E|]. by rewrite Hb6, Hb.
Defined.
