(* ===== verification/Disputes.v ===== *)
(** * Disputes

    [internal/statetransition]: [CalculateNewJudgements] checks the verdicts,
    culprits and faults of a block and extends the judgements.  The signature
    scheme is an argument; Go's [ed25519.Verify] panics on a public key that does
    not have 32 bytes. *)
From S2P Require Export Blocks.

Definition contains (slice : list Hash) (item : Hash) : bool := bool_decide (item ∈ slice).
Definition containsKey (slice : list (list Z)) (key : list Z) : bool := bool_decide (key ∈ slice).

Definition addUniqueHash (slice : list Hash) (hash : Hash) : list Hash :=
  if contains slice hash then slice else slice ++ [hash].
Definition addUniqueEdPubKey (slice : list (list Z)) (key : list Z) : list (list Z) :=
  if containsKey slice key then slice else slice ++ [key].

Definition verifyNotAlreadyOffending (faults : list Fault) (offendingValidators : list (list Z))
  : res st_error unit :=
  each (λ fault, guard_not (containsKey offendingValidators (fault_Key fault))
                   (StErr "offender already reported")) faults.

Definition verifyNotAlreadyJudged (verdicts : list Verdict) (stateJudgements : Judgements)
  : res st_error unit :=
  each (λ verdict, let reportHash := verdict_ReportHash verdict in
    guard_not (contains (GoodWorkReports stateJudgements) reportHash
               || contains (BadWorkReports stateJudgements) reportHash
               || contains (WonkyWorkReports stateJudgements) reportHash)
      (StErr "already judged")) verdicts.

(** A copy; the slices of the result are fresh. *)
Definition copyJudgements (stateJudgements : Judgements) : Judgements :=
  MkJudgements (BadWorkReports stateJudgements) (GoodWorkReports stateJudgements)
    (WonkyWorkReports stateJudgements) (OffendingValidators stateJudgements).

(** [bytes.Compare(a, b) >= 0] is an error. *)
Definition verifySortedUnique (disputes : DisputeExtrinsic) : res st_error unit :=
  if negb (neighbours (λ a b, bytes_less (fault_Key a) (fault_Key b)) (Faults disputes))
  then Err (StErr "faults not sorted unique")
  else if negb (neighbours (λ a b, bytes_less (verdict_ReportHash a) (verdict_ReportHash b))
                  (Verdicts disputes))
  then Err (StErr "verdicts not sorted unique")
  else each (λ verdict,
    guard_not (negb (neighbours (λ a b, judgement_ValidatorIndex a <? judgement_ValidatorIndex b)
                       (Judgements_of verdict)))
      (StErr "judgements not sorted unique")) (Verdicts disputes).

(** The context of a vote. *)
Definition vote_context (isValid : bool) : list Z :=
  if isValid then SignatureContextValid else SignatureContextInvalid.

(** ** Verdicts *)

Definition processPositiveVerdict (verdict : Verdict) (faults : list Fault) (newJudgements : Judgements)
  : res st_error Judgements :=
  let valid := filter (λ fault, fault_ReportHash fault = verdict_ReportHash verdict
                                ∧ fault_IsValid fault = false) faults in
  let offending := foldl (λ o fault, if containsKey o (fault_Key fault) then o
                                     else o ++ [fault_Key fault])
                     (OffendingValidators newJudgements) valid in
  if len valid =? 0 then Err (StErr "not enough faults")
  else Ok (MkJudgements (BadWorkReports newJudgements)
             (GoodWorkReports newJudgements ++ [verdict_ReportHash verdict])
             (WonkyWorkReports newJudgements) offending).

Definition processNegativeVerdict (verdict : Verdict) (culprits : list Culprit)
    (newJudgements : Judgements) : res st_error Judgements :=
  if len culprits <? 2 then Err (StErr "not enough culprits")
  else Ok (MkJudgements (BadWorkReports newJudgements ++ [verdict_ReportHash verdict])
             (GoodWorkReports newJudgements) (WonkyWorkReports newJudgements)
             (OffendingValidators newJudgements)).

Definition processWonkyVerdict (verdict : Verdict) (newJudgements : Judgements) : Judgements :=
  MkJudgements (BadWorkReports newJudgements) (GoodWorkReports newJudgements)
    (WonkyWorkReports newJudgements ++ [verdict_ReportHash verdict])
    (OffendingValidators newJudgements).

Definition twoThirdsPlusOne : Z := 2 * NumberOfValidators / 3 + 1.
Definition oneThird : Z := NumberOfValidators / 3.

Definition processVerdict (disputes : DisputeExtrinsic) (verdict : Verdict)
    (newJudgements : Judgements) : res st_error Judgements :=
  let positiveJudgments := CountPositiveJudgments (Judgements_of verdict) in
  if positiveJudgments =? twoThirdsPlusOne then
    processPositiveVerdict verdict (Faults disputes) newJudgements
  else if positiveJudgments =? 0 then
    processNegativeVerdict verdict (Culprits disputes) newJudgements
  else if positiveJudgments =? oneThird then Ok (processWonkyVerdict verdict newJudgements)
  else Err (StErr "bad vote split").

Fixpoint process_verdicts (disputes : DisputeExtrinsic) (verdicts : list Verdict)
    (newJudgements : Judgements) : res st_error Judgements :=
  match verdicts with
  | [] => Ok newJudgements
  | verdict :: verdicts =>
      let! newJudgements := processVerdict disputes verdict newJudgements in
      process_verdicts disputes verdicts newJudgements
  end.

Definition processVerdicts (disputes : DisputeExtrinsic) (newJudgements : Judgements)
  : res st_error Judgements :=
  process_verdicts disputes (Verdicts disputes) newJudgements.

Section signatures.
Context (ed25519_Verify : list Z → list Z → list Z → bool).

Definition edVerify (publicKey message sig : list Z) : res st_error bool :=
  if len publicKey =? 32 then Ok (ed25519_Verify publicKey message sig) else RuntimePanic.

(** [if !ed25519.Verify(...) { return errors.New("bad signature") }] *)
Definition check_signature (publicKey message sig : list Z) : res st_error unit :=
  let! ok := edVerify publicKey message sig in guard_not (negb ok) (StErr "bad signature").

Definition verifyVerdictSignatures (newTimeslot : Z) (verdict : Verdict)
    (currentValidators archivedValidators : ValidatorsData) : res st_error unit :=
  let currentEpoch := Timeslot_ToEpoch newTimeslot in
  let validatorSet :=
    if negb (EpochIndex verdict =? currentEpoch) then archivedValidators else currentValidators in
  let! _ := each (λ judgment,
    if uint16 (len validatorSet) <=? judgement_ValidatorIndex judgment
    then Err (StErr "invalid validator index")
    else
      let message := vote_context (judgement_IsValid judgment) ++ verdict_ReportHash verdict in
      let! v := go_index validatorSet (judgement_ValidatorIndex judgment) in
      let! v := deref v in
      check_signature (Ed25519 v) message (judgement_Signature judgment)) (Judgements_of verdict) in
  let! _ := guard_not (currentEpoch <? EpochIndex verdict) (StErr "bad judgement age") in
  guard_not (1 <? uint32 (currentEpoch - EpochIndex verdict)) (StErr "bad judgement age").

Definition verifyAllSignatures (newTimeslot : Z) (disputes : DisputeExtrinsic)
    (validators : ValidatorState) : res st_error unit :=
  let! _ := each (λ verdict, verifyVerdictSignatures newTimeslot verdict
              (CurrentValidators validators) (ArchivedValidators validators)) (Verdicts disputes) in
  let! _ := each (λ culprit, check_signature (culprit_Key culprit)
              (SignatureContextGuarantee ++ culprit_ReportHash culprit)
              (culprit_Signature culprit)) (Culprits disputes) in
  each (λ fault, check_signature (fault_Key fault)
          (vote_context (fault_IsValid fault) ++ fault_ReportHash fault)
          (fault_Signature fault)) (Faults disputes).

Definition verifyCulprits (culprits : list Culprit) (badReports : list Hash)
    (offendingValidators : list (list Z)) : res st_error unit :=
  if negb (neighbours (λ a b, bytes_less (culprit_Key a) (culprit_Key b)) culprits)
  then Err (StErr "culprits not sorted unique")
  else each (λ culprit,
    let! _ := check_signature (culprit_Key culprit)
                (SignatureContextGuarantee ++ culprit_ReportHash culprit)
                (culprit_Signature culprit) in
    let! _ := guard_not (negb (contains badReports (culprit_ReportHash culprit)))
                (StErr "culprits verdict not bad") in
    guard_not (containsKey offendingValidators (culprit_Key culprit))
      (StErr "offender already reported")) culprits.

(** The first verdict on a report. *)
Definition verdict_of (verdicts : list Verdict) (reportHash : Hash) : option Verdict :=
  snd <$> list_find (λ v, verdict_ReportHash v = reportHash) verdicts.

Definition verifyFaults (faults : list Fault) (verdicts : list Verdict)
    (offendingValidators : list (list Z)) : res st_error unit :=
  each (λ fault,
    let allPositive :=
      match verdict_of verdicts (fault_ReportHash fault) with
      | Some verdict => CountPositiveJudgments (Judgements_of verdict) =? len (Judgements_of verdict)
      | None => false
      end in
    let! _ := guard_not (Bool.eqb (fault_IsValid fault) allPositive) (StErr "fault verdict wrong") in
    let! _ := guard_not (containsKey offendingValidators (fault_Key fault))
                (StErr "offender already reported") in
    check_signature (fault_Key fault) (vote_context (fault_IsValid fault) ++ fault_ReportHash fault)
      (fault_Signature fault)) faults.

Definition processCulprits (culprits : list Culprit) (verdicts : list Verdict)
    (newJudgements : Judgements) : res st_error Judgements :=
  let! _ := each (λ culprit,
    match verdict_of verdicts (culprit_ReportHash culprit) with
    | Some verdict => guard_not (0 <? CountPositiveJudgments (Judgements_of verdict))
                        (StErr "bad vote split")
    | None => Err (StErr "culprits verdict not bad")
    end) culprits in
  let! _ := verifyCulprits culprits (BadWorkReports newJudgements)
              (OffendingValidators newJudgements) in
  Ok (MkJudgements (BadWorkReports newJudgements) (GoodWorkReports newJudgements)
        (WonkyWorkReports newJudgements)
        (foldl (λ o culprit, if containsKey o (culprit_Key culprit) then o
                             else o ++ [culprit_Key culprit])
           (OffendingValidators newJudgements) culprits)).

(** [CalculateNewJudgements]; an error leaves the judgements as they were. *)
Definition CalculateNewJudgements (newTimeslot : Z) (disputes : DisputeExtrinsic)
    (stateJudgements : Judgements) (validators : ValidatorState) : res st_error Judgements :=
  let! _ := verifySortedUnique disputes in
  let! _ := verifyAllSignatures newTimeslot disputes validators in
  let! _ := verifyNotAlreadyOffending (Faults disputes) (OffendingValidators stateJudgements) in
  let! _ := verifyNotAlreadyJudged (Verdicts disputes) stateJudgements in
  let newJudgements := copyJudgements stateJudgements in
  let! _ := verifyFaults (Faults disputes) (Verdicts disputes)
              (OffendingValidators stateJudgements) in
  let! newJudgements := processVerdicts disputes newJudgements in
  processCulprits (Culprits disputes) (Verdicts disputes) newJudgements.
End signatures.
