(* ===== verification/DisputesTheorems.v ===== *)
(** * Disputes: theorems *)
From S2P Require Export JamRoundtrip SafroleProps Disputes.
From Stdlib Require Import Sorted.

(** ** Sorted lists *)

Lemma neighbours_sorted {A} (ok : A → A → bool) l :
  (∀ a b c, ok a b = true → ok b c = true → ok a c = true) →
  neighbours ok l = true → StronglySorted (λ a b, ok a b = true) l.
Proof.
  intros Htrans H. apply Sorted_StronglySorted; [intros a b c; apply Htrans|].
  induction l as [|x l IH]; [constructor|]. cbn [neighbours] in H.
  destruct l as [|y l]; [repeat constructor|]. apply andb_prop in H as [Hxy H].
  constructor; [by apply IH|by constructor].
Qed.

Lemma sorted_keys_NoDup {A} (key : A → list Z) l :
  neighbours (λ a b, bytes_less (key a) (key b)) l = true → NoDup (key <$> l).
Proof.
  intros H%neighbours_sorted; [|intros a b c; apply bytes_less_trans].
  induction H as [|x l _ IH Hx]; [constructor|]. rewrite fmap_cons. constructor; [|done].
  intros (y & Hy & Hin)%list_elem_of_fmap. rewrite Forall_forall in Hx. specialize (Hx y Hin).
  by rewrite Hy, bytes_less_irrefl in Hx.
Qed.

(** ** Offenders *)

Lemma add_keys_spec {A} (key : A → list Z) l o :
  let o' := foldl (λ o x, if containsKey o (key x) then o else o ++ [key x]) o l in
  (∀ k, k ∈ o' ↔ k ∈ o ∨ k ∈ key <$> l) ∧ (NoDup o → NoDup o').
Proof.
  revert o. induction l as [|x l IH]; intros o; simpl; [set_solver|].
  destruct (IH (if containsKey o (key x) then o else o ++ [key x])) as [IH1 IH2].
  assert (∀ k, k ∈ (if containsKey o (key x) then o else o ++ [key x]) ↔ k ∈ o ∨ k = key x) as Hk.
  { intros k. unfold containsKey. case_bool_decide; set_solver. }
  split.
  - intros k. rewrite IH1, Hk. set_solver.
  - intros Ho. apply IH2. unfold containsKey. case_bool_decide; [done|].
    apply NoDup_app. split_and!; [done| |apply NoDup_singleton]. set_solver.
Qed.

(** ** Verdicts *)

Definition votes (v : Verdict) : Z := CountPositiveJudgments (Judgements_of v).

(** The hashes of the verdicts with [n] positive votes. *)
Definition with_votes (n : Z) (vs : list Verdict) : list Hash :=
  verdict_ReportHash <$> filter (λ v, votes v = n) vs.

Definition judged (j : Judgements) : list Hash :=
  GoodWorkReports j ++ BadWorkReports j ++ WonkyWorkReports j.

(** A fault that a positive verdict convicts. *)
Definition convicted (vs : list Verdict) (f : Fault) : Prop :=
  fault_IsValid f = false ∧
  ∃ v, v ∈ vs ∧ votes v = twoThirdsPlusOne ∧ fault_ReportHash f = verdict_ReportHash v.

Lemma process_verdicts_spec d vs j j' :
  process_verdicts d vs j = Ok j' →
  Forall (λ v, votes v = twoThirdsPlusOne ∨ votes v = 0 ∨ votes v = oneThird) vs ∧
  GoodWorkReports j' = GoodWorkReports j ++ with_votes twoThirdsPlusOne vs ∧
  BadWorkReports j' = BadWorkReports j ++ with_votes 0 vs ∧
  WonkyWorkReports j' = WonkyWorkReports j ++ with_votes oneThird vs ∧
  (∀ k, k ∈ OffendingValidators j' ↔ k ∈ OffendingValidators j ∨
     ∃ f, f ∈ Faults d ∧ fault_Key f = k ∧ convicted vs f) ∧
  (NoDup (OffendingValidators j) → NoDup (OffendingValidators j')) ∧
  (0 < len (with_votes 0 vs) → 2 ≤ len (Culprits d)).
Proof.
  revert j. induction vs as [|v vs IH]; intros j H; simpl in H.
  { injection H as <-. unfold with_votes. simpl. rewrite !app_nil_r. split_and!; try done.
    intros k. split; [by left|]. intros [?|(f & _ & _ & _ & v & Hv & _)]; [done|]. set_solver. }
  destruct (processVerdict d v j) as [j1| |] eqn:E; simpl in H; [|done..].
  destruct (IH _ H) as (Hall & Hg & Hb & Hw & Ho & Hnd & Hc). unfold processVerdict in E.
  fold (votes v) in E. unfold with_votes in *. rewrite !filter_cons, Hg, Hb, Hw.
  destruct (Z.eqb_spec (votes v) twoThirdsPlusOne) as [Ev|Ev].
  - rewrite Ev. rewrite decide_True, !decide_False by done. unfold processPositiveVerdict in E.
    set (valid := filter _ _) in E. destruct (len valid =? 0); [done|]. injection E as <-. simpl in *.
    destruct (add_keys_spec fault_Key valid (OffendingValidators j)) as [Hk Hn].
    split_and!; [constructor; [by left|done]|by rewrite <- app_assoc|done|done| | |done].
    + intros k. rewrite Ho, Hk. unfold convicted, valid. split.
      * intros [[?|(f & -> & Hf)%list_elem_of_fmap]|(f & Hf & Hk' & Hv & v' & Hv')]; [by left|..]; right.
        -- apply list_elem_of_filter in Hf as [[Hh Hv] Hf]. exists f. split_and!; try done.
           exists v. split_and!; [by constructor|done|done].
        -- exists f. split_and!; try done. exists v'. set_solver.
      * intros [?|(f & Hf & <- & Hv & v' & Hv' & Hv2 & Hh)]; [by left; left|].
        apply elem_of_cons in Hv' as [->|Hv'].
        -- left. right. apply list_elem_of_fmap_2, list_elem_of_filter. done.
        -- right. exists f. split_and!; try done. by exists v'.
    + intros Hj. by apply Hnd, Hn.
  - rewrite (decide_False (P := votes v = twoThirdsPlusOne)) by done.
    assert (∀ f, convicted (v :: vs) f ↔ convicted vs f) as Hconv.
    { intros f. unfold convicted. split; intros (Hf & v' & Hv' & Hv2 & Hh); split; try done;
        exists v'; split_and!; try done; [|by constructor].
      by apply elem_of_cons in Hv' as [->|?]. }
    destruct (Z.eqb_spec (votes v) 0) as [E0|E0].
    + rewrite E0. rewrite (decide_True (P := 0 = 0)), decide_False by done. simpl in *.
      unfold processNegativeVerdict in E. destruct (Z.ltb_spec (len (Culprits d)) 2); [done|].
      injection E as <-. simpl in *.
      split_and!; [constructor; [by right; left|done]|done|by rewrite <- app_assoc|done| |done|lia].
      intros k. rewrite Ho. by setoid_rewrite Hconv.
    + rewrite (decide_False (P := votes v = 0)) by done.
      destruct (Z.eqb_spec (votes v) oneThird) as [E1|E1]; [|done]. injection E as <-.
      rewrite decide_True by done. simpl in *.
      split_and!; [constructor; [by right; right|done]|done|done|by rewrite <- app_assoc| |done|done].
      intros k. rewrite Ho. by setoid_rewrite Hconv.
Qed.

Lemma with_votes_perm vs :
  Forall (λ v, votes v = twoThirdsPlusOne ∨ votes v = 0 ∨ votes v = oneThird) vs →
  with_votes twoThirdsPlusOne vs ++ with_votes 0 vs ++ with_votes oneThird vs ≡ₚ
  verdict_ReportHash <$> vs.
Proof.
  unfold with_votes. induction 1 as [|v vs Hv _ IH]; [done|]. rewrite !filter_cons, fmap_cons.
  destruct Hv as [-> | [-> | ->]].
  - rewrite decide_True, !decide_False by done. simpl. by rewrite IH.
  - rewrite decide_False, decide_True, decide_False by done. simpl.
    by rewrite <- Permutation_middle, IH.
  - rewrite !decide_False, decide_True by done. simpl.
    rewrite (app_assoc _ _ (_ :: _)), <- Permutation_middle, <- app_assoc. by rewrite IH.
Qed.

(** ** The whole extrinsic *)

(** What [CalculateNewJudgements] has checked when it succeeds. *)
Lemma CalculateNewJudgements_Ok V slot d j vals j' :
  CalculateNewJudgements V slot d j vals = Ok j' →
  ∃ j1,
    NoDup (fault_Key <$> Faults d) ∧ NoDup (verdict_ReportHash <$> Verdicts d) ∧
    NoDup (culprit_Key <$> Culprits d) ∧
    Forall (λ v, verdict_ReportHash v ∉ judged j) (Verdicts d) ∧
    verifyFaults V (Faults d) (Verdicts d) (OffendingValidators j) = Ok tt ∧
    process_verdicts d (Verdicts d) j = Ok j1 ∧
    verifyCulprits V (Culprits d) (BadWorkReports j1) (OffendingValidators j1) = Ok tt ∧
    j' = MkJudgements (BadWorkReports j1) (GoodWorkReports j1) (WonkyWorkReports j1)
           (foldl (λ o c, if containsKey o (culprit_Key c) then o else o ++ [culprit_Key c])
              (OffendingValidators j1) (Culprits d)).
Proof.
  unfold CalculateNewJudgements, processCulprits, processVerdicts, verifySortedUnique. intros H.
  destruct (neighbours (λ a b, bytes_less (fault_Key a) (fault_Key b)) _) eqn:Hf; [|done].
  destruct (neighbours (λ a b, bytes_less (verdict_ReportHash a) _) _) eqn:Hv; [|done].
  cbn [negb] in H. apply rbind_Ok_inv in H as ([] & _ & H). apply rbind_Ok_inv in H as ([] & _ & H).
  apply rbind_Ok_inv in H as ([] & _ & H). apply rbind_Ok_inv in H as ([] & Hj & H).
  apply rbind_Ok_inv in H as ([] & Hvf & H). apply rbind_Ok_inv in H as (j1 & Hpv & H).
  apply rbind_Ok_inv in H as ([] & _ & H). apply rbind_Ok_inv in H as ([] & Hvc & H).
  injection H as <-. exists j1. split_and!; try done; [by apply sorted_keys_NoDup..| | |].
  - unfold verifyCulprits in Hvc.
    destruct (neighbours (λ a b, bytes_less (culprit_Key a) _) _) eqn:E; [|done].
    by apply sorted_keys_NoDup.
  - apply each_Ok in Hj. eapply Forall_impl; [exact Hj|]. intros v Hx%guard_not_Ok.
    apply orb_false_elim in Hx as [[Hg Hb]%orb_false_elim Hw]. unfold contains in *.
    apply bool_decide_eq_false in Hg, Hb, Hw. unfold judged. set_solver.
  - by destruct j.
Qed.

(** Accepted disputes, and the judgements they lead to. *)
Lemma CalculateNewJudgements_spec V slot d j vals j' :
  CalculateNewJudgements V slot d j vals = Ok j' →
  NoDup (judged j) → NoDup (OffendingValidators j) →
  Forall (λ v, votes v = twoThirdsPlusOne ∨ votes v = 0 ∨ votes v = oneThird) (Verdicts d) ∧
  GoodWorkReports j' = GoodWorkReports j ++ with_votes twoThirdsPlusOne (Verdicts d) ∧
  BadWorkReports j' = BadWorkReports j ++ with_votes 0 (Verdicts d) ∧
  WonkyWorkReports j' = WonkyWorkReports j ++ with_votes oneThird (Verdicts d) ∧
  NoDup (judged j') ∧ NoDup (OffendingValidators j') ∧
  ∀ k, k ∈ OffendingValidators j' ↔
    k ∈ OffendingValidators j ∨ k ∈ culprit_Key <$> Culprits d ∨
    ∃ f, f ∈ Faults d ∧ fault_Key f = k ∧ convicted (Verdicts d) f.
Proof.
  intros (j1 & _ & Hv & _ & Hnew & _ & Hp & _ & ->)%CalculateNewJudgements_Ok Hnd Hno.
  destruct (process_verdicts_spec _ _ _ _ Hp) as (Hall & Hg & Hb & Hw & Ho & Hn & _). simpl.
  split_and!; [done..| | |].
  - unfold judged. simpl. rewrite Hg, Hb, Hw.
    assert (∀ g g1 b b1 w w1 : list Hash, (g ++ g1) ++ (b ++ b1) ++ w ++ w1 ≡ₚ
      (g ++ b ++ w) ++ g1 ++ b1 ++ w1) as -> by (intros; solve_Permutation).
    rewrite with_votes_perm by done. apply NoDup_app. split_and!; [done| |done].
    intros h Hh (v & -> & Hin)%list_elem_of_fmap. rewrite Forall_forall in Hnew.
    by apply (Hnew v Hin).
  - by apply (add_keys_spec culprit_Key), Hn.
  - intros k. rewrite (proj1 (add_keys_spec culprit_Key _ _)), Ho. naive_solver.
Qed.

(** C15: a block whose disputes are accepted extends the judgements: every
    verdict has 683, 0 or 341 positive votes and its report is appended, in the
    block's order, to the good, bad or wonky ones; no report is judged twice and
    no validator is listed twice, if that was so before.  Who was an offender
    remains one; the culprits and the validators with a fault against a report found
    good become offenders, and only validators with a culprit entry or a fault in
    the block do; if all faults are against reports found good, the new offenders
    are exactly the keys of culprits and faults. *)
Theorem judgements_extended V slot d j vals j' :
  CalculateNewJudgements V slot d j vals = Ok j' →
  NoDup (judged j) → NoDup (OffendingValidators j) →
  Forall (λ v, votes v = twoThirdsPlusOne ∨ votes v = 0 ∨ votes v = oneThird) (Verdicts d) ∧
  GoodWorkReports j' = GoodWorkReports j ++ with_votes twoThirdsPlusOne (Verdicts d) ∧
  BadWorkReports j' = BadWorkReports j ++ with_votes 0 (Verdicts d) ∧
  WonkyWorkReports j' = WonkyWorkReports j ++ with_votes oneThird (Verdicts d) ∧
  NoDup (judged j') ∧ NoDup (OffendingValidators j') ∧
  OffendingValidators j ⊆ OffendingValidators j' ∧ (culprit_Key <$> Culprits d) ⊆ OffendingValidators j' ∧
  (∀ f, f ∈ Faults d → convicted (Verdicts d) f → fault_Key f ∈ OffendingValidators j') ∧
  (∀ k, k ∈ OffendingValidators j' →
     k ∈ OffendingValidators j ∨ k ∈ culprit_Key <$> Culprits d ∨ k ∈ fault_Key <$> Faults d) ∧
  (Forall (convicted (Verdicts d)) (Faults d) →
   ∀ k, k ∈ OffendingValidators j' ↔
     k ∈ OffendingValidators j ∨ k ∈ culprit_Key <$> Culprits d ∨ k ∈ fault_Key <$> Faults d).
Proof.
  intros H Hj Ho. destruct (CalculateNewJudgements_spec V slot d j vals j' H Hj Ho)
    as (H1 & H2 & H3 & H4 & H5 & H6 & Hk).
  assert (∀ k, k ∈ OffendingValidators j' →
    k ∈ OffendingValidators j ∨ k ∈ culprit_Key <$> Culprits d ∨ k ∈ fault_Key <$> Faults d) as Hup.
  { intros k Hin. apply Hk in Hin as [?|[?|(f & Hf & <- & _)]]; auto. right. right.
    by apply list_elem_of_fmap_2. }
  split_and!; try done.
  - intros k Hin. apply Hk. by left.
  - intros k Hin. apply Hk. by right; left.
  - intros f Hf Hc. apply Hk. right. right. by exists f.
  - intros Hall k. split; [apply Hup|]. intros [?|[?|(f & -> & Hf)%list_elem_of_fmap]]; apply Hk; auto.
    right. right. exists f. split_and!; [done|done|]. by eapply Forall_forall in Hall.
Qed.

(** ** Values for the witnesses *)

Definition a_key (n : Z) : list Z := replicate 32 n.
Definition some_validators : ValidatorsData :=
  replicate 1023 (Some (MkValidatorKey (a_key 1) (a_key 2) [] [])).
Definition validator_sets : ValidatorState :=
  MkValidatorState some_validators some_validators some_validators.
(** A verdict of the validators [0 .. 682] without a positive vote. *)
Definition bad_verdict : Verdict :=
  MkVerdict (a_key 3) 0 ((λ i, MkJudgement false i []) <$> seqZ 0 683).
Definition bad_disputes : DisputeExtrinsic :=
  MkDisputes [bad_verdict] [MkCulprit (a_key 3) (a_key 5) []; MkCulprit (a_key 3) (a_key 6) []]
    [MkFault (a_key 3) true (a_key 7) []].
Definition no_judgements : Judgements := MkJudgements [] [] [] [].
Definition accept_all (publicKey message sig : list Z) : bool := true.

(** A bad report with two culprits, and a good one with a fault against it. *)
Definition good_verdict : Verdict :=
  MkVerdict (a_key 4) 0 ((λ i, MkJudgement true i []) <$> seqZ 0 683).
Definition mixed_disputes : DisputeExtrinsic :=
  MkDisputes [bad_verdict; good_verdict]
    [MkCulprit (a_key 3) (a_key 5) []; MkCulprit (a_key 3) (a_key 6) []]
    [MkFault (a_key 4) false (a_key 7) []].

Lemma judgements_extended_witness :
  ∃ j', CalculateNewJudgements accept_all 7 mixed_disputes no_judgements validator_sets = Ok j' ∧
        BadWorkReports j' = [a_key 3] ∧ GoodWorkReports j' = [a_key 4] ∧
        ∀ k, k ∈ OffendingValidators j' ↔ k ∈ [] ∨ k ∈ [a_key 5; a_key 6] ∨ k ∈ [a_key 7].
Proof.
  eexists. split; [vm_compute; reflexivity|].
  edestruct (judgements_extended accept_all 7 mixed_disputes no_judgements validator_sets)
    as (_ & Hg & Hb & _ & _ & _ & _ & _ & _ & _ & Ho);
    [vm_compute; reflexivity|constructor|constructor|]. split_and!; [exact Hb|exact Hg|].
  apply Ho. constructor; [|constructor]. vm_compute. split; [reflexivity|].
  exists good_verdict. split; [by right; left|]. split; reflexivity.
Defined.

(** a validator that voted for a report found bad, or for a report that is
    not in dispute at all, and whose fault is accepted, is not made an offender
    unless it is also a culprit: only faults with a vote against a good report are
    collected, where equation 115 collects all of them. *)
Theorem faults_on_bad_reports_unpunished V slot d j vals j' f :
  CalculateNewJudgements V slot d j vals = Ok j' → f ∈ Faults d → fault_IsValid f = true →
  fault_Key f ∉ culprit_Key <$> Culprits d →
  fault_Key f ∉ OffendingValidators j'.
Proof.
  intros (j1 & Hnf & _ & _ & _ & Hvf & Hp & _ & ->)%CalculateNewJudgements_Ok Hf Hval Hc.
  destruct (process_verdicts_spec _ _ _ _ Hp) as (_ & _ & _ & _ & Ho & _). simpl.
  rewrite (proj1 (add_keys_spec culprit_Key _ _)), Ho. intros [[Hold|(f' & Hf' & Hk & Hv' & _)]|?];
    [| |done].
  - unfold verifyFaults in Hvf. rewrite each_Ok, Forall_forall in Hvf. specialize (Hvf f Hf).
    apply rbind_Ok_inv in Hvf as ([] & _ & Hvf). apply rbind_Ok_inv in Hvf as ([] & Hvf & _).
    apply guard_not_Ok, bool_decide_eq_false in Hvf. done.
  - apply list_elem_of_lookup in Hf as [i Hi]. apply list_elem_of_lookup in Hf' as [i' Hi'].
    assert (i' = i) as ->.
    { eapply (NoDup_lookup _ _ _ (fault_Key f) Hnf); rewrite list_lookup_fmap; [by rewrite Hi', <- Hk|by rewrite Hi]. }
    congruence.
Qed.

Lemma faults_on_bad_reports_unpunished_witness :
  ∃ j', CalculateNewJudgements accept_all 7 bad_disputes no_judgements validator_sets = Ok j' ∧
        a_key 7 ∉ OffendingValidators j'.
Proof.
  eexists. split; [vm_compute; reflexivity|].
  refine (faults_on_bad_reports_unpunished accept_all 7 bad_disputes no_judgements validator_sets _
    (MkFault (a_key 3) true (a_key 7) []) _ _ _ _);
    [vm_compute; reflexivity|by constructor|done|].
  apply (bool_decide_unpack _). vm_compute. exact I.
Defined.

Lemma check_signature_no_panic V key msg sig : len key = 32 → check_signature V key msg sig ≠ RuntimePanic.
Proof. intros H. unfold check_signature, edVerify. rewrite H. simpl. by destruct (V _ _ _). Qed.

Lemma rbind_no_panic {E A B} (c : res E A) (k : A → res E B) :
  c ≠ RuntimePanic → (∀ a, k a ≠ RuntimePanic) → rbind c k ≠ RuntimePanic.
Proof. destruct c; simpl; [by auto|done|done]. Qed.

Lemma guard_not_no_panic {E} b (e : E) : guard_not b e ≠ RuntimePanic.
Proof. by destruct b. Qed.

Create HintDb no_panic.
#[export] Hint Resolve check_signature_no_panic rbind_no_panic guard_not_no_panic : no_panic.

Lemma verifyVerdictSignatures_no_panic V slot v cur arch :
  filled cur → filled arch → Forall (λ x, 0 ≤ judgement_ValidatorIndex x) (Judgements_of v) →
  verifyVerdictSignatures V slot v cur arch ≠ RuntimePanic.
Proof.
  intros Hc Ha Hj. unfold verifyVerdictSignatures.
  set (vs := if negb (EpochIndex v =? _) then arch else cur).
  assert (filled vs) as [Hlen Hall] by (unfold vs; by destruct (negb _)).
  clearbody vs.
  apply rbind_no_panic; [|intros; apply rbind_no_panic; auto with no_panic].
  apply each_no_panic. eapply Forall_impl; [exact Hj|]. intros x Hx. cbv beta in Hx.
  rewrite Hlen. change (uint16 NumberOfValidators) with NumberOfValidators.
  destruct (Z.leb_spec NumberOfValidators (judgement_ValidatorIndex x)); [done|].
  unfold len in Hlen. destruct (lookup_lt_is_Some_2 vs (Z.to_nat (judgement_ValidatorIndex x)))
    as [k Hk]; [lia|].
  rewrite (go_index_lookup vs _ k Hx Hk). cbn [rbind].
  pose proof (Forall_lookup_1 _ _ _ _ Hall Hk) as (key & -> & He & _). simpl. auto with no_panic.
Qed.

(** no dispute extrinsic whose keys have 32 bytes makes
    [CalculateNewJudgements] panic, whatever its verdicts, votes and signatures:
    with filled validator sets it returns an error or new judgements. *)
Theorem disputes_no_panic V slot d j vals :
  filled (CurrentValidators vals) → filled (ArchivedValidators vals) →
  Forall (λ v, Forall (λ x, 0 ≤ judgement_ValidatorIndex x) (Judgements_of v)) (Verdicts d) →
  Forall (λ c, len (culprit_Key c) = 32) (Culprits d) →
  Forall (λ f, len (fault_Key f) = 32) (Faults d) →
  CalculateNewJudgements V slot d j vals ≠ RuntimePanic.
Proof.
  intros Hc Ha Hv Hk Hf. unfold CalculateNewJudgements.
  apply rbind_no_panic; [|intros _; apply rbind_no_panic; [|intros _; apply rbind_no_panic;
    [|intros _; apply rbind_no_panic; [|intros _; apply rbind_no_panic;
    [|intros _; apply rbind_no_panic; [|intros j1]]]]]].
  - unfold verifySortedUnique. repeat (destruct (negb _); [done|]).
    apply each_no_panic, Forall_forall. auto with no_panic.
  - unfold verifyAllSignatures. apply rbind_no_panic; [|intros _; apply rbind_no_panic; [|intros _]];
      apply each_no_panic.
    + eapply Forall_impl; [exact Hv|]. intros v Hx. by apply verifyVerdictSignatures_no_panic.
    + eapply Forall_impl; [exact Hk|]. auto with no_panic.
    + eapply Forall_impl; [exact Hf|]. auto with no_panic.
  - apply each_no_panic, Forall_forall. auto with no_panic.
  - apply each_no_panic, Forall_forall. auto with no_panic.
  - apply each_no_panic. eapply Forall_impl; [exact Hf|]. intros f Hx. auto with no_panic.
  - unfold processVerdicts. generalize (copyJudgements j). generalize (Verdicts d).
    intros vs. induction vs as [|v vs IH]; intros j0; simpl; [done|].
    apply rbind_no_panic; [|auto]. unfold processVerdict, processPositiveVerdict, processNegativeVerdict.
    by repeat destruct (_ =? _) || destruct (_ <? _).
  - unfold processCulprits. apply rbind_no_panic; [|intros _; apply rbind_no_panic; [|done]].
    + apply each_no_panic, Forall_forall. intros c _. destruct (verdict_of _ _); auto with no_panic.
    + unfold verifyCulprits. destruct (negb _); [done|]. apply each_no_panic.
      eapply Forall_impl; [exact Hk|]. intros c Hx. auto with no_panic.
Qed.

Lemma disputes_no_panic_witness :
  CalculateNewJudgements accept_all 7 bad_disputes no_judgements validator_sets ≠ RuntimePanic.
Proof.
  assert (filled some_validators) as Hs.
  { split; [done|]. apply Forall_replicate. by eexists. }
  apply disputes_no_panic; [done|done| |by repeat constructor|by repeat constructor].
  constructor; [|constructor]. apply Forall_fmap, Forall_forall. intros i Hi%elem_of_seqZ. simpl. lia.
Defined.
