(* ===== verification/Reports.v ===== *)
(** * Work reports on cores

    [internal/statetransition]: the assignments of reports to cores and how a
    block changes them: verdicts clear them, assurances make reports available,
    guarantees put new reports on free cores.  The assignment of validators to
    cores uses the shuffle of [internal/common]. *)
From S2P Require Export Shuffle Disputes Safrole Services.

(** ** Assignments *)

(** [Time + WorkReportTimeoutPeriod] on [uint32] *)
Definition isAssignmentStale (currentAssignment : option Assignment) (newTimeslot : Z) : bool :=
  match currentAssignment with
  | None => false
  | Some a => uint32 (Time a + WorkReportTimeoutPeriod) <=? newTimeslot
  end.

Definition isAssignmentValid (currentAssignment : option Assignment) (newTimeslot : Z) : bool :=
  match currentAssignment with
  | None => true
  | Some a => match assigned_WorkReport a with
              | None => true
              | Some _ => isAssignmentStale currentAssignment newTimeslot
              end
  end.

(** ** Assurances *)

(** [slices.IsSortedFunc]: neighbours may be equal. *)
Definition assuranceIsOrderedByValidatorIndex (assurances : list Assurance) : bool :=
  neighbours (λ a b, assurance_ValidatorIndex a <=? assurance_ValidatorIndex b) assurances.

(** The inner loop: assurances for one core. *)
Fixpoint count_assurances (coreIndex : Z) (assignment : option Assignment) (slot : Z)
    (assurances : list Assurance) (count : Z) : res st_error Z :=
  match assurances with
  | [] => Ok count
  | assurance :: assurances =>
      let! has := HasAssuranceForCore assurance coreIndex in
      if has then
        match assignment with
        | None => Err ErrCoreNotEngaged
        | Some _ =>
            if isAssignmentStale assignment slot then Err ErrReportTimeout
            else count_assurances coreIndex assignment slot assurances (count + 1)
        end
      else count_assurances coreIndex assignment slot assurances count
  end.

Fixpoint availability_counts (coreIndex : Z) (assignments : CoreAssignments) (slot : Z)
    (assurances : list Assurance) : res st_error (list Z) :=
  match assignments with
  | [] => Ok []
  | assignment :: assignments =>
      let! count := count_assurances coreIndex assignment slot assurances 0 in
      let! counts := availability_counts (coreIndex + 1) assignments slot assurances in
      Ok (count :: counts)
  end.

(** The second loop: available reports leave their cores, stale ones too. *)
Fixpoint clear_available (assignments : CoreAssignments) (counts : list Z) (slot : Z)
  : res st_error (CoreAssignments * list (option WorkReport)) :=
  match assignments, counts with
  | assignment :: assignments, count :: counts =>
      let! (assignment, removed) :=
        (if AvailabilityThreshold <? count
         then let! a := deref assignment in Ok (None, [assigned_WorkReport a])
         else Ok (assignment, [])) in
      let assignment := if isAssignmentStale assignment slot then None else assignment in
      let! (rest, more) := clear_available assignments counts slot in
      Ok (assignment :: rest, removed ++ more)
  | _, _ => Ok ([], [])
  end.

Definition CalculateIntermediateCoreAssignmentsFromAvailability (assurances : list Assurance)
    (coreAssignments : CoreAssignments) (slot : Z)
  : res st_error (CoreAssignments * list (option WorkReport)) :=
  let! counts := availability_counts 0 coreAssignments slot assurances in
  clear_available coreAssignments counts slot.

Section hashing.
Context (HashData : list Z → Hash).
Context (ed25519_Verify : list Z → list Z → list Z → bool).

Definition validateAssurance (validators : ValidatorsData) (header : Header) (assurance : Assurance)
  : res st_error unit :=
  if (NumberOfValidators <=? assurance_ValidatorIndex assurance) then Err ErrBadValidatorIndex
  else
    let! v := go_index validators (assurance_ValidatorIndex assurance) in
    match v with
    | None => Err ErrBadValidatorIndex
    | Some v =>
        if negb (bool_decide (assurance_Anchor assurance = ParentHash header))
        then Err ErrBadAttestationParent
        else
          let! b := map_err StJam (Marshal hash_type (hash_value (ParentHash header))) in
          let! b' := map_err StJam (Marshal (octets_type 43) (hash_value (Bitfield assurance))) in
          let! ok := edVerify ed25519_Verify (Ed25519 v)
                       (SignatureContextAvailable ++ HashData (b ++ b'))
                       (assurance_Signature assurance) in
          guard_not (negb ok) ErrBadSignature
    end.

Definition validateAssurancesSignature (validators : ValidatorsData) (header : Header)
    (assurances : list Assurance) : res st_error unit :=
  each (validateAssurance validators header) assurances.

Definition CalculateIntermediateCoreFromAssurances (validators : ValidatorsData)
    (assignments : CoreAssignments) (header : Header) (assurances : list Assurance)
  : res st_error (CoreAssignments * list (option WorkReport)) :=
  let! _ := validateAssurancesSignature validators header assurances in
  if negb (assuranceIsOrderedByValidatorIndex assurances) then Err ErrBadOrder
  else CalculateIntermediateCoreAssignmentsFromAvailability assurances assignments
         (TimeSlotIndex header).

(** The reports on the cores; an assignment without a report is a nil
    dereference. *)
Fixpoint GetAvailableWorkReports {E} (coreAssignments : CoreAssignments)
  : res E (list WorkReport) :=
  match coreAssignments with
  | [] => Ok []
  | None :: rest => GetAvailableWorkReports rest
  | Some a :: rest =>
      let! w := deref (assigned_WorkReport a) in
      let! ws := GetAvailableWorkReports rest in
      Ok (w :: ws)
  end.

(** ** Verdicts *)

(** [assignment.WorkReport.Hash()]; the encoding of a nil report is empty. *)
Definition assignment_hash (a : Assignment) : res st_error Hash :=
  match assigned_WorkReport a with
  | None => Ok (HashData [])
  | Some w => Hash_report HashData w
  end.

Definition clear_disputed (reportHash : Hash) (assignment : option Assignment) : option Assignment :=
  match assignment with
  | None => None
  | Some a => match assignment_hash a with
              | Ok h => if bool_decide (h = reportHash) then None else Some a
              | _ => Some a
              end
  end.

Definition CalculateIntermediateCoreAssignmentsFromExtrinsics (disputes : DisputeExtrinsic)
    (coreAssignments : CoreAssignments) : CoreAssignments :=
  foldl (λ newAssignments verdict,
    if CountPositiveJudgments (Judgements_of verdict) <? ValidatorsSuperMajority
    then clear_disputed (verdict_ReportHash verdict) <$> newAssignments else newAssignments)
    coreAssignments (Verdicts disputes).

(** ** Guarantees *)

Definition RotateSequence (sequence : list Z) (n : Z) : list Z :=
  (λ x, uint32 (x + n) `mod` TotalNumberOfCores) <$> sequence.

Definition coreIndices : list Z :=
  (λ i, uint32 (TotalNumberOfCores * i) / NumberOfValidators) <$> seqZ 0 NumberOfValidators.

Definition PermuteAssignments (eta : Hash) (timeslot : Z) : res st_error (list Z) :=
  let! shuffledSequence := map_err StJam (DeterministicShuffle HashData coreIndices eta) in
  let rotationAmount := uint32 (timeslot `mod` TimeslotsPerEpoch / ValidatorRotationPeriod) in
  Ok (RotateSequence shuffledSequence rotationAmount).

Definition isValidatorAssignedToCore (validatorIndex coreIndex : Z) (coreAssignments : list Z) : bool :=
  match coreAssignments !! Z.to_nat validatorIndex with
  | None => false
  | Some c => c =? coreIndex
  end.

Definition determineValidatorsAndDataForPermutation (guaranteeTimeslot currentTimeslot : Z)
    (entropyPool : EntropyPool) (currentValidators archivedValidators : ValidatorsData)
  : ValidatorsData * Hash * Z :=
  let currentRotation := currentTimeslot / ValidatorRotationPeriod in
  let guaranteeRotation := guaranteeTimeslot / ValidatorRotationPeriod in
  if guaranteeRotation =? currentRotation then
    (currentValidators, entropy entropyPool 2, currentTimeslot)
  else
    let timeslotForPermutation := uint32 (currentTimeslot - ValidatorRotationPeriod) in
    if currentTimeslot / TimeslotsPerEpoch =? timeslotForPermutation / TimeslotsPerEpoch
    then (currentValidators, entropy entropyPool 2, timeslotForPermutation)
    else (archivedValidators, entropy entropyPool 3, timeslotForPermutation).

(** The loop over the credentials of a guarantee: the reporters' keys. *)
Fixpoint verify_credentials (validators : ValidatorsData) (coreAssignments : list Z)
    (coreIndex : Z) (message : list Z) (credentials : list CredentialSignature)
    (reporters : gset (list Z)) : res st_error (gset (list Z)) :=
  match credentials with
  | [] => Ok reporters
  | credential :: credentials =>
      let index := cred_ValidatorIndex credential in
      if negb (isValidatorAssignedToCore index coreIndex coreAssignments) then Err ErrWrongAssignment
      else if uint16 (len validators) <=? index then Err (StErr "invalid validator index")
      else
        let! v := go_index validators index in
        let! v := deref v in
        let validatorKey := Ed25519 v in
        if negb (len validatorKey =? 32) then Err (StErr "invalid validator key size")
        else
          let! sigValid := edVerify ed25519_Verify validatorKey message (cred_Signature credential) in
          if negb sigValid then Err ErrBadSignature
          else verify_credentials validators coreAssignments coreIndex message credentials
                 ({[validatorKey]} ∪ reporters)
  end.

Definition verifyGuaranteeCredentials (guarantee : Guarantee) (validatorState : ValidatorState)
    (entropyPool : EntropyPool) (currentTimeslot : Z) : res st_error (gset (list Z)) :=
  let '(validators, eta, timeslotForPermutation) :=
    determineValidatorsAndDataForPermutation (guarantee_Timeslot guarantee) currentTimeslot
      entropyPool (CurrentValidators validatorState) (ArchivedValidators validatorState) in
  let! coreAssignments := PermuteAssignments eta timeslotForPermutation in
  let! reportBytes := Marshal_report (guarantee_WorkReport guarantee) in
  verify_credentials validators coreAssignments (CoreIndex (guarantee_WorkReport guarantee))
    (SignatureContextGuarantee ++ HashData reportBytes) (Credentials guarantee) ∅.

(** [(newTimeslot/R - 1) * R] on [uint32] *)
Definition previousRotationStart (newTimeslot : Z) : Z :=
  uint32 (uint32 (newTimeslot / ValidatorRotationPeriod - 1) * ValidatorRotationPeriod).

(** [CalculateNewCoreAssignments]: [newAssignments] starts as a copy of
    [intermediateAssignments], which the guards read. *)
Fixpoint assign_guarantees (guarantees : list Guarantee) (intermediateAssignments : CoreAssignments)
    (validatorState : ValidatorState) (newTimeslot : Z) (entropyPool : EntropyPool)
    (newAssignments : CoreAssignments) (reporters : gset (list Z))
  : res st_error (CoreAssignments * gset (list Z)) :=
  match guarantees with
  | [] => Ok (newAssignments, reporters)
  | guarantee :: guarantees =>
      let coreIndex := CoreIndex (guarantee_WorkReport guarantee) in
      if (guarantee_Timeslot guarantee <? previousRotationStart newTimeslot)
         || (newTimeslot <? guarantee_Timeslot guarantee)
      then Err ErrTimeslotOutOfRange
      else
        let! current := go_index intermediateAssignments coreIndex in
        if isAssignmentValid current newTimeslot then
          let! guaranteeReporters :=
            verifyGuaranteeCredentials guarantee validatorState entropyPool newTimeslot in
          let! newAssignments := go_update newAssignments coreIndex
            (Some (MkAssignment (Some (guarantee_WorkReport guarantee)) newTimeslot)) in
          assign_guarantees guarantees intermediateAssignments validatorState newTimeslot entropyPool
            newAssignments (guaranteeReporters ∪ reporters)
        else
          assign_guarantees guarantees intermediateAssignments validatorState newTimeslot entropyPool
            newAssignments reporters
  end.

Definition CalculateNewCoreAssignments (guarantees : list Guarantee)
    (intermediateAssignments : CoreAssignments) (validatorState : ValidatorState) (newTimeslot : Z)
    (entropyPool : EntropyPool) : res st_error (CoreAssignments * gset (list Z)) :=
  assign_guarantees guarantees intermediateAssignments validatorState newTimeslot entropyPool
    intermediateAssignments ∅.

Definition verifyGuaranteeAge (guarantee : Guarantee) (currentTimeslot : Z) : res st_error unit :=
  let guaranteeRotation := guarantee_Timeslot guarantee / ValidatorRotationPeriod in
  let currentRotation := currentTimeslot / ValidatorRotationPeriod in
  if currentTimeslot <? guarantee_Timeslot guarantee then Err (StErr "guarantee from future")
  else if uint32 (currentRotation - guaranteeRotation) <=? 1 then Ok tt
  else Err (StErr "report epoch before last").

Definition isGuaranteesSortedByCoreIndex (guarantees : list Guarantee) : bool :=
  neighbours (λ a b, CoreIndex (guarantee_WorkReport a) <? CoreIndex (guarantee_WorkReport b))
    guarantees.
End hashing.
