(* ===== verification/ReportsProps.v ===== *)
(** * Work reports on cores: lemmas *)
From S2P Require Export DisputesTheorems Shuffle Reports.

Lemma go_index_inv {E A} (l : list A) i a :
  (go_index l i : res E A) = Ok a → 0 ≤ i ∧ l !! Z.to_nat i = Some a.
Proof.
  unfold go_index. destruct (Z.ltb_spec i 0); [done|].
  destruct (l !! Z.to_nat i); [|done]. intros [= ->]. split; [lia|done].
Qed.

(** ** Availability *)

(** The number of assurances with the bit of a core. *)
Definition has_bit (coreIndex : Z) (a : Assurance) : Prop :=
  HasAssuranceForCore (E := st_error) a coreIndex = Ok true.
#[export] Instance has_bit_dec c a : Decision (has_bit c a).
Proof.
  unfold has_bit. destruct (HasAssuranceForCore a c) as [[]|e|]; [by left|right; done..].
Defined.
Definition assurances_for (coreIndex : Z) (assurances : list Assurance) : Z :=
  len (filter (has_bit coreIndex) assurances).

(** A bit field of the right size. *)
Definition bitfield_ok (a : Assurance) : Prop := length (Bitfield a) = 43%nat.

Lemma HasAssuranceForCore_total {E} a c : bitfield_ok a → 0 ≤ c < TotalNumberOfCores →
  ∃ b, (HasAssuranceForCore a c : res E bool) = Ok b.
Proof.
  unfold bitfield_ok, TotalNumberOfCores. intros Hl Hc. unfold HasAssuranceForCore.
  assert (0 ≤ c / 8 < 43) as Hi by (split; [apply Z.div_pos; lia|apply Z.div_lt_upper_bound; lia]).
  destruct (lookup_lt_is_Some_2 (Bitfield a) (Z.to_nat (c / 8))) as [x Hx]; [lia|].
  rewrite (go_index_lookup _ _ _ (proj1 Hi) Hx). by eexists.
Qed.

(** A core with assurances must be engaged and not timed out. *)
Definition engaged (slot : Z) (a : option Assignment) : Prop :=
  is_Some a ∧ isAssignmentStale a slot = false.

(** The error for an assured core that is not. *)
Definition refusal (a : option Assignment) : st_error :=
  match a with None => ErrCoreNotEngaged | Some _ => ErrReportTimeout end.

Lemma count_assurances_spec c a slot assurances n :
  0 ≤ c < TotalNumberOfCores → Forall bitfield_ok assurances →
  (assurances_for c assurances = 0 ∨ engaged slot a →
   count_assurances c a slot assurances n = Ok (n + assurances_for c assurances)) ∧
  (¬ (assurances_for c assurances = 0 ∨ engaged slot a) →
   count_assurances c a slot assurances n = Err (refusal a)).
Proof.
  intros Hc Hb. revert n. induction Hb as [|x xs Hx _ IH]; intros n.
  { unfold assurances_for. simpl. split; [intros _; by rewrite Z.add_0_r|]. intros []. by left. }
  destruct (HasAssuranceForCore_total (E := st_error) x c Hx Hc) as [b E]. cbn [count_assurances]. rewrite E.
  cbn [rbind]. unfold assurances_for in *. rewrite filter_cons.
  destruct (decide (has_bit c x)) as [Hd|Hd]; unfold has_bit in Hd; rewrite E in Hd.
  - injection Hd as ->. pose proof (len_nonneg (filter (has_bit c) xs)).
    assert (len (x :: filter (has_bit c) xs) = 1 + len (filter (has_bit c) xs)) as Hl
      by (unfold len; cbn [length]; lia).
    rewrite Hl. destruct a as [a|]; unfold engaged in *.
    + destruct (isAssignmentStale (Some a) slot) eqn:Est.
      * split; [intros [?|[_ ?]]; [lia|done]|]. done.
      * split; [|intros []; right; by eauto]. intros _.
        rewrite (proj1 (IH (n + 1))) by (right; by eauto). f_equal. lia.
    + split; [intros [?|[[? ?] _]]; [lia|done]|]. done.
  - destruct b; [done|]. apply IH.
Qed.

(** What the two loops do to a core. *)
Definition after_assurances (slot : Z) (assurances : list Assurance) (c : Z) (a : option Assignment)
  : option Assignment :=
  if AvailabilityThreshold <? assurances_for c assurances then None
  else if isAssignmentStale a slot then None else a.

Definition made_available (assurances : list Assurance) (c : Z) (a : option Assignment)
  : list (option WorkReport) :=
  if AvailabilityThreshold <? assurances_for c assurances
  then match a with Some a => [assigned_WorkReport a] | None => [] end else [].

Lemma availability_counts_spec c assignments slot assurances :
  0 ≤ c → c + len assignments ≤ TotalNumberOfCores → Forall bitfield_ok assurances →
  (∀ i a, assignments !! i = Some a →
     assurances_for (c + Z.of_nat i) assurances = 0 ∨ engaged slot a) →
  availability_counts c assignments slot assurances =
  Ok (imap (λ i _, assurances_for (c + Z.of_nat i) assurances) assignments).
Proof.
  revert c. induction assignments as [|a assignments IH]; intros c Hc Hl Hb He; [done|].
  cbn [availability_counts imap]. unfold len in Hl. cbn [length] in Hl.
  rewrite (proj1 (count_assurances_spec c a slot assurances 0 ltac:(lia) Hb))
    by (rewrite <- (Z.add_0_r c); by apply (He 0%nat)). cbn [rbind].
  rewrite IH; [|lia|unfold len; lia|done|].
  - cbn [rbind]. rewrite Z.add_0_r, Z.add_0_l. do 2 f_equal. apply imap_ext. intros i ? _. simpl.
    f_equal. lia.
  - intros i x Hx. replace (c + 1 + Z.of_nat i) with (c + Z.of_nat (S i)) by lia. by apply He.
Qed.

(** The first core that is assured and must not be decides the error. *)
Lemma availability_counts_checks c assignments slot assurances :
  0 ≤ c → c + len assignments ≤ TotalNumberOfCores → Forall bitfield_ok assurances →
  let checked n := ∀ i a, (i < n)%nat → assignments !! i = Some a →
    assurances_for (c + Z.of_nat i) assurances = 0 ∨ engaged slot a in
  match availability_counts c assignments slot assurances with
  | Ok _ => checked (length assignments)
  | Err e => ∃ i a, assignments !! i = Some a ∧
      ¬ (assurances_for (c + Z.of_nat i) assurances = 0 ∨ engaged slot a) ∧ e = refusal a ∧ checked i
  | RuntimePanic => False
  end.
Proof.
  revert c. induction assignments as [|a assignments IH]; intros c Hc Hl Hb; cbn [availability_counts].
  { intros i a Hi. simpl in Hi. lia. }
  unfold len in Hl. cbn [length] in Hl.
  destruct (count_assurances_spec c a slot assurances 0 ltac:(lia) Hb) as [H1 H2].
  destruct (decide (assurances_for c assurances = 0 ∨ engaged slot a)) as [Hd|Hd].
  2:{ rewrite H2 by done. cbn [rbind]. exists 0%nat, a. rewrite Z.add_0_r. split_and!; [done..|].
      intros i x Hi. lia. }
  rewrite H1 by done. cbn [rbind]. specialize (IH (c + 1) ltac:(lia) ltac:(unfold len; lia) Hb).
  assert (∀ n, (∀ i x, (i < n)%nat → assignments !! i = Some x →
      assurances_for (c + 1 + Z.of_nat i) assurances = 0 ∨ engaged slot x) →
    ∀ i x, (i < S n)%nat → (a :: assignments) !! i = Some x →
      assurances_for (c + Z.of_nat i) assurances = 0 ∨ engaged slot x) as Hs.
  { intros n Hn [|i] x Hi Hx; [injection Hx as <-; by rewrite Z.add_0_r|].
    replace (c + Z.of_nat (S i)) with (c + 1 + Z.of_nat i) by lia. apply Hn; [lia|done]. }
  destruct (availability_counts (c + 1) assignments slot assurances) as [counts|e|]; cbn [rbind]; [..|done].
  - apply Hs, IH.
  - destruct IH as (i & x & Hx & Hn & -> & Hall). exists (S i), x.
    replace (c + Z.of_nat (S i)) with (c + 1 + Z.of_nat i) by lia. split_and!; [done..|]. by apply Hs.
Qed.

Lemma availability_counts_Ok c assignments slot assurances counts :
  0 ≤ c → c + len assignments ≤ TotalNumberOfCores → Forall bitfield_ok assurances →
  availability_counts c assignments slot assurances = Ok counts →
  ∀ i a, assignments !! i = Some a →
    assurances_for (c + Z.of_nat i) assurances = 0 ∨ engaged slot a.
Proof.
  intros Hc Hl Hb H i a Ha. pose proof (availability_counts_checks c assignments slot assurances Hc Hl Hb) as Hs.
  rewrite H in Hs. apply (Hs i a); [|done]. by apply lookup_lt_Some in Ha.
Qed.

Lemma clear_available_spec c assignments slot assurances :
  (∀ i a, assignments !! i = Some a →
     assurances_for (c + Z.of_nat i) assurances = 0 ∨ engaged slot a) →
  clear_available assignments (imap (λ i _, assurances_for (c + Z.of_nat i) assurances) assignments)
    slot =
  Ok (imap (λ i a, after_assurances slot assurances (c + Z.of_nat i) a) assignments,
      mjoin (imap (λ i a, made_available assurances (c + Z.of_nat i) a) assignments)).
Proof.
  revert c. induction assignments as [|a assignments IH]; intros c He; [done|].
  cbn [imap clear_available]. rewrite Z.add_0_r.
  assert (∀ {B} (f : Z → option Assignment → B),
    imap ((λ i (x : option Assignment), f (c + Z.of_nat i) x) ∘ S) assignments =
    imap (λ i x, f (c + 1 + Z.of_nat i) x) assignments) as Hs.
  { intros B f. apply imap_ext. intros i x _. simpl. f_equal. lia. }
  rewrite (Hs _ (λ k _, assurances_for k assurances)), (Hs _ (after_assurances slot assurances)),
    (Hs _ (made_available assurances)).
  pose proof (He 0%nat a eq_refl) as Ha. rewrite Z.add_0_r in Ha.
  rewrite IH; [|intros i x Hx; replace (c + 1 + Z.of_nat i) with (c + Z.of_nat (S i)) by lia; by apply He].
  cbn [rbind mjoin list_join]. set (rest := imap (λ i x, after_assurances _ _ _ x) assignments).
  set (more := imap (λ i x, made_available _ _ x) assignments). unfold after_assurances, made_available.
  destruct (Z.ltb_spec AvailabilityThreshold (assurances_for c assurances)) as [Ht|Ht].
  - assert (engaged slot a) as [[x ->] _]
      by (destruct Ha; [change AvailabilityThreshold with 682 in Ht; lia|done]).
    simpl. done.
  - simpl. done.
Qed.

(** ** The shuffle *)

Lemma DeterministicShuffle_perm HashData s h :
  (∀ bs, length (HashData bs) = 32%nat ∧ Forall is_byte (HashData bs)) → len s < 2 ^ 32 →
  ∃ s', DeterministicShuffle HashData s h = Ok s' ∧ s' ≡ₚ s.
Proof.
  intros Hh Hlen. assert (0 ≤ len s) by (unfold len; lia).
  destruct (generateRandomNumbers_ok HashData Hh h (len s)) as (rs & Hg & Hl & Hf & _); [lia|].
  destruct (recursiveShuffle_n_perm s rs) as (s' & Hs & Hp); [done|unfold len in *; lia|done|].
  exists s'. unfold DeterministicShuffle. unfold uint32. rewrite wrapU_id by (unfold inU; lia). by rewrite Hg.
Qed.

(** ** Guarantees *)

Section guarantees.
Context (HashData : list Z → Hash) (Verify : list Z → list Z → list Z → bool).

(** A credential by a validator that is assigned to the core, with its key. *)
Definition credential_ok (validators : ValidatorsData) (cores : list Z) (core : Z) (message : list Z)
    (c : CredentialSignature) (key : list Z) : Prop :=
  cores !! Z.to_nat (cred_ValidatorIndex c) = Some core ∧
  ∃ v, validators !! Z.to_nat (cred_ValidatorIndex c) = Some (Some v) ∧ key = Ed25519 v ∧
    len key = 32 ∧ Verify key message (cred_Signature c) = true.

Lemma verify_credentials_Ok validators cores core message creds R R' :
  verify_credentials Verify validators cores core message creds R = Ok R' →
  ∃ keys, Forall2 (credential_ok validators cores core message) creds keys ∧
          R' = list_to_set keys ∪ R.
Proof.
  revert R. induction creds as [|c creds IH]; intros R H; cbn [verify_credentials] in H.
  { injection H as <-. exists []. split; [constructor|set_solver]. }
  unfold isValidatorAssignedToCore in H.
  destruct (cores !! Z.to_nat (cred_ValidatorIndex c)) as [core'|] eqn:Hc; [|done].
  destruct (Z.eqb_spec core' core) as [->|]; cbn [negb] in H; [|done].
  destruct (_ <=? cred_ValidatorIndex c); [done|].
  apply rbind_Ok_inv in H as (v & Hv & H). apply rbind_Ok_inv in H as (k & Hk & H).
  destruct v as [k'|]; [|done]. injection Hk as ->.
  destruct (Z.eqb_spec (len (Ed25519 k)) 32) as [Hl|]; cbn [negb] in H; [|done].
  unfold edVerify in H. rewrite (proj2 (Z.eqb_eq _ _) Hl) in H. cbn [rbind] in H.
  destruct (Verify (Ed25519 k) message (cred_Signature c)) eqn:Es; cbn [negb] in H; [|done].
  destruct (IH _ H) as (keys & H2 & ->). exists (Ed25519 k :: keys). split; [|set_solver].
  constructor; [|done]. split; [done|]. exists k. split_and!; try done.
  by apply go_index_inv in Hv as [_ Hv].
Qed.

(** The credentials of a guarantee, checked against the assignment of its time. *)
Definition guaranteed (vals : ValidatorState) (pool : EntropyPool) (slot : Z) (g : Guarantee)
    (keys : list (list Z)) : Prop :=
  ∃ validators eta t cores bytes,
    determineValidatorsAndDataForPermutation (guarantee_Timeslot g) slot pool (CurrentValidators vals)
      (ArchivedValidators vals) = (validators, eta, t) ∧
    PermuteAssignments HashData eta t = Ok cores ∧
    Marshal_report (guarantee_WorkReport g) = Ok bytes ∧
    Forall2 (credential_ok validators cores (CoreIndex (guarantee_WorkReport g))
               (SignatureContextGuarantee ++ HashData bytes)) (Credentials g) keys.

Lemma verifyGuaranteeCredentials_Ok g vals pool slot R :
  verifyGuaranteeCredentials HashData Verify g vals pool slot = Ok R →
  ∃ keys, guaranteed vals pool slot g keys ∧ R = list_to_set keys.
Proof.
  unfold verifyGuaranteeCredentials.
  destruct (determineValidatorsAndDataForPermutation _ _ _ _ _) as [[validators eta] t] eqn:Ed.
  intros H. apply rbind_Ok_inv in H as (cores & Hp & H). apply rbind_Ok_inv in H as (bytes & Hm & H).
  apply verify_credentials_Ok in H as (keys & Hk & ->). exists keys. split; [|set_solver].
  by exists validators, eta, t, cores, bytes.
Qed.

Definition core_of (g : Guarantee) : nat := Z.to_nat (CoreIndex (guarantee_WorkReport g)).

(** What accepting guarantees one after the other does. *)
Lemma assign_guarantees_Ok gs inter vals slot pool A R A' R' :
  length A = length inter →
  assign_guarantees HashData Verify gs inter vals slot pool A R = Ok (A', R') →
  length A' = length A ∧
  Forall (λ g, (core_of g < length inter)%nat ∧ previousRotationStart slot ≤ guarantee_Timeslot g ≤ slot) gs ∧
  (∀ c, c ∉ core_of <$> gs → A' !! c = A !! c) ∧
  (NoDup (core_of <$> gs) →
   Forall (λ g, ∃ a, inter !! core_of g = Some a ∧
     if isAssignmentValid a slot then
       A' !! core_of g = Some (Some (MkAssignment (Some (guarantee_WorkReport g)) slot)) ∧
       ∃ keys, guaranteed vals pool slot g keys ∧ ∀ k, k ∈ keys → k ∈ R'
     else A' !! core_of g = A !! core_of g) gs) ∧
  (∀ k, k ∈ R → k ∈ R') ∧
  (∀ k, k ∈ R' → k ∈ R ∨ ∃ g keys, g ∈ gs ∧ guaranteed vals pool slot g keys ∧ k ∈ keys).
Proof.
  revert A R. induction gs as [|g gs IH]; intros A R HlA H; cbn [assign_guarantees] in H.
  { injection H as <- <-. split_and!; try done; try (by intros; constructor). }
  destruct ((guarantee_Timeslot g <? _) || _) eqn:Ew; [done|].
  apply orb_false_elim in Ew as [Ew1%Z.ltb_ge Ew2%Z.ltb_ge].
  apply rbind_Ok_inv in H as (a & Ha & H). apply go_index_inv in Ha as [Hc Hinter].
  fold (core_of g) in Hinter.
  assert (core_of g < length inter)%nat as Hlt by (by eapply lookup_lt_Some).
  destruct (isAssignmentValid a slot) eqn:Ev.
  - apply rbind_Ok_inv in H as (R0 & HR0 & H). apply rbind_Ok_inv in H as (A0 & HA0 & H).
    unfold go_update in HA0. destruct (_ && _); [|done]. fold (core_of g) in HA0. simplify_eq.
    apply verifyGuaranteeCredentials_Ok in HR0 as (keys & Hg & ->).
    destruct (IH _ _ (eq_trans (length_insert _ _ _) HlA) H) as (Hl & Hw & Ho & Hn & HR & HR').
    rewrite length_insert in Hl. split_and!; [done|by constructor| | |set_solver|].
    + intros c. rewrite fmap_cons, not_elem_of_cons. intros [Hne Hni]. rewrite Ho by done.
      by apply list_lookup_insert_ne.
    + rewrite fmap_cons. intros [Hni Hnd]%NoDup_cons. constructor.
      * exists a. rewrite Ev. split; [done|]. split.
        -- rewrite Ho by done. apply list_lookup_insert_eq. lia.
        -- exists keys. split; [done|]. intros k Hk. apply HR. set_solver.
      * apply Hn in Hnd as Hall. clear Hn. apply Forall_forall. intros g' Hg'.
        rewrite Forall_forall in Hall. destruct (Hall g' Hg') as (a1 & Ha1 & Hif). exists a1.
        split; [done|]. destruct (isAssignmentValid a1 slot); [done|]. rewrite Hif.
        apply list_lookup_insert_ne. intros E. apply Hni. rewrite E. by apply list_elem_of_fmap_2.
    + intros k Hk. destruct (HR' k Hk) as [Hin|(g' & ks & Hg' & Hx & Hin)].
      * apply elem_of_union in Hin as [Hin|Hin]; [|by left]. right. exists g, keys.
        split_and!; [by constructor|done|set_solver].
      * right. exists g', ks. split_and!; [by constructor|done|done].
  - destruct (IH _ _ HlA H) as (Hl & Hw & Ho & Hn & HR & HR').
    split_and!; [done|by constructor| | |done|].
    + intros c. rewrite fmap_cons, not_elem_of_cons. intros [_ Hni]. by apply Ho.
    + rewrite fmap_cons. intros [Hni Hnd]%NoDup_cons. constructor; [|by apply Hn].
      exists a. rewrite Ev. split; [done|]. by apply Ho.
    + intros k Hk. destruct (HR' k Hk) as [Hin|(g' & ks & Hg' & Hx & Hin)]; [by left|].
      right. exists g', ks. split_and!; [by constructor|done|done].
Qed.
End guarantees.
