(* ===== verification/ReportsTheorems.v ===== *)
(** * Work reports on cores: theorems *)
From S2P Require Export ReportsProps.

(** ** Values for the witnesses *)

Definition core_report (core : Z) : WorkReport :=
  MkWorkReport (MkSpec (a_key 1) 0 (a_key 0) (a_key 0) 0)
    (MkContext (MkAnchor (a_key 0) (a_key 0) (a_key 0)) (MkLookupAnchor (a_key 0) 0) [])
    core (a_key 0) [] ∅ [].
Definition one_report : CoreAssignments :=
  Some (MkAssignment (Some (core_report 0)) 20) :: replicate 340 None.
(** Validator 5 assures core 0. *)
Definition an_assurance : Assurance := MkAssurance (a_key 9) (1 :: replicate 42 0) 5 [].
Definition a_block_header : Header :=
  MkHeader (a_key 9) ZeroHash ZeroHash 21 None None [] 0 (replicate 96 0) (replicate 96 0).

(** ** Assurances *)

(** Accepted assurances and what they do to the cores. *)
Lemma availability_spec assurances assignments slot assignments' removed :
  len assignments = TotalNumberOfCores → Forall bitfield_ok assurances →
  CalculateIntermediateCoreAssignmentsFromAvailability assurances assignments slot =
    Ok (assignments', removed) →
  (∀ i a, assignments !! i = Some a →
     assurances_for (Z.of_nat i) assurances = 0 ∨ is_Some a ∧ isAssignmentStale a slot = false) ∧
  (∀ i, assignments' !! i = after_assurances slot assurances (Z.of_nat i) <$> assignments !! i) ∧
  removed = mjoin (imap (λ i a, made_available assurances (Z.of_nat i) a) assignments).
Proof.
  intros Hl Hb. unfold CalculateIntermediateCoreAssignmentsFromAvailability.
  destruct (availability_counts 0 assignments slot assurances) as [counts| |] eqn:Ec; [|done..].
  cbn [rbind]. intros H.
  pose proof (availability_counts_Ok 0 assignments slot assurances counts ltac:(lia) ltac:(lia) Hb Ec)
    as He. setoid_rewrite Z.add_0_l in He.
  rewrite availability_counts_spec in Ec; [|lia|lia|done|setoid_rewrite Z.add_0_l; exact He].
  injection Ec as <-. rewrite (clear_available_spec 0) in H by (setoid_rewrite Z.add_0_l; exact He).
  injection H as <- <-. split_and!; [exact He| |done]. intros i.
  exact (list_lookup_imap _ assignments i).
Qed.

(** C19: which assurances are refused.  For a state of 341 cores and bit fields of 43
    bytes, [CalculateIntermediateCoreAssignmentsFromAvailability] never panics; it
    succeeds exactly if every core that some assurance names holds a report that has
    not timed out; otherwise it returns, for the first core where this fails,
    [ErrCoreNotEngaged] if the core is free and [ErrReportTimeout] if it is not. *)
Theorem assurances_refused assurances assignments slot :
  len assignments = TotalNumberOfCores → Forall bitfield_ok assurances →
  let assured i := ∃ x, x ∈ assurances ∧ has_bit (Z.of_nat i) x in
  match CalculateIntermediateCoreAssignmentsFromAvailability assurances assignments slot with
  | Ok _ => ∀ i a, assignments !! i = Some a → assured i → engaged slot a
  | Err e => ∃ i a, assignments !! i = Some a ∧ assured i ∧ ¬ engaged slot a ∧
      e = match a with None => ErrCoreNotEngaged | Some _ => ErrReportTimeout end ∧
      ∀ j b, (j < i)%nat → assignments !! j = Some b → assured j → engaged slot b
  | RuntimePanic => False
  end.
Proof.
  intros Hl Hb assured.
  assert (∀ i, assurances_for (0 + Z.of_nat i) assurances = 0 ↔ ¬ assured i) as Hz.
  { intros i. rewrite Z.add_0_l. unfold assurances_for, len, assured. split.
    - intros H (x & Hx & Hi). assert (x ∈ filter (has_bit (Z.of_nat i)) assurances) as Hin
        by (by apply list_elem_of_filter).
      destruct (filter _ assurances); [by apply not_elem_of_nil in Hin|simpl in H; lia].
    - intros H. rewrite filter_none; [done|]. apply Forall_forall. intros x Hx Hi. apply H. eauto. }
  assert (∀ i, Decision (assured i)) as Hdec.
  { intros i. destruct (decide (assurances_for (0 + Z.of_nat i) assurances = 0)) as [E|E];
      [right; by apply Hz|left]. destruct (decide (Exists (has_bit (Z.of_nat i)) assurances)) as [H|H].
    - apply Exists_exists in H as (x & ? & ?). by exists x.
    - exfalso. apply E, Hz. intros (x & Hx & Hi). apply H, Exists_exists. by exists x. }
  unfold CalculateIntermediateCoreAssignmentsFromAvailability.
  pose proof (availability_counts_checks 0 assignments slot assurances ltac:(lia) ltac:(lia) Hb) as Hs.
  cbv zeta in Hs. destruct (availability_counts 0 assignments slot assurances) as [counts|e|] eqn:Ec;
    cbn [rbind]; [| |done].
  - assert (∀ i a, assignments !! i = Some a →
      assurances_for (0 + Z.of_nat i) assurances = 0 ∨ engaged slot a) as He.
    { intros i a Ha. apply (Hs i a); [by apply lookup_lt_Some in Ha|done]. }
    rewrite availability_counts_spec in Ec by (done || lia). injection Ec as <-.
    rewrite (clear_available_spec 0) by done. intros i a Ha Hi. destruct (He i a Ha) as [H%Hz|]; done.
  - destruct Hs as (i & a & Ha & Hn & -> & Hall). exists i, a.
    split_and!; [done| | |by destruct a|].
    + destruct (Hdec i) as [|H]; [done|]. exfalso. apply Hn. left. by apply Hz.
    + intros H. apply Hn. by right.
    + intros j b Hj Hb' Hi. destruct (Hall j b Hj Hb') as [H%Hz|]; done.
Qed.

Lemma assurances_refused_witness :
  CalculateIntermediateCoreAssignmentsFromAvailability [an_assurance] (replicate 341 None) 21 =
    Err ErrCoreNotEngaged ∧
  ∃ i, (i < 341)%nat ∧ ∃ x, x ∈ [an_assurance] ∧ has_bit (Z.of_nat i) x.
Proof.
  pose proof (assurances_refused [an_assurance] (replicate 341 None) 21 eq_refl ltac:(by repeat constructor))
    as H.
  assert (CalculateIntermediateCoreAssignmentsFromAvailability [an_assurance] (replicate 341 None) 21 =
    Err ErrCoreNotEngaged) as E by (vm_compute; reflexivity).
  split; [exact E|]. rewrite E in H. destruct H as (i & a & Ha & Hi & _). exists i.
  split; [|exact Hi]. apply lookup_lt_Some in Ha. by rewrite length_replicate in Ha.
Defined.

(** A block's assurances, when accepted: only cores with a report that has
    not timed out were assured; a core is freed exactly if more than 682 of the
    assurances have its bit or its report has timed out; the reports that
    became available are those of the cores over the threshold, in core order. *)
Theorem assurances_availability assurances assignments slot assignments' removed :
  len assignments = TotalNumberOfCores → Forall bitfield_ok assurances →
  CalculateIntermediateCoreAssignmentsFromAvailability assurances assignments slot =
    Ok (assignments', removed) →
  (∀ i a, assignments !! i = Some a →
     assurances_for (Z.of_nat i) assurances = 0 ∨ is_Some a ∧ isAssignmentStale a slot = false) ∧
  (∀ i, assignments' !! i = after_assurances slot assurances (Z.of_nat i) <$> assignments !! i) ∧
  removed = mjoin (imap (λ i a, made_available assurances (Z.of_nat i) a) assignments).
Proof. apply availability_spec. Qed.

Lemma assurances_availability_witness :
  ∃ r, CalculateIntermediateCoreAssignmentsFromAvailability [an_assurance] one_report 21 = Ok r ∧
       r.2 = mjoin (imap (λ i a, made_available [an_assurance] (Z.of_nat i) a) one_report).
Proof.
  eexists (_, _). split; [vm_compute; reflexivity|].
  refine (proj2 (proj2 (assurances_availability [an_assurance] one_report 21 _ _ _ _ _)));
    [done|by repeat constructor|vm_compute; reflexivity].
Defined.

(** one validator is enough to make a report available: the order of
    assurances is checked with [slices.IsSortedFunc], which lets neighbours be
    equal, so 683 copies of one valid assurance are accepted and count as the
    assurances of 683 validators, where equation 126 asks for strictly increasing
    indices. *)
Theorem repeated_assurance_reaches_threshold HashData Verify validators assignments header a
    core w t :
  len assignments = TotalNumberOfCores → bitfield_ok a →
  validateAssurance HashData Verify validators header a = Ok tt →
  assignments !! core = Some (Some (MkAssignment (Some w) t)) →
  has_bit (Z.of_nat core) a →
  (∀ i x, assignments !! i = Some x → has_bit (Z.of_nat i) a → engaged (TimeSlotIndex header) x) →
  ∃ assignments' removed,
    CalculateIntermediateCoreFromAssurances HashData Verify validators assignments header
      (replicate 683 a) = Ok (assignments', removed) ∧
    assignments' !! core = Some None ∧ Some w ∈ removed.
Proof.
  intros Hl Hb Hv Hcore Hbit Heng. unfold CalculateIntermediateCoreFromAssurances.
  assert (validateAssurancesSignature HashData Verify validators header (replicate 683 a) = Ok tt)
    as -> by (by apply each_Ok, Forall_replicate). cbn [rbind].
  assert (∀ n, assuranceIsOrderedByValidatorIndex (replicate n a) = true) as Ho.
  { unfold assuranceIsOrderedByValidatorIndex. induction n as [|[|n] IH]; [done..|].
    cbn [replicate neighbours] in *. by rewrite Z.leb_refl. }
  rewrite Ho. cbn [negb]. unfold CalculateIntermediateCoreAssignmentsFromAvailability.
  assert (∀ c, assurances_for c (replicate 683 a) = if decide (has_bit c a) then 683 else 0) as Hn.
  { intros c. unfold assurances_for, len. case_decide.
    - assert (filter (has_bit c) (replicate 683 a) = replicate 683 a) as ->; [|done].
      apply filter_all. by apply Forall_replicate.
    - assert (filter (has_bit c) (replicate 683 a) = []) as ->; [|done].
      apply filter_none. by apply Forall_replicate. }
  assert (∀ i x, assignments !! i = Some x →
    assurances_for (0 + Z.of_nat i) (replicate 683 a) = 0 ∨ engaged (TimeSlotIndex header) x) as He.
  { intros i x Hx. rewrite Z.add_0_l, Hn. case_decide; [right; by eapply Heng|by left]. }
  rewrite availability_counts_spec; [|lia|lia|by apply Forall_replicate|done]. cbn [rbind].
  rewrite (clear_available_spec 0) by done. eexists _, _. split; [reflexivity|].
  split.
  - etrans; [apply list_lookup_imap|]. rewrite Hcore. simpl. unfold after_assurances. rewrite Hn, decide_True by done. done.
  - apply list_elem_of_join. eexists. split; [|apply list_elem_of_lookup; exists core;
      etrans; [apply list_lookup_imap|]; rewrite Hcore; reflexivity].
    simpl. unfold made_available. rewrite Hn, decide_True by done. by constructor.
Qed.

Lemma repeated_assurance_reaches_threshold_witness :
  ∃ assignments' removed,
    CalculateIntermediateCoreFromAssurances (λ _, []) accept_all some_validators one_report
      a_block_header (replicate 683 an_assurance) = Ok (assignments', removed) ∧
    assignments' !! 0%nat = Some None ∧ Some (core_report 0) ∈ removed.
Proof.
  apply (repeated_assurance_reaches_threshold (λ _, []) accept_all some_validators one_report
    a_block_header an_assurance 0%nat (core_report 0) 20);
    [done|done|vm_compute; reflexivity|done|vm_compute; reflexivity|].
  intros i x Hx Hi. destruct i as [|i].
  - injection Hx as <-. split; [by eexists|done].
  - exfalso. assert (S i < 341)%nat as Hlt by (by apply lookup_lt_Some in Hx).
    assert (Forall (λ j, ¬ has_bit (Z.of_nat j) an_assurance) (seq 1 340)) as Hf
      by (apply (bool_decide_unpack _); vm_compute; exact I).
    rewrite Forall_forall in Hf. apply (Hf (S i)); [apply elem_of_seq; lia|done].
Defined.

(** ** Validators on cores *)

Lemma coreIndices_counts :
  Forall (λ c, length (filter (λ x, x = c) coreIndices) = 3%nat) (seqZ 0 TotalNumberOfCores) ∧
  Forall (λ x, 0 ≤ x < TotalNumberOfCores) coreIndices.
Proof. split; apply (bool_decide_unpack _); vm_compute; exact I. Qed.

(** The validators the rotation sends to core [c] come from one core. *)
Lemma RotateSequence_count l n c :
  Forall (λ x, 0 ≤ x < TotalNumberOfCores) l → 0 ≤ n < 2 ^ 16 → 0 ≤ c < TotalNumberOfCores →
  length (filter (λ x, x = c) (RotateSequence l n)) =
  length (filter (λ x, x = (c - n) `mod` TotalNumberOfCores) l).
Proof.
  intros Hl Hn Hc. unfold RotateSequence. induction Hl as [|x l Hx _ IH]; [done|].
  rewrite fmap_cons, !filter_cons.
  assert (uint32 (x + n) = x + n) as -> by (apply wrapU_id; unfold inU, TotalNumberOfCores in *; lia).
  assert ((x + n) `mod` TotalNumberOfCores = c ↔ x = (c - n) `mod` TotalNumberOfCores) as Hiff.
  { split; intros E.
    - rewrite <- E, Zminus_mod_idemp_l, Z.add_simpl_r, Z.mod_small; lia.
    - rewrite E, Zplus_mod_idemp_l, Z.sub_add, Z.mod_small; lia. }
  destruct (decide (x = _)) as [Ex|Ex]; [rewrite decide_True by tauto|rewrite decide_False by tauto];
    simpl; by rewrite IH.
Qed.

(** [PermuteAssignments] never fails and assigns exactly three of the
    1023 validators to each of the 341 cores, for every entropy and timeslot. *)
Theorem permute_assignments HashData eta timeslot :
  (∀ bs, length (HashData bs) = 32%nat ∧ Forall is_byte (HashData bs)) → 0 ≤ timeslot →
  ∃ cores, PermuteAssignments HashData eta timeslot = Ok cores ∧
    len cores = NumberOfValidators ∧
    Forall (λ c, 0 ≤ c < TotalNumberOfCores) cores ∧
    ∀ c, 0 ≤ c < TotalNumberOfCores → length (filter (λ x, x = c) cores) = 3%nat.
Proof.
  intros Hh Ht. unfold PermuteAssignments.
  destruct coreIndices_counts as [Hcount Hrange].
  destruct (DeterministicShuffle_perm HashData coreIndices eta Hh) as (s & -> & Hs); [done|].
  cbn [map_err rbind]. eexists. split; [reflexivity|].
  set (n := uint32 _). assert (0 ≤ n < 2 ^ 16) as Hn.
  { pose proof (Z.mod_pos_bound timeslot TimeslotsPerEpoch eq_refl) as Hm.
    assert (0 ≤ timeslot `mod` TimeslotsPerEpoch / ValidatorRotationPeriod < 60).
    { unfold TimeslotsPerEpoch, ValidatorRotationPeriod in *.
      split; [apply Z.div_pos; lia|apply Z.div_lt_upper_bound; lia]. }
    unfold n, uint32. rewrite wrapU_id by (unfold inU; lia). lia. }
  split_and!.
  - unfold len, RotateSequence. rewrite length_fmap, Hs. done.
  - apply Forall_fmap, Forall_forall. intros x _. by apply Z.mod_pos_bound.
  - intros c Hc. rewrite RotateSequence_count; [|by rewrite Hs|done|done]. rewrite Hs.
    rewrite Forall_forall in Hcount. apply Hcount, elem_of_seqZ.
    pose proof (Z.mod_pos_bound (c - n) TotalNumberOfCores eq_refl). lia.
Qed.

Lemma permute_assignments_witness :
  ∃ cores, PermuteAssignments sum_hash ZeroHash 25 = Ok cores ∧ len cores = 1023.
Proof.
  destruct (permute_assignments sum_hash ZeroHash 25) as (cores & E & Hl & _);
    [|lia|exists cores; split; [exact E|exact Hl]].
  intros bs. split; [reflexivity|]. unfold sum_hash. constructor; [apply Z.mod_pos_bound; lia|].
  by apply Forall_replicate.
Defined.

(** ** Guarantees *)

(** the window of guarantee slots.  From slot 10 on a guarantee is
    accepted by the range check iff its slot is in the block's rotation or the one
    before and not in the future, as equation 11.26 asks; in the first ten slots
    the subtraction wraps around, and every guarantee fails with
    [ErrTimeslotOutOfRange]. *)
Theorem guarantee_window HashData Verify guarantee rest assignments vals slot pool :
  0 ≤ slot < 2 ^ 32 → 0 ≤ guarantee_Timeslot guarantee ≤ slot →
  let outcome := CalculateNewCoreAssignments HashData Verify (guarantee :: rest) assignments vals slot
                   pool in
  (slot < ValidatorRotationPeriod → outcome = Err ErrTimeslotOutOfRange) ∧
  (ValidatorRotationPeriod ≤ slot →
   (guarantee_Timeslot guarantee < ValidatorRotationPeriod * (slot / ValidatorRotationPeriod - 1) ↔
    (guarantee_Timeslot guarantee <? previousRotationStart slot) = true) ∧
   (guarantee_Timeslot guarantee < ValidatorRotationPeriod * (slot / ValidatorRotationPeriod - 1) →
    outcome = Err ErrTimeslotOutOfRange)).
Proof.
  intros Hs Hg outcome. unfold outcome, CalculateNewCoreAssignments. cbn [assign_guarantees].
  unfold ValidatorRotationPeriod. split.
  - intros Hlt.
    assert (previousRotationStart slot = 2 ^ 32 - 10) as ->.
    { unfold previousRotationStart, ValidatorRotationPeriod. rewrite Z.div_small by lia. reflexivity. }
    by rewrite (proj2 (Z.ltb_lt _ _)) by lia.
  - intros Hle.
    assert (previousRotationStart slot = 10 * (slot / 10 - 1)) as Hp.
    { unfold previousRotationStart, ValidatorRotationPeriod.
      assert (1 ≤ slot / 10) by (apply Z.div_le_lower_bound; lia).
      assert (slot / 10 * 10 ≤ slot) by (rewrite Z.mul_comm; by apply Z.mul_div_le).
      unfold uint32. rewrite (wrapU_id _ (slot / 10 - 1)), wrapU_id by (unfold inU; lia). lia. }
    rewrite Hp. split; [by rewrite Z.ltb_lt|]. intros Hlt. by rewrite (proj2 (Z.ltb_lt _ _)).
Qed.

Lemma guarantee_window_witness :
  CalculateNewCoreAssignments (λ _, []) accept_all [MkGuarantee (core_report 3) 8 []] one_report
    validator_sets 9 [] = Err ErrTimeslotOutOfRange.
Proof.
  refine (proj1 (guarantee_window (λ _, []) accept_all (MkGuarantee (core_report 3) 8 []) []
    one_report validator_sets 9 [] _ _) _); simpl; unfold ValidatorRotationPeriod; lia.
Defined.

(** C31: the guarantees of a block, when accepted and for different cores: every
    one is in the window; one for a free or timed-out core puts its report there
    with the block's slot, and all its credentials are by validators that the
    permutation of the guarantee's rotation assigned to that core, with valid
    signatures of the report's hash; a core that is still engaged keeps its
    report, and so does every other core.  The reporters are the keys of these
    credentials. *)
Theorem core_assignments_guaranteed HashData Verify gs assignments vals slot pool assignments' reporters :
  CalculateNewCoreAssignments HashData Verify gs assignments vals slot pool =
    Ok (assignments', reporters) →
  NoDup (core_of <$> gs) →
  length assignments' = length assignments ∧
  (∀ c, c ∉ core_of <$> gs → assignments' !! c = assignments !! c) ∧
  Forall (λ g,
    previousRotationStart slot ≤ guarantee_Timeslot g ≤ slot ∧
    ∃ a, assignments !! core_of g = Some a ∧
      if isAssignmentValid a slot then
        assignments' !! core_of g = Some (Some (MkAssignment (Some (guarantee_WorkReport g)) slot)) ∧
        ∃ keys, guaranteed HashData Verify vals pool slot g keys ∧ ∀ k, k ∈ keys → k ∈ reporters
      else assignments' !! core_of g = assignments !! core_of g) gs ∧
  (∀ k, k ∈ reporters → ∃ g keys, g ∈ gs ∧ guaranteed HashData Verify vals pool slot g keys ∧ k ∈ keys).
Proof.
  unfold CalculateNewCoreAssignments. intros H Hnd.
  destruct (assign_guarantees_Ok HashData Verify gs _ _ _ _ _ _ _ _ eq_refl H)
    as (Hl & Hw & Ho & Hn & _ & HR). specialize (Hn Hnd).
  split_and!; [done|done| |].
  - apply Forall_forall. intros g Hg. rewrite Forall_forall in Hw, Hn.
    split; [by apply Hw|by apply Hn].
  - intros k Hk. destruct (HR k Hk) as [Hx|?]; [set_solver|done].
Qed.

Definition a_guarantee : Guarantee := MkGuarantee (core_report 3) 24 [MkCredential 920 []].

Lemma core_assignments_guaranteed_witness :
  ∃ assignments' reporters,
    CalculateNewCoreAssignments sum_hash accept_all [a_guarantee] one_report validator_sets 25
      (replicate 4 (a_key 3)) = Ok (assignments', reporters) ∧
    length assignments' = 341%nat.
Proof.
  eexists _, _. split; [vm_compute; reflexivity|].
  refine (proj1 (core_assignments_guaranteed sum_hash accept_all [a_guarantee] one_report validator_sets
    25 (replicate 4 (a_key 3)) _ _ _ _)); [vm_compute; reflexivity|by apply NoDup_singleton].
Defined.

(** ** Report hashes *)

(** a verdict that does not find a report good frees the cores whose
    report has the verdict's hash, and no other; but the hash compared is that of
    the encoding of a pointer, which starts with a marker byte, while guarantors
    sign the hash of the encoding of the report itself: the two differ by that
    byte. *)
Theorem disputed_cores_cleared HashData d assignments i a :
  assignments !! i = Some a →
  CalculateIntermediateCoreAssignmentsFromExtrinsics HashData d assignments !! i =
    Some (match a with
          | None => None
          | Some x =>
              match assignment_hash HashData x with
              | Ok h => if bool_decide (h ∈ verdict_ReportHash <$>
                              filter (λ v, votes v < ValidatorsSuperMajority) (Verdicts d))
                        then None else Some x
              | _ => Some x
              end
          end) ∧
  ∀ w bytes, Marshal_report w = Ok bytes → Hash_report HashData w = Ok (HashData (1 :: bytes)).
Proof.
  intros Hi. split.
  - unfold CalculateIntermediateCoreAssignmentsFromExtrinsics. revert assignments a Hi.
    induction (Verdicts d) as [|v vs IH]; intros assignments a Hi; cbn [foldl].
    { rewrite Hi. destruct a as [x|]; [|done]. by destruct (assignment_hash HashData x). }
    fold (votes v). rewrite filter_cons.
    destruct (Z.ltb_spec (votes v) ValidatorsSuperMajority) as [Hv|Hv].
    + rewrite (decide_True (P := votes v < ValidatorsSuperMajority)) by done.
      rewrite (IH _ (clear_disputed HashData (verdict_ReportHash v) a)); [|etrans; [apply list_lookup_fmap|];
        exact (f_equal (fmap (M := option) (clear_disputed HashData (verdict_ReportHash v))) Hi)].
      rewrite fmap_cons. destruct a as [x|]; [|done]. unfold clear_disputed.
      destruct (assignment_hash HashData x) as [h| |] eqn:E; rewrite ?E; [|done..].
      case_bool_decide as Hh.
      * by rewrite bool_decide_true by (subst; by constructor).
      * rewrite E. f_equal. rewrite (bool_decide_ext _ (h ∈ verdict_ReportHash v :: (verdict_ReportHash <$>
          filter (λ v, votes v < ValidatorsSuperMajority) vs))); [done|set_solver].
    + rewrite (decide_False (P := votes v < ValidatorsSuperMajority)) by lia. by apply IH.
  - intros w bytes. unfold Marshal_report, Hash_report, Encode_report, Marshal.
    destruct (marshal report_type (report_value w)) as [bs| |] eqn:E; [|done..]. intros [= ->].
    change (marshal (TPtr report_type) (VPtr (report_value w)))
      with (let! b := marshal report_type (report_value w) in Ok (writePointerMarker false ++ b)).
    by rewrite E.
Qed.

Lemma disputed_cores_cleared_witness :
  CalculateIntermediateCoreAssignmentsFromExtrinsics (λ _, a_key 3) bad_disputes one_report !! 0%nat
  = Some None.
Proof.
  etrans; [refine (proj1 (disputed_cores_cleared (λ _, a_key 3) bad_disputes one_report 0%nat _ _));
           reflexivity|vm_compute; reflexivity].
Defined.
