(* ===== verification/Guarantees.v ===== *)
(** * The guarantees of a block

    The chain state ([internal/state/state.go]) and [ValidateExtrinsicGuarantees]
    of [internal/statetransition], with the search for a header in the store
    ([internal/store/chain.go], [FindHeader]). *)
From S2P Require Export Reports Accumulation.

(** ** The chain state *)

(** [validator.ValidatorStatistics] *)
Record ValidatorStatistics : Type := MkStatistics {
  NumOfBlocks : Z;
  NumOfTickets : Z;
  NumOfPreimages : Z;
  NumOfBytesAllPreimages : Z;
  NumOfGuaranteedReports : Z;
  NumOfAvailabilityAssurances : Z;
}.

Record State : Type := MkState {
  st_Services : ServiceState;
  st_PrivilegedServices : PrivilegedServices;
  st_ValidatorState : Validators;
  st_EntropyPool : EntropyPool;
  st_CoreAuthorizersPool : list (list Hash);
  st_PendingAuthorizersQueues : list (list Hash);
  st_CoreAssignments : CoreAssignments;
  st_RecentBlocks : list BlockState;
  st_TimeslotIndex : Z;
  st_PastJudgements : Judgements;
  st_ValidatorStatistics : list ValidatorStatistics * list ValidatorStatistics;
  st_AccumulationQueue : list (list QueuedReport);
  st_AccumulationHistory : list (gset Hash);
}.

(** ** The store *)

(** What iterating over the stored headers gives: an error at once, or one value
    or error per entry. *)
Definition ChainHeaders : Type := res st_error (list (res st_error Header)).

Definition zeroHeader : Header :=
  MkHeader ZeroHash ZeroHash ZeroHash 0 None None [] 0 (replicate 96 0) (replicate 96 0).

Fixpoint find_header (fn : Header → bool) (entries : list (res st_error Header))
  : res st_error Header :=
  match entries with
  | [] => Ok zeroHeader
  | e :: entries => let! header := e in if fn header then Ok header else find_header fn entries
  end.
Definition FindHeader (fn : Header → bool) (chain : ChainHeaders) : res st_error Header :=
  let! entries := chain in find_header fn entries.

(** ** Validation *)

(** The loop over the recent blocks: a later block's entry wins. *)
Definition recentBlockPrerequisites (blocks : list BlockState) : gmap Hash Hash :=
  foldl (λ m b, WorkReportHashes b ∪ m) ∅ blocks.

(** The first loop: no package twice, none of a recent block. *)
Fixpoint check_duplicates (guarantees : list Guarantee) (seenPackages pastWorkPackages : gset Hash)
  : res st_error unit :=
  match guarantees with
  | [] => Ok tt
  | guarantee :: guarantees =>
      let hash := package_hash (guarantee_WorkReport guarantee) in
      if bool_decide (hash ∈ seenPackages) then Err (StErr "duplicate package")
      else if bool_decide (hash ∈ pastWorkPackages) then Err (StErr "duplicate package")
      else check_duplicates guarantees ({[hash]} ∪ seenPackages) pastWorkPackages
  end.

(** The second loop. *)
Definition check_guarantee (header : Header) (st : State) (currentAssignment : CoreAssignments)
    (newTimeslot : Z) (guarantee : Guarantee) : res st_error unit :=
  let w := guarantee_WorkReport guarantee in
  let! _ := guard_not (TimeSlotIndex header <? guarantee_Timeslot guarantee)
              (StErr "future report slot") in
  let! _ := each (λ credential,
    guard_not (len (CurrentValidators (keys_of (st_ValidatorState st)))
               <=? cred_ValidatorIndex credential) (StErr "bad validator index"))
    (Credentials guarantee) in
  let! _ := each (λ workResult,
    match st_Services st !! ServiceId workResult with
    | None => Err (StErr "bad service id")
    | Some account =>
        guard_not (negb (bool_decide (ServiceHashCode workResult = CodeHash account)))
          (StErr "bad code hash")
    end) (WorkResults w) in
  let! _ := guard_not (len (st_CoreAuthorizersPool st) <=? CoreIndex w) (StErr "bad core index") in
  let! _ := guard_not (negb (OutputSizeIsValid w)) (StErr "work report too big") in
  let! pool := go_index (st_CoreAuthorizersPool st) (CoreIndex w) in
  let! _ := guard_not (negb (bool_decide (AuthorizerHash w ∈ pool))) (StErr "core unauthorized") in
  let! a := go_index currentAssignment (CoreIndex w) in
  guard_not (negb (isAssignmentValid a newTimeslot)) (StErr "core engaged").

Section validate.
Context (HashData KeccakData Sum256 : list Z → Hash).

Definition generateRefinementContextID (context : RefinementContext) : res st_error Hash :=
  let! serialized := map_err StJam (Marshal context_type (context_value context)) in
  Ok (Sum256 serialized).

Definition computeWorkReportHash (w : WorkReport) : res st_error Hash :=
  let! serialized := Marshal_report w in Ok (Sum256 serialized).

(** What the third loop collects. *)
Record Gathered : Type := MkGathered {
  contexts : gset Hash;
  extrinsicWorkPackages : gmap Hash Hash;
  prerequisitePackageHashes : gset Hash;
  pastWorkPackages : gset Hash;
}.

(** Whether the queue holds the report, compared by hash entry by entry. *)
Fixpoint queue_holds (queue : list QueuedReport) (w : WorkReport) : res st_error bool :=
  match queue with
  | [] => Ok false
  | wd :: queue =>
      let! wdHash := computeWorkReportHash (queued_WorkReport wd) in
      let! currentGuaranteeHash := computeWorkReportHash w in
      let! rest := queue_holds queue w in
      Ok (bool_decide (wdHash = currentGuaranteeHash) || rest)
  end.

(** The prerequisites of a report that is in the queue count as past. *)
Fixpoint queued_prerequisites (queue : list QueuedReport) (w : WorkReport) (prereqs : list Hash)
    (past : gset Hash) : res st_error (gset Hash) :=
  match prereqs with
  | [] => Ok past
  | p :: prereqs =>
      let! held := queue_holds queue w in
      queued_prerequisites queue w prereqs (if held then {[p]} ∪ past else past)
  end.

(** The prerequisites of the reports on the cores. *)
Definition assigned_prerequisites (assignments : CoreAssignments) : gset Hash :=
  list_to_set (ca ← assignments;
    match ca with
    | Some a => match assigned_WorkReport a with
                | Some w => PrerequisiteWorkPackage (RefContext w)
                | None => []
                end
    | None => []
    end).

(** Gas of the results: each at least its service's minimum; the sum. *)
Fixpoint results_gas (services : ServiceState) (results : list WorkResult) (totalGas : Z)
  : res st_error Z :=
  match results with
  | [] => Ok totalGas
  | r :: results =>
      if GasPrioritizationRatio r <?
         GasLimitForAccumulator (default zeroAccount (services !! ServiceId r))
      then Err (StErr "service item gas too low")
      else results_gas services results (uint64 (totalGas + GasPrioritizationRatio r))
  end.

Definition gather_guarantee (st : State) (guarantee : Guarantee) (g : Gathered)
  : res st_error Gathered :=
  let w := guarantee_WorkReport guarantee in
  let context := RefContext w in
  let! contextID := generateRefinementContextID context in
  let! totalGas := results_gas (st_Services st) (WorkResults w) 0 in
  if MaxAllocatedGasAccumulation <? totalGas then Err (StErr "work report gas too high")
  else if WorkReportMaxSumOfDependencies <?
          len (PrerequisiteWorkPackage context) + map_len (SegmentRootLookup w)
  then Err (StErr "too many dependencies")
  else
    let! past := queued_prerequisites (mjoin (st_AccumulationQueue st)) w
                   (PrerequisiteWorkPackage context) (pastWorkPackages g) in
    Ok (MkGathered ({[contextID]} ∪ contexts g)
          (<[package_hash w := SegmentRoot (Specification w)]> (extrinsicWorkPackages g))
          (list_to_set (PrerequisiteWorkPackage context)
             ∪ (dom (SegmentRootLookup w) ∪ prerequisitePackageHashes g))
          (assigned_prerequisites (st_CoreAssignments st) ∪ past)).

Fixpoint gather_guarantees (st : State) (guarantees : list Guarantee) (g : Gathered)
  : res st_error Gathered :=
  match guarantees with
  | [] => Ok g
  | guarantee :: guarantees =>
      let! g := gather_guarantee st guarantee g in gather_guarantees st guarantees g
  end.

(** [anchorBlockInRecentBlocks]: nil when found, otherwise the error. *)
Fixpoint anchorBlockInRecentBlocks (context : RefinementContext) (blocks : list BlockState)
  : res st_error unit :=
  match blocks with
  | [] => Err (StErr "anchor not recent")
  | y :: blocks =>
      if negb (bool_decide (anchor_HeaderHash (Anchor context) = block_HeaderHash y))
      then anchorBlockInRecentBlocks context blocks
      else if negb (bool_decide (PosteriorStateRoot (Anchor context) = StateRoot y))
      then Err (StErr "bad state root")
      else
        match SuperPeak KeccakData (S (length (AccumulationResultMMR y))) (AccumulationResultMMR y) with
        | Some (Ok beefyRoot) =>
            guard_not (negb (bool_decide (PosteriorBeefyRoot (Anchor context) = beefyRoot)))
              (StErr "bad beefy mmr root")
        | _ => RuntimePanic
        end
  end.

(** The predicate given to [FindHeader]. *)
Definition is_lookup_anchor (context : RefinementContext) (ancestor : Header) : bool :=
  match Hash_header HashData ancestor with
  | Ok ancestorHash =>
      (TimeSlotIndex ancestor =? lookup_Timeslot (LookupAnchor context))
      && bool_decide (ancestorHash = lookup_HeaderHash (LookupAnchor context))
  | _ => false
  end.

(** The fourth loop. *)
Definition check_context (header : Header) (st : State) (chain : ChainHeaders) (g : Gathered)
    (guarantee : Guarantee) : res st_error unit :=
  let context := RefContext (guarantee_WorkReport guarantee) in
  let! contextID := generateRefinementContextID context in
  let! _ := guard_not (negb (bool_decide (contextID ∈ contexts g)))
              (StErr "context ID not found in contexts map") in
  let! _ := anchorBlockInRecentBlocks context (st_RecentBlocks st) in
  let! _ := guard_not (uint32 (TimeSlotIndex header - MaxTimeslotsForPreimage)
                       <=? lookup_Timeslot (LookupAnchor context))
              (StErr "lookup anchor block not within the last timeslots") in
  let! _ := FindHeader (is_lookup_anchor context) chain in
  Ok tt.

(** Every entry of the segment-root lookup is a known package's; a missing key
    reads as the zero hash. *)
Definition check_lookup (known : gmap Hash Hash) (guarantee : Guarantee) : res st_error unit :=
  guard_not (negb (bool_decide (map_Forall (λ k v, default ZeroHash (known !! k) = v)
                                  (SegmentRootLookup (guarantee_WorkReport guarantee)))))
    (StErr "segment root lookup invalid").

(** The last loop. *)
Definition check_credentials (known : gmap Hash Hash) (newTimeslot : Z) (guarantee : Guarantee)
  : res st_error unit :=
  let! _ := check_lookup known guarantee in
  let! _ := guard_not (negb (neighbours (λ a b, cred_ValidatorIndex a <? cred_ValidatorIndex b)
                               (Credentials guarantee))) (StErr "not sorted or unique guarantors") in
  let! _ := guard_not (len (Credentials guarantee) <? 2) (StErr "insufficient guarantees") in
  verifyGuaranteeAge guarantee newTimeslot.

Definition ValidateExtrinsicGuarantees (header : Header) (st : State) (guarantees : list Guarantee)
    (currentAssignment : CoreAssignments) (newTimeslot : Z) (chain : ChainHeaders)
  : res st_error unit :=
  let recent := recentBlockPrerequisites (st_RecentBlocks st) in
  let! _ := check_duplicates guarantees ∅ (dom recent) in
  let! _ := each (check_guarantee header st currentAssignment newTimeslot) guarantees in
  let! g := gather_guarantees st guarantees (MkGathered ∅ ∅ ∅ (dom recent)) in
  let! _ := guard_not (negb (map_len (extrinsicWorkPackages g) =? len guarantees))
              (StErr "cardinality of work-package hashes is not equal to the length of work-reports") in
  let! _ := each (check_context header st chain g) guarantees in
  let! _ := guard_not (negb (bool_decide (dom (extrinsicWorkPackages g) ## pastWorkPackages g)))
              (StErr "report work-package is the work-package of some other report made in the past") in
  let extrinsicAndRecentWorkPackages := recent ∪ extrinsicWorkPackages g in
  let! _ := each (check_lookup extrinsicAndRecentWorkPackages) guarantees in
  let! _ := guard_not (negb (bool_decide (prerequisitePackageHashes g
                                          ⊆ dom (extrinsicWorkPackages g) ∪ dom recent)))
              (StErr "dependency missing") in
  let! _ := guard_not (negb (isGuaranteesSortedByCoreIndex guarantees))
              (StErr "out of order guarantee") in
  each (check_credentials extrinsicAndRecentWorkPackages newTimeslot) guarantees.
End validate.
