(* ===== verification/GuaranteesTheorems.v ===== *)
(** * The guarantees of a block: theorems *)
From S2P Require Export ReportsProps Guarantees.
From Stdlib Require Import Sorted.

Lemma check_duplicates_Ok gs seen past :
  check_duplicates gs seen past = Ok tt →
  NoDup ((package_hash ∘ guarantee_WorkReport) <$> gs) ∧
  Forall (λ g, package_hash (guarantee_WorkReport g) ∉ seen ∪ past) gs.
Proof.
  revert seen. induction gs as [|g gs IH]; intros seen H; [by split; constructor|].
  cbn [check_duplicates] in H. case_bool_decide as Hs; [done|]. case_bool_decide as Hp; [done|].
  destruct (IH _ H) as [Hnd Hall]. rewrite fmap_cons. split.
  - constructor; [|done]. intros (g' & Hg' & Hin)%list_elem_of_fmap. rewrite Forall_forall in Hall.
    apply (Hall g' Hin). unfold compose in Hg'. rewrite <- Hg'. set_solver.
  - constructor; [set_solver|]. eapply Forall_impl; [exact Hall|]. set_solver.
Qed.

Lemma results_gas_Ok services results n total :
  results_gas services results n = Ok total →
  Forall (λ r, GasLimitForAccumulator (default zeroAccount (services !! ServiceId r)) ≤
               GasPrioritizationRatio r) results ∧
  total = foldl (λ g r, uint64 (g + GasPrioritizationRatio r)) n results.
Proof.
  revert n. induction results as [|r results IH]; intros n H; cbn [results_gas] in H.
  { injection H as <-. split; [constructor|done]. }
  destruct (Z.ltb_spec (GasPrioritizationRatio r)
    (GasLimitForAccumulator (default zeroAccount (services !! ServiceId r)))); [done|].
  destruct (IH _ H) as [Hall ->]. split; [by constructor|done].
Qed.

Section validated.
Context (Sum256 : list Z → Hash).

(** What the third loop has checked and collected. *)
Lemma gather_guarantees_Ok st gs g g' :
  gather_guarantees Sum256 st gs g = Ok g' →
  Forall (λ x, let w := guarantee_WorkReport x in
    Forall (λ r, GasLimitForAccumulator (default zeroAccount (st_Services st !! ServiceId r)) ≤
                 GasPrioritizationRatio r) (WorkResults w) ∧
    report_gas w ≤ MaxAllocatedGasAccumulation ∧
    len (PrerequisiteWorkPackage (RefContext w)) + map_len (SegmentRootLookup w)
      ≤ WorkReportMaxSumOfDependencies) gs ∧
  dom (extrinsicWorkPackages g') =
    list_to_set ((package_hash ∘ guarantee_WorkReport) <$> gs) ∪ dom (extrinsicWorkPackages g) ∧
  (∀ x, x ∈ gs → list_to_set (PrerequisiteWorkPackage (RefContext (guarantee_WorkReport x)))
       ∪ dom (SegmentRootLookup (guarantee_WorkReport x)) ⊆ prerequisitePackageHashes g') ∧
  prerequisitePackageHashes g ⊆ prerequisitePackageHashes g'.
Proof.
  revert g. induction gs as [|x gs IH]; intros g H; cbn [gather_guarantees] in H.
  { injection H as <-. split_and!; [constructor|set_solver|set_solver|done]. }
  apply rbind_Ok_inv in H as (g1 & H1 & H). destruct (IH _ H) as (Hall & Hdom & Hpre & Hsub).
  unfold gather_guarantee in H1. apply rbind_Ok_inv in H1 as (cid & _ & H1).
  apply rbind_Ok_inv in H1 as (total & Hg & H1). apply results_gas_Ok in Hg as [Hg ->].
  destruct (Z.ltb_spec MaxAllocatedGasAccumulation
    (foldl (λ g r, uint64 (g + GasPrioritizationRatio r)) 0 (WorkResults (guarantee_WorkReport x))))
    as [|Hmax]; [done|].
  destruct (Z.ltb_spec WorkReportMaxSumOfDependencies
    (len (PrerequisiteWorkPackage (RefContext (guarantee_WorkReport x))) +
     map_len (SegmentRootLookup (guarantee_WorkReport x)))) as [|Hdeps]; [done|].
  apply rbind_Ok_inv in H1 as (past & _ & H1). injection H1 as <-. simpl in *.
  split_and!; [by constructor| | |].
  - rewrite Hdom, dom_insert_L. simpl. set_solver.
  - intros y [->|Hy]%elem_of_cons; [|by apply Hpre]. set_solver.
  - set_solver.
Qed.

(** What [ValidateExtrinsicGuarantees] promises to the rest of the transition. *)
Record validated (header : Header) (st : State) (slot : Z) (assignments : CoreAssignments)
    (gs : list Guarantee) : Prop := MkValidated {
  val_packages : NoDup ((package_hash ∘ guarantee_WorkReport) <$> gs);
  val_new : ∀ g, g ∈ gs →
    package_hash (guarantee_WorkReport g) ∉ dom (recentBlockPrerequisites (st_RecentBlocks st));
  val_cores : StronglySorted (λ a b, CoreIndex (guarantee_WorkReport a) <
                                     CoreIndex (guarantee_WorkReport b)) gs;
  val_each : ∀ g, g ∈ gs → let w := guarantee_WorkReport g in
    guarantee_Timeslot g ≤ TimeSlotIndex header ∧
    (∃ a, assignments !! Z.to_nat (CoreIndex w) = Some a ∧ isAssignmentValid a slot = true) ∧
    (∃ pool, st_CoreAuthorizersPool st !! Z.to_nat (CoreIndex w) = Some pool ∧
             AuthorizerHash w ∈ pool) ∧
    Forall (λ r, ∃ account, st_Services st !! ServiceId r = Some account ∧
                            ServiceHashCode r = CodeHash account ∧
                            GasLimitForAccumulator account ≤ GasPrioritizationRatio r) (WorkResults w) ∧
    report_gas w ≤ MaxAllocatedGasAccumulation ∧
    OutputSizeIsValid w = true;
  val_credentials : ∀ g, g ∈ gs →
    2 ≤ len (Credentials g) ∧
    StronglySorted (λ a b, cred_ValidatorIndex a < cred_ValidatorIndex b) (Credentials g) ∧
    Forall (λ c, cred_ValidatorIndex c < len (CurrentValidators (keys_of (st_ValidatorState st))))
      (Credentials g);
  val_dependencies : ∀ g, g ∈ gs → let w := guarantee_WorkReport g in
    len (PrerequisiteWorkPackage (RefContext w)) + map_len (SegmentRootLookup w)
      ≤ WorkReportMaxSumOfDependencies ∧
    ∀ p, p ∈ PrerequisiteWorkPackage (RefContext w) ∨ p ∈ dom (SegmentRootLookup w) →
      p ∈ (package_hash ∘ guarantee_WorkReport) <$> gs ∨
      p ∈ dom (recentBlockPrerequisites (st_RecentBlocks st));
}.

Lemma check_guarantee_Ok header st assignments slot g :
  check_guarantee header st assignments slot g = Ok tt →
  let w := guarantee_WorkReport g in
  guarantee_Timeslot g ≤ TimeSlotIndex header ∧
  Forall (λ c, cred_ValidatorIndex c < len (CurrentValidators (keys_of (st_ValidatorState st))))
    (Credentials g) ∧
  Forall (λ r, ∃ account, st_Services st !! ServiceId r = Some account ∧
                          ServiceHashCode r = CodeHash account) (WorkResults w) ∧
  OutputSizeIsValid w = true ∧
  (∃ pool, st_CoreAuthorizersPool st !! Z.to_nat (CoreIndex w) = Some pool ∧ AuthorizerHash w ∈ pool) ∧
  ∃ a, assignments !! Z.to_nat (CoreIndex w) = Some a ∧ isAssignmentValid a slot = true.
Proof.
  unfold check_guarantee. intros H.
  apply rbind_Ok_inv in H as ([] & H1 & H). apply rbind_Ok_inv in H as ([] & H2 & H).
  apply rbind_Ok_inv in H as ([] & H3 & H). apply rbind_Ok_inv in H as ([] & _ & H).
  apply rbind_Ok_inv in H as ([] & H4 & H). apply rbind_Ok_inv in H as (pool & H5 & H).
  apply rbind_Ok_inv in H as ([] & H6 & H). apply rbind_Ok_inv in H as (a & H7 & H).
  apply guard_not_Ok in H1, H4, H6, H. apply each_Ok in H2, H3.
  apply negb_false_iff in H4, H6, H. apply bool_decide_eq_true in H6.
  apply go_index_inv in H5 as [_ H5]. apply go_index_inv in H7 as [_ H7].
  split_and!; [by apply Z.ltb_ge| | |done|by exists pool|by exists a].
  - eapply Forall_impl; [exact H2|]. intros c Hc%guard_not_Ok%Z.leb_gt. lia.
  - eapply Forall_impl; [exact H3|]. intros r Hr. cbv beta in Hr.
    destruct (st_Services st !! ServiceId r) as [account|] eqn:E; [|done].
    apply guard_not_Ok, negb_false_iff, bool_decide_eq_true in Hr. by exists account.
Qed.
End validated.

Lemma neighbours_lt {A} (f : A → Z) l :
  neighbours (λ a b, f a <? f b) l = true → StronglySorted (λ a b, f a < f b) l.
Proof.
  intros H%neighbours_sorted; [|intros a b c ?%Z.ltb_lt ?%Z.ltb_lt; apply Z.ltb_lt; lia].
  induction H as [|x l _ IH Hx]; constructor; [done|]. eapply Forall_impl; [exact Hx|].
  intros y. apply Z.ltb_lt.
Qed.

(** ** Values for the witnesses *)

Definition small_report : WorkReport :=
  MkWorkReport (MkSpec (a_key 1) 0 (a_key 0) (a_key 0) 0)
    (MkContext (MkAnchor (a_key 4) (a_key 5) ZeroHash) (MkLookupAnchor (a_key 6) 3) [])
    7 (a_key 8) [] ∅ [].
Definition small_guarantee : Guarantee :=
  MkGuarantee small_report 24 [MkCredential 4 []; MkCredential 9 []].
Definition small_state : State :=
  MkState ∅ (MkPrivileged 0 0 0 ∅)
    (MkValidators validator_sets (MkSafrole some_validators [] None [])) (replicate 4 ZeroHash)
    (replicate 341 [a_key 8]) [] (replicate 341 None)
    [MkBlockState (a_key 4) (a_key 5) [] ∅] 24 no_judgements ([], []) (replicate 600 [])
    (replicate 600 ∅).
Definition small_header : Header :=
  MkHeader ZeroHash ZeroHash ZeroHash 25 None None [] 0 (replicate 96 0) (replicate 96 0).

(** ** Theorems *)

(** C25: what the guarantees of a block satisfy after
    [ValidateExtrinsicGuarantees]: different packages, none of a recent block;
    strictly increasing cores, each free and authorised for the report; two or
    more credentials with strictly increasing, existing validator indices;
    results of known services with the right code and enough gas, total gas and
    output within the limits; at most eight dependencies, all of them packages of
    this block or of a recent one. *)
Theorem guarantees_validated HashData KeccakData Sum256 header st gs assignments slot chain :
  ValidateExtrinsicGuarantees HashData KeccakData Sum256 header st gs assignments slot chain = Ok tt →
  validated header st slot assignments gs.
Proof.
  unfold ValidateExtrinsicGuarantees. intros H.
  apply rbind_Ok_inv in H as ([] & H1 & H). apply rbind_Ok_inv in H as ([] & H2 & H).
  apply rbind_Ok_inv in H as (g & H3 & H). apply rbind_Ok_inv in H as ([] & _ & H).
  apply rbind_Ok_inv in H as ([] & _ & H). apply rbind_Ok_inv in H as ([] & _ & H).
  apply rbind_Ok_inv in H as ([] & _ & H). apply rbind_Ok_inv in H as ([] & H4 & H).
  apply rbind_Ok_inv in H as ([] & H5 & H).
  apply check_duplicates_Ok in H1 as [Hnd Hnew]. apply each_Ok in H2, H.
  apply gather_guarantees_Ok in H3 as (Hgas & Hdom & Hpre & _).
  apply guard_not_Ok, negb_false_iff, bool_decide_eq_true in H4.
  apply guard_not_Ok, negb_false_iff in H5.
  rewrite Forall_forall in H, H2, Hnew, Hgas. cbn [extrinsicWorkPackages] in Hdom.
  split; [done| |by apply neighbours_lt| | |].
  - intros x Hx. specialize (Hnew x Hx). set_solver.
  - intros x Hx w. destruct (check_guarantee_Ok _ _ _ _ _ (H2 x Hx)) as (Ht & _ & Hr & Ho & Hp & Ha).
    destruct (Hgas x Hx) as (Hg1 & Hg2 & _). split_and!; try done.
    rewrite Forall_forall in Hr, Hg1. apply Forall_forall. intros r Hrin.
    destruct (Hr r Hrin) as (account & Hacc & Hcode). exists account. split_and!; try done.
    specialize (Hg1 r Hrin). by rewrite Hacc in Hg1.
  - intros x Hx. destruct (check_guarantee_Ok _ _ _ _ _ (H2 x Hx)) as (_ & Hc & _).
    specialize (H x Hx). unfold check_credentials in H.
    apply rbind_Ok_inv in H as ([] & _ & H). apply rbind_Ok_inv in H as ([] & Hs & H).
    apply rbind_Ok_inv in H as ([] & Hl & _). apply guard_not_Ok in Hs, Hl.
    apply negb_false_iff in Hs. split_and!; [by apply Z.ltb_ge|by apply neighbours_lt|done].
  - intros x Hx w. destruct (Hgas x Hx) as (_ & _ & Hd). split; [done|]. intros p Hp.
    assert (p ∈ prerequisitePackageHashes g) as Hin by (specialize (Hpre x Hx); set_solver).
    apply H4 in Hin. rewrite Hdom in Hin. set_solver.
Qed.

Lemma guarantees_validated_witness :
  validated small_header small_state 25 (st_CoreAssignments small_state) [small_guarantee].
Proof.
  apply (guarantees_validated (λ _, []) (λ _, []) (λ _, []) small_header small_state [small_guarantee]
    (st_CoreAssignments small_state) 25 (Ok [])).
  vm_compute. reflexivity.
Defined.

(** the lookup anchor of a guarantee is not checked as equations 11.33
    and 11.34 ask.  The comparison is inverted: from slot 14400 on an accepted
    anchor is always older than the last 14400 slots, and a recent one is
    refused.  And [FindHeader] reports no error when no header matches, so the
    anchor need not exist: with a readable store the outcome is the same as with
    an empty one. *)
Theorem lookup_anchor_not_checked HashData KeccakData Sum256 header st gs assignments slot headers :
  ValidateExtrinsicGuarantees HashData KeccakData Sum256 header st gs assignments slot
    (Ok (Ok <$> headers)) =
  ValidateExtrinsicGuarantees HashData KeccakData Sum256 header st gs assignments slot (Ok []) ∧
  ∀ chain, ValidateExtrinsicGuarantees HashData KeccakData Sum256 header st gs assignments slot chain
             = Ok tt →
    MaxTimeslotsForPreimage ≤ TimeSlotIndex header < 2 ^ 32 →
    Forall (λ g, lookup_Timeslot (LookupAnchor (RefContext (guarantee_WorkReport g))) <
                 TimeSlotIndex header - MaxTimeslotsForPreimage) gs.
Proof.
  split.
  - assert (∀ fn, ∃ h, FindHeader fn (Ok (Ok <$> headers)) = Ok h) as Hfind.
    { intros fn. unfold FindHeader. cbn [rbind]. induction headers as [|x xs IH]; [by eexists|].
      cbn. destruct (fn x); [by eexists|]. apply IH. }
    assert (∀ g x, check_context HashData KeccakData Sum256 header st (Ok (Ok <$> headers)) g x =
                   check_context HashData KeccakData Sum256 header st (Ok []) g x) as Hctx.
    { intros g x. unfold check_context.
      destruct (Hfind (is_lookup_anchor HashData (RefContext (guarantee_WorkReport x)))) as [h ->]. done. }
    assert (∀ g l, each (check_context HashData KeccakData Sum256 header st (Ok (Ok <$> headers)) g) l =
                   each (check_context HashData KeccakData Sum256 header st (Ok []) g) l) as Heach.
    { intros g l. induction l as [|x l IH]; cbn; [done|]. by rewrite Hctx, IH. }
    unfold ValidateExtrinsicGuarantees.
    destruct (check_duplicates _ _ _); [|done..]. cbn [rbind].
    destruct (each (check_guarantee _ _ _ _) gs); [|done..]. cbn [rbind].
    destruct (gather_guarantees _ _ _ _); [|done..]. cbn [rbind]. by rewrite Heach.
  - intros chain H Hslot. unfold ValidateExtrinsicGuarantees in H.
    apply rbind_Ok_inv in H as ([] & _ & H). apply rbind_Ok_inv in H as ([] & _ & H).
    apply rbind_Ok_inv in H as (g & _ & H). apply rbind_Ok_inv in H as ([] & _ & H).
    apply rbind_Ok_inv in H as ([] & Hc & _). apply each_Ok in Hc.
    eapply Forall_impl; [exact Hc|]. intros x Hx. unfold check_context in Hx.
    apply rbind_Ok_inv in Hx as (cid & _ & Hx). apply rbind_Ok_inv in Hx as ([] & _ & Hx).
    apply rbind_Ok_inv in Hx as ([] & _ & Hx). apply rbind_Ok_inv in Hx as ([] & Hl & _).
    apply guard_not_Ok, Z.leb_gt in Hl. unfold uint32 in Hl.
    rewrite wrapU_id in Hl by (unfold inU, MaxTimeslotsForPreimage in *; lia). lia.
Qed.
