(* ===== verification/BinaryTree.v ===== *)
(** * Binary Merkle trees

    [internal/merkle/binary_tree]: nodes and traces, the well-balanced and the
    constant-depth root, and pages of a constant-depth tree. *)
From S2P Require Export Blocks.

Definition nodePrefix : list Z := ascii_bytes "node".
Definition leafPrefix : list Z := ascii_bytes "leaf".

Section tree.
Context (hashFunc : list Z → Hash).

(** [ComputeNode]; every call halves the blobs, so the recursion is no deeper
    than their number. *)
Fixpoint compute_node (calls : nat) (blobs : list (list Z)) : list Z :=
  match blobs with
  | [] => []
  | [b] => hashFunc b
  | _ =>
      match calls with
      | O => []
      | S calls =>
          let mid := (length blobs / 2)%nat in
          hashFunc (nodePrefix ++ compute_node calls (take mid blobs)
                               ++ compute_node calls (drop mid blobs))
      end
  end.
Definition ComputeNode (blobs : list (list Z)) : list Z := compute_node (length blobs) blobs.

Definition getMid (blobs : list (list Z)) : nat := ((length blobs + 1) / 2)%nat.

Definition computeP (blobs : list (list Z)) (index : Z) (s : bool) : list (list Z) :=
  let mid := getMid blobs in
  if Bool.eqb (index <? Z.of_nat mid) s then take mid blobs else drop mid blobs.

Definition computePi (blobs : list (list Z)) (index : Z) : Z :=
  let mid := getMid blobs in
  if index <? Z.of_nat mid then 0 else Z.of_nat mid.

Fixpoint compute_trace (calls : nat) (blobs : list (list Z)) (index : Z) : list (list Z) :=
  if len blobs <=? 1 then []
  else
    match calls with
    | O => []
    | S calls =>
        ComputeNode (computeP blobs index false)
        :: compute_trace calls (computeP blobs index true) (index - computePi blobs index)
    end.
Definition ComputeTrace (blobs : list (list Z)) (index : Z) : list (list Z) :=
  compute_trace (length blobs) blobs index.

(** [crypto.Hash(blob)] panics on fewer than 32 bytes. *)
Definition to_hash {E} (blob : list Z) : res E Hash :=
  if len blob <? 32 then RuntimePanic else Ok (take 32 blob).

Definition ComputeWellBalancedRoot {E} (blobs : list (list Z)) : res E Hash :=
  match blobs with
  | [] => Ok ZeroHash
  | [b] => Ok (hashFunc b)
  | _ => to_hash (ComputeNode blobs)
  end.

(** The rounded logarithms of a length, which [math.Log2] gives exactly for the
    lengths a slice can have in practice. *)
Definition targetLen (blobs : list (list Z)) : nat := Z.to_nat (2 ^ Z.log2_up (Z.max 1 (len blobs))).

(** Positions past the blobs stay nil. *)
Definition preprocessForConstantDepth (blobs : list (list Z)) : list (list Z) :=
  match blobs with
  | [] => []
  | _ => ((λ b, hashFunc (leafPrefix ++ b)) <$> blobs)
           ++ replicate (targetLen blobs - length blobs) []
  end.

Definition ComputeConstantDepthRoot {E} (blobs : list (list Z)) : res E Hash :=
  match blobs with
  | [] => Ok ZeroHash
  | _ => to_hash (ComputeNode (preprocessForConstantDepth blobs))
  end.

Definition convertBlobsToHashes (blobs : list (list Z)) : list Hash :=
  (λ b, go_copy ZeroHash b) <$> blobs.

(** [1 << x] on [int]; a negative count panics. *)
Definition page_size {E} (x : Z) : res E Z :=
  if x <? 0 then RuntimePanic else Ok (int64 (go_shl 64 1 x)).

Definition GeneratePageProof {E} (blobs : list (list Z)) (pageIndex x : Z) : res E (list Hash) :=
  match blobs with
  | [] => Ok []
  | _ =>
      let! size := page_size x in
      let fullTrace := ComputeTrace (preprocessForConstantDepth blobs) (int64 (size * pageIndex)) in
      let maxLen := Z.max 0 (Z.log2 (Z.max 1 (len blobs)) - x) in
      if maxLen =? 0 then Ok []
      else let! trace := go_slice fullTrace 0 maxLen in Ok (convertBlobsToHashes trace)
  end.

Definition GetLeafPage {E} (blobs : list (list Z)) (pageIndex x : Z) : res E (list Hash) :=
  if (len blobs =? 0) || (64 <=? x) then Ok []
  else
    let! size := page_size x in
    let pageStart := int64 (size * pageIndex) in
    let pageEnd := Z.min (int64 (pageStart + size)) (len blobs) in
    if pageEnd <? pageStart then RuntimePanic
    else
      foldr (λ j acc, let! b := go_index blobs j in let! rest := acc in
                      Ok (hashFunc (leafPrefix ++ b) :: rest))
        (Ok []) (seqZ pageStart (pageEnd - pageStart)).
End tree.

(** ** Theorems *)

Section tree.
Context (hashFunc : list Z → Hash).

(** More calls than blobs make no difference. *)
Lemma compute_node_calls c c' blobs :
  (length blobs ≤ c)%nat → (length blobs ≤ c')%nat →
  compute_node hashFunc c blobs = compute_node hashFunc c' blobs.
Proof.
  revert c' blobs. induction c as [|c IH]; intros c' blobs Hc Hc'.
  { destruct blobs; [by destruct c'|simpl in Hc; lia]. }
  destruct blobs as [|b [|b' blobs]]; [by destruct c'|by destruct c'|].
  destruct c' as [|c']; [simpl in Hc'; lia|].
  set (l := b :: b' :: blobs) in *. cbn [compute_node]. fold l.
  assert (2 ≤ length l)%nat by (simpl; lia).
  assert (1 ≤ length l / 2)%nat by (apply Nat.div_le_lower_bound; lia).
  assert (length l / 2 < length l)%nat by (apply Nat.div_lt; lia).
  rewrite (IH c' (take _ l)), (IH c' (drop _ l)); rewrite ?length_take, ?length_drop; [done|lia..].
Qed.

(** The equation of [ComputeNode]. *)
Lemma ComputeNode_split blobs :
  (2 ≤ length blobs)%nat →
  ComputeNode hashFunc blobs =
  hashFunc (nodePrefix ++ ComputeNode hashFunc (take (length blobs / 2) blobs)
                       ++ ComputeNode hashFunc (drop (length blobs / 2) blobs)).
Proof.
  intros Hl. destruct blobs as [|b [|b' blobs]]; [simpl in Hl; lia..|].
  set (l := b :: b' :: blobs) in *.
  assert (length l / 2 < length l)%nat by (apply Nat.div_lt; lia).
  assert (1 ≤ length l / 2)%nat by (apply Nat.div_le_lower_bound; lia).
  unfold ComputeNode at 1. change (length l) with (S (length (b' :: blobs))) at 1.
  cbn [compute_node]. fold l. unfold ComputeNode.
  rewrite (compute_node_calls (length (b' :: blobs)) (length (take (length l / 2) l))),
    (compute_node_calls (length (b' :: blobs)) (length (drop (length l / 2) l)));
    rewrite ?length_take, ?length_drop; [done|..]; change (length (b' :: blobs)) with (length l - 1)%nat; lia.
Qed.

(** The root that a leaf, its index and the siblings on its path give. *)
Fixpoint rebuild (trace : list (list Z)) (size : nat) (index : Z) (leaf : list Z) : list Z :=
  match trace with
  | [] => leaf
  | node :: trace =>
      let mid := (size / 2)%nat in
      if index <? Z.of_nat mid
      then hashFunc (nodePrefix ++ rebuild trace mid index leaf ++ node)
      else hashFunc (nodePrefix ++ node ++ rebuild trace (size - mid) (index - Z.of_nat mid) leaf)
  end.

Lemma compute_trace_rebuild k calls blobs i b :
  length blobs = (2 ^ k)%nat → (k ≤ calls)%nat → blobs !! i = Some b →
  rebuild (compute_trace hashFunc calls blobs (Z.of_nat i)) (length blobs) (Z.of_nat i) (hashFunc b) =
    ComputeNode hashFunc blobs ∧
  length (compute_trace hashFunc calls blobs (Z.of_nat i)) = k.
Proof.
  revert calls blobs i. induction k as [|k IH]; intros calls blobs i Hl Hc Hi.
  { destruct blobs as [|x [|y blobs]]; try done. destruct i as [|i]; [|done]. injection Hi as ->.
    by destruct calls. }
  destruct calls as [|calls]; [lia|]. cbn [compute_trace].
  assert (1 ≤ 2 ^ k)%nat as Hk by (apply Nat.le_succ_l, Nat.neq_0_lt_0, Nat.pow_nonzero; lia).
  rewrite Nat.pow_succ_r' in Hl. generalize dependent (2 ^ k)%nat. intros n IH Hl Hk. replace (len blobs <=? 1) with false by (symmetry; zbool).
  assert (length blobs / 2 = n)%nat as Hmid by (rewrite Hl, Nat.mul_comm; apply Nat.div_mul; lia).
  assert (getMid blobs = n)%nat as Hg.
  { unfold getMid. rewrite Hl, (Nat.mul_comm 2), Nat.div_add_l by lia. simpl. lia. }
  rewrite (ComputeNode_split blobs) by lia. unfold computeP, computePi. rewrite Hg, Hmid.
  cbn [rebuild length]. rewrite Hmid.
  assert (i < length blobs)%nat as Hlt by (by eapply lookup_lt_Some).
  destruct (Z.ltb_spec (Z.of_nat i) (Z.of_nat (n))) as [Hx|Hx]; simpl Bool.eqb; cbv iota.
  - rewrite Z.sub_0_r.
    destruct (IH calls (take (n) blobs) i) as [IH1 IH2]; [rewrite length_take; lia|lia|
      by rewrite lookup_take_lt by lia|].
    rewrite length_take, Nat.min_l in IH1 by lia. by rewrite IH1, IH2.
  - replace (Z.of_nat i - Z.of_nat (n)) with (Z.of_nat (i - n)) by lia.
    destruct (IH calls (drop (n) blobs) (i - n)%nat) as [IH1 IH2]; [rewrite length_drop; lia|lia|
      rewrite lookup_drop; by replace (n + (i - n))%nat with i by lia|].
    rewrite length_drop in IH1. by rewrite IH1, IH2.
Qed.
End tree.

(** C33: the trace of a leaf proves it: for a tree of 2^k blobs,
    [ComputeTrace] returns k siblings, and hashing the leaf upwards with them
    gives the root [ComputeNode] computes, for every leaf. *)
Theorem merkle_trace_proves hashFunc k blobs i b :
  length blobs = (2 ^ k)%nat → blobs !! i = Some b →
  rebuild hashFunc (ComputeTrace hashFunc blobs (Z.of_nat i)) (length blobs) (Z.of_nat i)
    (hashFunc b) = ComputeNode hashFunc blobs ∧
  length (ComputeTrace hashFunc blobs (Z.of_nat i)) = k.
Proof.
  intros Hl Hi. apply compute_trace_rebuild; [done| |done]. rewrite Hl.
  pose proof (Nat.pow_gt_lin_r 2 k). lia.
Qed.

(** A hash for the examples: the length and the sum of the bytes. *)
Definition toy_hash (data : list Z) : Hash :=
  len data :: (foldr Z.add 0 data) :: foldl (λ a x, 3 * a + x) 7 data :: replicate 29 0.

(** With three blobs the trace, which splits at 2, does not match the node, which
    splits at 1. *)
Lemma merkle_trace_proves_witness :
  rebuild toy_hash (ComputeTrace toy_hash [[1]; [2]; [3]; [4]] 2) 4 2 (toy_hash [3]) =
    ComputeNode toy_hash [[1]; [2]; [3]; [4]] ∧
  rebuild toy_hash (ComputeTrace toy_hash [[1]; [2]; [3]] 1) 3 1 (toy_hash [2]) ≠
    ComputeNode toy_hash [[1]; [2]; [3]].
Proof.
  split.
  - apply (merkle_trace_proves toy_hash 2 [[1]; [2]; [3]; [4]] 2 [3] eq_refl eq_refl).
  - vm_compute. discriminate.
Defined.
