(* ===== verification/History.v ===== *)
(** * Recent blocks, authorizers, statistics and preimages

    The remaining parts of [internal/statetransition]: the history of recent
    blocks with its Merkle mountain range, the authorizer pools of the cores, the
    validators' statistics, and the preimages of a block. *)
From S2P Require Export BinaryTree Guarantees.

(** ** Recent blocks *)

Definition with_state_root (root : Hash) (b : BlockState) : BlockState :=
  MkBlockState (block_HeaderHash b) root (AccumulationResultMMR b) (WorkReportHashes b).

(** The last element replaced, if there is one. *)
Definition alter_last {A} (f : A → A) (l : list A) : list A := alter f (length l - 1)%nat l.

Definition calculateIntermediateBlockState (header : Header) (previousRecentBlocks : list BlockState)
  : list BlockState :=
  alter_last (with_state_root (PriorStateRoot header)) previousRecentBlocks.

Definition CalculateNewTimeState (header : Header) : Z := TimeSlotIndex header.

Definition buildWorkPackageMapping (guarantees : list Guarantee) : gmap Hash Hash :=
  foldl (λ m g, <[package_hash (guarantee_WorkReport g) :=
                    SegmentRoot (Specification (guarantee_WorkReport g))]> m) ∅ guarantees.

Section history.
Context (HashData KeccakData : list Z → Hash).

(** The bytes of one pair: the service, then the hash. *)
Definition pair_item (p : HashPair) : res st_error (list Z) :=
  let! s := map_err StJam (Marshal (TPrim true Uint32) (VNum p.1)) in
  let! h := map_err StJam (Marshal hash_type (hash_value p.2)) in
  Ok (s ++ h).

Fixpoint pair_items (pairs : list HashPair) : res st_error (list (list Z)) :=
  match pairs with
  | [] => Ok []
  | p :: pairs => let! i := pair_item p in let! rest := pair_items pairs in Ok (i :: rest)
  end.

Definition computeAccumulationRoot (pairs : list HashPair) : res st_error Hash :=
  if len pairs =? 0 then Ok ZeroHash
  else
    let! items := pair_items (sort_pairs pairs) in
    ComputeWellBalancedRoot KeccakData items.

(** [UpdateRecentBlocks]: the old range of the last block, one root appended, and
    the last eight blocks. *)
Definition UpdateRecentBlocks (headerHash priorStateRoot accumulationRoot : Hash)
    (intermediateRecentBlocks : list BlockState) (workPackageMapping : gmap Hash Hash)
  : res st_error (list BlockState) :=
  let blocks := alter_last (with_state_root priorStateRoot) intermediateRecentBlocks in
  let lastBlockMMR :=
    match last blocks with Some b => AccumulationResultMMR b | None => [] end in
  match Append KeccakData (S (length lastBlockMMR)) lastBlockMMR accumulationRoot with
  | Some (Ok newMMR) =>
      let newRecentBlocks := blocks ++ [MkBlockState headerHash ZeroHash newMMR workPackageMapping] in
      if MaxRecentBlocks <? len newRecentBlocks
      then go_slice_from newRecentBlocks (len newRecentBlocks - MaxRecentBlocks)
      else Ok newRecentBlocks
  | _ => RuntimePanic
  end.

Definition calculateNewRecentBlocks (header : Header) (guarantees : list Guarantee)
    (intermediateRecentBlocks : list BlockState) (serviceHashPairs : list HashPair)
  : res st_error (list BlockState) :=
  let! headerBytes := Bytes_header header in
  let! accumulationRoot := computeAccumulationRoot serviceHashPairs in
  UpdateRecentBlocks (HashData headerBytes) (PriorStateRoot header) accumulationRoot
    intermediateRecentBlocks (buildWorkPackageMapping guarantees).
End history.

(** ** Authorizers *)

Fixpoint removeAuthorizer (auths : list Hash) (toRemove : Hash) : list Hash :=
  match auths with
  | [] => []
  | a :: auths => if bool_decide (a = toRemove) then auths else a :: removeAuthorizer auths toRemove
  end.

Definition appendAuthorizerLimited (auths : list Hash) (newAuth : Hash) (maxSize : Z) : list Hash :=
  (if maxSize <=? len auths then drop 1 auths else auths) ++ [newAuth].

(** The pool of one core. *)
Definition newAuthorizers (slot : Z) (guarantees : list Guarantee) (c : Z) (queue pool : list Hash)
  : res st_error (list Hash) :=
  let mine := filter (λ g, CoreIndex (guarantee_WorkReport g) = c) guarantees in
  let newAuths := foldl (λ auths g, removeAuthorizer auths (AuthorizerHash (guarantee_WorkReport g)))
                    pool mine in
  let newAuths := if (len mine =? 0) && (0 <? len newAuths) then drop 1 newAuths else newAuths in
  let! newAuthorizer := go_index queue (slot `mod` PendingAuthorizersQueueSize) in
  Ok (if negb (bool_decide (newAuthorizer = ZeroHash))
      then appendAuthorizerLimited newAuths newAuthorizer MaxAuthorizersPerCore else newAuths).

Fixpoint core_authorizations (slot : Z) (guarantees : list Guarantee) (c : Z)
    (pending current : list (list Hash)) : res st_error (list (list Hash)) :=
  match pending, current with
  | queue :: pending, pool :: current =>
      let! auths := newAuthorizers slot guarantees c queue pool in
      let! rest := core_authorizations slot guarantees (c + 1) pending current in
      Ok (auths :: rest)
  | _, _ => Ok []
  end.

Definition CalculateNewCoreAuthorizations (header : Header) (guarantees : list Guarantee)
    (pendingAuthorizations currentAuthorizations : list (list Hash)) : res st_error (list (list Hash)) :=
  core_authorizations (TimeSlotIndex header) guarantees 0 pendingAuthorizations currentAuthorizations.

(** ** Statistics *)

(** The extrinsics of a block. *)
Record Extrinsic : Type := MkExtrinsic {
  ET : list TicketProof;
  EP : list Preimage;
  EG : list Guarantee;
  EA : list Assurance;
  ED : DisputeExtrinsic;
}.
Record Block : Type := MkBlock {
  block_Header : Header;
  block_Extrinsic : Extrinsic;
}.

Definition zeroStatistics : ValidatorStatistics := MkStatistics 0 0 0 0 0 0.

(** One validator's counters after a block. *)
Definition count_validator (b : Block) (reporters : gset (list Z)) (v : Z) (key : option ValidatorKey)
    (s : ValidatorStatistics) : ValidatorStatistics :=
  let x := block_Extrinsic b in
  let author := v =? BlockAuthorIndex (block_Header b) in
  MkStatistics
    (if author then uint32 (NumOfBlocks s + 1) else NumOfBlocks s)
    (if author then uint64 (NumOfTickets s + len (ET x)) else NumOfTickets s)
    (if author then uint64 (NumOfPreimages s + len (EP x)) else NumOfPreimages s)
    (if author then foldl (λ n p, uint64 (n + len (preimage_Data p))) (NumOfBytesAllPreimages s) (EP x)
     else NumOfBytesAllPreimages s)
    (match key with
     | Some k => if bool_decide (Ed25519 k ∈ reporters)
                 then uint64 (NumOfGuaranteedReports s + 1) else NumOfGuaranteedReports s
     | None => NumOfGuaranteedReports s
     end)
    (foldl (λ n a, if assurance_ValidatorIndex a =? v then uint64 (n + 1) else n)
       (NumOfAvailabilityAssurances s) (EA x)).

Definition CalculateNewValidatorStatistics (b : Block) (timeslot : Z)
    (validatorStatistics : list ValidatorStatistics * list ValidatorStatistics)
    (reporters : gset (list Z)) (currValidators : ValidatorsData)
  : list ValidatorStatistics * list ValidatorStatistics :=
  let '(completed, present) :=
    if negb (Timeslot_ToEpoch timeslot =? Timeslot_ToEpoch (TimeSlotIndex (block_Header b)))
    then (validatorStatistics.2, replicate (Z.to_nat NumberOfValidators) zeroStatistics)
    else validatorStatistics in
  (completed,
   imap (λ v s, count_validator b reporters (Z.of_nat v) (mjoin (currValidators !! v)) s) present).

(** ** Preimages *)

(** A missing entry of the meta data reads as an empty slice. *)
Definition preimageHasBeenSolicited (serviceState : ServiceState) (serviceIndex : Z)
    (preimageHash : Hash) (preimageLength : Z) : bool :=
  match serviceState !! serviceIndex with
  | None => false
  | Some account =>
      negb (bool_decide (is_Some (PreimageLookup account !! preimageHash)))
      && (len (default [] (PreimageMeta account !! (preimageHash, preimageLength))) =? 0)
  end.

(** [CalculateIntermediateServiceState]: the accounts of the clone share their
    maps with the accounts of the input.  [shared] is the input as it is seen
    through these maps, [cloned] the result; [nilLookup] and [nilMeta] are the
    services of the input whose map is nil, which get a fresh one in the result
    only. *)
Definition add_preimage (HashData : list Z → Hash) (nilLookup nilMeta : gset Z) (newTimeslot : Z)
    (shared cloned : ServiceState) (p : Preimage) : ServiceState * ServiceState :=
  let s := ServiceIndex p in
  let h := HashData (preimage_Data p) in
  let key := (h, uint32 (len (preimage_Data p))) in
  if negb (preimageHasBeenSolicited shared s h (uint32 (len (preimage_Data p)))) then (shared, cloned)
  else
    match shared !! s with
    | None => (shared, cloned)
    | Some account =>
        let lookup := <[h := preimage_Data p]> (PreimageLookup account) in
        let meta := <[key := [newTimeslot]]> (PreimageMeta account) in
        (<[s := with_preimages
                  (if bool_decide (s ∈ nilLookup) then PreimageLookup account else lookup)
                  (if bool_decide (s ∈ nilMeta) then PreimageMeta account else meta) account]> shared,
         <[s := with_preimages lookup meta account]> cloned)
    end.

Definition CalculateIntermediateServiceState (HashData : list Z → Hash) (nilLookup nilMeta : gset Z)
    (preimages : list Preimage) (serviceState : ServiceState) (newTimeslot : Z)
  : ServiceState * ServiceState :=
  foldl (λ '(shared, cloned) p, add_preimage HashData nilLookup nilMeta newTimeslot shared cloned p)
    (serviceState, serviceState) preimages.
