(* ===== verification/HistoryTheorems.v ===== *)
(** * Recent blocks, authorizers, statistics and preimages: theorems *)
From S2P Require Export GuaranteesTheorems History.

(** ** Recent blocks *)

(** Placing a peak ends within one call per peak from its position on, and never
    indexes out of range. *)
Lemma placePeak_total hashFunc calls peaks item pos :
  0 ≤ pos → (length peaks < calls + Z.to_nat pos)%nat → (0 < calls)%nat →
  ∃ peaks', placePeak hashFunc calls peaks item pos = Some (Ok peaks').
Proof.
  revert peaks item pos. induction calls as [|calls IH]; intros peaks item pos Hpos Hc H0; [lia|].
  cbn [placePeak]. destruct (Z.leb_spec (len peaks) pos) as [Hl|Hl]; [by eexists|].
  unfold len in Hl. destruct (lookup_lt_is_Some_2 peaks (Z.to_nat pos)) as [p Hp]; [lia|].
  rewrite (go_index_lookup _ _ _ Hpos Hp).
  assert (∀ v, (replacePeakAt peaks pos v : res mmr_error _) = Ok (<[Z.to_nat pos := v]> peaks)) as Hr.
  { intros v. unfold replacePeakAt, go_update. rewrite (proj2 (Z.leb_le _ _)) by lia.
    rewrite (proj2 (Z.ltb_lt _ _)) by (unfold len; lia). done. }
  rewrite !Hr. destruct p as [h|]; [|by eexists].
  apply IH; [lia|rewrite length_insert; lia|lia].
Qed.

(** The last eight of the old blocks and the new one. *)
Definition last_blocks (blocks : list BlockState) : list BlockState :=
  drop (length blocks - Z.to_nat MaxRecentBlocks) blocks.

(** The new history. *)
Lemma UpdateRecentBlocks_spec KeccakData headerHash stateRoot accRoot blocks mapping :
  ∃ mmr,
    Append KeccakData (S (length (from_option AccumulationResultMMR [] (last blocks))))
      (from_option AccumulationResultMMR [] (last blocks)) accRoot = Some (Ok mmr) ∧
    UpdateRecentBlocks KeccakData headerHash stateRoot accRoot blocks mapping =
      Ok (last_blocks (alter_last (with_state_root stateRoot) blocks
                         ++ [MkBlockState headerHash ZeroHash mmr mapping])) ∧
    len (last_blocks (alter_last (with_state_root stateRoot) blocks
                        ++ [MkBlockState headerHash ZeroHash mmr mapping])) =
      Z.min (len blocks + 1) MaxRecentBlocks.
Proof.
  set (peaks := from_option AccumulationResultMMR [] (last blocks)).
  destruct (placePeak_total KeccakData (S (length peaks)) peaks accRoot 0) as [mmr Hm]; [lia..|].
  exists mmr. split; [done|]. unfold UpdateRecentBlocks.
  assert (match last (alter_last (with_state_root stateRoot) blocks) with
          | Some b => AccumulationResultMMR b | None => [] end = peaks) as ->.
  { unfold peaks. rewrite !last_lookup. unfold alter_last. rewrite length_alter, <- Nat.sub_1_r.
    rewrite list_lookup_alter_eq. by destruct (blocks !! (length blocks - 1)%nat). }
  unfold Append. rewrite Hm.
  set (new := alter_last _ blocks ++ _).
  assert (len new = len blocks + 1) as Hl.
  { unfold new, len, alter_last. rewrite length_app, length_alter. simpl. lia. }
  unfold last_blocks. split.
  - destruct (Z.ltb_spec MaxRecentBlocks (len new)) as [H8|H8].
    + unfold go_slice_from, go_slice, MaxRecentBlocks in *.
      rewrite (proj2 (Z.leb_le 0 _)), (proj2 (Z.leb_le (len new - 8) _)), Z.leb_refl by lia. cbn [andb].
      f_equal. rewrite take_ge by (rewrite length_drop; unfold len; lia). f_equal. unfold len. lia.
    + f_equal. replace (length new - Z.to_nat MaxRecentBlocks)%nat with 0%nat; [done|].
      unfold len, MaxRecentBlocks in *. lia.
  - unfold len in *. rewrite length_drop. unfold MaxRecentBlocks in *. lia.
Qed.

(** [UpdateRecentBlocks] always succeeds: it sets the state root of the
    last block, appends the new block with a zero state root and the mountain
    range of the last block extended by the accumulation root, and keeps the last
    eight blocks; a history of at most eight blocks stays one. *)
Theorem recent_blocks_updated KeccakData headerHash stateRoot accRoot blocks mapping :
  ∃ mmr,
    Append KeccakData (S (length (from_option AccumulationResultMMR [] (last blocks))))
      (from_option AccumulationResultMMR [] (last blocks)) accRoot = Some (Ok mmr) ∧
    UpdateRecentBlocks KeccakData headerHash stateRoot accRoot blocks mapping =
      Ok (last_blocks (alter_last (with_state_root stateRoot) blocks
                         ++ [MkBlockState headerHash ZeroHash mmr mapping])) ∧
    len (last_blocks (alter_last (with_state_root stateRoot) blocks
                        ++ [MkBlockState headerHash ZeroHash mmr mapping])) =
      Z.min (len blocks + 1) MaxRecentBlocks.
Proof. apply UpdateRecentBlocks_spec. Qed.

(** ** Authorizers *)

Lemma removeAuthorizer_length auths a : (length (removeAuthorizer auths a) ≤ length auths)%nat.
Proof. induction auths as [|x auths IH]; simpl; [done|]. case_bool_decide; simpl; lia. Qed.

(** The authorizers left after the guarantees of a core: each guarantee removes
    the first occurrence of its authorizer, and without guarantees the oldest
    one goes. *)
Definition authorizers_left (guarantees : list Guarantee) (c : Z) (pool : list Hash) : list Hash :=
  match filter (λ g, CoreIndex (guarantee_WorkReport g) = c) guarantees with
  | [] => drop 1 pool
  | mine => foldl (λ auths g, removeAuthorizer auths (AuthorizerHash (guarantee_WorkReport g))) pool mine
  end.

Lemma authorizers_left_length guarantees c pool :
  (length (authorizers_left guarantees c pool) ≤ length pool)%nat.
Proof.
  unfold authorizers_left. destruct (filter _ guarantees) as [|g gs]; [rewrite length_drop; lia|].
  generalize (g :: gs). intros l. revert pool.
  induction l as [|x l IH]; intros pool; simpl; [done|]. etrans; [apply IH|]. apply removeAuthorizer_length.
Qed.

Lemma newAuthorizers_spec slot guarantees c queue pool :
  length queue = Z.to_nat PendingAuthorizersQueueSize → len pool ≤ MaxAuthorizersPerCore →
  ∃ q, queue !! Z.to_nat (slot `mod` PendingAuthorizersQueueSize) = Some q ∧
    newAuthorizers slot guarantees c queue pool =
      Ok (let left := authorizers_left guarantees c pool in
          if bool_decide (q = ZeroHash) then left
          else drop (length left + 1 - Z.to_nat MaxAuthorizersPerCore) (left ++ [q])).
Proof.
  intros Hq Hp. pose proof (Z.mod_pos_bound slot PendingAuthorizersQueueSize eq_refl) as Hm.
  destruct (lookup_lt_is_Some_2 queue (Z.to_nat (slot `mod` PendingAuthorizersQueueSize))) as [q Hqq];
    [unfold PendingAuthorizersQueueSize in *; lia|].
  exists q. split; [done|]. unfold newAuthorizers. rewrite (go_index_lookup _ _ _ (proj1 Hm) Hqq).
  cbn [rbind].
  assert (∀ mine, mine = filter (λ g, CoreIndex (guarantee_WorkReport g) = c) guarantees →
    (let newAuths := foldl (λ auths g, removeAuthorizer auths (AuthorizerHash (guarantee_WorkReport g)))
                    pool mine in
     if (len mine =? 0) && (0 <? len newAuths) then drop 1 newAuths else newAuths)
    = authorizers_left guarantees c pool) as Hleft.
  { intros mine ->. unfold authorizers_left. destruct (filter _ guarantees) as [|g gs]; simpl.
    - destruct pool; done.
    - done. }
  cbv zeta in Hleft. rewrite (Hleft _ eq_refl). pose proof (authorizers_left_length guarantees c pool) as Hll.
  set (left := authorizers_left guarantees c pool) in *. f_equal.
  case_bool_decide; [done|]. cbn [negb]. unfold appendAuthorizerLimited.
  unfold len, MaxAuthorizersPerCore in *. destruct (Z.leb_spec 8 (Z.of_nat (length left))) as [H8|H8].
  - assert (length left = 8%nat) as He by lia. rewrite He. simpl Nat.sub.
    destruct left; [done|]. done.
  - replace (length left + 1 - Z.to_nat 8)%nat with 0%nat by lia. done.
Qed.

Lemma core_authorizations_spec slot guarantees c pending current :
  length pending = length current →
  Forall (λ q, length q = Z.to_nat PendingAuthorizersQueueSize) pending →
  Forall (λ p, len p ≤ MaxAuthorizersPerCore) current →
  ∃ pools, core_authorizations slot guarantees c pending current = Ok pools ∧
    length pools = length current ∧
    ∀ i pool, current !! i = Some pool → ∃ queue pool',
      pending !! i = Some queue ∧ pools !! i = Some pool' ∧
      newAuthorizers slot guarantees (c + Z.of_nat i) queue pool = Ok pool'.
Proof.
  intros Hl Hq Hp. revert c pending Hl Hq. induction Hp as [|p ps Hp _ IH]; intros c pending Hl Hq.
  { destruct pending; [|done]. exists []. done. }
  destruct Hq as [|q qs Hq Hqs]; [done|]. injection Hl as Hl.
  destruct (newAuthorizers_spec slot guarantees c q p Hq Hp) as (a & _ & Ha).
  destruct (IH (c + 1) qs Hl Hqs) as (pools & Hpools & Hlen & Hall).
  cbn [core_authorizations]. rewrite Ha. cbn [rbind]. rewrite Hpools. cbn [rbind].
  eexists. split; [done|]. split; [simpl; lia|]. intros [|i] pool Hi; simpl in Hi.
  - injection Hi as <-. eexists _, _. split_and!; [done|done|]. by rewrite Z.add_0_r.
  - destruct (Hall i pool Hi) as (queue & pool' & H1 & H2 & H3). exists queue, pool'.
    split_and!; [done|done|]. by replace (c + Z.of_nat (S i)) with (c + 1 + Z.of_nat i) by lia.
Qed.

(** The pools of all cores. *)
Lemma CalculateNewCoreAuthorizations_spec header guarantees pending current :
  length pending = length current →
  Forall (λ q, length q = Z.to_nat PendingAuthorizersQueueSize) pending →
  Forall (λ p, len p ≤ MaxAuthorizersPerCore) current →
  ∃ pools, CalculateNewCoreAuthorizations header guarantees pending current = Ok pools ∧
    length pools = length current ∧ Forall (λ p, len p ≤ MaxAuthorizersPerCore) pools ∧
    ∀ c pool, current !! c = Some pool → ∃ queue q,
      pending !! c = Some queue ∧
      queue !! Z.to_nat (TimeSlotIndex header `mod` PendingAuthorizersQueueSize) = Some q ∧
      pools !! c = Some (
        let left := authorizers_left guarantees (Z.of_nat c) pool in
        if bool_decide (q = ZeroHash) then left
        else drop (length left + 1 - Z.to_nat MaxAuthorizersPerCore) (left ++ [q])).
Proof.
  intros Hl Hq Hp. unfold CalculateNewCoreAuthorizations.
  destruct (core_authorizations_spec (TimeSlotIndex header) guarantees 0 pending current Hl Hq Hp)
    as (pools & Hpools & Hlen & Hall).
  assert (∀ c pool, current !! c = Some pool → ∃ queue q,
      pending !! c = Some queue ∧
      queue !! Z.to_nat (TimeSlotIndex header `mod` PendingAuthorizersQueueSize) = Some q ∧
      pools !! c = Some (
        let left := authorizers_left guarantees (Z.of_nat c) pool in
        if bool_decide (q = ZeroHash) then left
        else drop (length left + 1 - Z.to_nat MaxAuthorizersPerCore) (left ++ [q]))) as Hspec.
  { intros c pool Hc. destruct (Hall c pool Hc) as (queue & pool' & H1 & H2 & H3).
    destruct (newAuthorizers_spec (TimeSlotIndex header) guarantees (0 + Z.of_nat c) queue pool)
      as (q & Hqq & Hn); [by apply (Forall_lookup_1 _ _ _ _ Hq H1)|by apply (Forall_lookup_1 _ _ _ _ Hp Hc)|].
    rewrite H3 in Hn. injection Hn as ->. exists queue, q. by rewrite Z.add_0_l in H2. }
  exists pools. split_and!; [done|done| |done]. apply Forall_lookup_2. intros c pool' Hc.
  destruct (lookup_lt_is_Some_2 current c) as [pool Hpool];
    [rewrite <- Hlen; by eapply lookup_lt_Some|].
  destruct (Hspec c pool Hpool) as (queue & q & _ & _ & Hx). rewrite Hc in Hx. injection Hx as ->.
  pose proof (authorizers_left_length guarantees (Z.of_nat c) pool) as Hll.
  pose proof (Forall_lookup_1 _ _ _ _ Hp Hpool) as Hpl. unfold len in *. cbv zeta beta in *.
  case_bool_decide; [lia|]. rewrite length_drop, length_app. unfold MaxAuthorizersPerCore in *.
  cbn [length]. lia.
Qed.

(** the authorizer pools after a block: from each core's pool the
    authorizers of its guarantees are removed, or the oldest one if there was no
    guarantee; the queue's entry for the slot is appended unless it is the zero
    hash, and the last eight are kept.  No index is out of range, and pools of at
    most eight stay so. *)
Theorem authorizer_pools_updated header guarantees pending current :
  length pending = length current →
  Forall (λ q, length q = Z.to_nat PendingAuthorizersQueueSize) pending →
  Forall (λ p, len p ≤ MaxAuthorizersPerCore) current →
  ∃ pools, CalculateNewCoreAuthorizations header guarantees pending current = Ok pools ∧
    length pools = length current ∧ Forall (λ p, len p ≤ MaxAuthorizersPerCore) pools ∧
    ∀ c pool, current !! c = Some pool → ∃ queue q,
      pending !! c = Some queue ∧
      queue !! Z.to_nat (TimeSlotIndex header `mod` PendingAuthorizersQueueSize) = Some q ∧
      pools !! c = Some (
        let left := authorizers_left guarantees (Z.of_nat c) pool in
        if bool_decide (q = ZeroHash) then left
        else drop (length left + 1 - Z.to_nat MaxAuthorizersPerCore) (left ++ [q])).
Proof. apply CalculateNewCoreAuthorizations_spec. Qed.

Lemma authorizer_pools_updated_witness :
  ∃ pools, CalculateNewCoreAuthorizations small_header [small_guarantee]
             (replicate 341 (replicate 80 (a_key 2))) (replicate 341 [a_key 8; a_key 9]) = Ok pools ∧
           length pools = 341%nat.
Proof.
  destruct (authorizer_pools_updated small_header [small_guarantee]
    (replicate 341 (replicate 80 (a_key 2))) (replicate 341 [a_key 8; a_key 9]))
    as (pools & E & Hl & _); [done|by apply Forall_replicate|by apply Forall_replicate|].
  exists pools. split; [exact E|exact Hl].
Defined.

(** ** Statistics *)

(** the statistics of an epoch are never completed: the transition
    calls [CalculateNewValidatorStatistics] with the new timeslot, which is the
    block's own, so the epochs compared are always equal; the completed
    statistics stay what they were and the present ones keep counting across
    epochs.  The counters of a block go to its author, to the guarantors among
    the current validators, and once per assurance. *)
Theorem statistics_never_rotate b stats reporters validators :
  let stats' := CalculateNewValidatorStatistics b (CalculateNewTimeState (block_Header b)) stats
                  reporters validators in
  stats'.1 = stats.1 ∧
  ∀ v s, stats.2 !! v = Some s → ∃ s', stats'.2 !! v = Some s' ∧
    NumOfBlocks s' = (if Z.of_nat v =? BlockAuthorIndex (block_Header b)
                      then uint32 (NumOfBlocks s + 1) else NumOfBlocks s) ∧
    (inU 64 (NumOfAvailabilityAssurances s) →
     NumOfAvailabilityAssurances s' = uint64 (NumOfAvailabilityAssurances s +
       len (filter (λ a, assurance_ValidatorIndex a = Z.of_nat v) (EA (block_Extrinsic b))))) ∧
    ((∃ k, validators !! v = Some (Some k) ∧ Ed25519 k ∈ reporters) →
     NumOfGuaranteedReports s' = uint64 (NumOfGuaranteedReports s + 1)).
Proof.
  unfold CalculateNewValidatorStatistics, CalculateNewTimeState. rewrite Z.eqb_refl. cbn [negb].
  destruct stats as [completed present]. cbn. split; [done|]. intros v s Hs.
  rewrite list_lookup_imap, Hs. cbn. eexists. split; [reflexivity|]. cbn. split_and!; [done| |].
  - intros Hin. generalize (EA (block_Extrinsic b)). intros l. revert Hin.
    generalize (NumOfAvailabilityAssurances s). induction l as [|a l IH]; intros n Hn; cbn [foldl].
    { rewrite Z.add_0_r. symmetry. by apply wrapU_id. }
    rewrite filter_cons. destruct (Z.eqb_spec (assurance_ValidatorIndex a) (Z.of_nat v)) as [E|E].
    + rewrite decide_True by done. rewrite IH by (by apply wrapU_range). unfold uint64, wrapU, len.
      rewrite Zplus_mod_idemp_l. cbn [length]. f_equal. lia.
    + rewrite decide_False by done. by apply IH.
  - intros (k & Hk & Hin). rewrite Hk. cbn. by rewrite bool_decide_true.
Qed.

(** ** Preimages *)

Section preimages.
Context (HashData : list Z → Hash) (slot : Z).

(** One preimage, on accounts without nil maps. *)
Lemma add_preimage_shared services p :
  let r := add_preimage HashData ∅ ∅ slot services services p in
  r.1 = r.2 ∧
  (∀ s account, services !! s = Some account → ∃ account', r.2 !! s = Some account' ∧
     (∀ h data, PreimageLookup account !! h = Some data → PreimageLookup account' !! h = Some data) ∧
     (ServiceIndex p = s → PreimageLookup account !! HashData (preimage_Data p) = None →
      default [] (PreimageMeta account !!
        (HashData (preimage_Data p), uint32 (len (preimage_Data p)))) = [] →
      PreimageLookup account' !! HashData (preimage_Data p) = Some (preimage_Data p) ∧
      PreimageMeta account' !! (HashData (preimage_Data p), uint32 (len (preimage_Data p)))
        = Some [slot])).
Proof.
  unfold add_preimage. set (h := HashData (preimage_Data p)). set (l := uint32 _). cbn zeta.
  unfold preimageHasBeenSolicited.
  destruct (services !! ServiceIndex p) as [account|] eqn:E; cbn [negb].
  2:{ cbn. split; [done|]. intros s a Ha. exists a. split_and!; [done|done|]. intros <-. congruence. }
  case_bool_decide as Hp; cbn [negb andb].
  { cbn. split; [done|]. intros s a Ha. exists a. split_and!; [done|done|]. intros <- Hn.
    assert (a = account) as -> by congruence. rewrite Hn in Hp. by destruct Hp. }
  destruct (len (default [] _) =? 0) eqn:Em; cbn [negb].
  2:{ cbn. split; [done|]. intros s a Ha. exists a. split_and!; [done|done|]. intros <- _ Hmeta.
      assert (a = account) as -> by congruence. by rewrite Hmeta in Em. }
  rewrite !bool_decide_false by set_solver. cbn. split; [done|]. intros s a Ha.
  destruct (decide (s = ServiceIndex p)) as [->|Hs].
  - assert (a = account) as -> by congruence. eexists. split; [apply lookup_insert_eq|]. cbn. split.
    + intros h' data Hd. destruct (decide (h' = h)) as [->|Hne]; [|by rewrite lookup_insert_ne].
      destruct Hp. by eexists.
    + intros _ _ _. by rewrite !lookup_insert_eq.
  - exists a. split_and!; [etrans; [by apply lookup_insert_ne|done]|done|]. intros E2. by destruct Hs.
Qed.

(** What an account holds it keeps, over all preimages of the block. *)
Lemma preimages_kept ps services :
  let r := foldl (λ '(shared, cloned) p, add_preimage HashData ∅ ∅ slot shared cloned p)
             (services, services) ps in
  r.1 = r.2 ∧
  ∀ s account, services !! s = Some account → ∃ account', r.2 !! s = Some account' ∧
    ∀ h data, PreimageLookup account !! h = Some data → PreimageLookup account' !! h = Some data.
Proof.
  revert services. induction ps as [|p ps IH]; intros services; cbn [foldl].
  { split; [done|]. intros s a Ha. by exists a. }
  destruct (add_preimage_shared services p) as [Heq Hkeep].
  destruct (add_preimage HashData ∅ ∅ slot services services p) as [s1 s2]. cbn in Heq. subst s2.
  destruct (IH s1) as [Heq' Hkeep']. split; [done|]. intros s a Ha.
  destruct (Hkeep s a Ha) as (a1 & Ha1 & Hk1 & _). destruct (Hkeep' s a1 Ha1) as (a2 & Ha2 & Hk2).
  exists a2. split; [done|]. auto.
Qed.
End preimages.

(** [CalculateIntermediateServiceState] on accounts with existing maps: the
    accounts returned share their maps with the input, which is changed with
    them although the comment says it is not; the first preimage of a block that
    its service does not have is stored under its hash, and no account loses
    one.  An account whose lookup map is nil gets a fresh map per preimage, so of
    two preimages for it only the second remains. *)
Theorem preimages_integrated (HashData : list Z → Hash) slot services :
  (∀ p ps account,
     let r := CalculateIntermediateServiceState HashData ∅ ∅ (p :: ps) services slot in
     r.1 = r.2 ∧
     (services !! ServiceIndex p = Some account →
      PreimageLookup account !! HashData (preimage_Data p) = None →
      default [] (PreimageMeta account !!
        (HashData (preimage_Data p), uint32 (len (preimage_Data p)))) = [] →
      ∃ account', r.2 !! ServiceIndex p = Some account' ∧
        PreimageLookup account' !! HashData (preimage_Data p) = Some (preimage_Data p) ∧
        ∀ h data, PreimageLookup account !! h = Some data → PreimageLookup account' !! h = Some data)) ∧
  (∀ p1 p2 account nilMeta,
     ServiceIndex p1 = ServiceIndex p2 → services !! ServiceIndex p2 = Some account →
     PreimageLookup account = ∅ → PreimageMeta account = ∅ →
     HashData (preimage_Data p1) ≠ HashData (preimage_Data p2) →
     let r := CalculateIntermediateServiceState HashData {[ServiceIndex p2]} nilMeta [p1; p2] services
                slot in
     ∃ account', r.2 !! ServiceIndex p2 = Some account' ∧
       PreimageLookup account' = {[HashData (preimage_Data p2) := preimage_Data p2]}).
Proof.
  split.
  - intros p ps account. unfold CalculateIntermediateServiceState. cbn [foldl].
    destruct (add_preimage_shared HashData slot services p) as [Heq Hkeep].
    destruct (add_preimage HashData ∅ ∅ slot services services p) as [s1 s2]. cbn in Heq. subst s2.
    destruct (preimages_kept HashData slot ps s1) as [Heq' Hkeep']. split; [done|].
    intros Hacc Hnone Hmeta. destruct (Hkeep _ _ Hacc) as (a1 & Ha1 & Hk1 & Hnew).
    destruct (Hnew eq_refl Hnone Hmeta) as [Hl _]. destruct (Hkeep' _ _ Ha1) as (a2 & Ha2 & Hk2).
    exists a2. split_and!; [done|by apply Hk2|]. auto.
  - intros p1 p2 account nilMeta Hs Hacc Hlk Hmt Hne.
    unfold CalculateIntermediateServiceState. cbn [foldl].
    set (r1 := add_preimage HashData {[ServiceIndex p2]} nilMeta slot services services p1).
    assert (∃ meta (shared cloned : ServiceState), r1 = (shared, cloned) ∧
      shared !! ServiceIndex p2 = Some (with_preimages ∅ meta account) ∧
      default [] (meta !! (HashData (preimage_Data p2), uint32 (len (preimage_Data p2)))) = [])
      as (meta & shared & cloned & -> & Hsh & Hmeta).
    { unfold r1, add_preimage, preimageHasBeenSolicited. rewrite Hs, Hacc, Hlk, Hmt, !lookup_empty.
      rewrite bool_decide_false by (by intros [? ?]). cbn.
      rewrite bool_decide_true by set_solver. eexists _, _, _. split; [reflexivity|].
      split; [apply lookup_insert_eq|].
      case_bool_decide; [by rewrite lookup_empty|]. by rewrite lookup_insert_ne by congruence. }
    unfold add_preimage, preimageHasBeenSolicited. rewrite Hsh. cbn.
    rewrite lookup_empty, bool_decide_false by (by intros [? ?]). cbn. rewrite Hmeta. cbn.
    eexists. split; [apply lookup_insert_eq|]. cbn. by rewrite insert_empty.
Qed.
