(* ===== verification/HostCalls.v ===== *)
(** * Host calls: shared maps, general functions

    [internal/polkavm/host_call/common.go] and [general_functions.go].  A host
    call gets gas, registers and memory of the machine and works on service
    accounts.  Accounts and contexts are Go structs that hold references to
    maps, and copies of a struct share them, so maps live on a heap here. *)
From S2P Require Export PvmInvoke Services.

(** ** Maps on a heap *)

(** A reference to a map; [None] is a nil map. *)
Definition ref : Type := option nat.

(** [service.ServiceAccount] with its maps as references *)
Record Account : Type := MkAcct {
  acct_Storage : ref;
  acct_PreimageLookup : ref;
  acct_PreimageMeta : ref;
  acct_CodeHash : Hash;
  acct_Balance : Z;
  acct_GasLimitForAccumulator : Z;
  acct_GasLimitOnTransfer : Z;
}.

(** The maps by their types: [map[Hash][]byte], the preimages' metadata,
    service states, and gas per service. *)
Record Heap : Type := MkHeap {
  h_bytes : gmap nat (gmap Hash (list Z));
  h_meta : gmap nat (gmap PreImageMetaKey (list Z));
  h_services : gmap nat (gmap Z Account);
  h_gas : gmap nat (gmap Z Z);
}.

(** Reading from a nil map finds nothing. *)
Definition map_at {K A} `{Countable K} (maps : gmap nat (gmap K A)) (r : ref) : gmap K A :=
  match r with None => ∅ | Some l => default ∅ (maps !! l) end.

(** [m[k] = v]; on a nil map a runtime panic *)
Definition map_put {K A} `{Countable K} (maps : gmap nat (gmap K A)) (r : ref) (k : K) (a : A)
  : option (gmap nat (gmap K A)) :=
  match r with None => None | Some l => Some (<[l := <[k := a]> (map_at maps r)]> maps) end.

(** [delete(m, k)]; on a nil map a no-op *)
Definition map_remove {K A} `{Countable K} (maps : gmap nat (gmap K A)) (r : ref) (k : K)
  : gmap nat (gmap K A) :=
  match r with None => maps | Some l => <[l := delete k (map_at maps r)]> maps end.

(** [make(map[K]V)] or a map literal *)
Definition map_new {K A} `{Countable K} (maps : gmap nat (gmap K A)) (m : gmap K A)
  : ref * gmap nat (gmap K A) :=
  let l := fresh (dom maps) in (Some l, <[l := m]> maps).

Definition with_bytes (m : gmap nat (gmap Hash (list Z))) (h : Heap) : Heap :=
  MkHeap m (h_meta h) (h_services h) (h_gas h).
Definition with_meta (m : gmap nat (gmap PreImageMetaKey (list Z))) (h : Heap) : Heap :=
  MkHeap (h_bytes h) m (h_services h) (h_gas h).
Definition with_services (m : gmap nat (gmap Z Account)) (h : Heap) : Heap :=
  MkHeap (h_bytes h) (h_meta h) m (h_gas h).
Definition with_gas_map (m : gmap nat (gmap Z Z)) (h : Heap) : Heap :=
  MkHeap (h_bytes h) (h_meta h) (h_services h) m.

(** The account a struct stands for at present. *)
Definition read_account (h : Heap) (a : Account) : ServiceAccount :=
  MkAccount (map_at (h_bytes h) (acct_Storage a)) (map_at (h_bytes h) (acct_PreimageLookup a))
    (map_at (h_meta h) (acct_PreimageMeta a)) (acct_CodeHash a) (acct_Balance a)
    (acct_GasLimitForAccumulator a) (acct_GasLimitOnTransfer a).
Definition read_services (h : Heap) (r : ref) : ServiceState :=
  read_account h <$> map_at (h_services h) r.

(** The value of a missing key. *)
Definition zeroAcct : Account := MkAcct None None None ZeroHash 0 0 0.

Definition with_balance (b : Z) (a : Account) : Account :=
  MkAcct (acct_Storage a) (acct_PreimageLookup a) (acct_PreimageMeta a) (acct_CodeHash a) b
    (acct_GasLimitForAccumulator a) (acct_GasLimitOnTransfer a).
Definition with_code (c : Hash) (g m : Z) (a : Account) : Account :=
  MkAcct (acct_Storage a) (acct_PreimageLookup a) (acct_PreimageMeta a) c (acct_Balance a) g m.

(** ** Functions with early returns

    A host function works on local copies of gas, registers and memory and on a
    state; every return statement returns all of them with an error or nil. *)
Record hstate (X : Type) : Type := MkHst {
  hs_gas : Z;
  hs_regs : Registers;
  hs_mem : Memory;
  hs_x : X;
}.
Arguments MkHst {X} _ _ _ _.
Arguments hs_gas {X} _.
Arguments hs_regs {X} _.
Arguments hs_mem {X} _.
Arguments hs_x {X} _.

Inductive hout (X A : Type) : Type :=
| HNext (a : A) (s : hstate X)
| HReturn (s : hstate X) (err : option pvm_error)
| HCrash.
Arguments HNext {X A} _ _.
Arguments HReturn {X A} _ _.
Arguments HCrash {X A}.

Definition host (X A : Type) : Type := hstate X → hout X A.

Definition hbind {X A B} (c : host X A) (k : A → host X B) : host X B := λ s,
  match c s with
  | HNext a s => k a s
  | HReturn s e => HReturn s e
  | HCrash => HCrash
  end.

Notation "'let?' x ':=' c 'in' k" := (hbind c (λ x, k))
  (at level 10, x pattern, c at level 100, k at level 200) : go_scope.

Definition run {X} (c : host X unit) (gas : Z) (rs : Registers) (mem : Memory) (x : X)
  : host_result X :=
  match c (MkHst gas rs mem x) with
  | HNext _ s => HostReturn (hs_gas s) (hs_regs s) (hs_mem s) (hs_x s) None
  | HReturn s e => HostReturn (hs_gas s) (hs_regs s) (hs_mem s) (hs_x s) e
  | HCrash => HostCrash
  end.

Definition host_map {X Y} (f : X → Y) (r : host_result X) : host_result Y :=
  match r with
  | HostReturn gas rs mem x e => HostReturn gas rs mem (f x) e
  | HostCrash => HostCrash
  end.

Section primitives.
Context {X : Type}.

Definition hpure {A} (a : A) : host X A := λ s, HNext a s.
(** [return gas, regs, mem, x, err] *)
Definition hreturn {A} (e : option pvm_error) : host X A := λ s, HReturn s e.
Definition hcrash {A} : host X A := λ _, HCrash.
Definition hget : host X X := λ s, HNext (hs_x s) s.
Definition hput (x : X) : host X unit := λ s, HNext () (MkHst (hs_gas s) (hs_regs s) (hs_mem s) x).
Definition hgas : host X Z := λ s, HNext (hs_gas s) s.

(** [if gas < cost { return ErrOutOfGas }; gas -= cost], on [int64] *)
Definition charge (cost : Z) : host X unit := λ s,
  if hs_gas s <? cost then HReturn s (Some ErrOutOfGas)
  else HNext () (MkHst (int64 (hs_gas s - cost)) (hs_regs s) (hs_mem s) (hs_x s)).

(** A call whose error is returned as [f] of it. *)
Definition hcall {A} (f : pvm_error → pvm_error) (c : res pvm_error A) : host X A := λ s,
  match c with
  | Ok a => HNext a s
  | Err e => HReturn s (Some (f e))
  | RuntimePanic => HCrash
  end.

Definition get_reg (r : Z) : host X Z := λ s, hcall id (go_index (hs_regs s) r) s.
Definition put_reg (r v : Z) : host X unit := λ s,
  match go_update (E := pvm_error) (hs_regs s) r v with
  | Ok rs => HNext () (MkHst (hs_gas s) rs (hs_mem s) (hs_x s))
  | _ => HCrash
  end.

(** [make([]byte, n)] *)
Definition make_bytes (n : Z) : host X unit :=
  let? _ := hcall id (go_make 1 n 0) in hpure ().

(** [b := make([]byte, n); if err := mem.Read(addr, b); err != nil { return
    ErrPanicf(err.Error()) }] *)
Definition read_bytes (addr n : Z) : host X (list Z) :=
  let? _ := make_bytes n in
  λ s, hcall ErrPanicOf (PvmMemory.Read (hs_mem s) addr n) s.

Definition put_mem (m : Memory) : host X unit := λ s,
  HNext () (MkHst (hs_gas s) (hs_regs s) m (hs_x s)).

(** [mem.Write], its error given by [f] *)
Definition write_bytes (f : pvm_error → pvm_error) (addr : Z) (data : list Z) : host X unit := λ s,
  (let? m := hcall f (PvmMemory.Write (hs_mem s) addr data) in put_mem m) s.

(** A map operation that panics on a nil map. *)
Definition hmap {A} (o : option A) : host X A :=
  match o with Some a => hpure a | None => hcrash end.
End primitives.

(** ** Constants ([common.go]) *)

(** All costs are 10: the constants repeat the expression of the first one. *)
Definition HostCallCost : Z := 10.

Definition NONE : Z := 2 ^ 64 - 1.
Definition WHAT : Z := 2 ^ 64 - 2.
Definition OOB : Z := 2 ^ 64 - 3.
Definition WHO : Z := 2 ^ 64 - 4.
Definition FULL : Z := 2 ^ 64 - 5.
Definition CORE : Z := 2 ^ 64 - 6.
Definition CASH : Z := 2 ^ 64 - 7.
Definition LOW : Z := 2 ^ 64 - 8.
Definition HUH : Z := 2 ^ 64 - 9.
Definition OK : Z := 0.

Definition ErrAccountNotFound : pvm_error := ErrPanic "account not found".

Module Host.
Section functions.
Context {X : Type}.

(** [readNumber]; both errors end up in [ErrPanicf]. *)
Definition readNumber (t : gotype) (addr length : Z) : host X Z :=
  let? b := read_bytes addr length in
  let? v := hcall ErrPanicOf (map_err ErrJam (Unmarshal t b (VNum 0))) in
  hpure (num_of v).

(** [return gas, withCode(regs, c), mem, x, nil] *)
Definition withCode {A} (c : Z) : host X A := let? _ := put_reg A0 c in hreturn None.

Definition writeFromOffset (addressToWrite : Z) (data : list Z) (offset length : Z) : host X unit :=
  let vLen := len data in
  let f := Z.min offset vLen in
  let l := Z.min length (vLen - f) in
  if 0 <? l then
    write_bytes (λ _, ErrPanic "out-of-bounds write at address %d") addressToWrite
      (take (Z.to_nat l) (drop (Z.to_nat f) data))
  else hpure ().

(** ** General functions *)

Definition GasRemaining : host X unit :=
  let? _ := charge HostCallCost in
  let? gas := hgas in
  let? _ := put_reg A0 (uint64 gas) in
  hreturn None.

(** The account for another service is taken from the caller's own index. *)
Definition Lookup (h : Heap) (s : Account) (serviceId : Z) (serviceState : gmap Z Account)
  : host X unit :=
  let? _ := charge HostCallCost in
  let? omega7 := get_reg A0 in
  let? a :=
    (if negb (omega7 =? MaxUint64) && negb (omega7 =? serviceId) then
       match serviceState !! serviceId with
       | Some a => hpure a
       | None => withCode NONE
       end
     else hpure s) in
  let? hh := get_reg A1 in
  let? o := get_reg A2 in
  let? key := read_bytes hh 32 in
  match PreimageLookup (read_account h a) !! key with
  | None => withCode NONE
  | Some v =>
      let? offset := get_reg A3 in
      let? length := get_reg A4 in
      let? _ := writeFromOffset o v offset length in
      let? _ := put_reg A0 (uint64 (len v)) in
      hreturn None
  end.

Section hashing.
Context (HashData : list Z → Hash).

(** The storage key of a service for a key in memory: [H(E4(s) ++ key)] *)
Definition storage_key (serviceId : Z) (keyData : list Z) : host X Hash :=
  let? serviceIdBytes :=
    hcall ErrPanicOf (map_err ErrJam (Marshal (TPrim true Uint32) (VNum serviceId))) in
  hpure (HashData (serviceIdBytes ++ keyData)).

Definition Read (h : Heap) (s : Account) (serviceId : Z) (serviceState : gmap Z Account)
  : host X unit :=
  let? _ := charge HostCallCost in
  let? omega7 := get_reg A0 in
  let ss := if omega7 =? MaxUint64 then serviceId else uint32 omega7 in
  let? a :=
    (if negb (ss =? serviceId) then
       match serviceState !! ss with
       | Some a => hpure a
       | None => hreturn (Some ErrAccountNotFound)
       end
     else hpure s) in
  let? ko := get_reg A1 in
  let? kz := get_reg A2 in
  let? o := get_reg A3 in
  let? keyData := read_bytes ko kz in
  let? k := storage_key ss keyData in
  match Storage (read_account h a) !! k with
  | None => withCode NONE
  | Some v =>
      let? offset := get_reg A4 in
      let? length := get_reg A5 in
      let? _ := writeFromOffset o v offset length in
      let? _ := put_reg A0 (uint64 (len v)) in
      hreturn None
  end.
End hashing.

(** [AccountInfo] as the codec sees it *)
Definition info_type : gotype := TStruct
  [(field "CodeHash", hash_type); (field "Balance", TPrim false Uint64);
   (field "ThresholdBalance", TPrim false Uint64);
   (field "GasLimitForAccumulator", TPrim false Uint64);
   (field "GasLimitOnTransfer", TPrim false Uint64);
   (field "TotalStorageSize", TPrim false Uint64); (field "TotalItems", TPrim false Uint32)].
Definition info_value (t : ServiceAccount) : goval := VSeq
  [hash_value (CodeHash t); VNum (Balance t); VNum (ThresholdBalance t);
   VNum (GasLimitForAccumulator t); VNum (GasLimitOnTransfer t); VNum (TotalStorageSize t);
   VNum (TotalItems t)].

Definition Info (h : Heap) (serviceId : Z) (serviceState : gmap Z Account) : host X unit :=
  let? _ := charge HostCallCost in
  let? omega7 := get_reg A0 in
  let? omega8 := get_reg A1 in
  let t := if negb (omega7 =? MaxUint64) then serviceState !! uint32 omega7
           else serviceState !! serviceId in
  match t with
  | None => withCode NONE
  | Some t =>
      let? m := hcall id (map_err ErrJam (Marshal info_type (info_value (read_account h t)))) in
      let? _ := write_bytes ErrPanicOf omega8 m in
      withCode OK
  end.
End functions.

(** [Write]: the account is returned as it came in; its storage map, which all
    copies share, is changed before the threshold is checked. *)
Definition Write (HashData : list Z → Hash) (s : Account) (serviceId : Z) : host Heap unit :=
  let? _ := charge HostCallCost in
  let? ko := get_reg A0 in
  let? kz := get_reg A1 in
  let? vo := get_reg A2 in
  let? vz := get_reg A3 in
  let? keyData := read_bytes ko kz in
  let? k := storage_key HashData serviceId keyData in
  let? _ :=
    (if vz =? 0 then
       let? h := hget in
       hput (with_bytes (map_remove (h_bytes h) (acct_Storage s) k) h)
     else
       let? valueData := read_bytes vo vz in
       let? h := hget in
       let? m := hmap (map_put (h_bytes h) (acct_Storage s) k valueData) in
       hput (with_bytes m h)) in
  let? h := hget in
  match Storage (read_account h s) !! k with
  | None => withCode NONE
  | Some storageItem =>
      if acct_Balance s <? ThresholdBalance (read_account h s) then withCode FULL
      else
        let? _ := put_reg A0 (uint64 (len storageItem)) in
        hreturn None
  end.
End Host.
