(* ===== verification/HostAccumulate.v ===== *)
(** * Host calls of accumulation

    [internal/polkavm/host_call/accumulate_functions.go] and the contexts of
    [internal/polkavm/common.go].  Copies of a context share the map of services
    and the map of privileged gas; the arrays of authorizer queues and validator
    keys are copied. *)
From S2P Require Export HostCalls.

(** [state.AccumulationState] with its maps as references *)
Record AccStateRef : Type := MkAccRef {
  ref_ServiceState : ref;
  ref_ValidatorKeys : ValidatorsData;
  ref_PendingAuthorizersQueues : list (list Hash);
  ref_Manager : Z;
  ref_Assign : Z;
  ref_Designate : Z;
  ref_AmountOfGas : ref;
}.

Record AccumulateContext : Type := MkCtx {
  ctx_ServiceId : Z;
  ctx_AccumulationState : AccStateRef;
  ctx_NewServiceId : Z;
  ctx_DeferredTransfers : list DeferredTransfer;
  ctx_AccumulationHash : option Hash;
}.

Record AccumulateContextPair : Type := MkPair {
  RegularCtx : AccumulateContext;
  ExceptionalCtx : AccumulateContext;
}.

Definition with_privileges (manager assign designate : Z) (u : AccStateRef) : AccStateRef :=
  MkAccRef (ref_ServiceState u) (ref_ValidatorKeys u) (ref_PendingAuthorizersQueues u)
    manager assign designate (ref_AmountOfGas u).
Definition with_gas_ref (r : ref) (u : AccStateRef) : AccStateRef :=
  MkAccRef (ref_ServiceState u) (ref_ValidatorKeys u) (ref_PendingAuthorizersQueues u)
    (ref_Manager u) (ref_Assign u) (ref_Designate u) r.
Definition with_queues (q : list (list Hash)) (u : AccStateRef) : AccStateRef :=
  MkAccRef (ref_ServiceState u) (ref_ValidatorKeys u) q (ref_Manager u) (ref_Assign u)
    (ref_Designate u) (ref_AmountOfGas u).
Definition with_keys (v : ValidatorsData) (u : AccStateRef) : AccStateRef :=
  MkAccRef (ref_ServiceState u) v (ref_PendingAuthorizersQueues u) (ref_Manager u) (ref_Assign u)
    (ref_Designate u) (ref_AmountOfGas u).

Definition with_acc_state (u : AccStateRef) (c : AccumulateContext) : AccumulateContext :=
  MkCtx (ctx_ServiceId c) u (ctx_NewServiceId c) (ctx_DeferredTransfers c) (ctx_AccumulationHash c).
Definition with_new_id (i : Z) (c : AccumulateContext) : AccumulateContext :=
  MkCtx (ctx_ServiceId c) (ctx_AccumulationState c) i (ctx_DeferredTransfers c)
    (ctx_AccumulationHash c).
Definition with_transfers (t : list DeferredTransfer) (c : AccumulateContext) : AccumulateContext :=
  MkCtx (ctx_ServiceId c) (ctx_AccumulationState c) (ctx_NewServiceId c) t (ctx_AccumulationHash c).
Definition with_hash (h : option Hash) (c : AccumulateContext) : AccumulateContext :=
  MkCtx (ctx_ServiceId c) (ctx_AccumulationState c) (ctx_NewServiceId c) (ctx_DeferredTransfers c) h.

(** ** The state of a host function *)

Definition ctx_state : Type := AccumulateContextPair * Heap.
Definition regular (x : ctx_state) : AccumulateContext := RegularCtx x.1.

Definition update_regular (f : AccumulateContext → AccumulateContext) : host ctx_state unit :=
  let? x := hget in
  hput (MkPair (f (RegularCtx x.1)) (ExceptionalCtx x.1), x.2).
Definition update_acc (f : AccStateRef → AccStateRef) : host ctx_state unit :=
  update_regular (λ c, with_acc_state (f (ctx_AccumulationState c)) c).
Definition put_heap (h : Heap) : host ctx_state unit := let? x := hget in hput (x.1, h).

Definition services_ref (c : AccumulateContext) : ref := ref_ServiceState (ctx_AccumulationState c).
Definition services_of (c : AccumulateContext) (h : Heap) : gmap Z Account :=
  map_at (h_services h) (services_ref c).

(** [ctx.ServiceAccount()] *)
Definition ctx_account (c : AccumulateContext) (h : Heap) : Account :=
  default zeroAcct (services_of c h !! ctx_ServiceId c).
Definition own_account : host ctx_state Account :=
  let? x := hget in hpure (ctx_account (regular x) x.2).

(** [ctxPair.RegularCtx.AccumulationState.ServiceState[id] = a] *)
Definition set_service (id : Z) (a : Account) : host ctx_state unit :=
  let? x := hget in
  let? m := hmap (map_put (h_services x.2) (services_ref (regular x)) id a) in
  put_heap (with_services m x.2).
Definition set_own (a : Account) : host ctx_state unit :=
  let? x := hget in set_service (ctx_ServiceId (regular x)) a.
Definition delete_service (id : Z) : host ctx_state unit :=
  let? x := hget in
  put_heap (with_services (map_remove (h_services x.2) (services_ref (regular x)) id) x.2).

(** Metadata of a preimage of [a]. *)
Definition set_meta (a : Account) (key : PreImageMetaKey) (ts : list Z) : host ctx_state unit :=
  let? x := hget in
  let? m := hmap (map_put (h_meta x.2) (acct_PreimageMeta a) key ts) in
  put_heap (with_meta m x.2).
Definition meta_of (a : Account) (key : PreImageMetaKey) : host ctx_state (option (list Z)) :=
  let? x := hget in hpure (PreimageMeta (read_account x.2 a) !! key).

Module Acc.
Import Host.

(** One turn of the loop of [Bless]. *)
Definition bless_entry (addr i : Z) : host ctx_state unit :=
  let? serviceId := readNumber (TPrim true Uint32) (uint64 (addr + uint64 (12 * i))) 4 in
  let? serviceGas :=
    readNumber (TPrim false Uint64) (uint64 (uint64 (addr + uint64 (12 * i)) + 4)) 8 in
  let? x := hget in
  let? _ :=
    match ref_AmountOfGas (ctx_AccumulationState (regular x)) with
    | Some _ => hpure ()
    | None =>
        let '(r, m) := map_new (h_gas x.2) ∅ in
        let? _ := put_heap (with_gas_map m x.2) in
        update_acc (with_gas_ref r)
    end in
  let? x := hget in
  let? m := hmap (map_put (h_gas x.2) (ref_AmountOfGas (ctx_AccumulationState (regular x)))
                    serviceId serviceGas) in
  put_heap (with_gas_map m x.2).

Fixpoint bless_entries (addr i : Z) (n : nat) : host ctx_state unit :=
  match n with
  | O => hpure ()
  | S n => let? _ := bless_entry addr i in bless_entries addr (i + 1) n
  end.

Definition Bless : host ctx_state unit :=
  let? _ := charge HostCallCost in
  let? managerServiceId := get_reg A0 in
  let? assignServiceId := get_reg A1 in
  let? designateServiceId := get_reg A2 in
  let? addr := get_reg A3 in
  let? servicesNr := get_reg A4 in
  let? _ := bless_entries addr 0 (Z.to_nat servicesNr) in
  let? _ := update_acc (with_privileges (uint32 managerServiceId) (uint32 assignServiceId)
                          (uint32 designateServiceId)) in
  withCode OK.

(** The queue of core [core] is written entry by entry. *)
Fixpoint assign_entries (addr core i : Z) (n : nat) : host ctx_state unit :=
  match n with
  | O => hpure ()
  | S n =>
      let? bytes := read_bytes (uint64 (addr + 32 * i)) 32 in
      let? x := hget in
      let? q := hcall id (
        let queues := ref_PendingAuthorizersQueues (ctx_AccumulationState (regular x)) in
        let! queue := go_index queues core in
        let! queue := go_update queue i bytes in
        go_update queues core queue) in
      let? _ := update_acc (with_queues q) in
      assign_entries addr core (i + 1) n
  end.

Definition Assign : host ctx_state unit :=
  let? _ := charge HostCallCost in
  let? addr := get_reg A1 in
  let? core := get_reg A0 in
  if TotalNumberOfCores <=? core then withCode CORE
  else
    let? _ := assign_entries addr core 0 (Z.to_nat PendingAuthorizersQueueSize) in
    withCode OK.

(** A key of 336 bytes: 32, 32, 144 and 128. *)
Definition validator_key (bytes : list Z) : ValidatorKey :=
  MkValidatorKey (take 32 bytes) (take 32 (drop 32 bytes)) (take 144 (drop 64 bytes))
    (take 128 (drop 208 bytes)).

Fixpoint designate_entries (addr i : Z) (n : nat) : host ctx_state unit :=
  match n with
  | O => hpure ()
  | S n =>
      let? bytes := read_bytes (uint64 (addr + 336 * i)) 336 in
      let? x := hget in
      let? v := hcall id (go_update (ref_ValidatorKeys (ctx_AccumulationState (regular x))) i
                            (Some (validator_key bytes))) in
      let? _ := update_acc (with_keys v) in
      designate_entries addr (i + 1) n
  end.

Definition Designate : host ctx_state unit :=
  let? _ := charge HostCallCost in
  let? addr := get_reg A0 in
  let? _ := designate_entries addr 0 (Z.to_nat NumberOfValidators) in
  withCode OK.

(** The copy shares the maps of the regular context. *)
Definition Checkpoint : host ctx_state unit :=
  let? _ := charge HostCallCost in
  let? x := hget in
  let? _ := hput (MkPair (RegularCtx x.1) (RegularCtx x.1), x.2) in
  let? gas := hgas in
  let? _ := put_reg A0 (uint64 gas) in
  hreturn None.

(** The account that [New] creates, with the threshold as its balance, and the
    heap with its two maps. *)
Definition new_service (codeHash : Hash) (preimageLength gasLimitAccumulator gasLimitTransfer : Z)
    (h : Heap) : Account * Heap :=
  let '(storage, bytes) := map_new (h_bytes h) ∅ in
  let '(meta, metas) := map_new (h_meta h) {[(codeHash, uint32 preimageLength) := []]} in
  let h := with_meta metas (with_bytes bytes h) in
  let account := MkAcct storage None meta codeHash 0 gasLimitAccumulator gasLimitTransfer in
  (with_balance (ThresholdBalance (read_account h account)) account, h).

(** [CheckIndex] recurses without end, that is until the stack overflows, when no
    index is free. *)
Definition New : host ctx_state unit :=
  let? _ := charge HostCallCost in
  let? addr := get_reg A0 in
  let? preimageLength := get_reg A1 in
  let? gasLimitAccumulator := get_reg A2 in
  let? gasLimitTransfer := get_reg A3 in
  let? codeHash := read_bytes addr 32 in
  let? x := hget in
  let '(account, h) := new_service codeHash preimageLength gasLimitAccumulator gasLimitTransfer x.2 in
  let? _ := put_heap h in
  let? currentAccount := own_account in
  let b := uint64 (acct_Balance currentAccount - ThresholdBalance (read_account h account)) in
  if ThresholdBalance (read_account h currentAccount) <=? b then
    let? _ := put_reg A0 (ctx_NewServiceId (regular x)) in
    let services := read_services h (services_ref (regular x)) in
    let? newId := hmap (CheckIndex (S (size services)) (BumpIndex (ctx_NewServiceId (regular x)))
                          services) in
    let? _ := update_regular (with_new_id newId) in
    let? _ := set_own (with_balance b currentAccount) in
    let? _ := set_service newId account in
    hreturn None
  else withCode CASH.

Definition Upgrade : host ctx_state unit :=
  let? _ := charge HostCallCost in
  let? addr := get_reg A0 in
  let? gasLimitAccumulator := get_reg A1 in
  let? gasLimitTransfer := get_reg A2 in
  let? codeHash := read_bytes addr 32 in
  let? currentService := own_account in
  let? _ := set_own (with_code codeHash gasLimitAccumulator gasLimitTransfer currentService) in
  withCode OK.

Definition TransferMemoSizeBytes : Z := 128.

(** The cost is computed on [int64], where a large gas limit is negative. *)
Definition Transfer : host ctx_state unit :=
  let? receiverId := get_reg A0 in
  let? newBalance := get_reg A1 in
  let? gasLimit := get_reg A2 in
  let? o := get_reg A3 in
  let? _ := charge (int64 (HostCallCost + int64 gasLimit)) in
  let? m := read_bytes o TransferMemoSizeBytes in
  let? x := hget in
  let deferredTransfer :=
    MkTransfer (ctx_ServiceId (regular x)) (uint32 receiverId) newBalance m gasLimit in
  match services_of (regular x) x.2 !! uint32 receiverId with
  | None => withCode WHO
  | Some receiverService =>
      if gasLimit <? acct_GasLimitOnTransfer receiverService then withCode LOW
      else
        let? own := own_account in
        if uint64 (acct_Balance own - newBalance) <? ThresholdBalance (read_account x.2 own)
        then withCode CASH
        else
          let? _ := update_regular (λ c, with_transfers (ctx_DeferredTransfers c ++ [deferredTransfer]) c) in
          withCode OK
  end.

(** [struct { ServiceId `jam:length=32` }] *)
Definition padded_id_type : gotype :=
  TStruct [(FieldInfo "ServiceId" true (TagLength 32), TPrim true Uint32)].

Definition Eject (timeslot : Z) : host ctx_state unit :=
  let? _ := charge HostCallCost in
  let? d := get_reg A0 in
  let? o := get_reg A1 in
  let? hh := read_bytes o 32 in
  let? x := hget in
  if uint32 d =? ctx_ServiceId (regular x) then withCode WHO
  else
    match services_of (regular x) x.2 !! uint32 d with
    | None => withCode WHO
    | Some account =>
        let serviceAccount := read_account x.2 account in
        match Marshal padded_id_type (VSeq [VNum (ctx_ServiceId (regular x))]) with
        | RuntimePanic => hcrash
        | Err e => let? _ := put_reg A0 WHO in hreturn (Some (ErrJam e))
        | Ok encodedXs =>
            if negb (bool_decide (CodeHash serviceAccount = encodedXs)) then withCode WHO
            else if negb (TotalItems serviceAccount =? 2) then withCode HUH
            else
              let l := Z.max 81 (len (default [] (Code serviceAccount))) - 81 in
              match PreimageMeta serviceAccount !! (hh, uint32 l) with
              | None => withCode HUH
              | Some dL =>
                  match dL with
                  | [_; y] =>
                      if y <? uint32 (timeslot - PreimageExpulsionPeriod) then
                        let? xs := own_account in
                        let? _ := delete_service (uint32 d) in
                        let? _ := set_own (with_balance
                                    (uint64 (acct_Balance xs + acct_Balance account)) xs) in
                        withCode OK
                      else withCode HUH
                  | _ => withCode HUH
                  end
              end
        end
    end.

Definition Query : host ctx_state unit :=
  let? _ := charge HostCallCost in
  let? addr := get_reg A0 in
  let? preimageMetaKeyLength := get_reg A1 in
  let? hh := read_bytes addr 32 in
  let? serviceAccount := own_account in
  let? a := meta_of serviceAccount (hh, uint32 preimageMetaKeyLength) in
  match a with
  | None => let? _ := put_reg A1 0 in withCode NONE
  | Some a =>
      let? _ :=
        match a with
        | [] => let? _ := put_reg A0 0 in put_reg A1 0
        | [x] => let? _ := put_reg A0 (uint64 (1 + uint64 (Z.shiftl x 32))) in put_reg A1 0
        | [x; y] => let? _ := put_reg A0 (uint64 (2 + uint64 (Z.shiftl x 32))) in put_reg A1 y
        | [x; y; z] =>
            let? _ := put_reg A0 (uint64 (3 + uint64 (Z.shiftl x 32))) in
            put_reg A1 (uint64 (y + uint64 (Z.shiftl z 32)))
        | _ => hpure ()
        end in
      hreturn None
  end.

(** The map of metadata, which is shared, changes before the balance is
    checked. *)
Definition Solicit (timeslot : Z) : host ctx_state unit :=
  let? _ := charge HostCallCost in
  let? addr := get_reg A0 in
  let? preimageLength := get_reg A1 in
  let? preimageHash := read_bytes addr 32 in
  let? serviceAccount := own_account in
  let key := (preimageHash, uint32 preimageLength) in
  let? a := meta_of serviceAccount key in
  let? _ :=
    match a with
    | None => set_meta serviceAccount key []
    | Some ([x; y] as ts) => set_meta serviceAccount key (ts ++ [timeslot])
    | Some _ => withCode HUH
    end in
  let? x := hget in
  if acct_Balance serviceAccount <? ThresholdBalance (read_account x.2 serviceAccount)
  then withCode FULL
  else
    let? _ := set_own serviceAccount in
    withCode OK.

(** [delete] of the metadata and of the preimage, then the account. *)
Definition drop_preimage (a : Account) (key : PreImageMetaKey) : host ctx_state unit :=
  let? x := hget in
  let? _ := put_heap (with_bytes (map_remove (h_bytes x.2) (acct_PreimageLookup a) key.1)
              (with_meta (map_remove (h_meta x.2) (acct_PreimageMeta a) key) x.2)) in
  let? _ := set_own a in
  withCode OK.

Definition Forget (timeslot : Z) : host ctx_state unit :=
  let? _ := charge HostCallCost in
  let? addr := get_reg A0 in
  let? preimageLength := get_reg A1 in
  let? preimageHash := read_bytes addr 32 in
  let? serviceAccount := own_account in
  let key := (preimageHash, uint32 preimageLength) in
  let? a := meta_of serviceAccount key in
  match default [] a with
  | [] => drop_preimage serviceAccount key
  | [_; y] =>
      if y <? uint32 (timeslot - PreimageExpulsionPeriod) then drop_preimage serviceAccount key
      else withCode HUH
  | [x] =>
      let? _ := set_meta serviceAccount key [x; timeslot] in
      let? _ := set_own serviceAccount in
      withCode OK
  | [_; y; z] =>
      if y <? uint32 (timeslot - PreimageExpulsionPeriod) then
        let? _ := set_meta serviceAccount key [z; timeslot] in
        withCode OK
      else withCode HUH
  | _ => withCode HUH
  end.

Definition Yield : host ctx_state unit :=
  let? _ := charge HostCallCost in
  let? addr := get_reg A0 in
  let? hBytes := read_bytes addr 32 in
  let? _ := update_regular (with_hash (Some hBytes)) in
  withCode OK.
End Acc.
