(* ===== verification/AccumulateInvoke.v ===== *)
(** * Running services

    [internal/statetransition/accumulate.go] and [on_transfer.go]: the host
    functions of the two invocations and the invocations themselves; and the
    functions of [state_transition.go] that call them: [Delta1], [ParallelDelta],
    [SequentialDelta] and [CalculateWorkReportsAndAccumulate].  States and contexts
    are passed by value and share maps, so the heap is passed along with them and
    is not restored when a context is. *)
From S2P Require Export HostAccumulate Guarantees.

(** ** [InvokeWholeProgram] with a heap

    As [InvokeWholeProgram]; on an error the caller gets back the context it
    passed in, whose maps are as the run left them. *)
Section whole.
Context {V S : Type} (hostCall : HostCall (V * S)).

Inductive whole_run : Type :=
| WholeRun (gas : Z) (result : list Z) (x : V) (err : option pvm_error) (s : S)
| WholeRunCrash.

Definition InvokeWholeProgram_shared (calls turns : nat) (p : list Z) (entryPoint initialGas : Z)
    (args : list Z) (x : V) (s : S) : option whole_run :=
  match PvmInvoke.prepare p entryPoint initialGas args with
  | RuntimePanic => Some WholeRunCrash
  | Err e => Some (WholeRun 0 [] x (Some e) s)
  | Ok i =>
      match InvokeHostCall hostCall calls turns i (x, s) with
      | None => None
      | Some ServedCrash => Some WholeRunCrash
      | Some (Served (_, s) (Some e) _) => Some (WholeRun 0 [] x (Some e) s)
      | Some (Served (x1, s) None i) =>
          let '(_, gas, rs, memory1) := Results i in
          match (let! a0 := go_index rs A0 in
                 let! a1 := go_index rs A1 in
                 let! _ := go_make 1 a0 0 in
                 PvmMemory.Read memory1 a1 a0) with
          | Ok result => Some (WholeRun gas result x1 None s)
          | Err e => Some (WholeRun 0 [] x (Some e) s)
          | RuntimePanic => Some WholeRunCrash
          end
      end
  end.
End whole.
Arguments WholeRun {V S} _ _ _ _ _.
Arguments WholeRunCrash {V S}.

(** Calls that may not return within their bound, fail, or panic. *)
Definition run_bind {E A B} (c : option (res E A)) (k : A → option (res E B)) : option (res E B) :=
  match c with
  | None => None
  | Some (Ok a) => k a
  | Some (Err e) => Some (Err e)
  | Some RuntimePanic => Some RuntimePanic
  end.
Notation "'let*' x ':=' c 'in' k" := (run_bind c (λ x, k))
  (at level 10, x pattern, c at level 100, k at level 200) : go_scope.

Lemma run_bind_Ok {E A B} (c : option (res E A)) (k : A → option (res E B)) b :
  run_bind c k = Some (Ok b) → ∃ a, c = Some (Ok a) ∧ k a = Some (Ok b).
Proof. destruct c as [[a| |]|]; [by exists a|done..]. Qed.

Definition OnTransferCost : Z := 10.
Definition AccumulateCost : Z := 10.

Section invocations.
Context (HashData : list Z → Hash).

(** ** Accumulation *)

(** [a.header.TimeSlotIndex] and [a.state.EntropyPool[0]] *)
Record Accumulator : Type := MkAccumulator {
  header_Timeslot : Z;
  state_Entropy : Hash;
}.

Definition service_id_type : gotype := TStruct
  [(field "ServiceID", TPrim true Uint32); (field "Entropy", hash_type);
   (field "Timeslot", TPrim true Uint32)].

Definition newServiceID (a : Accumulator) (serviceIndex : Z) : res jam_error Z :=
  let! hashBytes := Marshal service_id_type
    (VSeq [VNum serviceIndex; hash_value (state_Entropy a); VNum (header_Timeslot a)]) in
  let! v := Unmarshal (TPrim true Uint32) (HashData hashBytes) (VNum 0) in
  Ok (num_of v).

Definition zeroContext : AccumulateContext :=
  MkCtx 0 (MkAccRef None (replicate (Z.to_nat NumberOfValidators) None)
             (replicate (Z.to_nat TotalNumberOfCores)
                (replicate (Z.to_nat PendingAuthorizersQueueSize) ZeroHash)) 0 0 0 None) 0 [] None.

(** The new context's services are the one service only.  The result is the
    context, whether there was no error, and the heap with the new map. *)
Definition newCtx (a : Accumulator) (u : AccStateRef) (serviceIndex : Z) (h : Heap)
  : res unit (AccumulateContext * bool * Heap) :=
  let account := default zeroAcct (map_at (h_services h) (ref_ServiceState u) !! serviceIndex) in
  let '(r, m) := map_new (h_services h) {[serviceIndex := account]} in
  match newServiceID a serviceIndex with
  | RuntimePanic => RuntimePanic
  | Err _ => Ok (zeroContext, false, with_services m h)
  | Ok newServiceID =>
      let services := read_services h (ref_ServiceState u) in
      match DeriveIndex (S (size services)) newServiceID services with
      | None => RuntimePanic
      | Some newId =>
          Ok (MkCtx serviceIndex
                (MkAccRef r (ref_ValidatorKeys u) (ref_PendingAuthorizersQueues u) (ref_Manager u)
                   (ref_Assign u) (ref_Designate u) (ref_AmountOfGas u)) newId [] None,
              true, with_services m h)
      end
  end.

(** A call that works on gas, registers and memory only, or on the heap. *)
Definition general (c : host unit unit) : host ctx_state unit := λ s,
  match c (MkHst (hs_gas s) (hs_regs s) (hs_mem s) ()) with
  | HNext _ t => HNext () (MkHst (hs_gas t) (hs_regs t) (hs_mem t) (hs_x s))
  | HReturn t e => HReturn (MkHst (hs_gas t) (hs_regs t) (hs_mem t) (hs_x s)) e
  | HCrash => HCrash
  end.
Definition on_heap (c : host Heap unit) : host ctx_state unit := λ s,
  match c (MkHst (hs_gas s) (hs_regs s) (hs_mem s) (hs_x s).2) with
  | HNext _ t => HNext () (MkHst (hs_gas t) (hs_regs t) (hs_mem t) ((hs_x s).1, hs_x t))
  | HReturn t e => HReturn (MkHst (hs_gas t) (hs_regs t) (hs_mem t) ((hs_x s).1, hs_x t)) e
  | HCrash => HCrash
  end.

(** The statement after a call, which runs whether the call returned an error or
    not: the account of the start of the invocation is put back. *)
Definition then_restore (c : host ctx_state unit) (currentService : Account) : host ctx_state unit :=
  λ s,
    match c s with
    | HNext _ t => set_own currentService t
    | HReturn t e =>
        match set_own currentService t with
        | HNext _ t => HReturn t e
        | r => r
        end
    | HCrash => HCrash
    end.

(** Unknown calls get an answer and cost gas that may not be there. *)
Definition unknown_call {X} (cost : Z) : host X unit := λ s,
  (let? _ := put_reg A0 WHAT in
   λ s, HReturn (MkHst (int64 (hs_gas s - cost)) (hs_regs s) (hs_mem s) (hs_x s)) None) s.

(** The host function of [InvokePVM], by the identifiers of [common.go]. *)
Definition accumulate_call (a : Accumulator) (accState : AccStateRef) (serviceIndex : Z)
    (hostCall : Z) : host ctx_state unit :=
  let? x := hget in
  let currentService :=
    default zeroAcct (map_at (h_services x.2) (ref_ServiceState accState) !! serviceIndex) in
  let services := services_of (regular x) x.2 in
  let t := header_Timeslot a in
  match hostCall with
  | 0 => general Host.GasRemaining
  | 1 => then_restore (general (Host.Lookup x.2 currentService serviceIndex services)) currentService
  | 2 => then_restore (general (Host.Read HashData x.2 currentService serviceIndex services))
           currentService
  | 3 => then_restore (on_heap (Host.Write HashData currentService serviceIndex)) currentService
  | 4 => then_restore (general (Host.Info x.2 serviceIndex services)) currentService
  | 5 => Acc.Bless
  | 6 => Acc.Assign
  | 7 => Acc.Designate
  | 8 => Acc.Checkpoint
  | 9 => Acc.New
  | 10 => Acc.Upgrade
  | 11 => Acc.Transfer
  | 12 => Acc.Eject t
  | 13 => Acc.Query
  | 14 => Acc.Solicit t
  | 15 => Acc.Forget t
  | 16 => Acc.Yield
  | _ => unknown_call AccumulateCost
  end.

Definition accumulate_host (a : Accumulator) (accState : AccStateRef) (serviceIndex : Z)
  : HostCall ctx_state := λ hostCall gas rs mem x,
  run (accumulate_call a accState serviceIndex hostCall) gas rs mem x.

(** [E(t, s, ↕o)] *)
Definition operand_type : gotype := TStruct
  [(field "Output", output_type); (field "PayloadHash", hash_type);
   (field "WorkPackageHash", hash_type); (field "AuthorizationOutput", TBytes)].
Definition operand_value (o : AccumulationOperand) : goval := VSeq
  [output_value (operand_Output o); hash_value (operand_PayloadHash o);
   hash_value (operand_WorkPackageHash o); VBytes (AuthorizationOutput o)].
Definition arguments_type : gotype := TStruct
  [(field "Timeslot", TPrim true Uint32); (field "ServiceID", TPrim true Uint32);
   (field "AccumulationOperands", TSlice operand_type)].

(** What an invocation returns, and the heap. *)
Definition invocation : Type :=
  AccStateRef * list DeferredTransfer * option Hash * Z * Heap.

(** What a context gives back, with no transfers and no gas. *)
Definition unchanged (ctx : AccumulateContext) (h : Heap) : invocation :=
  (ctx_AccumulationState ctx, [], None, 0, h).

(** [None]: the bounds on calls and turns are used up. *)
Definition InvokePVM (calls turns : nat) (a : Accumulator) (accState : AccStateRef) (newTime : Z)
    (serviceIndex gas : Z) (accOperand : list AccumulationOperand) (h : Heap)
  : option (res unit invocation) :=
  let account := default zeroAcct (map_at (h_services h) (ref_ServiceState accState) !! serviceIndex) in
  match newCtx a accState serviceIndex h with
  | RuntimePanic => Some RuntimePanic
  | Err e => Some (Err e)
  | Ok (ctx, ok, h) =>
      match Code (read_account h account) with
      | None => Some (Ok (unchanged ctx h))
      | Some code =>
          if negb ok then Some (Ok (unchanged ctx h))
          else
            match Marshal arguments_type
                    (VSeq [VNum newTime; VNum serviceIndex; VSeq (operand_value <$> accOperand)]) with
            | RuntimePanic => Some RuntimePanic
            | Err _ => Some (Ok (unchanged ctx h))
            | Ok args =>
                match InvokeWholeProgram_shared (accumulate_host a accState serviceIndex) calls turns
                        code 5 gas args (MkPair ctx ctx) h with
                | None => None
                | Some WholeRunCrash => Some RuntimePanic
                | Some (WholeRun remainingGas _ p (Some _) h) =>
                    Some (Ok (ctx_AccumulationState (ExceptionalCtx p),
                              ctx_DeferredTransfers (ExceptionalCtx p), None, uint64 remainingGas, h))
                | Some (WholeRun remainingGas result p None h) =>
                    Some (Ok (ctx_AccumulationState (RegularCtx p),
                              ctx_DeferredTransfers (RegularCtx p),
                              (if len result =? 32 then Some result else None),
                              uint64 remainingGas, h))
                end
            end
      end
  end.

(** ** Transfers *)

Definition transfer_type : gotype := TStruct
  [(field "SenderServiceIndex", TPrim true Uint32); (field "ReceiverServiceIndex", TPrim true Uint32);
   (field "Balance", TPrim false Uint64); (field "Memo", octets_type 128);
   (field "GasLimit", TPrim false Uint64)].
Definition transfer_value (t : DeferredTransfer) : goval := VSeq
  [VNum (SenderServiceIndex t); VNum (ReceiverServiceIndex t); VNum (transfer_Balance t);
   hash_value (Memo t); VNum (transfer_GasLimit t)].

(** The function's state: the account, the heap, and the variable [err] of the
    enclosing function, which the closure assigns. *)
Definition transfer_state : Type := Account * (Heap * option pvm_error).

(** [..., err = c]; the closure then returns the variable. *)
Definition assigning {X} (c : host_result X) (f : X → Account * Heap) : host_result transfer_state :=
  match c with
  | HostReturn gas rs mem x e => HostReturn gas rs mem ((f x).1, ((f x).2, e)) e
  | HostCrash => HostCrash
  end.

Definition on_transfer_host (serviceState : gmap Z Account) (serviceIndex : Z)
  : HostCall transfer_state := λ hostCall gas rs mem x,
  let '(serviceAccount, (h, err)) := x in
  let keep (_ : unit) := (serviceAccount, h) in
  match hostCall with
  | 0 => assigning (run Host.GasRemaining gas rs mem ()) keep
  | 1 => assigning (run (Host.Lookup h serviceAccount serviceIndex serviceState) gas rs mem ()) keep
  | 2 => assigning (run (Host.Read HashData h serviceAccount serviceIndex serviceState) gas rs mem ())
           keep
  | 3 => assigning (run (Host.Write HashData serviceAccount serviceIndex) gas rs mem h)
           (λ h, (serviceAccount, h))
  | 4 => assigning (run (Host.Info h serviceIndex serviceState) gas rs mem ()) keep
  | _ => match run (unknown_call (X := unit) OnTransferCost) gas rs mem () with
         | HostReturn gas rs mem _ _ => HostReturn gas rs mem x err
         | HostCrash => HostCrash
         end
  end.

(** The account after the transfers, and the heap. *)
Definition InvokePVMOnTransfer (calls turns : nat) (serviceState : ref) (serviceIndex : Z)
    (transfers : list DeferredTransfer) (h : Heap) : option (res unit (Account * Heap)) :=
  let services := map_at (h_services h) serviceState in
  let serviceAccount := default zeroAcct (services !! serviceIndex) in
  match Code (read_account h serviceAccount) with
  | None => Some (Ok (serviceAccount, h))
  | Some serviceCode =>
      if len transfers =? 0 then Some (Ok (serviceAccount, h))
      else
        let gas := foldl (λ g t, uint64 (g + transfer_GasLimit t)) 0 transfers in
        let balance := foldl (λ b t, uint64 (b + transfer_Balance t)) (acct_Balance serviceAccount)
                         transfers in
        let serviceAccount := with_balance balance serviceAccount in
        match Marshal (TSlice transfer_type) (VSeq (transfer_value <$> transfers)) with
        | RuntimePanic => Some RuntimePanic
        | r =>
            let args := match r with Ok args => args | _ => [] end in
            let err := match r with Err e => Some (ErrJam e) | _ => None end in
            match InvokeWholeProgram_shared (on_transfer_host services serviceIndex) calls turns
                    serviceCode 10 gas args serviceAccount (h, err) with
            | None => None
            | Some WholeRunCrash => Some RuntimePanic
            | Some (WholeRun _ _ account _ (h, _)) => Some (Ok (account, h))
            end
        end
  end.

(** ** [Delta1] *)

Definition Delta1 (calls turns : nat) (a : Accumulator) (newTimeslot : Z) (accumulationState : AccStateRef)
    (workReports : list WorkReport) (privilegedGas : ref) (serviceIndex : Z) (h : Heap)
  : option (res unit invocation) :=
  let gasLimit := default 0 (map_at (h_gas h) privilegedGas !! serviceIndex) in
  let gasLimit :=
    foldl (λ g w, foldl (λ g r, uint64 (g + GasPrioritizationRatio r)) g
                    (service_results serviceIndex w)) gasLimit workReports in
  let operands :=
    w ← workReports; r ← service_results serviceIndex w;
    [MkOperand (result_Output r) (PayloadHash r) (package_hash w) (report_Output w)] in
  InvokePVM calls turns a accumulationState newTimeslot serviceIndex gasLimit operands h.

(** ** [ParallelDelta]

    A goroutine per service, and three more which run the manager, assign and
    designate services again and take one component each.  The invocation and the
    critical section of a goroutine are one step here, and the goroutines run in
    an order the scheduler chooses: an invocation sees the maps as those before
    it left them. *)
Inductive task : Type :=
| Accumulates (serviceId : Z)
| TakesPrivileges
| TakesKeys
| TakesQueues.

Definition task_service (initial : AccStateRef) (t : task) : Z :=
  match t with
  | Accumulates s => s
  | TakesPrivileges => ref_Manager initial
  | TakesKeys => ref_Assign initial
  | TakesQueues => ref_Designate initial
  end.

Definition tasks (services : gset Z) : list task :=
  (Accumulates <$> elements services) ++ [TakesPrivileges; TakesKeys; TakesQueues].

(** The shared variables, [newAccState], and the heap. *)
Record delta : Type := MkDelta {
  d_merge : merge_state Account;
  d_new : AccStateRef;
  d_heap : Heap;
}.

(** The critical section of a task, after an invocation. *)
Definition take_result (initial : AccStateRef) (t : task) (r : invocation) (d : delta) : delta :=
  let '(accState, deferredTransfers, resultHash, gasUsed, h) := r in
  match t with
  | Accumulates s =>
      MkDelta (merge_service (map_at (h_services h) (ref_ServiceState initial)) s
                 (map_at (h_services h) (ref_ServiceState accState), deferredTransfers, resultHash,
                  gasUsed) (d_merge d))
        (d_new d) h
  | TakesPrivileges =>
      MkDelta (d_merge d)
        (with_gas_ref (ref_AmountOfGas accState)
           (with_privileges (ref_Manager accState) (ref_Assign accState) (ref_Designate accState)
              (d_new d))) h
  | TakesKeys => MkDelta (d_merge d) (with_keys (ref_ValidatorKeys accState) (d_new d)) h
  | TakesQueues =>
      MkDelta (d_merge d) (with_queues (ref_PendingAuthorizersQueues accState) (d_new d)) h
  end.

(** A panic in a goroutine ends the process. *)
Fixpoint run_tasks (calls turns : nat) (a : Accumulator) (newTimeslot : Z) (initial : AccStateRef)
    (workReports : list WorkReport) (privilegedGas : ref) (order : list task) (d : delta)
  : option (res unit delta) :=
  match order with
  | [] => Some (Ok d)
  | t :: order =>
      let* r := Delta1 calls turns a newTimeslot initial workReports privilegedGas
                  (task_service initial t) (d_heap d) in
      run_tasks calls turns a newTimeslot initial workReports privilegedGas order
        (take_result initial t r d)
  end.

(** [newAccState] before the goroutines set its components. *)
Definition emptyAccState : AccStateRef :=
  MkAccRef None (replicate (Z.to_nat NumberOfValidators) None)
    (replicate (Z.to_nat TotalNumberOfCores)
       (replicate (Z.to_nat PendingAuthorizersQueueSize) ZeroHash)) 0 0 0 None.
Definition with_services_ref (r : ref) (u : AccStateRef) : AccStateRef :=
  MkAccRef r (ref_ValidatorKeys u) (ref_PendingAuthorizersQueues u) (ref_Manager u) (ref_Assign u)
    (ref_Designate u) (ref_AmountOfGas u).

Definition delta_result : Type := Z * AccStateRef * list DeferredTransfer * list HashPair * Heap.

(** [schedule] permutes the goroutines.  The map of the new services is written
    after they are done, so it is made there. *)
Definition ParallelDelta (calls turns : nat) (schedule : list task → list task) (a : Accumulator)
    (newTimeslot : Z) (initial : AccStateRef) (workReports : list WorkReport) (privilegedGas : ref)
    (h : Heap) : option (res unit delta_result) :=
  let services := service_indices workReports (map_at (h_gas h) privilegedGas) in
  let* d := run_tasks calls turns a newTimeslot initial workReports privilegedGas
              (schedule (tasks services)) (MkDelta merge_empty emptyAccState h) in
  let h := d_heap d in
  let '(r, m) := map_new (h_services h)
    (merged_services (map_at (h_services h) (ref_ServiceState initial)) (d_merge d)) in
  Some (Ok (totalGasUsed (d_merge d), with_services_ref r (d_new d), allTransfers (d_merge d),
            sort_pairs (accumHashPairs (d_merge d)), with_services m h)).

(** ** [SequentialDelta]

    Every call takes at least one report; [None] is one call too many, or a bound
    of an invocation used up.  The scheduler may choose another order in every
    call. *)
Fixpoint SequentialDelta (bound calls : nat) (schedule : nat → list task → list task)
    (a : Accumulator) (newTimeslot gasLimit : Z) (workReports : list WorkReport) (ctx : AccStateRef)
    (privilegedGas : ref) (h : Heap) : option (res unit delta_result) :=
  match calls with
  | O => None
  | S calls =>
      if len workReports =? 0 then Some (Ok (0, ctx, [], [], h))
      else
        let maxReports := reports_within gasLimit 0 workReports in
        if Nat.eqb maxReports 0 then Some (Ok (0, ctx, [], [], h))
        else
          let* (gasUsed, newCtx, transfers, hashPairs, h) :=
            ParallelDelta bound bound (schedule calls) a newTimeslot ctx
              (take maxReports workReports) privilegedGas h in
          let remainingGas := uint64 (gasLimit - gasUsed) in
          if (Z.of_nat maxReports <? len workReports) && (0 <? remainingGas) then
            let* (moreItems, finalCtx, moreTransfers, moreHashPairs, h) :=
              SequentialDelta bound calls schedule a newTimeslot remainingGas
                (drop maxReports workReports) newCtx privilegedGas h in
            Some (Ok (uint32 (Z.of_nat maxReports + moreItems), finalCtx,
                      transfers ++ moreTransfers, hashPairs ++ moreHashPairs, h))
          else Some (Ok (Z.of_nat maxReports, newCtx, transfers, hashPairs, h))
  end.

(** ** [CalculateWorkReportsAndAccumulate] *)

(** The loop that invokes the services on their transfers, in the order of the
    iteration over the map. *)
Fixpoint receive_transfers (bound : nat) (services : ref) (transfers : list DeferredTransfer)
    (order : list Z) (post : gmap Z Account) (h : Heap)
  : option (res unit (gmap Z Account * Heap)) :=
  match order with
  | [] => Some (Ok (post, h))
  | serviceId :: order =>
      let* (newService, h) := InvokePVMOnTransfer bound bound services serviceId
                                (transfersForReceiver transfers serviceId) h in
      receive_transfers bound services transfers order (<[serviceId := newService]> post) h
  end.

(** What the accumulation reads of the state, its maps on the heap. *)
Record AccumulationInput : Type := MkAccInput {
  in_State : AccStateRef;
  in_TimeslotIndex : Z;
  in_Queue : list (list QueuedReport);
  in_History : list (gset Hash);
}.

Record AccumulationOutput : Type := MkAccOutput {
  out_Queue : list (list QueuedReport);
  out_History : list (gset Hash);
  out_State : AccStateRef;
  out_HashPairs : list HashPair;
}.

(** The choices the language leaves open: the order of the goroutines of a call
    of [ParallelDelta] and of the iteration over the services. *)
Record Choices : Type := MkChoices {
  schedule : nat → list task → list task;
  schedule_perm : ∀ n l, schedule n l ≡ₚ l;
  iteration : list Z → list Z;
  iteration_perm : ∀ l, iteration l ≡ₚ l;
}.

(** [None] is a bound used up. *)
Definition CalculateWorkReportsAndAccumulate (choices : Choices) (bound : nat) (a : Accumulator)
    (newTimeslot : Z) (current : AccumulationInput) (workReports : list WorkReport) (h : Heap)
  : option (res unit (AccumulationOutput * Heap)) :=
  let '(immediate, withDeps) := splitReports workReports in
  let queued := updateQueue withDeps (flattenAccumulationHistory (in_History current)) in
  let m := header_Timeslot a `mod` TimeslotsPerEpoch in
  let fromQueue :=
    updateQueue (mjoin (drop (Z.to_nat m) (in_Queue current)) ++
                 mjoin (take (Z.to_nat m) (in_Queue current)) ++ queued)
      (getWorkPackageHashes immediate) in
  match accumulationPriority bound fromQueue with
  | None => None
  | Some priority =>
      let accumulatable := immediate ++ priority in
      let amountOfGas := ref_AmountOfGas (in_State current) in
      let* (maxReports, newState, transfers, hashPairs, h) :=
        SequentialDelta bound bound (schedule choices) a newTimeslot
          (accumulationGasLimit (map_at (h_gas h) amountOfGas)) accumulatable
          (in_State current) amountOfGas h in
      let intermediate := ref_ServiceState newState in
      let* (services, h) :=
        receive_transfers bound intermediate transfers
          (iteration choices (elements (dom (map_at (h_services h) intermediate)))) ∅ h in
      let '(r, maps) := map_new (h_services h) services in
      Some (
        let! accumulated := go_slice accumulatable 0 maxReports in
        let newHistory := drop 1 (in_History current) ++ [getWorkPackageHashes accumulated] in
        let! lastAccumulation := go_index newHistory (TimeslotsPerEpoch - 1) in
        Ok (MkAccOutput
          (newAccumulationQueue m (uint32 (newTimeslot - in_TimeslotIndex current))
             (in_Queue current) queued lastAccumulation)
          newHistory (with_services_ref r newState) hashPairs, with_services maps h))
  end.
End invocations.
