(* ===== verification/AccumulationTheorems.v ===== *)
(** * Accumulation: theorems

    The queue, the selection by gas, the concurrent accumulation, and the update
    of queue and history by a block. *)
From S2P Require Export AccumulationRun.

(** ** Values for the witnesses *)

Definition a_hash (n : Z) : Hash := replicate 32 n.

(** A report on the package [n] for service [s] that waits for [deps]. *)
Definition a_report (n s gas : Z) (deps : list Hash) : WorkReport :=
  MkWorkReport (MkSpec (a_hash n) 0 (a_hash 0) (a_hash 0) 0)
    (MkContext (MkAnchor (a_hash 0) (a_hash 0) (a_hash 0)) (MkLookupAnchor (a_hash 0) 0) deps)
    0 (a_hash 0) [] ∅ [MkWorkResult s (a_hash 0) (a_hash 0) gas (ResultOutput [])].

Definition a_account : ServiceAccount := MkAccount ∅ ∅ ∅ (a_hash 0) 1000 0 0.

(** ** The queue *)

(** [updateQueue] is the edit of equation 12.7: it keeps, in order, the
    reports whose package is not in the set, without the members of the set
    among their dependencies; editing by two sets one after the other is editing
    by their union, so the result does not depend on the order in which
    accumulated packages become known. *)
Theorem queue_edit (r : list QueuedReport) (x y : gset Hash) :
  updateQueue r x =
    (wd ← r; if bool_decide (package_hash (queued_WorkReport wd) ∈ x) then []
             else [MkQueued (queued_WorkReport wd) (Dependencies wd ∖ x)]) ∧
  updateQueue (updateQueue r x) y = updateQueue r (x ∪ y) ∧
  updateQueue (updateQueue r x) y = updateQueue (updateQueue r y) x.
Proof.
  split; [apply updateQueue_spec|]. rewrite !updateQueue_union. split; [done|]. f_equal. set_solver.
Qed.

(** [accumulationPriority] returns no report at all: each call
    drops its own reports from the queue without collecting those that have no
    dependencies left, so its second call ends with an empty list.  Equation
    12.8 would return the reports that became ready, in order. *)
Theorem priority_returns_nothing (q : list QueuedReport) (calls : nat) :
  (2 ≤ calls)%nat → accumulationPriority calls q = Some [].
Proof. apply accumulationPriority_empty. Qed.

Lemma priority_returns_nothing_witness :
  accumulationPriority 2 [MkQueued (a_report 1 1 5 []) ∅] = Some [].
Proof. apply priority_returns_nothing. lia. Defined.

(** the slot of the block's own phase [m] in the new queue.  In the
    last 104 slots of an epoch it holds the reports the block queued, as
    equation 12.27 says.  In the first 496 it does not: the [uint32] difference
    of turn 496 wraps to the same slot, and the queued reports are overwritten by
    the slot's old contents, or by nothing. *)
Theorem queue_slot_of_block (m elapsed : Z) (queue : list (list QueuedReport))
    (queued : list QueuedReport) (last : gset Hash) :
  0 ≤ m < TimeslotsPerEpoch →
  newAccumulationQueue m elapsed queue queued last !! Z.to_nat m = Some (
    if 496 <=? m then updateQueue queued last
    else if 496 <? elapsed then []
    else updateQueue (queue !!! Z.to_nat m) last).
Proof.
  intros Hm. unfold TimeslotsPerEpoch in Hm. destruct (496 <=? m) eqn:E.
  - assert (indexPerEpoch m 0 = m) as H0.
    { rewrite indexPerEpoch_spec; unfold TimeslotsPerEpoch; try lia.
      replace (0 <=? m) with true by lia. lia. }
    pose proof (fill_slots_last m elapsed queue queued last 0 [] (seqZ 1 599)) as H.
    rewrite H0 in H. apply H; [done..|].
    apply seqZ_Forall. intros i Hi. split; [lia|].
    rewrite indexPerEpoch_spec; unfold TimeslotsPerEpoch; try lia.
    destruct (i <=? m) eqn:Ei; [lia|]. rewrite Z.mod_small; lia.
  - assert (indexPerEpoch m 496 = m) as H0.
    { rewrite indexPerEpoch_spec; unfold TimeslotsPerEpoch; try lia.
      replace (496 <=? m) with false by lia. rewrite Z.mod_small; lia. }
    pose proof (fill_slots_last m elapsed queue queued last 496 (seqZ 0 496) (seqZ 497 103)) as H.
    unfold slot_value in H. rewrite H0 in H. apply H; [done..| |].
    + apply seqZ_Forall. lia.
    + apply seqZ_Forall. intros i Hi. split; [lia|].
      rewrite indexPerEpoch_spec; unfold TimeslotsPerEpoch; try lia.
      replace (i <=? m) with false by lia.
      destruct (decide (0 ≤ m - i + 496)); [rewrite Z.mod_small; lia|].
      rewrite <- (Z.mod_add _ 1), Z.mod_small; lia.
Qed.

(** A report queued in slot 7 is gone. *)
Lemma queue_slot_of_block_witness :
  newAccumulationQueue 7 1 (replicate 600 []) [MkQueued (a_report 1 1 5 [a_hash 2]) {[a_hash 2]}] ∅
    !! 7%nat = Some [] ∧
  newAccumulationQueue 500 1 (replicate 600 []) [MkQueued (a_report 1 1 5 [a_hash 2]) {[a_hash 2]}] ∅
    !! 500%nat ≠ Some [].
Proof.
  split.
  - rewrite (queue_slot_of_block 7) by done. reflexivity.
  - rewrite (queue_slot_of_block 500) by done. vm_compute. discriminate.
Defined.

(** ** Selection by gas *)

(** The loop of [SequentialDelta] takes the longest prefix of the reports whose
    gas, as a [uint64] sum, fits the limit: every prefix it passes fits, and the
    report after the last would exceed the limit. *)
Theorem selection_by_gas limit ws :
  (reports_within limit 0 ws ≤ length ws)%nat ∧
  (∀ k, (0 < k ≤ reports_within limit 0 ws)%nat → reports_gas 0 (take k ws) ≤ limit) ∧
  (∀ w, ws !! reports_within limit 0 ws = Some w →
     limit < uint64 (reports_gas 0 (take (reports_within limit 0 ws) ws) + report_gas w)).
Proof. split_and!; [apply reports_within_le|apply reports_within_fits|apply reports_within_next]. Qed.

(** ** Goroutines *)

Lemma merge_in_order_keys {A} (initial : gmap Z A) result order m :
  ∃ hashed, map fst (accumHashPairs (merge_in_order initial result m order)) =
            map fst (accumHashPairs m) ++ hashed ∧ hashed `sublist_of` order.
Proof.
  revert m. induction order as [|s order IH]; intros m; simpl; [exists []; by rewrite app_nil_r|].
  destruct (IH (merge_service initial s (result s) m)) as (hashed & -> & Hs).
  destruct (result s) as [[[st tr] [h|]] g]; simpl; rewrite map_app; simpl.
  - exists (s :: hashed). rewrite <- app_assoc. split; [done|by constructor].
  - exists hashed. rewrite app_nil_r. split; [done|by constructor].
Qed.

(** C9: the critical sections of [ParallelDelta]'s goroutines, for given results of
    their invocations, in every order the scheduler may choose.  If no two services
    write the same account and the transfers of a service name it as their sender,
    then there is a run to completion, and any two runs agree on the gas, the
    merged services, the sorted hash pairs and, for every receiver, the transfers in
    the same order.  A service that some result lacks is gone; otherwise an account a
    service wrote (its own or one it created) has the value of that result, and every
    other account is as before. *)
Theorem parallel_merge_deterministic {A} (initial : gmap Z A) (result : Z → Invocation A) services :
  (∀ s s', s ∈ services → s' ∈ services → s ≠ s' →
     dom (kept_services initial s (result s)) ## dom (kept_services initial s' (result s'))) →
  (∀ s, s ∈ services → Forall (λ t, SenderServiceIndex t = s) (transfers_of (result s))) →
  let runs m := rtc (merge_step initial result) (services, merge_empty) (∅, m) in
  (∃ m, runs m) ∧
  (∀ m m', runs m → runs m' →
     totalGasUsed m = totalGasUsed m' ∧ merged_services initial m = merged_services initial m' ∧
     sort_pairs (accumHashPairs m) = sort_pairs (accumHashPairs m') ∧
     ∀ receiver, transfersForReceiver (allTransfers m) receiver =
                 transfersForReceiver (allTransfers m') receiver) ∧
  (∀ m k, runs m →
     ((∃ s, s ∈ services ∧ k ∈ dom initial ∧ k ∉ dom (result s).1.1.1) →
      merged_services initial m !! k = None) ∧
     ((∀ s, s ∈ services → k ∈ dom initial → k ∈ dom (result s).1.1.1) →
      (∀ s a, s ∈ services → kept_services initial s (result s) !! k = Some a →
         merged_services initial m !! k = Some a) ∧
      ((∀ s, s ∈ services → kept_services initial s (result s) !! k = None) →
         merged_services initial m !! k = initial !! k))).
Proof.
  intros Hd Ht runs.
  assert (∀ m, runs m → ∃ o, o ≡ₚ elements services ∧ m = merge_in_order initial result merge_empty o)
    as Hruns.
  { intros m H. destruct (merge_steps_order initial result _ _ H eq_refl) as (o & Ho & E). by exists o. }
  split_and!.
  - eexists. apply (merge_order_steps initial result (elements services)); [apply NoDup_elements|].
    by rewrite list_to_set_elements_L.
  - intros m m' (o & Ho & ->)%Hruns (o' & Ho' & ->)%Hruns.
    assert (NoDup o) as Hnd by (rewrite Ho; apply NoDup_elements).
    destruct (merge_in_order_perm initial result services Hd Ht o o' merge_empty)
      as [Hgas Htr Hp Hs Hx]; [by rewrite Ho|done| |].
    { intros s. rewrite Ho. by rewrite elem_of_elements. }
    unfold merged_services. rewrite Hs, Hx. split_and!; [done|done| |].
    + apply sort_pairs_perm; [done|].
      destruct (merge_in_order_keys initial result o merge_empty) as (hashed & -> & Hsub).
      simpl. by eapply sublist_NoDup.
    + intros receiver. by rewrite Htr.
  - intros m k (o & Ho & ->)%Hruns.
    assert (∀ s, s ∈ o ↔ s ∈ services) as Hin by (intros s; by rewrite Ho, elem_of_elements).
    assert (NoDup o) as Hnd by (rewrite Ho; apply NoDup_elements).
    apply (merged_lookup initial result services Hd Ht o k Hin Hnd).
Qed.

(** Two services that each send a transfer; the second also creates the account 9. *)
Definition a_result (s : Z) : Invocation ServiceAccount :=
  (if s =? 2 then {[1 := a_account; 2 := a_account; 9 := a_account]} else {[1 := a_account; 2 := a_account]},
   [MkTransfer s 2 10 [] 0], Some (a_hash s), 1).

Lemma parallel_merge_deterministic_witness :
  let initial : gmap Z ServiceAccount := {[1 := a_account; 2 := a_account]} in
  ∃ m, rtc (merge_step initial a_result) ({[1; 2]}, merge_empty) (∅, m) ∧
    merged_services initial m !! 9 = Some a_account.
Proof.
  intros initial.
  destruct (parallel_merge_deterministic initial a_result {[1; 2]}) as ([m Hm] & _ & Hl).
  - intros s s' Hs Hs' Hne.
    assert ((s = 1 ∨ s = 2) ∧ (s' = 1 ∨ s' = 2)) as [[-> | ->] [-> | ->]] by set_solver;
      try done; apply (bool_decide_unpack _); vm_compute; exact I.
  - intros s Hs. by repeat constructor.
  - exists m. split; [exact Hm|]. destruct (Hl m 9 Hm) as [_ H]. destruct H as [H _].
    + intros s _ H9. exfalso. revert H9. apply (bool_decide_unpack _). vm_compute. exact I.
    + apply (H 2); [set_solver|reflexivity].
Defined.
