(* ===== verification/Transition.v ===== *)
(** * The state transition

    [UpdateState] of [internal/statetransition/state_transition.go]: the parts of
    the transition in the order in which the code calls them.  What is outside
    the sources modelled here, or behind a foreign-function interface, is
    collected in [Externals], with the orders the Go runtime is free to choose. *)
From S2P Require Export BlockSeal History AccumulateInvoke.

Record Externals : Type := MkExternals {
  x_HashData : list Z → Hash;
  x_KeccakData : list Z → Hash;
  x_Sum256 : list Z → Hash;
  x_ed25519_Verify : list Z → list Z → list Z → bool;
  (** [bandersnatch.OutputHash] and the ring verifier *)
  x_OutputHash : list Z → option Hash;
  x_RingOk : list (list Z) → bool;
  x_Commitment : list (list Z) → option (list Z);
  x_RingVerify : list (list Z) → list Z → list Z → list Z → list Z → option Hash;
  (** the order of goroutines and of iterations over a map *)
  x_Choices : Choices;
}.

(** ** Accounts and their maps

    Between blocks an account owns its maps, which are not nil.  Accumulation
    shares them, so it runs on a heap into which the state's maps are loaded and
    from which the new state's are read. *)
Definition emptyHeap : Heap := MkHeap ∅ ∅ ∅ ∅.

Definition load_account (a : ServiceAccount) (h : Heap) : Account * Heap :=
  let '(storage, bytes) := map_new (h_bytes h) (Storage a) in
  let '(lookup, bytes) := map_new bytes (PreimageLookup a) in
  let '(meta, metas) := map_new (h_meta h) (PreimageMeta a) in
  (MkAcct storage lookup meta (CodeHash a) (Balance a) (GasLimitForAccumulator a)
     (GasLimitOnTransfer a), with_meta metas (with_bytes bytes h)).

Definition load_services (services : ServiceState) (h : Heap) : gmap Z Account * Heap :=
  foldr (λ e acc, let '(a, h) := load_account e.2 acc.2 in (<[e.1 := a]> acc.1, h)) (∅, h)
    (map_to_list services).

(** What the accumulation reads of the state, and the heap with its maps. *)
Definition accumulation_input (s : State) : AccumulationInput * Heap :=
  let privileged := st_PrivilegedServices s in
  let '(services, h) := load_services (st_Services s) emptyHeap in
  let '(r, maps) := map_new (h_services h) services in
  let '(gas, gases) := map_new (h_gas h) (AmountOfGasPerServiceId privileged) in
  (MkAccInput
     (MkAccRef r (QueuedValidators (keys_of (st_ValidatorState s))) (st_PendingAuthorizersQueues s)
        (ManagerServiceId privileged) (AssignServiceId privileged) (DesignateServiceId privileged) gas)
     (st_TimeslotIndex s) (st_AccumulationQueue s) (st_AccumulationHistory s),
   with_gas_map gases (with_services maps h)).

(** The state behind the references. *)
Definition read_acc_state (h : Heap) (u : AccStateRef) : AccumulationState :=
  MkAccState (read_services h (ref_ServiceState u)) (ref_ValidatorKeys u) (ref_PendingAuthorizersQueues u)
    (MkPrivileged (ref_Manager u) (ref_Assign u) (ref_Designate u) (map_at (h_gas h) (ref_AmountOfGas u))).

Section transition.
Context (x : Externals).

Definition NewSafroleInputFromBlock (b : Block) : res st_error SafroleInput :=
  let header := block_Header b in
  match x_OutputHash x (VRFSignature header) with
  | None => Err (StErr "error getting output hash")
  | Some y => Ok (MkSafroleInput (TimeSlotIndex header) (ET (block_Extrinsic b)) y
                    (OffendersMarkers header))
  end.

(** The calls up to the available reports. *)
Record Prepared : Type := MkPrepared {
  prep_EntropyPool : EntropyPool;
  prep_Validators : Validators;
  prep_Assignments : CoreAssignments;
  prep_Statistics : list ValidatorStatistics * list ValidatorStatistics;
  prep_Reports : list WorkReport;
}.

Definition prepare_block (s : State) (newBlock : Block) (chain : ChainHeaders) : res st_error Prepared :=
  let header := block_Header newBlock in
  let e := block_Extrinsic newBlock in
  let newTimeState := CalculateNewTimeState header in
  let! _ := ValidateExtrinsicGuarantees (x_HashData x) (x_KeccakData x) (x_Sum256 x) header s (EG e)
              (st_CoreAssignments s) newTimeState chain in
  let intermediate := CalculateIntermediateCoreAssignmentsFromExtrinsics (x_HashData x) (ED e)
                        (st_CoreAssignments s) in
  let! safroleInput := NewSafroleInputFromBlock newBlock in
  let! (newEntropyPool, newValidatorState, _) :=
    UpdateSafroleState (x_HashData x) (x_RingOk x) (x_Commitment x) (x_RingVerify x) safroleInput
      (st_TimeslotIndex s) (st_EntropyPool s) (st_ValidatorState s) in
  let! (intermediate, _) :=
    CalculateIntermediateCoreFromAssurances (x_HashData x) (x_ed25519_Verify x)
      (CurrentValidators (keys_of newValidatorState)) intermediate header (EA e) in
  let! (newCoreAssignments, reporters) :=
    CalculateNewCoreAssignments (x_HashData x) (x_ed25519_Verify x) (EG e) intermediate
      (keys_of (st_ValidatorState s)) newTimeState newEntropyPool in
  let newValidatorStatistics :=
    CalculateNewValidatorStatistics newBlock newTimeState (st_ValidatorStatistics s) reporters
      (CurrentValidators (keys_of (st_ValidatorState s))) in
  let! workReports := GetAvailableWorkReports newCoreAssignments in
  Ok (MkPrepared newEntropyPool newValidatorState newCoreAssignments newValidatorStatistics workReports).

(** The calls after the accumulation, and the assignments to the state. *)
Definition conclude_block (s : State) (newBlock : Block) (p : Prepared) (out : AccumulationOutput)
    (h : Heap) : res st_error State :=
  let header := block_Header newBlock in
  let e := block_Extrinsic newBlock in
  let newTimeState := CalculateNewTimeState header in
  let acc := read_acc_state h (out_State out) in
  let intermediateRecentBlocks := calculateIntermediateBlockState header (st_RecentBlocks s) in
  let! newRecentBlocks :=
    calculateNewRecentBlocks (x_HashData x) (x_KeccakData x) header (EG e) intermediateRecentBlocks
      (out_HashPairs out) in
  let! newJudgements :=
    CalculateNewJudgements (x_ed25519_Verify x) newTimeState (ED e) (st_PastJudgements s)
      (keys_of (st_ValidatorState s)) in
  let! newCoreAuthorizations :=
    CalculateNewCoreAuthorizations header (EG e) (acc_PendingAuthorizersQueues acc)
      (st_CoreAuthorizersPool s) in
  let keys := keys_of (prep_Validators p) in
  Ok (MkState (acc_ServiceState acc) (acc_PrivilegedServices acc)
        (MkValidators (MkValidatorState (CurrentValidators keys) (ArchivedValidators keys)
                         (acc_ValidatorKeys acc)) (SafroleOf (prep_Validators p)))
        (prep_EntropyPool p) newCoreAuthorizations (st_PendingAuthorizersQueues s)
        (prep_Assignments p) newRecentBlocks newTimeState newJudgements (prep_Statistics p)
        (out_Queue out) (out_History out)).

(** [NewAccumulator(currentState, header, newTimeslot)] *)
Definition accumulator (s : State) (header : Header) : Accumulator :=
  MkAccumulator (TimeSlotIndex header) (st_EntropyPool s !!! 0%nat).

(** [UpdateState] at the time [now]: the new state, an error or a panic.  [None]
    is a bound used up: the bound limits the recursions and, per invocation, the
    host calls and the instructions. *)
Definition UpdateState (bound : nat) (now : Z) (s : State) (newBlock : Block) (chain : ChainHeaders)
  : option (res st_error State) :=
  let header := block_Header newBlock in
  if IsInFuture now (TimeSlotIndex header)
  then Some (Err (StErr "invalid block, it is in the future"))
  else
    match prepare_block s newBlock chain with
    | Err e => Some (Err e)
    | RuntimePanic => Some RuntimePanic
    | Ok p =>
        let '(input, h) := accumulation_input s in
        match CalculateWorkReportsAndAccumulate (x_HashData x) (x_Choices x) bound
                (accumulator s header) (CalculateNewTimeState header) input (prep_Reports p) h with
        | None => None
        | Some (Ok (out, h)) => Some (conclude_block s newBlock p out h)
        | Some _ => Some RuntimePanic
        end
    end.
End transition.
