(* ===== verification/HostProps.v ===== *)
(** * Host calls: lemmas

    Two small logics for host functions: what they do to the gas, and that they
    keep registers, memory and an invariant of their state. *)
From S2P Require Export PvmRun AccumulateInvoke.

(** ** Gas *)

(** A part of a host function that does not touch the gas. *)
Definition gas_const {X A} (c : host X A) : Prop :=
  ∀ s, match c s with
       | HNext _ t | HReturn t _ => hs_gas t = hs_gas s
       | HCrash => True
       end.

Create HintDb gas_const.

Section gas.
Context {X : Type}.

Lemma gas_const_bind {A B} (c : host X A) (k : A → host X B) :
  gas_const c → (∀ a, gas_const (k a)) → gas_const (hbind c k).
Proof.
  intros Hc Hk s. unfold hbind. specialize (Hc s). destruct (c s) as [a t|t e|]; [|done..].
  specialize (Hk a t). destruct (k a t); congruence || done.
Qed.

Lemma gas_const_at {A} (f : hstate X → host X A) : (∀ s, gas_const (f s)) → gas_const (λ s, f s s).
Proof. intros H s. apply H. Qed.

Lemma gas_const_pure {A} (a : A) : gas_const (X := X) (hpure a).
Proof. done. Qed.
Lemma gas_const_return {A} e : gas_const (X := X) (A := A) (hreturn e).
Proof. done. Qed.
Lemma gas_const_crash {A} : gas_const (X := X) (A := A) hcrash.
Proof. done. Qed.
Lemma gas_const_get : gas_const (X := X) hget.
Proof. done. Qed.
Lemma gas_const_put x : gas_const (X := X) (hput x).
Proof. done. Qed.
Lemma gas_const_gas : gas_const (X := X) hgas.
Proof. done. Qed.
Lemma gas_const_call {A} f (c : res pvm_error A) : gas_const (X := X) (hcall f c).
Proof. intros s. by destruct c. Qed.
Lemma gas_const_get_reg r : gas_const (X := X) (get_reg r).
Proof. intros s. apply gas_const_call. Qed.
Lemma gas_const_put_reg r v : gas_const (X := X) (put_reg r v).
Proof. intros s. unfold put_reg. by destruct (go_update _ _ _). Qed.
Lemma gas_const_put_mem m : gas_const (X := X) (put_mem m).
Proof. done. Qed.
Lemma gas_const_map {A} (o : option A) : gas_const (X := X) (hmap o).
Proof. by destruct o. Qed.
End gas.
#[export] Hint Resolve gas_const_bind gas_const_pure gas_const_return gas_const_crash gas_const_get
  gas_const_put gas_const_gas gas_const_call gas_const_get_reg gas_const_put_reg gas_const_put_mem
  gas_const_map : gas_const.

(** Takes a host function apart into its statements. *)
Ltac gas_split :=
  repeat first
    [ solve [eauto 2 with gas_const nocore]
    | apply gas_const_bind
    | progress intros
    | progress cbv zeta
    | match goal with |- gas_const (match ?d with _ => _ end) => destruct d end
    | match goal with |- gas_const (let '(_, _) := ?d in _) => destruct d end ].

Section gas_functions.
Context {X : Type}.

Lemma gas_const_read addr n : gas_const (X := X) (read_bytes addr n).
Proof.
  unfold read_bytes, make_bytes. gas_split. intros s. apply gas_const_call.
Qed.
Lemma gas_const_write f addr data : gas_const (X := X) (write_bytes f addr data).
Proof. intros s. unfold write_bytes. apply gas_const_bind; gas_split. Qed.
Lemma gas_const_number t addr n : gas_const (X := X) (Host.readNumber t addr n).
Proof. unfold Host.readNumber. apply gas_const_bind; [apply gas_const_read|]. gas_split. Qed.
Lemma gas_const_code {A} c : gas_const (X := X) (A := A) (Host.withCode c).
Proof. unfold Host.withCode. gas_split. Qed.
Lemma gas_const_offset a d o l : gas_const (X := X) (Host.writeFromOffset a d o l).
Proof. unfold Host.writeFromOffset. destruct (_ <? _); [apply gas_const_write|gas_split]. Qed.
Lemma gas_const_key H i d : gas_const (X := X) (Host.storage_key H i d).
Proof. unfold Host.storage_key. gas_split. Qed.
End gas_functions.
#[export] Hint Resolve gas_const_read gas_const_write gas_const_number gas_const_code gas_const_offset
  gas_const_key : gas_const.

Lemma gas_const_regular f : gas_const (update_regular f).
Proof. unfold update_regular. gas_split. Qed.
Lemma gas_const_acc f : gas_const (update_acc f).
Proof. apply gas_const_regular. Qed.
Lemma gas_const_heap h : gas_const (put_heap h).
Proof. unfold put_heap. gas_split. Qed.
Lemma gas_const_own : gas_const own_account.
Proof. unfold own_account. gas_split. Qed.
#[export] Hint Resolve gas_const_regular gas_const_acc gas_const_heap gas_const_own : gas_const.
Lemma gas_const_service i a : gas_const (set_service i a).
Proof. unfold set_service. gas_split. Qed.
Lemma gas_const_set_own a : gas_const (set_own a).
Proof. unfold set_own. gas_split. Qed.
Lemma gas_const_delete i : gas_const (delete_service i).
Proof. unfold delete_service. gas_split. Qed.
Lemma gas_const_set_meta a k t : gas_const (set_meta a k t).
Proof. unfold set_meta. gas_split. Qed.
Lemma gas_const_meta a k : gas_const (meta_of a k).
Proof. unfold meta_of. gas_split. Qed.
#[export] Hint Resolve gas_const_service gas_const_set_own gas_const_delete gas_const_set_meta
  gas_const_meta : gas_const.

Lemma gas_const_drop a k : gas_const (Acc.drop_preimage a k).
Proof. unfold Acc.drop_preimage. gas_split. Qed.
Lemma gas_const_bless addr i n : gas_const (Acc.bless_entries addr i n).
Proof.
  revert i. induction n as [|n IH]; intros i; cbn [Acc.bless_entries]; [gas_split|].
  apply gas_const_bind; [|done]. unfold Acc.bless_entry. gas_split.
Qed.
Lemma gas_const_assign addr c i n : gas_const (Acc.assign_entries addr c i n).
Proof.
  revert i. induction n as [|n IH]; intros i; cbn [Acc.assign_entries]; gas_split.
Qed.
Lemma gas_const_designate addr i n : gas_const (Acc.designate_entries addr i n).
Proof.
  revert i. induction n as [|n IH]; intros i; cbn [Acc.designate_entries]; gas_split.
Qed.
#[export] Hint Resolve gas_const_drop gas_const_bless gas_const_assign gas_const_designate : gas_const.

(** What a call does to the gas: it takes 10 units, or fails at once. *)
Definition takes_gas {X A} (c : host X A) : Prop :=
  ∀ s, 0 ≤ hs_gas s < 2 ^ 63 →
    match c s with
    | HNext _ t => hs_gas t = hs_gas s - HostCallCost
    | HReturn t e =>
        hs_gas t = hs_gas s - HostCallCost ∨
        hs_gas s < HostCallCost ∧ e = Some ErrOutOfGas ∧ hs_gas t = hs_gas s ∧
        hs_regs t = hs_regs s ∧ hs_mem t = hs_mem s
    | HCrash => True
    end.

Lemma charge_takes_gas {X A} (k : host X A) :
  gas_const k → takes_gas (let? _ := charge HostCallCost in k).
Proof.
  intros Hk s Hs. unfold hbind, charge. destruct (Z.ltb_spec (hs_gas s) HostCallCost) as [Hlt|Hge].
  - right. by split_and!.
  - set (t := MkHst _ _ _ _). specialize (Hk t).
    assert (hs_gas t = hs_gas s - HostCallCost) as Ht.
    { subst t. cbn. unfold HostCallCost in *. unfold int64. rewrite wrapS_id; [done|lia|unfold inS; lia]. }
    destruct (k t); [congruence| |done]. left. congruence.
Qed.

Lemma general_takes_gas c : takes_gas c → takes_gas (general c).
Proof.
  intros Hc s Hs. unfold general. specialize (Hc (MkHst (hs_gas s) (hs_regs s) (hs_mem s) ()) Hs).
  by destruct (c _).
Qed.
Lemma on_heap_takes_gas c : takes_gas c → takes_gas (on_heap c).
Proof.
  intros Hc s Hs. unfold on_heap. specialize (Hc (MkHst (hs_gas s) (hs_regs s) (hs_mem s) (hs_x s).2) Hs).
  by destruct (c _).
Qed.

(** Putting the account back touches maps only. *)
Lemma set_own_frame a s :
  match set_own a s with
  | HNext _ t => hs_gas t = hs_gas s ∧ hs_regs t = hs_regs s ∧ hs_mem t = hs_mem s
  | HReturn _ _ => False
  | HCrash => True
  end.
Proof.
  unfold set_own, set_service, put_heap, hbind, hget, hput, hmap, hpure, hcrash. cbn.
  by destruct (map_put _ _ _ _).
Qed.

Lemma restore_takes_gas c a : takes_gas c → takes_gas (then_restore c a).
Proof.
  intros Hc s Hs. specialize (Hc s Hs). unfold then_restore. destruct (c s) as [u t|t e|]; [| |done];
    pose proof (set_own_frame a t) as Hf; destruct (set_own a t) as [u' t'|t' e'|]; try done;
    destruct Hf as (Hg & Hr & Hm); [congruence|].
  destruct Hc as [Hc|(H1 & H2 & H3 & H4 & H5)]; [left; congruence|right].
  split_and!; try done; congruence.
Qed.

Lemma GasRemaining_takes_gas {X} : takes_gas (X := X) Host.GasRemaining.
Proof. apply charge_takes_gas. gas_split. Qed.
Lemma Lookup_takes_gas {X} h a i m : takes_gas (X := X) (Host.Lookup h a i m).
Proof. apply charge_takes_gas. gas_split. Qed.
Lemma Read_takes_gas {X} H h a i m : takes_gas (X := X) (Host.Read H h a i m).
Proof. apply charge_takes_gas. gas_split. Qed.
Lemma Info_takes_gas {X} h i m : takes_gas (X := X) (Host.Info h i m).
Proof. apply charge_takes_gas. gas_split. Qed.
Lemma Write_takes_gas H a i : takes_gas (Host.Write H a i).
Proof. apply charge_takes_gas. gas_split. Qed.

Lemma unknown_takes_gas {X} : takes_gas (X := X) (unknown_call HostCallCost).
Proof.
  intros s Hs. unfold unknown_call, hbind, put_reg. destruct (go_update _ _ _); [|done..]. cbn. left.
  unfold HostCallCost in *. unfold int64. rewrite wrapS_id; [done|lia|unfold inS; lia].
Qed.

(** Every call of accumulation but [Transfer]. *)
Lemma accumulate_call_takes_gas H a u i n : n ≠ 11 → takes_gas (accumulate_call H a u i n).
Proof.
  intros Hn s Hs. unfold accumulate_call, hbind at 1, hget. cbn [hs_x].
  set (c := match n with 0 => _ | _ => _ end). enough (takes_gas c) as Hc by apply (Hc s Hs). subst c.
  repeat match goal with |- takes_gas (match ?p with _ => _ end) => destruct p end;
    try done; try apply unknown_takes_gas; try apply general_takes_gas, GasRemaining_takes_gas;
    try (apply charge_takes_gas; gas_split);
    apply restore_takes_gas; first [apply on_heap_takes_gas, Write_takes_gas|apply general_takes_gas];
    first [apply Lookup_takes_gas|apply Read_takes_gas|apply Info_takes_gas].
Qed.
