(* ===== verification/HostLogic.v ===== *)
(** * Host calls: what they keep

    A small logic for host functions over an invariant of their state: registers
    and memory stay well formed and no gas is added.  It discharges the contract
    that the interpreter has with the host ([HostContract]) for the calls of an
    on-transfer invocation. *)
From S2P Require Export HostProps PvmProgramProps.

Record hs_ok {X} (I : X → Prop) (s : hstate X) : Prop := MkHsOk {
  ok_gas : inS 64 (hs_gas s);
  ok_regs : regs_wf (hs_regs s);
  ok_mem : mem_wf (hs_mem s);
  ok_x : I (hs_x s);
}.
Arguments MkHsOk {X I s} _ _ _ _.

(** [c] keeps the invariant and adds no gas; the value it passes on satisfies
    [Q]. *)
Definition keeps {X A} (I : X → Prop) (c : host X A) (Q : A → Prop) : Prop :=
  ∀ s, hs_ok I s →
    match c s with
    | HNext a t => hs_ok I t ∧ hs_gas t ≤ hs_gas s ∧ Q a
    | HReturn t _ => hs_ok I t ∧ hs_gas t ≤ hs_gas s
    | HCrash => True
    end.

Create HintDb keeps.

Section rules.
Context {X : Type} (I : X → Prop).

Lemma keeps_bind {A B} (c : host X A) (k : A → host X B) Q R :
  keeps I c Q → (∀ a, Q a → keeps I (k a) R) → keeps I (hbind c k) R.
Proof.
  intros Hc Hk s Hs. unfold hbind. specialize (Hc s Hs).
  destruct (c s) as [a t|t e|]; [|done..]. destruct Hc as (Ht & Hg & Ha).
  specialize (Hk a Ha t Ht). destruct (k a t) as [b u|u e|]; [|destruct Hk; split; [done|lia]|done].
  destruct Hk as (? & ? & ?). split_and!; [done|lia|done].
Qed.

Lemma keeps_pure {A} (a : A) (Q : A → Prop) : Q a → keeps I (hpure a) Q.
Proof. intros Ha s Hs. split_and!; [done|lia|done]. Qed.
Lemma keeps_return {A} e (Q : A → Prop) : keeps I (hreturn e) Q.
Proof. intros s Hs. split; [done|simpl; lia]. Qed.
Lemma keeps_crash {A} (Q : A → Prop) : keeps I hcrash Q.
Proof. by intros s Hs. Qed.
Lemma keeps_get : keeps I hget I.
Proof. intros s Hs. split_and!; [done|simpl; lia|apply Hs]. Qed.
Lemma keeps_put x : I x → keeps I (hput x) (λ _, True).
Proof. intros Hx s []. split_and!; [by split|simpl; lia|done]. Qed.
Lemma keeps_gas : keeps I hgas (inS 64).
Proof. intros s Hs. split_and!; [done|simpl; lia|apply Hs]. Qed.

Lemma keeps_charge cost : 0 ≤ cost → keeps I (charge cost) (λ _, True).
Proof.
  intros Hc s Hs. unfold charge. destruct (Z.ltb_spec (hs_gas s) cost); [split; [done|simpl; lia]|].
  destruct Hs as [Hg Hr Hm Hx]. assert (inS 64 (hs_gas s - cost)) as Hin by (unfold inS in *; lia).
  assert (int64 (hs_gas s - cost) = hs_gas s - cost) as He by (unfold int64; by rewrite wrapS_id).
  rewrite He. split_and!; [by split|simpl; lia|done].
Qed.

Lemma keeps_call {A} f (c : res pvm_error A) (Q : A → Prop) :
  (∀ a, c = Ok a → Q a) → keeps I (hcall f c) Q.
Proof.
  intros Hc s Hs. destruct c as [a|e|]; simpl; [|split; [done|lia]|done].
  split_and!; [done|lia|by apply Hc].
Qed.

Lemma keeps_get_reg r : keeps I (get_reg r) (inU 64).
Proof.
  intros s Hs. apply keeps_call; [|done]. intros a Ha. destruct Hs as [_ [_ Hr] _ _].
  unfold go_index in Ha. destruct (r <? 0); [done|].
  destruct (hs_regs s !! Z.to_nat r) as [v|] eqn:E; [|done]. simplify_eq.
  by eapply Forall_lookup_1 in E.
Qed.

Lemma keeps_put_reg r v : inU 64 v → keeps I (put_reg r v) (λ _, True).
Proof.
  intros Hv s [Hg [Hl Hr] Hm Hx]. unfold put_reg, go_update.
  destruct (_ && _); [|done]. split_and!; [|simpl; lia|done]. split; try done. simpl.
  split; [by rewrite length_insert|]. by apply Forall_insert.
Qed.

Lemma keeps_put_mem m : mem_wf m → keeps I (put_mem m) (λ _, True).
Proof. intros Hm s []. split_and!; [by split|simpl; lia|done]. Qed.

Lemma keeps_map {A} (o : option A) (Q : A → Prop) : (∀ a, o = Some a → Q a) → keeps I (hmap o) Q.
Proof. intros Ho. destruct o; [apply keeps_pure; by apply Ho|apply keeps_crash]. Qed.

(** Bytes of which a buffer can be made. *)
Definition buffer_ok (b : list Z) : Prop := bytes_ok b ∧ len b ≤ 2 ^ 48.

Lemma keeps_read addr n : keeps I (read_bytes addr n) buffer_ok.
Proof.
  unfold read_bytes, make_bytes. apply (keeps_bind _ _ (λ _, 0 ≤ n ≤ 2 ^ 48)).
  { eapply (keeps_bind _ _ (λ _, 0 ≤ n ≤ 2 ^ 48)); [|intros; by apply keeps_pure].
    apply keeps_call. intros d Hd. apply go_make_inv in Hd. unfold maxAlloc in Hd. lia. }
  intros _ Hn s Hs. apply keeps_call; [|done]. intros b Hb.
  destruct (Read_inv _ _ _ _ (ok_mem I s Hs) Hn Hb) as [? <-]. split; [done|lia].
Qed.

Lemma keeps_write f addr data :
  inU 64 addr → buffer_ok data → keeps I (write_bytes f addr data) (λ _, True).
Proof.
  intros Ha [Hd Hl] s Hs. unfold write_bytes.
  apply (keeps_bind _ _ mem_wf); [|intros m Hm; by apply keeps_put_mem|done].
  apply keeps_call. intros m Hm. by eapply (Write_step (hs_mem s)); [apply Hs|..].
Qed.

Lemma keeps_code {A} c (Q : A → Prop) : inU 64 c → keeps I (Host.withCode c) Q.
Proof.
  intros Hc. eapply keeps_bind; [by apply keeps_put_reg|]. intros. apply keeps_return.
Qed.

Lemma keeps_offset a d o l :
  inU 64 a → buffer_ok d → keeps I (Host.writeFromOffset a d o l) (λ _, True).
Proof.
  intros Ha [Hd Hl]. unfold Host.writeFromOffset. destruct (_ <? _); [|by apply keeps_pure].
  apply keeps_write; [done|]. split; [by apply Forall_take, Forall_drop|].
  unfold len in *. rewrite length_take, length_drop. lia.
Qed.

Lemma keeps_key H i d : keeps I (Host.storage_key H i d) (λ _, True).
Proof.
  eapply (keeps_bind _ _ (λ _, True)); [by apply keeps_call|]. intros. by apply keeps_pure.
Qed.
End rules.

Lemma uint64_range x : inU 64 (uint64 x).
Proof. by apply wrapU_range. Qed.
#[export] Hint Resolve keeps_pure keeps_return keeps_crash keeps_get keeps_put keeps_gas keeps_charge
  keeps_get_reg keeps_put_reg keeps_read keeps_write keeps_code keeps_offset keeps_key
  uint64_range : keeps.
#[export] Hint Extern 1 (0 ≤ HostCallCost) => done : keeps.
(** The result codes are constants. *)
#[export] Hint Extern 2 (inU 64 ?c) => (is_const c; by vm_compute) : keeps.

(** ** Accounts and heaps *)

Definition heap_ok (h : Heap) : Prop := map_Forall (λ _, map_Forall (λ _, buffer_ok)) (h_bytes h).

(** A hash is 32 bytes. *)
Definition acct_ok (a : Account) : Prop := length (acct_CodeHash a) = 32%nat.

Lemma map_at_ok h r k v : heap_ok h → map_at (h_bytes h) r !! k = Some v → buffer_ok v.
Proof.
  intros Hh Hv. destruct r as [l|]; simpl in Hv; [|by rewrite lookup_empty in Hv].
  destruct (h_bytes h !! l) as [m|] eqn:E; simpl in Hv; [|by rewrite lookup_empty in Hv].
  by apply (Hh l m E) in Hv.
Qed.

Lemma preimage_ok h a k v :
  heap_ok h → PreimageLookup (read_account h a) !! k = Some v → buffer_ok v.
Proof. apply map_at_ok. Qed.
Lemma storage_ok h a k v : heap_ok h → Storage (read_account h a) !! k = Some v → buffer_ok v.
Proof. apply map_at_ok. Qed.

Lemma map_at_Forall h r : heap_ok h → map_Forall (λ _, buffer_ok) (map_at (h_bytes h) r).
Proof. intros Hh k v. by apply map_at_ok. Qed.

Lemma heap_ok_delete h r k : heap_ok h → heap_ok (with_bytes (map_remove (h_bytes h) r k) h).
Proof.
  intros Hh. destruct r as [l|]; [|by destruct h]. apply map_Forall_insert_2; [|done].
  apply map_Forall_delete. by apply (map_at_Forall h (Some l)).
Qed.

Lemma heap_ok_put h r k v m :
  heap_ok h → buffer_ok v → map_put (h_bytes h) r k v = Some m → heap_ok (with_bytes m h).
Proof.
  intros Hh Hv. destruct r as [l|]; [|done]. intros [= <-]. apply map_Forall_insert_2; [|done].
  apply map_Forall_insert_2; [done|]. by apply (map_at_Forall h (Some l)).
Qed.

(** ** Encodings *)

Lemma serializeTrivialNatural_bytes x l : bytes_ok (serializeTrivialNatural x l).
Proof. apply Forall_fmap, Forall_forall. intros i _. by apply wrapU_range. Qed.

(** What [marshal] writes for a value: at most [n] bytes. *)
Definition writes_bytes (c : res jam_error (list Z)) (n : nat) : Prop :=
  ∃ bs, c = Ok bs ∧ bytes_ok bs ∧ (length bs ≤ n)%nat.

Lemma marshal_prim_bytes named k z : kind_fixed k → writes_bytes (marshal (TPrim named k) (VNum z)) 8.
Proof.
  intros Hk. destruct named, k; try done;
    (eexists; split_and!; [reflexivity|apply serializeTrivialNatural_bytes|]); simpl; lia.
Qed.

Lemma marshal_octets_bytes n s : writes_bytes (marshal (octets_type n) (hash_value s)) (length s).
Proof.
  cbn [octets_type hash_value marshal]. unfold encodeArray.
  induction s as [|z s (bs & IH & Hb & Hl)]; [exists []; split_and!; [done|constructor|done]|].
  cbn [fmap list_fmap encode_all]. fold (VNum <$> s). rewrite IH.
  assert (∃ b, marshal (TPrim false Uint8) (VNum z) = Ok [b] ∧ is_byte b) as (b & -> & Hz).
  { eexists. split; [reflexivity|]. by apply wrapU_range. }
  cbn [rbind app]. exists (b :: bs). split_and!; [done|by constructor|simpl; lia].
Qed.

(** A struct writes its fields one after the other. *)
Lemma encodeStruct_bytes f t fs v vs n m :
  writes_bytes (marshal t v) n → writes_bytes (encodeStruct marshal fs vs) m →
  writes_bytes (encodeStruct marshal ((field f, t) :: fs) (v :: vs)) (n + m).
Proof.
  intros (a & Ha & Hab & Hal) (b & Hb & Hbb & Hbl). cbn [encodeStruct field field_exported field_tag].
  rewrite Ha. cbn [map_err rbind]. rewrite Hb. cbn [rbind]. exists (a ++ b).
  rewrite length_app. split_and!; [done|by apply Forall_app|lia].
Qed.

Lemma encodeStruct_nil_bytes : writes_bytes (encodeStruct marshal [] []) 0.
Proof. exists []. split_and!; [done|constructor|done]. Qed.

Lemma info_bytes a : length (CodeHash a) = 32%nat →
  writes_bytes (Marshal Host.info_type (Host.info_value a)) 80.
Proof.
  intros Ha. unfold Marshal, Host.info_type, Host.info_value. cbn [marshal].
  change 80%nat with (32 + (8 + (8 + (8 + (8 + (8 + (8 + 0)))))))%nat. rewrite <- Ha.
  repeat (apply encodeStruct_bytes; [first [apply marshal_octets_bytes|by apply marshal_prim_bytes]|]).
  apply encodeStruct_nil_bytes.
Qed.

(** ** The general functions *)

Ltac keeps_step :=
  first
    [ solve [eauto 3 with keeps nocore]
    | eapply keeps_bind; [solve [eauto 3 with keeps nocore]|cbv beta; intros]
    | progress cbv zeta
    | match goal with |- keeps _ (match ?d with _ => _ end) _ => destruct d eqn:? end ].

Section general.
Context {X : Type} (I : X → Prop).

Lemma keeps_GasRemaining : keeps I Host.GasRemaining (λ _, True).
Proof. unfold Host.GasRemaining. repeat keeps_step. Qed.

(** The rest of [Lookup] and [Read]: what was found is copied to memory. *)
Lemma keeps_found v o offset length :
  buffer_ok v → inU 64 o →
  keeps I (let? _ := Host.writeFromOffset o v offset length in
           let? _ := put_reg A0 (uint64 (len v)) in
           hreturn None) (λ _ : (), True).
Proof. intros. repeat keeps_step. Qed.

Lemma keeps_Lookup h a i m : heap_ok h → keeps I (Host.Lookup h a i m) (λ _, True).
Proof.
  intros Hh. unfold Host.Lookup. do 2 keeps_step. eapply (keeps_bind _ _ _ (λ _, True)).
  { repeat keeps_step. }
  intros. repeat keeps_step. apply keeps_found; [by eapply preimage_ok|done].
Qed.

Lemma keeps_Read H h a i m : heap_ok h → keeps I (Host.Read H h a i m) (λ _, True).
Proof.
  intros Hh. unfold Host.Read. do 2 keeps_step. eapply (keeps_bind _ _ _ (λ _, True)).
  { repeat keeps_step. }
  intros. repeat keeps_step. apply keeps_found; [by eapply storage_ok|done].
Qed.

Lemma keeps_Info h i m :
  map_Forall (λ _, acct_ok) m → keeps I (Host.Info h i m) (λ _, True).
Proof.
  intros Hm. unfold Host.Info. do 4 keeps_step; [|keeps_step].
  match goal with H : _ = Some ?t' |- _ =>
    rename t' into t; assert (acct_ok t) as Ht by (destruct (negb _); by apply Hm in H) end.
  destruct (info_bytes (read_account h t) Ht) as (bs & Hbs & Hb & Hl). rewrite Hbs.
  eapply (keeps_bind _ _ _ buffer_ok).
  { apply keeps_call. intros b [= <-]. split; [done|unfold len; lia]. }
  intros b Hbuf. repeat keeps_step.
Qed.
End general.

(** Only the storage of [a] differs. *)
Record storage_only (a : Account) (h h' : Heap) : Prop := MkStorageOnly {
  only_meta : h_meta h' = h_meta h;
  only_services : h_services h' = h_services h;
  only_gas : h_gas h' = h_gas h;
  only_bytes l : acct_Storage a ≠ Some l → h_bytes h' !! l = h_bytes h !! l;
}.

#[export] Instance storage_only_preorder a : PreOrder (storage_only a).
Proof.
  split; [by split|]. intros h1 h2 h3 [] []. split; [congruence..|].
  intros l Hl. transitivity (h_bytes h2 !! l); auto.
Qed.

Lemma storage_only_remove a h k :
  storage_only a h (with_bytes (map_remove (h_bytes h) (acct_Storage a) k) h).
Proof.
  split; try done. intros l Hl. simpl. destruct (acct_Storage a) as [l'|]; [|done].
  simpl. rewrite lookup_insert_ne; congruence.
Qed.

Lemma storage_only_put a h k v m :
  map_put (h_bytes h) (acct_Storage a) k v = Some m → storage_only a h (with_bytes m h).
Proof.
  intros Hm. split; try done. intros l Hl. simpl. destruct (acct_Storage a) as [l'|]; [|done].
  simpl in Hm. simplify_eq. rewrite lookup_insert_ne; congruence.
Qed.

(** [Write] keeps the heap and changes the account's storage only. *)
Definition write_inv (a : Account) (h h' : Heap) : Prop := heap_ok h' ∧ storage_only a h h'.

Lemma keeps_Write H a i h0 : keeps (write_inv a h0) (Host.Write H a i) (λ _, True).
Proof.
  unfold Host.Write. do 7 keeps_step. eapply (keeps_bind _ _ _ (λ _, True)).
  { destruct (_ =? 0).
    - eapply keeps_bind; [apply keeps_get|]. intros h [Hh Ho]. apply keeps_put.
      split; [by apply heap_ok_delete|]. etransitivity; [done|apply storage_only_remove].
    - eapply keeps_bind; [apply keeps_read|]. intros v Hv.
      eapply keeps_bind; [apply keeps_get|]. intros h [Hh Ho]. eapply keeps_bind.
      { apply keeps_map. intros m Hm. exact (conj (heap_ok_put _ _ _ _ m Hh Hv Hm) Hm). }
      intros m [Hm Hput]. apply keeps_put. split; [done|].
      etransitivity; [done|]. by eapply storage_only_put. }
  intros. repeat keeps_step.
Qed.

(** ** The contract *)

Lemma run_keeps {X} (I : X → Prop) (c : host X ()) gas rs m x :
  keeps I c (λ _, True) → inS 64 gas → regs_wf rs → mem_wf m → I x →
  answer_ok I gas (run c gas rs m x).
Proof.
  intros Hc Hg Hr Hm Hx. specialize (Hc (MkHst gas rs m x)). unfold run.
  destruct (c _) as [u t|t e|]; [| |done]; destruct Hc as [[] Hle]; try (by split);
    simpl in *; split_and!; try done; lia.
Qed.

(** Unknown calls take gas that may not be there, never more than the cost. *)
Lemma unknown_answer {X} cost gas rs m (x : X) :
  0 ≤ cost ≤ 2 ^ 62 → 0 ≤ gas < 2 ^ 63 → regs_wf rs →
  match run (unknown_call cost) gas rs m x with
  | HostReturn gas' rs' m' x' e =>
      gas' = gas - cost ∧ regs_wf rs' ∧ m' = m ∧ x' = x ∧ e = None
  | HostCrash => True
  end.
Proof.
  intros Hc Hg [Hl Hr]. unfold run, unknown_call, hbind, put_reg, go_update. destruct (_ && _); [|done].
  simpl. assert (inS 64 (gas - cost)) as Hin by (unfold inS; lia). unfold int64.
  rewrite wrapS_id by done. split_and!; try done. split; [by rewrite length_insert|].
  by apply Forall_insert; [|vm_compute].
Qed.

(** What an on-transfer invocation keeps: its account, and all of the heap but
    the account's storage. *)
Definition transfer_inv (a : Account) (h : Heap) (x : transfer_state) : Prop :=
  x.1 = a ∧ write_inv a h x.2.1.

Lemma assigning_ok {X} (I : X → Prop) (J : transfer_state → Prop) gas (r : host_result X) f :
  answer_ok I gas r → (∀ x e, I x → J ((f x).1, ((f x).2, e))) → answer_ok J gas (assigning r f).
Proof.
  intros Hr HJ. destruct r as [g rs m x e|]; [|done]. destruct Hr as (? & ? & ? & ? & ?).
  split_and!; try done. by apply HJ.
Qed.

#[export] Instance on_transfer_contract H services i a h :
  map_Forall (λ _, acct_ok) services →
  HostContract (transfer_inv a h) (on_transfer_host H services i).
Proof.
  intros Hs n gas rs m [a' [h' err]] Hg Hpos Hr Hm [Ha Hw]. simpl in Ha, Hw. subst a'.
  destruct (Hw) as [Hh _]. unfold on_transfer_host.
  assert (∀ c : host () (), keeps (λ _, True) c (λ _, True) →
    answer_ok (transfer_inv a h) gas (assigning (run c gas rs m ()) (λ _, (a, h')))) as Hgen.
  { intros c Hc. by eapply assigning_ok; [apply run_keeps|]. }
  assert (answer_ok (transfer_inv a h) gas
    match run (unknown_call (X := ()) OnTransferCost) gas rs m () with
    | HostReturn gas rs mem _ _ => HostReturn gas rs mem (a, (h', err)) err
    | HostCrash => HostCrash
    end) as HU.
  { pose proof (unknown_answer OnTransferCost gas rs m ()) as HU. unfold inS, OnTransferCost in *.
    destruct (run (unknown_call _) _ _ _ _) as [g' rs' m' x' e|]; [|done].
    destruct HU as (-> & ? & -> & _); [lia|lia|done|]. split_and!; try done; unfold inS; lia. }
  destruct n as [|[[[]|[]|]|[[]|[]|]|]|]; try exact HU; try apply Hgen.
  - apply keeps_GasRemaining.
  - eapply assigning_ok; [apply run_keeps, Hw; [apply keeps_Write|done..]|done].
  - by apply keeps_Info.
  - by apply keeps_Read.
  - by apply keeps_Lookup.
Qed.
