(* ===== verification/HostRun.v ===== *)
(** * Running services: lemmas

    Loading a program gives an instance that the interpreter's theorems apply to,
    and the host of an on-transfer invocation keeps its contract. *)
From S2P Require Export HostLogic.

(** ** Loading a program *)

Lemma decodeFixedWidth_le k l buf v rest :
  kind_fixed k → 0 ≤ l → bytes_ok buf → decodeFixedWidth_prim k l buf = Ok (v, rest) →
  0 ≤ num_of v < 2 ^ (8 * l) ∧ bytes_ok rest.
Proof.
  intros Hk Hl Hb H. unfold decodeFixedWidth_prim in H. go_inv.
  match goal with H : read l buf = Ok (?d', ?r) |- _ => rename H into Hr; rename d' into d end.
  pose proof (buf_read_length _ _ _ _ _ Hl Hr) as Hd.
  destruct (buf_read_bytes _ _ _ _ _ Hb Hr) as [Hdb Hrest]. pose proof (le_value_bound d Hdb) as Hv.
  rewrite Hd in Hv. assert (∀ w, 8 ≤ w → 0 ≤ deserializeTrivialNatural w d < 2 ^ (8 * l)) as Hw.
  { intros w Hw. rewrite deserializeTrivialNatural_le by done. unfold wrapU.
    pose proof (Z.mod_le (little_endian_to_Z 8 d) (2 ^ w) ltac:(lia) ltac:(lia)).
    pose proof (Z.mod_pos_bound (little_endian_to_Z 8 d) (2 ^ w) ltac:(lia)). lia. }
  destruct k; try done; simplify_eq; (split; [apply Hw; lia|done]).
Qed.

(** What a blob that [ParseBlob] accepts holds. *)
Lemma ParseBlob_inv p prog :
  bytes_ok p → ParseBlob p = Ok prog →
  bytes_ok (ROData prog) ∧ bytes_ok (RWData prog) ∧ bytes_ok (CodeAndJumpTable prog) ∧
  ∀ args, len args ≤ InputDataSize →
    blob_sizes (ROData prog) (RWData prog) args (StackSize (prog_sizes prog))
      (InitialHeapPages (prog_sizes prog)).
Proof.
  intros Hp H. unfold ParseBlob, decodeProgramMemorySizes in H. go_inv.
  match goal with H : unmarshal _ _ = _ |- _ => cbn in H end. go_inv.
  repeat match goal with
  | H : match ?v with _ => _ end = Ok _ |- _ => destruct v; try done
  end. go_inv.
  match goal with H : (if ?b then _ else _) = Ok prog |- _ => destruct b; [done|] end. simplify_eq.
  cbn [RODataSize RWDataSize] in *.
  unfold unmarshal_prim in *. cbn [IntLength rbind] in *.
  repeat match goal with
  | H : decodeFixedWidth_prim ?k ?l ?b = Ok (_, _), Hb : bytes_ok ?b |- _ =>
      apply (decodeFixedWidth_le k l) in H as [? ?]; [|done|lia|done]
  | H : decodeBytesFixedLength _ ?b = Ok (_, _), Hb : bytes_ok ?b |- _ =>
      apply decodeBytesFixedLength_inv in H as (? & ? & ? & ?); [|cbn [num_of] in *; lia|done]
  end. cbn [num_of prog_sizes ROData RWData CodeAndJumpTable StackSize InitialHeapPages] in *.
  split_and!; try done. intros args Ha. unfold blob_sizes. split_and!; lia.
Qed.

Lemma standard_memory_wf roData rwData argsData stackSize initialPages :
  blob_sizes roData rwData argsData stackSize initialPages →
  bytes_ok roData → bytes_ok rwData → bytes_ok argsData →
  mem_wf (standard_memory roData rwData argsData stackSize initialPages).
Proof.
  intros Hs Hro Hrw Ha. pose proof (standard_memory_ordered _ _ _ _ _ Hs) as Ho.
  destruct Hs as (H1 & H2 & H3 & H4 & H5). unfold InputDataSize in H3.
  pose proof (len_nonneg roData). pose proof (len_nonneg rwData). pose proof (len_nonneg argsData).
  destruct Ho as (O1 & O2 & O3 & O4 & O5). unfold seg_end in *.
  assert (AddressReturnToHost < 2 ^ 32) by done. unfold MemoryZoneSize in *.
  pose proof (len_nonneg (seg_data (mem_ro (standard_memory roData rwData argsData stackSize initialPages)))).
  pose proof (len_nonneg (seg_data (mem_rw (standard_memory roData rwData argsData stackSize initialPages)))).
  pose proof (len_nonneg (seg_data (mem_stack (standard_memory roData rwData argsData stackSize initialPages)))).
  pose proof (len_nonneg (seg_data (mem_args (standard_memory roData rwData argsData stackSize initialPages)))).
  intros []; unfold seg_wf; cbn [get_seg]; split_and!; try lia; cbn [standard_memory mem_ro mem_rw mem_stack mem_args seg_data];
    try by apply bytes_ok_zero_extend.
  by apply Forall_replicate.
Qed.

Lemma InitializeRegisters_wf n : regs_wf (InitializeRegisters n).
Proof.
  split; [done|].
  apply Forall_insert; [|apply uint64_range]. do 3 (apply Forall_insert; [|by vm_compute]).
  by apply Forall_replicate.
Qed.

(** An instance can run, or its counter is behind the code and the first step
    panics. *)
Lemma Instantiate_run p off gas rs mem i :
  bytes_ok p → mem_wf mem → regs_wf rs → inS 64 gas → inU 64 off →
  Instantiate p off gas rs mem = Ok i → wf i ∨ len (code i) ≤ off ∧ step i = Crashed.
Proof.
  intros Hp Hm Hr Hg Hoff Hi. destruct (decide (off < len (code i))) as [Hlt|Hge].
  { left. eapply (Instantiate_wf p off gas); [done..|apply Hoff|done|done]. }
  right. split; [lia|]. unfold Instantiate in Hi. go_inv. unfold inU in Hoff.
  match goal with H : Deblob _ = _ |- _ => destruct (Deblob_inv _ _ _ _ Hp H) as (_ & _ & Hlen & _) end.
  cbn [code] in Hge. unfold step. cbn. unfold Skip, go_slice_from.
  destruct (decide (off = 2 ^ 64 - 1)) as [->|].
  - change (uint64 (2 ^ 64 - 1 + 1)) with 0. rewrite go_slice_ok by (rewrite ?len_app; unfold len; lia).
    cbn. rewrite go_index_panic; [done|]. right. lia.
  - rewrite uint64_small by lia. rewrite go_slice_panic; [done|]. right. left.
    unfold len in *. rewrite length_app in *. simpl in *. lia.
Qed.

(** The instance that a program is run in. *)
Lemma prepare_instance p entry gas args i :
  bytes_ok p → bytes_ok args → len args ≤ InputDataSize → inU 64 entry →
  prepare p entry gas args = Ok i →
  gasRemaining i = int64 gas ∧ (wf i ∨ step i = Crashed).
Proof.
  intros Hp Ha Hl He H. unfold prepare, InitializeStandardProgram in H. go_inv.
  match goal with H : ParseBlob _ = Ok _ |- _ =>
    destruct (ParseBlob_inv _ _ Hp H) as (Hro & Hrw & Hc & Hs) end.
  specialize (Hs args Hl).
  match goal with H : InitializeMemory _ _ _ _ _ = Ok _ |- _ => rewrite InitializeMemory_ok in H by done end.
  go_inv. match goal with H : Instantiate _ _ _ _ _ = Ok _ |- _ => rename H into Hi end.
  split. { unfold Instantiate in Hi. go_inv. done. }
  eapply Instantiate_run in Hi as [|[_ ?]]; [by left|by right|done| |apply InitializeRegisters_wf| |done].
  - by apply standard_memory_wf.
  - by apply wrapS_range.
Qed.

(** ** Whole programs *)

Section whole.
Context {V S : Type} (inv : V * S → Prop) (hostCall : HostCall (V * S)) `{!HostContract inv hostCall}.

(** Gas bounds a whole run; the state at its end satisfies the host's invariant,
    and after an error the caller has its own value with the store of the run. *)
Lemma InvokeWholeProgram_total calls turns p entry gas args x s :
  inv (x, s) → bytes_ok p → bytes_ok args → len args ≤ InputDataSize → inU 64 entry →
  (Z.to_nat (int64 gas) < calls)%nat → (Z.to_nat (int64 gas) < turns)%nat →
  ∃ r, InvokeWholeProgram_shared hostCall calls turns p entry gas args x s = Some r ∧
    match r with
    | WholeRun _ _ x' None s' => inv (x', s')
    | WholeRun _ _ x' (Some _) s' => x' = x ∧ ∃ y, inv (y, s')
    | WholeRunCrash => True
    end.
Proof using Type*.
  intros Hx Hp Ha Hl He Hc Ht. unfold InvokeWholeProgram_shared.
  destruct (prepare p entry gas args) as [i|e|] eqn:Hi; [|eexists; split; [done|]; by split; [|exists x]|by eexists].
  destruct (prepare_instance _ _ _ _ _ Hp Ha Hl He Hi) as [Hg [Hwf|Hcrash]].
  2:{ destruct calls, turns; try lia. simpl. rewrite Hcrash. by eexists. }
  destruct (InvokeHostCall_total inv hostCall i (x, s) calls turns Hwf Hx) as [r Hr];
    [unfold gas_turns; lia..|]. rewrite Hr.
  pose proof (InvokeHostCall_inv inv hostCall _ _ _ _ _ Hwf Hx Hr) as Hinv.
  destruct r as [[x' s'] [e|] i'|]; [..|by eexists]; destruct Hinv as (_ & _ & _ & Hinv).
  - eexists. split; [done|]. by split; [|exists x'].
  - cbn [Results]. destruct (rbind _ _) as [res|e|]; (eexists; split; [done|]); [done| |done].
    by split; [|exists x'].
Qed.
End whole.

(** After an error the caller has what it passed in, and no gas. *)
Lemma InvokeWholeProgram_failed {V S} (hostCall : HostCall (V * S)) calls turns p entry gas args x s g
    res x' e s' :
  InvokeWholeProgram_shared hostCall calls turns p entry gas args x s =
    Some (WholeRun g res x' (Some e) s') → g = 0 ∧ x' = x.
Proof.
  unfold InvokeWholeProgram_shared. destruct (prepare _ _ _ _); [|by intros [= <-]|done].
  destruct (InvokeHostCall _ _ _ _ _) as [[[? ?] [?|] ?|]|]; [by intros [= <-]| |done..].
  cbn [Results]. by destruct (rbind _ _); intros [= <-].
Qed.

(** ** Accumulation *)

Lemma newCtx_inv H a u i h ctx ok h' :
  newCtx H a u i h = Ok (ctx, ok, h') →
  ctx_DeferredTransfers ctx = [] ∧
  (ok = true →
   ref_ValidatorKeys (ctx_AccumulationState ctx) = ref_ValidatorKeys u ∧
   ref_PendingAuthorizersQueues (ctx_AccumulationState ctx) = ref_PendingAuthorizersQueues u ∧
   ctx_ServiceId ctx = i ∧
   read_services h' (services_ref ctx) =
     {[i := read_account h (default zeroAcct (map_at (h_services h) (ref_ServiceState u) !! i))]} ∧
   h_bytes h' = h_bytes h ∧ h_meta h' = h_meta h).
Proof.
  unfold newCtx. cbn [map_new]. destruct (newServiceID _ _ _) as [n|e|]; [|by intros [= <- <- <-]|done].
  destruct (DeriveIndex _ _ _); [|done]. intros [= <- <- <-]. split; [done|]. intros _. split_and!; try done.
  unfold read_services, services_ref, map_at. cbn [ctx_AccumulationState ref_ServiceState h_services with_services].
  rewrite lookup_insert_eq. simpl. by rewrite map_fmap_singleton.
Qed.

(** ** Transfers *)

(** Arguments that fit into the input area. *)
Definition transfers_ok (transfers : list DeferredTransfer) : Prop :=
  Forall (λ t, length (Memo t) = 128%nat) transfers ∧ len transfers ≤ 2 ^ 16.

Lemma transfer_bytes t :
  length (Memo t) = 128%nat → writes_bytes (marshal transfer_type (transfer_value t)) 160.
Proof.
  intros Hm. unfold transfer_type, transfer_value. cbn [marshal].
  change 160%nat with (8 + (8 + (8 + (128 + (8 + 0)))))%nat. rewrite <- Hm.
  repeat (apply encodeStruct_bytes; [first [by apply marshal_prim_bytes|apply marshal_octets_bytes]|]).
  apply encodeStruct_nil_bytes.
Qed.

Lemma transfers_bytes transfers :
  transfers_ok transfers →
  ∃ args, Marshal (TSlice transfer_type) (VSeq (transfer_value <$> transfers)) = Ok args ∧
    bytes_ok args ∧ len args ≤ InputDataSize.
Proof.
  intros [Hf Hl]. unfold Marshal. cbn [marshal]. unfold encodeSlice.
  assert (writes_bytes (encode_all (marshal transfer_type) (transfer_value <$> transfers))
            (160 * length transfers)) as (bs & Hbs & Hb & Hbl).
  { clear Hl. induction Hf as [|t ts Ht _ (bs & IH & Hb & Hbl)]; [by exists []; split_and!; [|constructor|]|].
    destruct (transfer_bytes t Ht) as (b & Htb & Hbb & Hbbl). cbn [fmap list_fmap encode_all].
    fold (transfer_value <$> ts). rewrite Htb, IH. cbn [rbind]. exists (b ++ bs).
    rewrite length_app. cbn [length]. split_and!; [done|by apply Forall_app|lia]. }
  rewrite Hbs. cbn [rbind]. eexists. split; [done|]. rewrite len_app. unfold encodeLength, encodeUint.
  rewrite serializeUint64_length. destruct (naturalLength_spec (uint64 (len (transfer_value <$> transfers))))
    as (Hn & _). unfold InputDataSize, len in *. split; [|lia].
  apply Forall_app. split; [apply serializeUint64_bytes_ok, uint64_range|done].
Qed.

(** The balance with the transfers added. *)
Definition received (a : Account) (transfers : list DeferredTransfer) : Z :=
  foldl (λ b t, uint64 (b + transfer_Balance t)) (acct_Balance a) transfers.
Definition transfers_gas (transfers : list DeferredTransfer) : Z :=
  foldl (λ g t, uint64 (g + transfer_GasLimit t)) 0 transfers.

Lemma InvokePVMOnTransfer_spec H calls turns services i transfers h :
  let a := default zeroAcct (map_at (h_services h) services !! i) in
  heap_ok h → map_Forall (λ _, acct_ok) (map_at (h_services h) services) → transfers_ok transfers →
  (Z.to_nat (int64 (transfers_gas transfers)) < calls)%nat →
  (Z.to_nat (int64 (transfers_gas transfers)) < turns)%nat →
  ∃ r, InvokePVMOnTransfer H calls turns services i transfers h = Some r ∧
    match r with
    | Ok (a', h') =>
        a' = (if (bool_decide (Code (read_account h a) = None)) || (len transfers =? 0) then a
              else with_balance (received a transfers) a) ∧
        heap_ok h' ∧ storage_only a h h'
    | Err _ => False
    | RuntimePanic => True
    end.
Proof.
  intros a Hh Hs Ht Hc Htu. unfold InvokePVMOnTransfer. fold a.
  destruct (Code (read_account h a)) as [p|] eqn:Hp.
  2:{ eexists. split; [done|]. by rewrite bool_decide_true. }
  rewrite bool_decide_false by done. cbn [orb].
  destruct (len transfers =? 0) eqn:Hz; [by eexists; split|].
  destruct (transfers_bytes transfers Ht) as (args & -> & Hb & Hl).
  set (a1 := with_balance _ a).
  pose proof (on_transfer_contract H _ i a1 h Hs) as Hcon.
  destruct (InvokeWholeProgram_total (transfer_inv a1 h) (on_transfer_host H (map_at (h_services h) services) i)
    calls turns p 10 (transfers_gas transfers) args a1 (h, None)) as (r & Hr & Hpost).
  - by split; [|split].
  - by destruct (preimage_ok _ _ _ _ Hh Hp).
  - done.
  - done.
  - done.
  - done.
  - done.
  - unfold transfers_gas in Hr. rewrite Hr. destruct r as [g res x [e|] [h' err]|]; [..|by eexists];
      (eexists; split; [done|]); simpl.
    + destruct Hpost as [-> (y & _ & Hh' & [])]. done.
    + destruct Hpost as [Hx [Hh' []]]. simpl in Hx. by subst x.
Qed.
