(* ===== verification/HostEval.v ===== *)
(** * Host calls: symbolic execution

    Equations that run a host function statement by statement, gathered in the
    rewrite database [host_run]. *)
From S2P Require Export HostRun.

(** The value of a register. *)
Definition reg_of (rs : Registers) (r : Z) : Z := default 0 (rs !! Z.to_nat r).

Section equations.
Context {X : Type}.
Implicit Types s : hstate X.

Lemma hbind_next {A B} (c : host X A) (k : A → host X B) s a t :
  c s = HNext a t → hbind c k s = k a t.
Proof. intros H. unfold hbind. by rewrite H. Qed.

Lemma hbind_assoc {A B C} (c : host X A) (k : A → host X B) (l : B → host X C) s :
  hbind (hbind c k) l s = hbind c (λ a, hbind (k a) l) s.
Proof. unfold hbind. by destruct (c s). Qed.

Lemma go_index_reg rs r :
  length rs = 13%nat → 0 ≤ r < 13 → go_index rs r = @Ok pvm_error Z (reg_of rs r).
Proof.
  intros Hl Hr. unfold go_index, reg_of. rewrite (proj2 (Z.ltb_ge r 0)) by lia.
  destruct (lookup_lt_is_Some_2 rs (Z.to_nat r)) as [v Hv]; [lia|]. by rewrite Hv.
Qed.

Lemma get_reg_run {B} (k : Z → host X B) r s :
  length (hs_regs s) = 13%nat → 0 ≤ r < 13 → hbind (get_reg r) k s = k (reg_of (hs_regs s) r) s.
Proof.
  intros Hl Hr. apply hbind_next. unfold get_reg. by rewrite go_index_reg.
Qed.

Lemma put_reg_eq r v s :
  length (hs_regs s) = 13%nat → 0 ≤ r < 13 →
  put_reg r v s = HNext () (MkHst (hs_gas s) (<[Z.to_nat r := v]> (hs_regs s)) (hs_mem s) (hs_x s)).
Proof.
  intros Hl Hr. unfold put_reg, go_update.
  rewrite (proj2 (Z.leb_le 0 r)), (proj2 (Z.ltb_lt r _)) by (unfold len; lia). done.
Qed.

Lemma put_reg_run {B} (k : () → host X B) r v s :
  length (hs_regs s) = 13%nat → 0 ≤ r < 13 →
  hbind (put_reg r v) k s =
  k () (MkHst (hs_gas s) (<[Z.to_nat r := v]> (hs_regs s)) (hs_mem s) (hs_x s)).
Proof. intros. by apply hbind_next, put_reg_eq. Qed.

Lemma withCode_run {B} c s :
  length (hs_regs s) = 13%nat →
  @Host.withCode X B c s =
  HReturn (MkHst (hs_gas s) (<[Z.to_nat A0 := c]> (hs_regs s)) (hs_mem s) (hs_x s)) None.
Proof. intros. unfold Host.withCode. by rewrite put_reg_run. Qed.

Lemma withCode_stop {A B} c (k : A → host X B) s :
  length (hs_regs s) = 13%nat →
  hbind (Host.withCode c) k s =
  HReturn (MkHst (hs_gas s) (<[Z.to_nat A0 := c]> (hs_regs s)) (hs_mem s) (hs_x s)) None.
Proof. intros. unfold hbind at 1. by rewrite withCode_run. Qed.

Lemma charge_run {B} (k : () → host X B) c s :
  inS 64 (hs_gas s) → 0 ≤ c ≤ hs_gas s →
  hbind (charge c) k s = k () (MkHst (hs_gas s - c) (hs_regs s) (hs_mem s) (hs_x s)).
Proof.
  intros Hg Hc. unfold hbind, charge. rewrite (proj2 (Z.ltb_ge _ _)) by lia.
  unfold int64. rewrite wrapS_id; [done|lia|unfold inS in *; lia].
Qed.

Lemma read_bytes_run {B} (k : list Z → host X B) addr n b s :
  PvmMemory.Read (hs_mem s) addr n = Ok b → 0 ≤ n ≤ 2 ^ 48 → hbind (read_bytes addr n) k s = k b s.
Proof.
  intros Hb Hn. apply hbind_next. unfold read_bytes, make_bytes, hbind. 
  rewrite go_make_small by (unfold maxAlloc; lia). cbn [hcall hpure]. by rewrite Hb.
Qed.

Lemma hget_run {B} (k : X → host X B) s : hbind hget k s = k (hs_x s) s.
Proof. done. Qed.
Lemma hput_run {B} (k : () → host X B) x s :
  hbind (hput x) k s = k () (MkHst (hs_gas s) (hs_regs s) (hs_mem s) x).
Proof. done. Qed.
Lemma hpure_run {A B} (a : A) (k : A → host X B) s : hbind (hpure a) k s = k a s.
Proof. done. Qed.
Lemma hgas_run {B} (k : Z → host X B) s : hbind hgas k s = k (hs_gas s) s.
Proof. done. Qed.
Lemma hreturn_run {A} e s : @hreturn X A e s = HReturn s e.
Proof. done. Qed.
Lemma hmap_run {A B} (a : A) (k : A → host X B) s : hbind (hmap (Some a)) k s = k a s.
Proof. done. Qed.
End equations.

(** Keys of the storage: four bytes of the service before the key. *)
Definition service_key (HashData : list Z → Hash) (i : Z) (key : list Z) : Hash :=
  HashData (serializeTrivialNatural i 4 ++ key).

Lemma storage_key_run {X B} HashData i key (k : Hash → host X B) s :
  hbind (Host.storage_key HashData i key) k s = k (service_key HashData i key) s.
Proof. done. Qed.

Lemma regular_run {B} f (k : () → host ctx_state B) s :
  hbind (update_regular f) k s =
  k () (MkHst (hs_gas s) (hs_regs s) (hs_mem s)
          (MkPair (f (RegularCtx (hs_x s).1)) (ExceptionalCtx (hs_x s).1), (hs_x s).2)).
Proof. done. Qed.
Lemma put_heap_run {B} h (k : () → host ctx_state B) s :
  hbind (put_heap h) k s = k () (MkHst (hs_gas s) (hs_regs s) (hs_mem s) ((hs_x s).1, h)).
Proof. done. Qed.
Lemma own_run {B} (k : Account → host ctx_state B) s :
  hbind own_account k s = k (ctx_account (regular (hs_x s)) (hs_x s).2) s.
Proof. done. Qed.
Lemma meta_run {B} a key (k : option (list Z) → host ctx_state B) s :
  hbind (meta_of a key) k s = k (PreimageMeta (read_account (hs_x s).2 a) !! key) s.
Proof. done. Qed.

Lemma map_put_some {K A} `{Countable K} (maps : gmap nat (gmap K A)) l k a :
  map_put maps (Some l) k a = Some (<[l := <[k := a]> (map_at maps (Some l))]> maps).
Proof. done. Qed.

Lemma set_service_run {B} i a l (k : () → host ctx_state B) s :
  services_ref (regular (hs_x s)) = Some l →
  hbind (set_service i a) k s =
  k () (MkHst (hs_gas s) (hs_regs s) (hs_mem s)
          ((hs_x s).1, with_services (<[l := <[i := a]> (services_of (regular (hs_x s)) (hs_x s).2)]>
                                        (h_services (hs_x s).2)) (hs_x s).2)).
Proof.
  destruct s as [g rs m [p h]]. simpl. intros Hl. apply hbind_next. unfold services_of.
  cbn. by rewrite Hl.
Qed.

Lemma set_own_run {B} a l (k : () → host ctx_state B) s :
  services_ref (regular (hs_x s)) = Some l →
  hbind (set_own a) k s =
  k () (MkHst (hs_gas s) (hs_regs s) (hs_mem s)
          ((hs_x s).1,
           with_services (<[l := <[ctx_ServiceId (regular (hs_x s)) := a]>
                                    (services_of (regular (hs_x s)) (hs_x s).2)]>
                            (h_services (hs_x s).2)) (hs_x s).2)).
Proof. apply (set_service_run (ctx_ServiceId (regular (hs_x s)))). Qed.

(** The heap with another value for a request. *)
Definition requested (l : nat) (key : PreImageMetaKey) (ts : list Z) (h : Heap) : Heap :=
  with_meta (<[l := <[key := ts]> (map_at (h_meta h) (Some l))]> (h_meta h)) h.

Lemma set_meta_run {B} a key ts l (k : () → host ctx_state B) s :
  acct_PreimageMeta a = Some l →
  hbind (set_meta a key ts) k s =
  k () (MkHst (hs_gas s) (hs_regs s) (hs_mem s)
          ((hs_x s).1, requested l key ts (hs_x s).2)).
Proof. intros Hl. apply hbind_next. unfold set_meta. by rewrite hget_run, Hl. Qed.

Lemma read_services_lookup h r i :
  read_services h r !! i = read_account h <$> map_at (h_services h) r !! i.
Proof. apply lookup_fmap. Qed.

Lemma services_of_put c h l m :
  services_ref c = Some l → services_of c (with_services (<[l := m]> (h_services h)) h) = m.
Proof. intros Hl. unfold services_of. rewrite Hl. simpl. by rewrite lookup_insert_eq. Qed.

(** [then_restore] leaves the given account in the context. *)
Lemma set_own_account a s :
  match set_own a s with
  | HNext _ t => ctx_account (regular (hs_x t)) (hs_x t).2 = a
  | HReturn _ _ => False
  | HCrash => True
  end.
Proof.
  destruct s as [g rs m [p h]]. unfold set_own, set_service, hbind, hget. cbn [hs_x fst snd].
  destruct (services_ref (regular (p, h))) as [l|] eqn:Hl; cbn; [|done].
  unfold ctx_account, services_of, regular. cbn. unfold services_ref, regular in Hl. cbn in Hl.
  unfold services_ref. rewrite Hl. cbn. rewrite lookup_insert_eq. cbn. by rewrite lookup_insert_eq.
Qed.

Lemma restore_account c a s :
  match then_restore c a s with
  | HNext _ t | HReturn t _ => ctx_account (regular (hs_x t)) (hs_x t).2 = a
  | HCrash => True
  end.
Proof.
  unfold then_restore. destruct (c s) as [u t|t e|]; [..|done]; pose proof (set_own_account a t) as H;
    destruct (set_own a t); done.
Qed.

(** Storing an account where it is already changes nothing. *)
Lemma set_same_account c h l i a :
  services_ref c = Some l → services_of c h !! i = Some a →
  with_services (<[l := <[i := a]> (services_of c h)]> (h_services h)) h = h.
Proof.
  intros Hl Ha. rewrite (insert_id (services_of c h)) by done. unfold services_of in *. rewrite Hl in *. cbn [map_at] in *.
  destruct (h_services h !! l) as [m|] eqn:E; simpl in *; [|by rewrite lookup_empty in Ha].
  rewrite insert_id by done. by destruct h.
Qed.

(** Runs the next statements. *)
Ltac host_side :=
  cbn [hs_gas hs_regs hs_mem hs_x fst snd]; rewrite ?length_insert;
  done || lia || (unfold inS, HostCallCost in *; lia).
Ltac host_step :=
  first
    [ rewrite get_reg_run by host_side
    | rewrite put_reg_run by host_side
    | rewrite withCode_stop by host_side
    | rewrite withCode_run by host_side
    | rewrite charge_run by host_side
    | erewrite read_bytes_run by first [eassumption|host_side]
    | rewrite storage_key_run
    | rewrite hget_run
    | rewrite hput_run
    | rewrite hpure_run
    | rewrite hgas_run
    | rewrite hmap_run
    | rewrite hreturn_run
    | rewrite own_run
    | rewrite meta_run
    | rewrite regular_run
    | rewrite put_heap_run
    | rewrite hbind_assoc
    | erewrite set_own_run by first [eassumption|host_side]
    | erewrite set_meta_run by first [eassumption|host_side] ];
  cbn [hs_gas hs_regs hs_mem hs_x fst snd].
Ltac host_exec := repeat host_step.
