(* ===== verification/TransitionTheorems.v ===== *)
(** * The state transition: theorems *)
From S2P Require Export SafroleTheorems ReportsTheorems AccumulationTheorems HistoryTheorems Transition HostRun.

(** ** What accumulation keeps *)

Definition queues_ok (queues : list (list Hash)) : Prop :=
  length queues = Z.to_nat TotalNumberOfCores ∧
  Forall (λ q, length q = Z.to_nat PendingAuthorizersQueueSize) queues.

(** The arrays of an accumulation state are filled and have their sizes. *)
Definition arrays_ok (u : AccStateRef) : Prop :=
  filled (ref_ValidatorKeys u) ∧ queues_ok (ref_PendingAuthorizersQueues u).
Definition contexts_ok (x : ctx_state) : Prop :=
  arrays_ok (ctx_AccumulationState (RegularCtx x.1)) ∧
  arrays_ok (ctx_AccumulationState (ExceptionalCtx x.1)).

(** *** Host functions that keep the arrays

    Whatever gas, registers and memory are. *)
Definition keeps_arrays {A} (c : host ctx_state A) : Prop :=
  ∀ s, contexts_ok (hs_x s) →
    match c s with
    | HNext _ t | HReturn t _ => contexts_ok (hs_x t)
    | HCrash => True
    end.

Create HintDb arrays.

Lemma keeps_arrays_bind {A B} (c : host ctx_state A) (k : A → host ctx_state B) :
  keeps_arrays c → (∀ a, keeps_arrays (k a)) → keeps_arrays (hbind c k).
Proof.
  intros Hc Hk s Hs. unfold hbind. specialize (Hc s Hs). destruct (c s); [by apply Hk|done..].
Qed.
(** The value of [hget] satisfies the invariant; that of a call is its result. *)
Lemma keeps_arrays_get {B} (k : ctx_state → host ctx_state B) :
  (∀ x, contexts_ok x → keeps_arrays (k x)) → keeps_arrays (hbind hget k).
Proof. intros Hk s Hs. by apply (Hk (hs_x s)). Qed.
Lemma keeps_arrays_call {A B} f (c : res pvm_error A) (k : A → host ctx_state B) :
  (∀ a, c = Ok a → keeps_arrays (k a)) → keeps_arrays (hbind (hcall f c) k).
Proof. intros Hk s Hs. unfold hbind, hcall. destruct c; [by apply Hk|done..]. Qed.
Lemma keeps_arrays_put x : contexts_ok x → keeps_arrays (hput x).
Proof. by intros Hx s _. Qed.

(** What does not touch the state keeps it. *)
Definition same_state {A} (c : host ctx_state A) : Prop :=
  ∀ s, match c s with HNext _ t | HReturn t _ => hs_x t = hs_x s | HCrash => True end.
Lemma same_keeps_arrays {A} (c : host ctx_state A) : same_state c → keeps_arrays c.
Proof. intros Hc s Hs. specialize (Hc s). by destruct (c s); simplify_eq/=; rewrite ?Hc. Qed.
Lemma same_state_bind {A B} (c : host ctx_state A) (k : A → host ctx_state B) :
  same_state c → (∀ a, same_state (k a)) → same_state (hbind c k).
Proof.
  intros Hc Hk s. unfold hbind. specialize (Hc s). destruct (c s) as [a t|t e|]; [|done..].
  specialize (Hk a t). destruct (k a t); congruence || done.
Qed.
Lemma same_pure {A} (a : A) : same_state (hpure a).
Proof. done. Qed.
Lemma same_return {A} e : same_state (A := A) (hreturn e).
Proof. done. Qed.
Lemma same_gas : same_state hgas.
Proof. done. Qed.
Lemma same_crash {A} : same_state (A := A) hcrash.
Proof. done. Qed.
Lemma same_charge cost : same_state (charge cost).
Proof. intros s. unfold charge. by destruct (_ <? _). Qed.
Lemma same_call {A} f (c : res pvm_error A) : same_state (hcall f c).
Proof. intros s. by destruct c. Qed.
Lemma same_get_reg r : same_state (get_reg r).
Proof. intros s. apply same_call. Qed.
Lemma same_put_reg r v : same_state (put_reg r v).
Proof. intros s. unfold put_reg. by destruct (go_update _ _ _). Qed.
Lemma same_map {A} (o : option A) : same_state (hmap o).
Proof. by destruct o. Qed.
Lemma same_read addr n : same_state (read_bytes addr n).
Proof.
  unfold read_bytes, make_bytes. repeat apply same_state_bind; intros; [apply same_call|done|].
  intros s. apply same_call.
Qed.
Lemma same_code {A} c : same_state (A := A) (Host.withCode c).
Proof. apply same_state_bind; [apply same_put_reg|]. intros. apply same_return. Qed.
#[export] Hint Resolve same_pure same_return same_gas same_crash same_charge same_call same_get_reg
  same_put_reg same_map same_read same_code : arrays.
Lemma same_number t addr n : same_state (Host.readNumber t addr n).
Proof.
  apply same_state_bind; [apply same_read|]. intros b. apply same_state_bind; [apply same_call|]. done.
Qed.
#[export] Hint Resolve same_number : arrays.

(** Takes a host function apart into its statements. *)
Ltac arrays_split :=
  repeat first
    [ solve [eauto 2 with arrays nocore]
    | apply same_keeps_arrays; solve [eauto 2 with arrays nocore]
    | apply keeps_arrays_get
    | apply keeps_arrays_call
    | apply keeps_arrays_bind
    | progress intros
    | progress cbv zeta
    | match goal with |- keeps_arrays (match ?d with _ => _ end) => destruct d end
    | match goal with |- keeps_arrays (let '(_, _) := ?d in _) => destruct d end ].

Lemma keeps_arrays_heap h : keeps_arrays (put_heap h).
Proof. apply keeps_arrays_get. intros x Hx. by apply keeps_arrays_put. Qed.
Lemma keeps_arrays_regular f :
  (∀ c, arrays_ok (ctx_AccumulationState c) → arrays_ok (ctx_AccumulationState (f c))) →
  keeps_arrays (update_regular f).
Proof.
  intros Hf. apply keeps_arrays_get. intros x [H1 H2]. apply keeps_arrays_put. split; [by apply Hf|done].
Qed.
Lemma keeps_arrays_acc f : (∀ u, arrays_ok u → arrays_ok (f u)) → keeps_arrays (update_acc f).
Proof. intros Hf. apply keeps_arrays_regular. intros c. apply Hf. Qed.
Lemma keeps_arrays_own : keeps_arrays own_account.
Proof. apply keeps_arrays_get. intros. by apply same_keeps_arrays. Qed.
#[export] Hint Resolve keeps_arrays_heap keeps_arrays_own : arrays.
Lemma keeps_arrays_service i a : keeps_arrays (set_service i a).
Proof. unfold set_service. arrays_split. Qed.
Lemma keeps_arrays_set_own a : keeps_arrays (set_own a).
Proof. apply keeps_arrays_get. intros. apply keeps_arrays_service. Qed.
Lemma keeps_arrays_delete i : keeps_arrays (delete_service i).
Proof. unfold delete_service. arrays_split. Qed.
Lemma keeps_arrays_set_meta a k t : keeps_arrays (set_meta a k t).
Proof. unfold set_meta. arrays_split. Qed.
Lemma keeps_arrays_meta a k : keeps_arrays (meta_of a k).
Proof. apply keeps_arrays_get. intros. by apply same_keeps_arrays. Qed.
#[export] Hint Resolve keeps_arrays_service keeps_arrays_set_own keeps_arrays_delete
  keeps_arrays_set_meta keeps_arrays_meta : arrays.
Lemma keeps_arrays_drop a k : keeps_arrays (Acc.drop_preimage a k).
Proof. unfold Acc.drop_preimage. arrays_split. Qed.
#[export] Hint Resolve keeps_arrays_drop : arrays.

Lemma keeps_arrays_bless addr i n : keeps_arrays (Acc.bless_entries addr i n).
Proof.
  revert i. induction n as [|n IH]; intros i; cbn [Acc.bless_entries]; [arrays_split|].
  apply keeps_arrays_bind; [|intros; apply IH]. unfold Acc.bless_entry. arrays_split.
Qed.

(** A read returns as many bytes as it was asked for. *)
Lemma Read_len m a n b : 0 ≤ n < 2 ^ 64 → PvmMemory.Read m a n = Ok b → len b = n.
Proof.
  intros Hn H. unfold PvmMemory.Read in H. destruct (a <? _); [done|].
  apply rbind_Ok_inv in H as ([o d] & Hs & H). unfold select in Hs.
  destruct (first_segment _ _) as [sg|]; [|injection Hs as <- <-; done].
  apply rbind_Ok_inv in Hs as (d' & Hd & Hs). injection Hs as <- <-.
  assert (b = d') as -> by (by destruct (access_of _ _); simplify_eq). clear H.
  unfold go_slice in Hd. set (lo := a - _) in *.
  destruct (Z.leb_spec 0 lo), (Z.leb_spec lo (uint64 (lo + n))),
    (Z.leb_spec (uint64 (lo + n)) (len (seg_data (get_seg m sg)))); simpl in Hd; try done.
  injection Hd as <-. assert (uint64 (lo + n) = lo + n) as E.
  { unfold uint64, wrapU in *. pose proof (Z.mod_pos_bound (lo + n) (2 ^ 64) ltac:(lia)).
    pose proof (Z.div_mod (lo + n) (2 ^ 64) ltac:(lia)). nia. }
  rewrite E in *. unfold len in *. rewrite length_take, length_drop. lia.
Qed.
Lemma keeps_arrays_read {B} addr n (k : list Z → host ctx_state B) :
  0 ≤ n < 2 ^ 64 → (∀ b, len b = n → keeps_arrays (k b)) → keeps_arrays (hbind (read_bytes addr n) k).
Proof.
  intros Hn Hk s Hs. pose proof (same_read addr n s) as Hsame. unfold hbind.
  destruct (read_bytes addr n s) as [b t|t e|] eqn:E; [|by rewrite Hsame|done].
  assert (len b = n) as Hb.
  { unfold read_bytes, make_bytes, hbind, hcall, hpure in E. destruct (go_make _ _ _); [|done..].
    destruct (PvmMemory.Read _ _ _) eqn:Er; simplify_eq/=. by eapply Read_len. }
  apply Hk; [done|]. by rewrite Hsame.
Qed.

Lemma keeps_arrays_assign addr core i n : keeps_arrays (Acc.assign_entries addr core i n).
Proof.
  revert i. induction n as [|n IH]; intros i; cbn [Acc.assign_entries]; [arrays_split|].
  apply keeps_arrays_bind; [apply same_keeps_arrays, same_read|]. intros bytes.
  apply keeps_arrays_get. intros x Hx. apply keeps_arrays_call. intros q Hq.
  apply keeps_arrays_bind; [|intros; apply IH]. apply keeps_arrays_get. intros y [Hy1 Hy2].
  apply keeps_arrays_put. split; [|done]. split; [apply Hy1|]. cbn.
  apply rbind_Ok_inv in Hq as (old & Hold & Hq). apply rbind_Ok_inv in Hq as (new & Hnew & Hq).
  destruct Hx as [[_ [Hl Hf]] _]. unfold go_update in Hq, Hnew.
  destruct (_ && _) in Hnew; [|done]. injection Hnew as <-. destruct (_ && _) in Hq; [|done].
  injection Hq as <-. split; [by rewrite length_insert|]. apply Forall_insert; [done|].
  rewrite length_insert. apply go_index_Ok in Hold as [_ Hold]. exact (Forall_lookup_1 _ _ _ _ Hf Hold).
Qed.

Lemma keeps_arrays_designate addr i n : keeps_arrays (Acc.designate_entries addr i n).
Proof.
  revert i. induction n as [|n IH]; intros i; cbn [Acc.designate_entries]; [arrays_split|].
  apply keeps_arrays_read; [lia|]. intros bytes Hb.
  apply keeps_arrays_get. intros x Hx. apply keeps_arrays_call. intros v Hv.
  apply keeps_arrays_bind; [|intros; apply IH]. apply keeps_arrays_get. intros y [Hy1 Hy2].
  apply keeps_arrays_put. split; [|done]. split; [|apply Hy1]. cbn.
  destruct Hx as [[[Hl Hf] _] _]. unfold go_update in Hv. destruct (_ && _); [|done].
  injection Hv as <-. split; [unfold len in *; by rewrite length_insert|]. apply Forall_insert; [done|].
  eexists. split; [done|]. unfold Acc.validator_key, len in *. cbn.
  rewrite !length_take, length_drop. lia.
Qed.
#[export] Hint Resolve keeps_arrays_bless keeps_arrays_assign keeps_arrays_designate : arrays.

(** *** The host function and the invocation *)

Lemma keeps_arrays_general c : keeps_arrays (general c).
Proof. intros s Hs. unfold general. by destruct (c _). Qed.
Lemma keeps_arrays_on_heap c : keeps_arrays (on_heap c).
Proof. intros s Hs. unfold on_heap. by destruct (c _). Qed.
Lemma keeps_arrays_restore c a : keeps_arrays c → keeps_arrays (then_restore c a).
Proof.
  intros Hc s Hs. unfold then_restore. specialize (Hc s Hs). destruct (c s) as [u t|t e|]; [| |done];
    pose proof (keeps_arrays_set_own a t Hc) as H; by destruct (set_own a t).
Qed.
#[export] Hint Resolve keeps_arrays_general keeps_arrays_on_heap keeps_arrays_restore : arrays.

Lemma keeps_arrays_accumulate H a u i n : keeps_arrays (accumulate_call H a u i n).
Proof.
  unfold accumulate_call. apply keeps_arrays_get. intros x Hx. cbv zeta.
  assert (keeps_arrays (unknown_call AccumulateCost)) as Hu.
  { intros s Hs. unfold unknown_call, hbind, put_reg. by destruct (go_update _ _ _). }
  destruct n as [|n|n]; [auto with arrays| |exact Hu].
  do 5 (try destruct n as [n|n|]); try exact Hu; try solve [auto with arrays];
    first [unfold Acc.Bless|unfold Acc.Assign|unfold Acc.Designate|unfold Acc.Checkpoint|unfold Acc.New|
           unfold Acc.Upgrade|unfold Acc.Transfer|unfold Acc.Eject|unfold Acc.Query|unfold Acc.Solicit|
           unfold Acc.Forget|unfold Acc.Yield]; arrays_split;
    try (by apply keeps_arrays_regular); try (by apply keeps_arrays_acc).
  apply keeps_arrays_put. by destruct H0.
Qed.

(** A run changes the contexts by host calls only. *)
Lemma InvokeHostCall_arrays H a u i calls turns inst x y e inst' :
  contexts_ok x →
  InvokeHostCall (accumulate_host H a u i) calls turns inst x = Some (Served y e inst') → contexts_ok y.
Proof.
  revert inst x. induction calls as [|calls IH]; intros inst x Hx; cbn [InvokeHostCall]; [done|].
  destruct (Invoke turns inst) as [[n err i'|]|]; [|done..].
  destruct (decide (err = ErrHostCall)); [|by intros [= <- <- <-]].
  unfold accumulate_host at 1, run.
  pose proof (keeps_arrays_accumulate H a u i n (MkHst (gasRemaining i') (regs i') (memory i') x) Hx) as Hk.
  destruct (accumulate_call _ _ _ _ _ _) as [v t|t [e'|]|]; [|by intros [= <- <- <-]| |done];
    (destruct (skip _); [|done..]); by apply IH.
Qed.

Lemma newServiceID_Ok H a i :
  (∀ data, length (H data) = 32%nat) → ∃ n, newServiceID H a i = Ok n.
Proof.
  intros Hh. unfold newServiceID.
  assert (writes_bytes (Marshal service_id_type
    (VSeq [VNum i; hash_value (state_Entropy a); VNum (header_Timeslot a)]))
    (8 + (length (state_Entropy a) + (8 + 0)))) as (b & -> & _).
  { unfold Marshal, service_id_type. cbn [marshal].
    repeat (apply encodeStruct_bytes; [first [apply marshal_octets_bytes|by apply marshal_prim_bytes]|]).
    apply encodeStruct_nil_bytes. }
  cbn [rbind]. specialize (Hh b). destruct (H b) as [|z l]; [done|]. eexists. reflexivity.
Qed.

(** [InvokePVM] keeps the arrays: those of the contexts it starts with are those
    of the state, and it returns one of the contexts of the end. *)
Lemma InvokePVM_arrays H calls turns a u t i gas ops h u' ts y g h' :
  (∀ data, length (H data) = 32%nat) → arrays_ok u →
  InvokePVM H calls turns a u t i gas ops h = Some (Ok (u', ts, y, g, h')) → arrays_ok u'.
Proof.
  intros Hh Hu Hrun. unfold InvokePVM in Hrun.
  destruct (newCtx H a u i h) as [[[ctx ok] h1]| |] eqn:Hctx; [|done..].
  assert (arrays_ok (ctx_AccumulationState ctx)) as Hc.
  { destruct (newServiceID_Ok H a i Hh) as [n Hn]. unfold newCtx in Hctx. rewrite Hn in Hctx.
    destruct (map_new _ _). destruct (DeriveIndex _ _ _); [|done]. by injection Hctx as <- <- <-. }
  destruct (Code _) as [code|]; [|unfold unchanged in Hrun; by simplify_eq].
  destruct ok; cbn [negb] in Hrun; [|unfold unchanged in Hrun; by simplify_eq].
  destruct (Marshal _ _) as [args| |]; [|unfold unchanged in Hrun; by simplify_eq|done].
  destruct (InvokeWholeProgram_shared _ _ _ _ _ _ _ _ _) as [[gl result p [e|] h2|]|] eqn:Hw; try done.
  - apply InvokeWholeProgram_failed in Hw as [_ ->]. by simplify_eq.
  - unfold InvokeWholeProgram_shared in Hw. destruct (prepare _ _ _ _) as [inst| |]; [|done..].
    destruct (InvokeHostCall _ _ _ _ _) as [[[x1 h3] [e|] inst'|]|] eqn:Hs; try done.
    apply InvokeHostCall_arrays in Hs as [Hr _]; [|by split].
    destruct (Results inst') as [[[? gas'] rs] mem1]. destruct (rbind _ _); simplify_eq. exact Hr.
Qed.

(** *** Accumulation *)

Section accumulation.
Context (HashData : list Z → Hash) (HashData_32 : ∀ data, length (HashData data) = 32%nat).

Lemma run_tasks_arrays calls turns a t initial ws gas order d d' :
  arrays_ok initial → run_tasks HashData calls turns a t initial ws gas order d = Some (Ok d') →
  (TakesKeys ∈ order ∨ filled (ref_ValidatorKeys (d_new d)) → filled (ref_ValidatorKeys (d_new d'))) ∧
  (TakesQueues ∈ order ∨ queues_ok (ref_PendingAuthorizersQueues (d_new d)) →
   queues_ok (ref_PendingAuthorizersQueues (d_new d'))).
Proof.
  intros Hi. revert d. induction order as [|k order IH]; intros d H.
  { injection H as <-. split; (intros [Hn|Hd]; [by apply not_elem_of_nil in Hn|done]). }
  cbn [run_tasks] in H. apply run_bind_Ok in H as ([[[[u tr] y] g] h] & Hr & H).
  unfold Delta1 in Hr. apply InvokePVM_arrays in Hr as [Hk Hq]; [|done|done].
  apply IH in H as [H1 H2]. rewrite !elem_of_cons. split.
  - intros Hin. apply H1. destruct k; cbn; destruct Hin as [[|]|]; auto; done.
  - intros Hin. apply H2. destruct k; cbn; destruct Hin as [[|]|]; auto; done.
Qed.

Lemma ParallelDelta_arrays calls turns order a t initial ws gas h g u tr hp h' :
  (∀ l, order l ≡ₚ l) → arrays_ok initial →
  ParallelDelta HashData calls turns order a t initial ws gas h = Some (Ok (g, u, tr, hp, h')) →
  arrays_ok u.
Proof.
  intros Ho Hi H. unfold ParallelDelta in H. apply run_bind_Ok in H as (d & Hd & H).
  destruct (map_new _ _) as [r m]. injection H as _ <- _ _ _. apply run_tasks_arrays in Hd as [H1 H2]; [|done].
  split; cbn; [apply H1|apply H2]; left; rewrite Ho; unfold tasks; apply elem_of_app; right;
    repeat constructor.
Qed.

Lemma SequentialDelta_arrays bound calls order a t limit ws u gas h n u' tr hp h' :
  (∀ n l, order n l ≡ₚ l) → arrays_ok u →
  SequentialDelta HashData bound calls order a t limit ws u gas h = Some (Ok (n, u', tr, hp, h')) →
  arrays_ok u'.
Proof.
  intros Ho. revert limit ws u h n u' tr hp h'.
  induction calls as [|calls IH]; intros limit ws u h n u' tr hp h' Hu H; [done|].
  cbn [SequentialDelta] in H. destruct (len ws =? 0); [by simplify_eq|].
  destruct (Nat.eqb _ 0); [by simplify_eq|].
  apply run_bind_Ok in H as ([[[[g st1] tr1] hp1] h1] & E & H).
  apply ParallelDelta_arrays in E; [|done|done].
  destruct (_ && _); [|by simplify_eq].
  apply run_bind_Ok in H as ([[[[n2 st2] tr2] hp2] h2] & E2 & H). simplify_eq. by eapply IH.
Qed.

Lemma accumulate_ok choices bound a t current ws h out h' :
  arrays_ok (in_State current) → length (in_History current) = Z.to_nat TimeslotsPerEpoch →
  CalculateWorkReportsAndAccumulate HashData choices bound a t current ws h = Some (Ok (out, h')) →
  arrays_ok (out_State out) ∧ length (out_Queue out) = Z.to_nat TimeslotsPerEpoch ∧
  length (out_History out) = Z.to_nat TimeslotsPerEpoch.
Proof.
  intros Ha Hh H. unfold CalculateWorkReportsAndAccumulate in H.
  destruct (splitReports ws) as [imm deps]. cbv zeta in H.
  destruct (accumulationPriority _ _); [|done].
  apply run_bind_Ok in H as ([[[[n st] tr] hp] h1] & E & H).
  apply SequentialDelta_arrays in E; [|apply schedule_perm|done].
  apply run_bind_Ok in H as ([services h2] & _ & H). destruct (map_new _ _) as [r maps].
  injection H as H. apply rbind_Ok_inv in H as (acc & _ & H). apply rbind_Ok_inv in H as (last & _ & H).
  injection H as <- <-. split_and!; [done|apply newAccumulationQueue_length|]. cbn.
  rewrite length_app, length_drop, Hh. done.
Qed.
End accumulation.

(** ** The invariant *)

(** Every assignment holds a report. *)
Definition assignments_ok (a : CoreAssignments) : Prop :=
  length a = Z.to_nat TotalNumberOfCores ∧
  Forall (λ x, ∀ y, x = Some y → is_Some (assigned_WorkReport y)) a.

(** What holds of the state between blocks. *)
Record state_ok (s : State) : Prop := MkStateOk {
  ok_validators : safrole_wf (st_ValidatorState s);
  ok_entropy : length (st_EntropyPool s) = 4%nat;
  ok_queues : queues_ok (st_PendingAuthorizersQueues s);
  ok_pools : length (st_CoreAuthorizersPool s) = Z.to_nat TotalNumberOfCores ∧
             Forall (λ p, len p ≤ MaxAuthorizersPerCore) (st_CoreAuthorizersPool s);
  ok_assignments : assignments_ok (st_CoreAssignments s);
  ok_recent : len (st_RecentBlocks s) ≤ MaxRecentBlocks;
  ok_judged : NoDup (judged (st_PastJudgements s)) ∧
              NoDup (OffendingValidators (st_PastJudgements s));
  ok_accumulation : length (st_AccumulationQueue s) = Z.to_nat TimeslotsPerEpoch ∧
                    length (st_AccumulationHistory s) = Z.to_nat TimeslotsPerEpoch;
}.

Lemma disputed_assignments_ok HashData d a :
  assignments_ok a → assignments_ok (CalculateIntermediateCoreAssignmentsFromExtrinsics HashData d a).
Proof.
  unfold CalculateIntermediateCoreAssignmentsFromExtrinsics. revert a.
  induction (Verdicts d) as [|v vs IH]; intros a Ha; cbn [foldl]; [done|]. apply IH.
  destruct (_ <? _); [|done]. destruct Ha as [Hl Hall]. split; [by rewrite length_fmap|].
  apply Forall_fmap. eapply Forall_impl; [exact Hall|]. intros [y|] Hy; [|done]. intros z.
  unfold compose, clear_disputed.
  destruct (assignment_hash HashData y); [case_bool_decide; [done|]|..]; intros [= <-]; by apply Hy.
Qed.

Lemma assured_assignments_ok HashData Verify vals a h assurances a' removed :
  assignments_ok a →
  CalculateIntermediateCoreFromAssurances HashData Verify vals a h assurances = Ok (a', removed) →
  assignments_ok a'.
Proof.
  intros [Hl Hall] H. unfold CalculateIntermediateCoreFromAssurances in H.
  apply rbind_Ok_inv in H as ([] & _ & H). destruct (negb _); [done|].
  unfold CalculateIntermediateCoreAssignmentsFromAvailability in H.
  apply rbind_Ok_inv in H as (counts & Hc & H).
  assert (length counts = length a) as Hlc.
  { clear -Hc. revert counts Hc. generalize 0. induction a as [|x a IH]; intros c counts H; cbn in H.
    - by injection H as <-.
    - apply rbind_Ok_inv in H as (n & _ & H). apply rbind_Ok_inv in H as (ns & Hns & H).
      injection H as <-. cbn. f_equal. by eapply IH. }
  clear Hc. assert (length a' = length a ∧ Forall (λ x, ∀ y, x = Some y → is_Some (assigned_WorkReport y)) a')
    as [Hl' Hf]; [|split; [congruence|done]].
  clear Hl. revert counts a' removed Hlc H. induction Hall as [|x a Hx _ IH]; intros counts a' removed Hlc H.
  { cbn in H. injection H as <- _. split; [done|constructor]. }
  destruct counts as [|n counts]; [done|]. injection Hlc as Hlc. cbn [clear_available] in H.
  apply rbind_Ok_inv in H as ([x1 r1] & Hx1 & H). apply rbind_Ok_inv in H as ([rest more] & Hr & H).
  injection H as <- _. destruct (IH _ _ _ Hlc Hr) as [IH1 IH2]. split; [cbn; lia|]. constructor; [|done].
  destruct (AvailabilityThreshold <? n).
  - apply rbind_Ok_inv in Hx1 as (y & _ & Hx1). injection Hx1 as <- _. done.
  - injection Hx1 as <- _. by destruct (isAssignmentStale _ _).
Qed.

Lemma guaranteed_assignments_ok HashData Verify gs a vals slot pool a' reporters :
  assignments_ok a →
  CalculateNewCoreAssignments HashData Verify gs a vals slot pool = Ok (a', reporters) →
  assignments_ok a'.
Proof.
  unfold CalculateNewCoreAssignments. intros Ha. generalize (∅ : gset (list Z)).
  assert (∀ inter b, assignments_ok b → ∀ R, assign_guarantees HashData Verify gs inter vals slot pool b R
    = Ok (a', reporters) → assignments_ok a') as Hgen; [|by apply Hgen].
  intros inter. induction gs as [|g gs IH]; intros b Hb R H; cbn [assign_guarantees] in H.
  { by injection H as <- _. }
  destruct (_ || _); [done|]. apply rbind_Ok_inv in H as (c & _ & H).
  destruct (isAssignmentValid _ _); [|by eapply IH].
  apply rbind_Ok_inv in H as (R0 & _ & H). apply rbind_Ok_inv in H as (b1 & Hb1 & H).
  eapply IH; [|exact H]. unfold go_update in Hb1. destruct (_ && _); [|done]. injection Hb1 as <-.
  destruct Hb as [Hl Hall]. split; [by rewrite length_insert|].
  apply Forall_insert; [done|]. intros y [= <-]. by eexists.
Qed.

(** In conversions the steps of the transition unfold before what they call. *)
#[local] Strategy expand [conclude_block prepare_block UpdateState].

(** What a successful transition went through. *)
Lemma UpdateState_Ok x bound now s b chain s' :
  UpdateState x bound now s b chain = Some (Ok s') →
  ∃ p out h,
    IsInFuture now (TimeSlotIndex (block_Header b)) = false ∧
    prepare_block x s b chain = Ok p ∧
    CalculateWorkReportsAndAccumulate (x_HashData x) (x_Choices x) bound
      (accumulator s (block_Header b)) (TimeSlotIndex (block_Header b)) (accumulation_input s).1
      (prep_Reports p) (accumulation_input s).2 = Some (Ok (out, h)) ∧
    conclude_block x s b p out h = Ok s'.
Proof.
  unfold UpdateState. destruct (IsInFuture _ _); [done|].
  destruct (prepare_block x s b chain) as [p| |]; [|done..].
  change (CalculateNewTimeState (block_Header b)) with (TimeSlotIndex (block_Header b)).
  destruct (accumulation_input s) as [input h0].
  destruct (CalculateWorkReportsAndAccumulate _ _ _ _ _ _ _ _) as [[[out h]| |]|] eqn:E; try done.
  intros H. apply (inj Some) in H. exists p, out, h. split_and!; [reflexivity..|exact E|exact H].
Qed.

Lemma prepare_ok x s b chain p :
  (∀ data, length (x_HashData x data) = 32%nat) → (∀ ring, x_RingOk x ring = true) →
  state_ok s → Forall (λ k, 32 ≤ len k) (OffendersMarkers (block_Header b)) →
  prepare_block x s b chain = Ok p →
  safrole_wf (prep_Validators p) ∧ length (prep_EntropyPool p) = 4%nat ∧
  assignments_ok (prep_Assignments p) ∧ st_TimeslotIndex s < TimeSlotIndex (block_Header b) ∧
  GetAvailableWorkReports (E := st_error) (prep_Assignments p) = Ok (prep_Reports p).
Proof.
  intros Hh Hr Hok Ho H. unfold prepare_block in H.
  apply rbind_Ok_inv in H as ([] & _ & H). apply rbind_Ok_inv in H as (input & Hin & H).
  apply rbind_Ok_inv in H as ([[pool v] o] & Hs & H). apply rbind_Ok_inv in H as ([a1 r1] & Ha1 & H).
  apply rbind_Ok_inv in H as ([a2 reporters] & Ha2 & H). apply rbind_Ok_inv in H as (ws & Hws & H).
  injection H as <-. cbn.
  unfold NewSafroleInputFromBlock in Hin.
  destruct (x_OutputHash x (VRFSignature (block_Header b))) as [y|]; [|done]. injection Hin as <-.
  assert (st_TimeslotIndex s < TimeSlotIndex (block_Header b)) as Hlt.
  { unfold UpdateSafroleState in Hs. cbn in Hs.
    destruct (Z.leb_spec (TimeSlotIndex (block_Header b)) (st_TimeslotIndex s)); [done|lia]. }
  destruct (UpdateSafroleState_safe (x_HashData x) (x_RingOk x) (x_Commitment x) (x_RingVerify x)
    (MkSafroleInput (TimeSlotIndex (block_Header b)) (ET (block_Extrinsic b)) y (OffendersMarkers (block_Header b)))
    (st_TimeslotIndex s) (st_EntropyPool s) (st_ValidatorState s) Hh Hr (ok_validators _ Hok)
    (ok_entropy _ Hok) Ho) as [[e He]|(pool' & v' & o' & He & Hwf & Hl)].
  - cbn in He. rewrite Hs in He. done.
  - rewrite Hs in He. injection He as <- <- <-. split_and!; try done.
    eapply guaranteed_assignments_ok; [|exact Ha2]. eapply assured_assignments_ok; [|exact Ha1].
    apply disputed_assignments_ok, (ok_assignments _ Hok).
Qed.

Lemma calculateNewRecentBlocks_bound H1 H2 header gs blocks pairs blocks' :
  calculateNewRecentBlocks H1 H2 header gs blocks pairs = Ok blocks' → len blocks' ≤ MaxRecentBlocks.
Proof.
  unfold calculateNewRecentBlocks. intros H. apply rbind_Ok_inv in H as (hb & _ & H).
  apply rbind_Ok_inv in H as (root & _ & H).
  destruct (UpdateRecentBlocks_spec H2 (H1 hb) (PriorStateRoot header) root blocks
    (buildWorkPackageMapping gs)) as (mmr & _ & Hu & Hl).
  rewrite H in Hu. injection Hu as ->. rewrite Hl. unfold MaxRecentBlocks. lia.
Qed.

(** ** Values for the witnesses *)

(** Goroutines and services in the order of their keys. *)
Definition in_order : Choices :=
  MkChoices (λ _ l, l) (λ _ l, Permutation_refl l) id (λ l, Permutation_refl l).
Definition small_externals : Externals :=
  MkExternals a_hashing a_hashing a_hashing (λ _ _ _, true) (λ _, Some (replicate 32 0)) (λ _, true)
    (λ _, Some []) a_verify in_order.
Definition genesis : State :=
  MkState {[5 := a_account]} (MkPrivileged 0 0 0 ∅) a_validators a_pool
    (replicate 341 []) (replicate 341 (replicate 80 (a_hash 8))) (replicate 341 None) [] 4
    (MkJudgements [] [] [] []) (replicate 1023 zeroStatistics, replicate 1023 zeroStatistics)
    (replicate 600 []) (replicate 600 ∅).
(** A block at slot 5 without extrinsics. *)
Definition empty_block : Block :=
  MkBlock (MkHeader (a_hash 0) (a_hash 0) (a_hash 0) 5 None None [] 0 (replicate 96 0) (replicate 96 0))
    (MkExtrinsic [] [] [] [] (MkDisputes [] [] [])).

Lemma genesis_ok : state_ok genesis.
Proof.
  split; cbn [st_ValidatorState genesis]; [apply a_validators_wf|done|split; [done|by apply Forall_replicate]|
    split; [done|by apply Forall_replicate]|split; [done|by apply Forall_replicate]|done|split; constructor|done].
Qed.

Definition now_slot_6 : Z := JamEpoch + 36000000000.

(** The empty block is accepted six slots after genesis. *)
Lemma empty_block_accepted : ∃ s', UpdateState small_externals 2 now_slot_6 genesis empty_block (Ok []) = Some (Ok s').
Proof.
  assert (match UpdateState small_externals 2 now_slot_6 genesis empty_block (Ok []) with
          | Some (Ok _) => true | _ => false end = true) as H by (vm_compute; reflexivity).
  destruct (UpdateState _ _ _ _ _ _) as [[s'| |]|]; [by eexists|done..].
Qed.

(** The input of the accumulation. *)
Lemma input_arrays s : state_ok s → arrays_ok (in_State (accumulation_input s).1).
Proof.
  intros Hok. unfold accumulation_input. destruct (load_services _ _). cbn [map_new].
  exact (conj (wf_queued _ (ok_validators _ Hok)) (ok_queues _ Hok)).
Qed.
Lemma input_history s :
  state_ok s → length (in_History (accumulation_input s).1) = Z.to_nat TimeslotsPerEpoch.
Proof. intros Hok. unfold accumulation_input. destruct (load_services _ _). apply (ok_accumulation _ Hok). Qed.

(** C1: [UpdateState] keeps the state well-formed: if a block is accepted,
    then in the new state all validator arrays are filled, the ticket accumulator
    is sorted, unique and bounded, the sealing series covers the epoch, the
    entropy pool has four entries, no authorizer pool has more than eight
    entries and no history more than eight blocks, every core's assignment holds
    a report, no report is judged twice, and queue and history of accumulation
    cover an epoch.  The slot strictly increases and is not in the future. *)
Theorem transition_invariant x bound now s b chain s' :
  (∀ data, length (x_HashData x data) = 32%nat) → (∀ ring, x_RingOk x ring = true) →
  Forall (λ k, 32 ≤ len k) (OffendersMarkers (block_Header b)) →
  state_ok s → UpdateState x bound now s b chain = Some (Ok s') →
  state_ok s' ∧ st_TimeslotIndex s < st_TimeslotIndex s' ∧
  st_TimeslotIndex s' = TimeSlotIndex (block_Header b) ∧
  st_TimeslotIndex s' ≤ CurrentTimeslot now.
Proof.
  intros Hh Hr Ho Hok (p & out & h & Hfut & Hp & Hacc & Hc)%UpdateState_Ok.
  destruct (prepare_ok x s b chain p Hh Hr Hok Ho Hp) as (Hwf & Hpool & Hass & Hlt & _).
  destruct (accumulate_ok _ Hh _ _ _ _ (accumulation_input s).1 _ _ _ _
    (input_arrays s Hok) (input_history s Hok) Hacc)
    as ([Hkeys Hqueues] & Hq & Hhist).
  unfold conclude_block in Hc. apply rbind_Ok_inv in Hc as (blocks & Hb & Hc).
  apply rbind_Ok_inv in Hc as (j & Hj & Hc). apply rbind_Ok_inv in Hc as (pools & Hpools & Hc).
  injection Hc as <-. cbn. unfold CalculateNewTimeState.
  assert (TimeSlotIndex (block_Header b) ≤ CurrentTimeslot now) as Hnow.
  { unfold IsInFuture in Hfut. rewrite Z.gtb_ltb in Hfut. by apply Z.ltb_ge in Hfut. }
  split_and!; [|done|done|done]. destruct (ok_judged _ Hok) as [Hj1 Hj2].
  destruct (CalculateNewJudgements_spec _ _ _ _ _ _ Hj Hj1 Hj2) as (_ & _ & _ & _ & Hn1 & Hn2 & _).
  destruct (ok_pools _ Hok) as [Hp1 Hp2].
  destruct (CalculateNewCoreAuthorizations_spec (block_Header b) (EG (block_Extrinsic b))
    (ref_PendingAuthorizersQueues (out_State out)) (st_CoreAuthorizersPool s)) as (pools' & Hps & Hpl & Hpf & _);
    [by rewrite (proj1 Hqueues), Hp1|apply Hqueues|done|].
  change (acc_PendingAuthorizersQueues (read_acc_state h (out_State out)))
    with (ref_PendingAuthorizersQueues (out_State out)) in Hpools. rewrite Hpools in Hps. injection Hps as ->.
  split; cbn; try done.
  - destruct Hwf. by split.
  - apply (ok_queues _ Hok).
  - by rewrite Hpl, Hp1.
  - by eapply calculateNewRecentBlocks_bound.
Qed.

Lemma transition_invariant_witness :
  ∃ s', UpdateState small_externals 2 now_slot_6 genesis empty_block (Ok []) = Some (Ok s') ∧
    state_ok s' ∧ st_TimeslotIndex s' = 5.
Proof.
  destruct empty_block_accepted as [s' H]. exists s'.
  destruct (transition_invariant small_externals 2 now_slot_6 genesis empty_block (Ok []) s')
    as (Hok & _ & Ht & _); [done|done|constructor|apply genesis_ok|exact H|]. by split_and!.
Defined.

(** what [UpdateState] leaves out.  It accumulates the reports of all
    cores after the block's guarantees were entered, so also reports that were
    guaranteed in this very block and that nobody has assured, and discards the
    list of reports that became available; it does not write the new authorizer
    queues back to the state; and the block's preimages have no influence on the
    services. *)
Theorem transition_gaps x bound now s b chain s' :
  UpdateState x bound now s b chain = Some (Ok s') →
  (∃ reports out h,
     GetAvailableWorkReports (E := st_error) (st_CoreAssignments s') = Ok reports ∧
     CalculateWorkReportsAndAccumulate (x_HashData x) (x_Choices x) bound
       (accumulator s (block_Header b)) (TimeSlotIndex (block_Header b)) (accumulation_input s).1
       reports (accumulation_input s).2 = Some (Ok (out, h)) ∧
     st_Services s' = read_services h (ref_ServiceState (out_State out))) ∧
  st_PendingAuthorizersQueues s' = st_PendingAuthorizersQueues s ∧
  ∀ preimages, ∃ s'',
    UpdateState x bound now s
      (MkBlock (block_Header b) (let e := block_Extrinsic b in
         MkExtrinsic (ET e) preimages (EG e) (EA e) (ED e))) chain = Some (Ok s'') ∧
    st_Services s'' = st_Services s'.
Proof.
  intros H. pose proof H as (p & out & h & Hfut & Hp & Hacc & Hc)%UpdateState_Ok.
  assert (st_CoreAssignments s' = prep_Assignments p ∧
    st_Services s' = read_services h (ref_ServiceState (out_State out)) ∧
    st_PendingAuthorizersQueues s' = st_PendingAuthorizersQueues s) as (Hs1 & Hs2 & Hs3).
  { unfold conclude_block in Hc. apply rbind_Ok_inv in Hc as (blocks & _ & Hc).
    apply rbind_Ok_inv in Hc as (j & _ & Hc). apply rbind_Ok_inv in Hc as (pools & _ & Hc).
    by injection Hc as <-. }
  split_and!; [|done|].
  - exists (prep_Reports p), out, h. rewrite Hs1. split_and!; [|done|done]. unfold prepare_block in Hp.
    do 1 apply rbind_Ok_inv in Hp as ([] & _ & Hp). apply rbind_Ok_inv in Hp as (input & _ & Hp).
    apply rbind_Ok_inv in Hp as ([[pool v] o] & _ & Hp). apply rbind_Ok_inv in Hp as ([a1 r1] & _ & Hp).
    apply rbind_Ok_inv in Hp as ([a2 reporters] & _ & Hp). apply rbind_Ok_inv in Hp as (ws & Hws & Hp).
    by injection Hp as <-.
  - intros preimages. set (b' := MkBlock _ _).
    assert (∃ p', prepare_block x s b' chain = Ok p' ∧ prep_Reports p' = prep_Reports p ∧
      prep_Assignments p' = prep_Assignments p ∧ prep_Validators p' = prep_Validators p ∧
      prep_EntropyPool p' = prep_EntropyPool p) as (p' & Hp' & Hr' & _).
    { unfold prepare_block in *. subst b'.
      change (NewSafroleInputFromBlock x _) with (NewSafroleInputFromBlock x b). cbn [block_Header block_Extrinsic EG EA ED].
      destruct (ValidateExtrinsicGuarantees _ _ _ _ _ _ _ _ _) as [[]| |]; [|done..]. cbn [rbind] in *.
      destruct (NewSafroleInputFromBlock x b); [|done..]. cbn [rbind] in *.
      destruct (UpdateSafroleState _ _ _ _ _ _ _ _) as [[[pool v] o]| |]; [|done..]. cbn [rbind] in *.
      destruct (CalculateIntermediateCoreFromAssurances _ _ _ _ _ _) as [[a1 r1]| |]; [|done..].
      cbn [rbind] in *.
      destruct (CalculateNewCoreAssignments _ _ _ _ _ _ _) as [[a2 r2]| |]; [|done..]. cbn [rbind] in *.
      destruct (GetAvailableWorkReports a2) as [ws| |]; [|done..]. cbn [rbind] in *.
      injection Hp as <-. eexists. split; [reflexivity|]. done. }
    unfold UpdateState. change (block_Header b') with (block_Header b). rewrite Hfut, Hp', Hr'.
    change (CalculateNewTimeState (block_Header b)) with (TimeSlotIndex (block_Header b)).
    rewrite (surjective_pairing (accumulation_input s)), Hacc. unfold conclude_block in *. subst b'. cbn [block_Header block_Extrinsic EG ED].
    destruct (calculateNewRecentBlocks _ _ _ _ _ _); [|done..]. cbn [rbind] in *.
    destruct (CalculateNewJudgements _ _ _ _ _); [|done..]. cbn [rbind] in *.
    destruct (CalculateNewCoreAuthorizations _ _ _ _); [|done..]. cbn [rbind] in *.
    eexists. split; [reflexivity|]. cbn. by rewrite Hs2.
Qed.

Lemma transition_gaps_witness :
  ∃ s', UpdateState small_externals 2 now_slot_6 genesis empty_block (Ok []) = Some (Ok s') ∧
    st_PendingAuthorizersQueues s' = replicate 341 (replicate 80 (a_hash 8)).
Proof.
  destruct empty_block_accepted as [s' H]. exists s'. split; [exact H|].
  exact (proj1 (proj2 (transition_gaps small_externals 2 now_slot_6 genesis empty_block (Ok []) s' H))).
Defined.

(** ** Sequences of blocks: progress

    Blocks that [UpdateState] accepts one after the other, and that no report
    stays on its core: whatever the blocks contain, a report has left its core
    once five of them have been accepted. *)

(** One accepted block, at any time and with any bound and chain store.  A
    bitfield is an array of 43 bytes. *)
Definition accepts (x : Externals) (s s' : State) : Prop :=
  ∃ bound now b chain,
    Forall bitfield_ok (EA (block_Extrinsic b)) ∧ UpdateState x bound now s b chain = Some (Ok s').

(** The block's guarantees change an assignment to one of the block's slot only. *)
Lemma assign_guarantees_new HashData Verify gs inter vals slot pool A R A' R' :
  assign_guarantees HashData Verify gs inter vals slot pool A R = Ok (A', R') →
  ∀ c a, A' !! c = Some (Some a) → A !! c = Some (Some a) ∨ Time a = slot.
Proof.
  revert A R. induction gs as [|g gs IH]; intros A R H c a Ha; cbn [assign_guarantees] in H.
  { injection H as <- _. by left. }
  destruct (_ || _); [done|]. apply rbind_Ok_inv in H as (cur & _ & H).
  destruct (isAssignmentValid _ _); [|by eapply IH].
  apply rbind_Ok_inv in H as (R0 & _ & H). apply rbind_Ok_inv in H as (A1 & HA1 & H).
  destruct (IH _ _ H c a Ha) as [Hc|?]; [|by right]. unfold go_update in HA1.
  destruct (_ && _); [|done]. injection HA1 as <-. apply list_lookup_insert_Some in Hc.
  destruct Hc as [(_ & [= <-] & _)|[_ Hc]]; [by right|by left].
Qed.

Lemma not_stale a slot : 0 ≤ Time a → isAssignmentStale (Some a) slot = false → slot < Time a + WorkReportTimeoutPeriod.
Proof.
  intros H0 H%Z.leb_gt. unfold uint32, wrapU, WorkReportTimeoutPeriod in *.
  assert ((Time a + 5) `mod` 2 ^ 32 ≤ Time a + 5) by (apply Z.mod_le; lia). lia.
Qed.

(** After a block every assignment is younger than the timeout. *)
Lemma prepared_assignments x s b chain p :
  assignments_ok (st_CoreAssignments s) → Forall bitfield_ok (EA (block_Extrinsic b)) →
  prepare_block x s b chain = Ok p →
  assignments_ok (prep_Assignments p) ∧ st_TimeslotIndex s < TimeSlotIndex (block_Header b) ∧
  ∀ c a, prep_Assignments p !! c = Some (Some a) → 0 ≤ Time a →
    TimeSlotIndex (block_Header b) < Time a + WorkReportTimeoutPeriod.
Proof.
  intros Hok Hb H. unfold prepare_block in H.
  apply rbind_Ok_inv in H as ([] & _ & H). apply rbind_Ok_inv in H as (input & Hin & H).
  apply rbind_Ok_inv in H as ([[pool v] o] & Hs & H). apply rbind_Ok_inv in H as ([a1 r1] & Ha1 & H).
  apply rbind_Ok_inv in H as ([a2 reporters] & Ha2 & H). apply rbind_Ok_inv in H as (ws & _ & H).
  injection H as <-. cbn. pose proof (disputed_assignments_ok (x_HashData x) (ED (block_Extrinsic b)) _ Hok) as Hd.
  pose proof (assured_assignments_ok _ _ _ _ _ _ _ _ Hd Ha1) as Hok1. split_and!.
  - by eapply guaranteed_assignments_ok.
  - unfold NewSafroleInputFromBlock in Hin. destruct (x_OutputHash x _); [|done]. injection Hin as <-.
    unfold UpdateSafroleState in Hs. cbn in Hs.
    destruct (Z.leb_spec (TimeSlotIndex (block_Header b)) (st_TimeslotIndex s)); [done|lia].
  - intros c a Ha H0. unfold CalculateNewCoreAssignments in Ha2.
    destruct (assign_guarantees_new _ _ _ _ _ _ _ _ _ _ _ Ha2 c a Ha) as [Hc|Ht];
      [|unfold WorkReportTimeoutPeriod, CalculateNewTimeState in *; lia].
    unfold CalculateIntermediateCoreFromAssurances in Ha1.
    apply rbind_Ok_inv in Ha1 as ([] & _ & Ha1). destruct (negb _); [done|].
    apply availability_spec in Ha1 as (_ & Ha1 & _); [|unfold len; rewrite (proj1 Hd); done|done].
    rewrite Ha1 in Hc. apply fmap_Some in Hc as (old & _ & Hc). unfold after_assurances in Hc.
    destruct (_ <? _); [done|]. destruct (isAssignmentStale old _) eqn:E; [done|]. subst old. by apply not_stale.
Qed.

Lemma accepts_assignments x s s' :
  assignments_ok (st_CoreAssignments s) → accepts x s s' →
  assignments_ok (st_CoreAssignments s') ∧ st_TimeslotIndex s < st_TimeslotIndex s' ∧
  ∀ c a, st_CoreAssignments s' !! c = Some (Some a) → 0 ≤ Time a →
    st_TimeslotIndex s' < Time a + WorkReportTimeoutPeriod.
Proof.
  intros Hok (bound & now & b & chain & Hb & (p & out & h & _ & Hp & _ & Hc)%UpdateState_Ok).
  apply prepared_assignments in Hp as Hp; [|done|done]. unfold conclude_block in Hc.
  apply rbind_Ok_inv in Hc as (? & _ & Hc). apply rbind_Ok_inv in Hc as (? & _ & Hc).
  apply rbind_Ok_inv in Hc as (? & _ & Hc). injection Hc as <-. exact Hp.
Qed.

Lemma nsteps_assignments x n s s' :
  assignments_ok (st_CoreAssignments s) → nsteps (accepts x) n s s' →
  assignments_ok (st_CoreAssignments s') ∧ st_TimeslotIndex s + Z.of_nat n ≤ st_TimeslotIndex s' ∧
  ((0 < n)%nat → ∀ c a, st_CoreAssignments s' !! c = Some (Some a) → 0 ≤ Time a →
     st_TimeslotIndex s' < Time a + WorkReportTimeoutPeriod).
Proof.
  intros Hok. induction 1 as [s|n s s1 s' H1 Hn IH]; [split_and!; [done|lia|lia]|].
  apply accepts_assignments in H1 as (Hok1 & Ht & Hnew); [|done].
  destruct (IH Hok1) as (Hok' & Ht' & Hnew'). split_and!; [done|lia|]. intros _.
  inversion Hn; subst; [exact Hnew|apply Hnew'; lia].
Qed.

(** C12: Cores do not stay blocked: whatever the blocks contain, once five of them
    have been accepted no core holds an assignment made before them; what a core
    holds then was assigned in one of them. *)
Theorem reports_leave_cores x n s s' core a :
  assignments_ok (st_CoreAssignments s) → nsteps (accepts x) n s s' →
  WorkReportTimeoutPeriod ≤ Z.of_nat n → 0 ≤ Time a ≤ st_TimeslotIndex s →
  st_CoreAssignments s' !! core ≠ Some (Some a).
Proof.
  intros Hok Hn Hu Ha Hc. destruct (nsteps_assignments _ _ _ _ Hok Hn) as (_ & Ht & Hnew).
  unfold WorkReportTimeoutPeriod in *. specialize (Hnew ltac:(lia) core a Hc ltac:(lia)). lia.
Qed.

(** Empty blocks in the slots after that of the state. *)
Definition block_in (slot : Z) : Block :=
  MkBlock (MkHeader (a_hash 0) (a_hash 0) (a_hash 0) slot None None [] 0 (replicate 96 0) (replicate 96 0))
    (MkExtrinsic [] [] [] [] (MkDisputes [] [] [])).
Fixpoint run_empty (n : nat) (s : State) : option State :=
  match n with
  | O => Some s
  | S n =>
      match UpdateState small_externals 5 (now_slot_6 + 36000000000) s (block_in (st_TimeslotIndex s + 1)) (Ok []) with
      | Some (Ok s') => run_empty n s'
      | _ => None
      end
  end.

Lemma run_empty_steps n s s' : run_empty n s = Some s' → nsteps (accepts small_externals) n s s'.
Proof.
  revert s. induction n as [|n IH]; intros s H; cbn [run_empty] in H; [injection H as <-; constructor|].
  destruct (UpdateState _ _ _ _ _ _) as [[s1| |]|] eqn:E; [|done..].
  econstructor; [|by apply IH]. eexists _, _, _, _. split; [|exact E]. constructor.
Qed.

(** The genesis state with a report on core 0. *)
Definition busy_state : State :=
  MkState {[5 := a_account]} (MkPrivileged 0 0 0 ∅) a_validators a_pool
    (replicate 341 []) (replicate 341 (replicate 80 (a_hash 8)))
    (Some (MkAssignment (Some (core_report 0)) 4) :: replicate 340 None) [] 4
    (MkJudgements [] [] [] []) (replicate 1023 zeroStatistics, replicate 1023 zeroStatistics)
    (replicate 600 []) (replicate 600 ∅).

Lemma busy_blocks_accepted : ∃ s', run_empty 5 busy_state = Some s'.
Proof.
  assert (is_Some (run_empty 5 busy_state)) as [s' H]; [|by exists s'].
  apply (bool_decide_unpack _). vm_compute. exact I.
Qed.

Lemma reports_leave_cores_witness :
  st_CoreAssignments busy_state !! 0%nat = Some (Some (MkAssignment (Some (core_report 0)) 4)) ∧
  ∃ s', nsteps (accepts small_externals) 5 busy_state s' ∧
    st_CoreAssignments s' !! 0%nat ≠ Some (Some (MkAssignment (Some (core_report 0)) 4)).
Proof.
  split; [reflexivity|]. destruct busy_blocks_accepted as [s' H%run_empty_steps]. exists s'.
  split; [exact H|].
  apply (reports_leave_cores small_externals 5 busy_state s' 0 (MkAssignment (Some (core_report 0)) 4));
    [|exact H|vm_compute; congruence|split; vm_compute; congruence].
  split; [reflexivity|]. constructor; [|by apply Forall_replicate]. intros y [= <-]. by eexists.
Defined.
