(* ===== verification/HostTheorems.v ===== *)
(** * Host calls: theorems *)
From S2P Require Import HostEval AccumulationRun.

(** ** Gas *)

(** A machine with gas, arguments of zero bytes in its memory, and a service 7
    without code. *)
Definition demo_ram : Memory := standard_memory [1; 2; 3] [] (replicate 64 9) 4096 0.
Definition demo_account : Account := MkAcct (Some 0%nat) (Some 1%nat) (Some 0%nat) ZeroHash 1000 5 6.
Definition demo_heap : Heap := MkHeap {[0%nat := ∅; 1%nat := ∅]} {[0%nat := ∅]} {[0%nat := {[7 := demo_account]}]} ∅.
Definition demo_ctx : AccumulateContext :=
  MkCtx 7 (MkAccRef (Some 0%nat) [] [] 0 0 0 None) 300 [] None.
Definition demo_state : ctx_state := (MkPair demo_ctx demo_ctx, demo_heap).

(** Every host call of accumulation but [Transfer] takes exactly 10 units of
    gas, also when it fails, or finds less and returns [ErrOutOfGas] with gas,
    registers and memory as they were.  An unknown call takes the 10 units even
    when they are not there. *)
Theorem host_call_gas HashData a accState serviceIndex n gas rs m x :
  n ≠ 11 → 0 ≤ gas < 2 ^ 63 →
  match accumulate_host HashData a accState serviceIndex n gas rs m x with
  | HostReturn gas' rs' m' x' e =>
      gas' = gas - HostCallCost ∨
      gas < HostCallCost ∧ e = Some ErrOutOfGas ∧ gas' = gas ∧ rs' = rs ∧ m' = m
  | HostCrash => True
  end.
Proof.
  intros Hn Hg. unfold accumulate_host, run.
  pose proof (accumulate_call_takes_gas HashData a accState serviceIndex n Hn (MkHst gas rs m x) Hg) as H.
  destruct (accumulate_call _ _ _ _ _ _); [by left|done|done].
Qed.

Lemma host_call_gas_witness :
  match accumulate_host id (MkAccumulator 0 ZeroHash) (ctx_AccumulationState demo_ctx) 7 16 25
          (InitializeRegisters 32) demo_ram demo_state with
  | HostReturn gas' rs' m' x' e =>
      gas' = 25 - HostCallCost ∨
      25 < HostCallCost ∧ e = Some ErrOutOfGas ∧ gas' = 25 ∧ rs' = InitializeRegisters 32 ∧ m' = demo_ram
  | HostCrash => True
  end.
Proof. apply host_call_gas; [discriminate|lia]. Defined.

(** The cost of [Transfer] is 10 plus the gas limit as a signed number. *)
Lemma Transfer_gas gas rs m x :
  length rs = 13%nat →
  match run Acc.Transfer gas rs m x with
  | HostReturn gas' _ _ _ e =>
      let cost := int64 (HostCallCost + int64 (reg_of rs A2)) in
      if gas <? cost then gas' = gas ∧ e = Some ErrOutOfGas else gas' = int64 (gas - cost)
  | HostCrash => True
  end.
Proof.
  intros Hl. unfold run, Acc.Transfer. host_exec. cbv zeta. unfold hbind at 1, charge. cbn [hs_gas].
  destruct (gas <? _); [done|]. set (s := MkHst (int64 _) _ _ _). set (k := hbind _ _).
  assert (gas_const k) as Hk by (subst k; gas_split). specialize (Hk s). destruct (k s); done.
Qed.

(** A gas limit of [2^63] or more is negative, and the call adds gas. *)
Theorem transfer_adds_gas gas rs m x :
  length rs = 13%nat → 2 ^ 63 ≤ reg_of rs A2 < 2 ^ 64 - HostCallCost →
  0 ≤ gas → gas + (2 ^ 64 - reg_of rs A2) < 2 ^ 63 →
  match run Acc.Transfer gas rs m x with
  | HostReturn gas' _ _ _ _ => gas' = gas + (2 ^ 64 - reg_of rs A2) - HostCallCost ∧ gas < gas'
  | HostCrash => True
  end.
Proof.
  intros Hl Hlim Hg Hsum. pose proof (Transfer_gas gas rs m x Hl) as H. cbv zeta in H.
  destruct (run _ _ _ _ _) as [g rs' m' x' e|]; [|done]. unfold HostCallCost in *.
  assert (int64 (reg_of rs A2) = reg_of rs A2 - 2 ^ 64) as E1.
  { rewrite <- (wrapS_id 64 (reg_of rs A2 - 2 ^ 64)) by (unfold inS; lia). unfold int64, wrapS.
    f_equal. rewrite <- (Z.mod_add _ (-1) (2 ^ 64)) by lia. f_equal. lia. }
  rewrite E1 in H. unfold int64 in H.
  rewrite !wrapS_id in H by (rewrite ?wrapS_id by (unfold inS; lia); unfold inS; lia).
  rewrite (proj2 (Z.ltb_ge _ _)) in H by lia. lia.
Qed.

(** ** Transfers *)

(** C37: What the on-transfer invocation can do.  On byte-sized maps, 32-byte code
    hashes and transfers that fit the input area, with one call and one turn more
    than the gas of the transfers it ends, unless the process panics; the account it
    returns is the one it found, unchanged when the service has no code or there are
    no transfers, else with the amounts added to its balance; and of all maps only
    the account's storage can have changed, which still holds byte strings. *)
Theorem on_transfer_storage_only HashData calls turns services i transfers h :
  let a := default zeroAcct (map_at (h_services h) services !! i) in
  heap_ok h → map_Forall (λ _, acct_ok) (map_at (h_services h) services) → transfers_ok transfers →
  (Z.to_nat (int64 (transfers_gas transfers)) < calls)%nat →
  (Z.to_nat (int64 (transfers_gas transfers)) < turns)%nat →
  ∃ r, InvokePVMOnTransfer HashData calls turns services i transfers h = Some r ∧
    match r with
    | Ok (a', h') =>
        a' = (if (bool_decide (Code (read_account h a) = None)) || (len transfers =? 0) then a
              else with_balance (received a transfers) a) ∧
        heap_ok h' ∧ storage_only a h h'
    | Err _ => False
    | RuntimePanic => True
    end.
Proof. apply InvokePVMOnTransfer_spec. Qed.

(** A program that asks the host, at both entry points, to write and then to look
    up a preimage.  [ParseBlob] takes it, since the size before the code is too
    large by eleven. *)
Definition write_code : list Z := [0; 0; 0; 0; 0; 10; 3; 10; 1; 0; 10; 3; 10; 1; 0].
Definition write_blob : list Z :=
  let c := blob_of 1 [] write_code [191; 86] in
  [0; 0; 0; 0; 0; 0; 0; 0; 0; 16; 0] ++ [len c + 11; 0; 0; 0] ++ c.
Definition flat_hash (b : list Z) : Hash := take 32 (b ++ ZeroHash).
(** Service 7 runs it; its storage holds an item under the key that the arguments
    of an accumulation at slot 5 give. *)
Definition write_key : list Z := [5; 0; 0; 0; 7; 0; 0; 0; 0].
Definition write_heap : Heap :=
  MkHeap {[0%nat := {[service_key flat_hash 7 write_key := [1]]}; 1%nat := {[ZeroHash := write_blob]}]}
    {[0%nat := ∅]} {[0%nat := {[7 := demo_account]}]} ∅.
Definition write_acc : AccStateRef := MkAccRef (Some 0%nat) [] [] 0 0 0 None.

#[export] Instance buffer_ok_dec b : Decision (buffer_ok b).
Proof. unfold buffer_ok. apply _. Defined.
#[export] Instance heap_ok_dec h : Decision (heap_ok h).
Proof. unfold heap_ok. apply _. Defined.
#[export] Instance acct_ok_dec a : Decision (acct_ok a).
Proof. unfold acct_ok. apply _. Defined.

Definition demo_transfer : DeferredTransfer := MkTransfer 1 7 500 (replicate 128 0) 40.

Lemma on_transfer_storage_only_witness :
  let a := default zeroAcct (map_at (h_services write_heap) (Some 0%nat) !! 7) in
  ∃ r, InvokePVMOnTransfer flat_hash 50 50 (Some 0%nat) 7 [demo_transfer] write_heap = Some r ∧
    match r with
    | Ok (a', h') =>
        a' = (if (bool_decide (Code (read_account write_heap a) = None)) || (len [demo_transfer] =? 0)
              then a else with_balance (received a [demo_transfer]) a) ∧
        heap_ok h' ∧ storage_only a write_heap h'
    | Err _ => False
    | RuntimePanic => True
    end.
Proof.
  apply (on_transfer_storage_only flat_hash 50 50 (Some 0%nat) 7 [demo_transfer] write_heap).
  - apply (bool_decide_unpack _). vm_compute. reflexivity.
  - apply (bool_decide_unpack _). vm_compute. reflexivity.
  - split; [by repeat constructor|by vm_compute].
  - by vm_compute; lia.
  - by vm_compute; lia.
Defined.

(** ** Failed runs *)

(** After a run that fails, [InvokePVM] returns the context of its start:
    no transfers, no gas, and the arrays and privileges from before the run, even
    when the program had set a checkpoint.  The maps are as the run left them:
    accounts, storage and preimages are not rolled back. *)
Theorem failed_run_not_rolled_back HashData calls turns a u t i gas ops h ctx h1 code args g res p e h2 :
  newCtx HashData a u i h = Ok (ctx, true, h1) →
  Code (read_account h1 (default zeroAcct (map_at (h_services h) (ref_ServiceState u) !! i))) = Some code →
  Marshal arguments_type (VSeq [VNum t; VNum i; VSeq (operand_value <$> ops)]) = Ok args →
  InvokeWholeProgram_shared (accumulate_host HashData a u i) calls turns code 5 gas args
    (MkPair ctx ctx) h1 = Some (WholeRun g res p (Some e) h2) →
  InvokePVM HashData calls turns a u t i gas ops h = Some (Ok (ctx_AccumulationState ctx, [], None, 0, h2)) ∧
  ref_ValidatorKeys (ctx_AccumulationState ctx) = ref_ValidatorKeys u ∧
  ref_PendingAuthorizersQueues (ctx_AccumulationState ctx) = ref_PendingAuthorizersQueues u.
Proof.
  intros Hctx Hcode Hargs Hrun. destruct (InvokeWholeProgram_failed _ _ _ _ _ _ _ _ _ _ _ _ _ _ Hrun) as [-> ->].
  destruct (newCtx_inv _ _ _ _ _ _ _ _ Hctx) as (Ht & Hv). destruct (Hv eq_refl) as (? & ? & _).
  split_and!; [|done..].
  unfold InvokePVM. rewrite Hctx, Hcode. cbn [negb]. rewrite Hargs, Hrun. cbn [ExceptionalCtx].
  by rewrite Ht.
Qed.

Lemma failing_run :
  ∃ ctx h1 args e h2,
    newCtx flat_hash (MkAccumulator 5 ZeroHash) write_acc 7 write_heap = Ok (ctx, true, h1) ∧
    Code (read_account h1 (default zeroAcct (map_at (h_services write_heap) (Some 0%nat) !! 7))) =
      Some write_blob ∧
    Marshal arguments_type (VSeq [VNum 5; VNum 7; VSeq (operand_value <$> [])]) = Ok args ∧
    InvokeWholeProgram_shared (accumulate_host flat_hash (MkAccumulator 5 ZeroHash) write_acc 7) 10 10
      write_blob 5 100 args (MkPair ctx ctx) h1 = Some (WholeRun 0 [] (MkPair ctx ctx) (Some e) h2) ∧
    h_bytes h2 !! 0%nat = Some ∅.
Proof.
  do 5 eexists. split; [vm_compute; reflexivity|]. split; [vm_compute; reflexivity|].
  split; [vm_compute; reflexivity|]. split; vm_compute; reflexivity.
Qed.

Lemma failed_run_not_rolled_back_witness :
  h_bytes write_heap !! 0%nat = Some {[service_key flat_hash 7 write_key := [1]]} ∧
  ∃ u' h2, InvokePVM flat_hash 10 10 (MkAccumulator 5 ZeroHash) write_acc 5 7 100 [] write_heap =
             Some (Ok (u', [], None, 0, h2)) ∧
           h_bytes h2 !! 0%nat = Some ∅.
Proof.
  split; [reflexivity|]. destruct failing_run as (ctx & h1 & args & e & h2 & H1 & H2 & H3 & H4 & H5).
  exists (ctx_AccumulationState ctx), h2. split; [|exact H5].
  apply (failed_run_not_rolled_back flat_hash 10 10 (MkAccumulator 5 ZeroHash) write_acc 5 7 100 [] write_heap
           ctx h1 write_blob args 0 [] (MkPair ctx ctx) e h2 H1 H2 H3 H4).
Defined.

(** ** Storage *)

(** The heap after [Write] stored [val] in the map of [a]'s storage. *)
Definition stored (l : nat) (k : Hash) (val : list Z) (h : Heap) : Heap :=
  with_bytes (<[l := <[k := val]> (map_at (h_bytes h) (Some l))]> (h_bytes h)) h.

(** What a service writes it reads back: [Write] stores the value under the
    hash of service and key in the account's storage, changes nothing else, and
    returns its length or [FULL]; [Read] with the same key then copies the value to
    memory and returns its length. *)
Theorem storage_write_read HashData a i l services h gas rs m key val gas' rs' m' out :
  length rs = 13%nat → HostCallCost ≤ gas < 2 ^ 63 → acct_Storage a = Some l →
  0 ≤ reg_of rs A1 ≤ 2 ^ 48 → PvmMemory.Read m (reg_of rs A0) (reg_of rs A1) = Ok key →
  0 < reg_of rs A3 ≤ 2 ^ 48 → PvmMemory.Read m (reg_of rs A2) (reg_of rs A3) = Ok val →
  length rs' = 13%nat → HostCallCost ≤ gas' < 2 ^ 63 →
  reg_of rs' A0 = MaxUint64 → 0 ≤ reg_of rs' A2 ≤ 2 ^ 48 →
  PvmMemory.Read m' (reg_of rs' A1) (reg_of rs' A2) = Ok key →
  reg_of rs' A4 = 0 → 0 < len val ≤ reg_of rs' A5 → PvmMemory.Write m' (reg_of rs' A3) val = Ok out →
  let h' := stored l (service_key HashData i key) val h in
  let answer := if acct_Balance a <? ThresholdBalance (read_account h' a) then FULL
                else uint64 (len val) in
  run (Host.Write HashData a i) gas rs m h =
    HostReturn (gas - HostCallCost) (<[Z.to_nat A0 := answer]> rs) m h' None ∧
  run (Host.Read HashData h' a i services) gas' rs' m' () =
    HostReturn (gas' - HostCallCost) (<[Z.to_nat A0 := uint64 (len val)]> rs') out () None.
Proof.
  intros Hl Hg Ha Hkz Hk Hvz Hv Hl' Hg' H0 Hkz' Hk' H4 H5 Hout h' answer.
  assert (Storage (read_account h' a) !! service_key HashData i key = Some val) as Hlook.
  { simpl. rewrite Ha. simpl. rewrite lookup_insert_eq. simpl. by rewrite lookup_insert_eq. }
  split.
  - unfold run, Host.Write. host_exec. rewrite (proj2 (Z.eqb_neq (reg_of rs A3) 0)) by lia. host_exec.
    rewrite Ha, map_put_some. host_exec. fold (stored l (service_key HashData i key) val h). fold h'.
    rewrite Hlook. unfold answer. by destruct (_ <? _); host_exec.
  - unfold run, Host.Read. host_exec. rewrite H0. cbn [negb Z.eqb]. rewrite !Z.eqb_refl. cbn [negb].
    host_exec. rewrite Hlook. host_exec. unfold Host.writeFromOffset. rewrite H4.
    rewrite (Z.min_l 0) by lia. rewrite (Z.min_r (reg_of rs' A5)), (proj2 (Z.ltb_lt 0 _)) by lia.
    rewrite drop_0, take_ge by (unfold len; lia).
    erewrite hbind_next by (unfold write_bytes, hbind; cbn [hs_mem]; rewrite Hout; done).
    cbv beta. unfold put_mem. by host_exec.
Qed.

(** Registers with the given arguments. *)
Definition args_regs (a0 a1 a2 a3 a4 a5 : Z) : Registers := replicate 7 0 ++ [a0; a1; a2; a3; a4; a5].
Definition demo_stack : Z := StackAddressHigh - 4096.

Lemma demo_write : ∃ out, PvmMemory.Write demo_ram demo_stack (replicate 8 9) = Ok out.
Proof. eexists. vm_compute. reflexivity. Qed.

Lemma storage_write_read_witness :
  ∃ out h',
    run (Host.Write flat_hash demo_account 7) 20 (args_regs ArgsAddressLow 4 ArgsAddressLow 8 0 0)
      demo_ram demo_heap =
    HostReturn 10 (args_regs 8 4 ArgsAddressLow 8 0 0) demo_ram h' None ∧
    run (Host.Read flat_hash h' demo_account 7 ∅) 20 (args_regs MaxUint64 ArgsAddressLow 4 demo_stack 0 8)
      demo_ram () =
    HostReturn 10 (args_regs 8 ArgsAddressLow 4 demo_stack 0 8) out () None.
Proof.
  destruct demo_write as [out Hout].
  exists out, (stored 0 (service_key flat_hash 7 (replicate 4 9)) (replicate 8 9) demo_heap).
  apply (storage_write_read flat_hash demo_account 7 0 ∅ demo_heap 20
    (args_regs ArgsAddressLow 4 ArgsAddressLow 8 0 0) demo_ram (replicate 4 9) (replicate 8 9) 20
    (args_regs MaxUint64 ArgsAddressLow 4 demo_stack 0 8) demo_ram out);
    try (vm_compute; reflexivity); try (split; vm_compute; congruence). exact Hout.
Defined.

(** ** Requests for preimages *)

(** A request is known by the slots at which the preimage became available,
    unavailable, and available again.  What soliciting does to it: *)
Definition solicited (t : Z) (request : option (list Z)) : option (list Z) :=
  match request with
  | None => Some []
  | Some [x; y] => Some [x; y; t]
  | _ => None
  end.

(** Forgetting drops the request, with its preimage, or changes it. *)
Inductive forgetting : Type := Drop | Change (ts : list Z) | Refuse.
Definition forgotten (t : Z) (request : list Z) : forgetting :=
  let expired y := y <? t - PreimageExpulsionPeriod in
  match request with
  | [] => Drop
  | [x] => Change [x; t]
  | [x; y] => if expired y then Drop else Refuse
  | [x; y; w] => if expired y then Change [w; t] else Refuse
  | _ => Refuse
  end.

(** The heap without a request of [a] and its preimage. *)
Definition dropped (a : Account) (key : PreImageMetaKey) (h : Heap) : Heap :=
  with_bytes (map_remove (h_bytes h) (acct_PreimageLookup a) key.1)
    (with_meta (map_remove (h_meta h) (acct_PreimageMeta a) key) h).

(** The exact runs, with the comparison as the code has it. *)
Section requests.
Context (t gas : Z) (rs : Registers) (m : Memory) (x : ctx_state) (a : Account) (ls lm : nat) (hash : list Z).
#[local] Abbreviation h := (x.2).
#[local] Abbreviation key := (hash, uint32 (reg_of rs A1)).
#[local] Abbreviation request := (PreimageMeta (read_account h a) !! key).
#[local] Abbreviation answer code h' :=
  (HostReturn (gas - HostCallCost) (<[Z.to_nat A0 := code]> rs) m (x.1, h') None).
Context (Hl : length rs = 13%nat) (Hg : HostCallCost ≤ gas < 2 ^ 63).
Context (Hh : PvmMemory.Read m (reg_of rs A0) 32 = Ok hash).
Context (Hs : services_ref (regular x) = Some ls).
Context (Ha : services_of (regular x) h !! ctx_ServiceId (regular x) = Some a).
Context (Hm : acct_PreimageMeta a = Some lm).

Lemma own_account : ctx_account (regular x) h = a.
Proof using Ha. unfold ctx_account. by rewrite Ha. Qed.

Lemma Solicit_run :
  run (Acc.Solicit t) gas rs m x =
    match solicited t request with
    | None => answer HUH h
    | Some ts =>
        let h' := requested lm key ts h in
        answer (if acct_Balance a <? ThresholdBalance (read_account h' a) then FULL else OK) h'
    end.
Proof using Type*.
  pose proof own_account as Hown. destruct x as [p hp]. cbn [fst snd] in *.
  unfold run, Acc.Solicit. host_exec. rewrite Hown.
  set (k := λ _ : (), hbind hget _). set (s := MkHst _ _ _ _).
  assert (∀ ts, hbind (set_meta a key ts) k s = HReturn (MkHst (gas - HostCallCost)
     (<[Z.to_nat A0 := if acct_Balance a <? ThresholdBalance (read_account (requested lm key ts hp) a)
                       then FULL else OK]> rs) m (p, requested lm key ts hp)) None) as Hset.
  { intros ts. erewrite set_meta_run by done. subst k s. cbv beta. host_exec.
    destruct (_ <? _); host_exec; [done|]. by rewrite (set_same_account _ (requested lm key ts hp) ls). }
  destruct (PreimageMeta (read_account hp a) !! _) as [[|? [|? [|]]]|]; cbn [solicited]; rewrite ?Hset; try done;
    unfold s, k; host_exec; done.
Qed.

Lemma Forget_run :
  let expired y := y <? uint32 (t - PreimageExpulsionPeriod) in
  run (Acc.Forget t) gas rs m x =
    match match default [] request with
          | [] => Drop
          | [x] => Change [x; t]
          | [x; y] => if expired y then Drop else Refuse
          | [x; y; w] => if expired y then Change [w; t] else Refuse
          | _ => Refuse
          end with
    | Drop => answer OK (dropped a key h)
    | Change ts => answer OK (requested lm key ts h)
    | Refuse => answer HUH h
    end.
Proof using Type*.
  intros expired. pose proof own_account as Hown. destruct x as [p hp]. cbn [fst snd] in *.
  unfold run, Acc.Forget. host_exec. rewrite Hown.
  set (s := MkHst _ _ _ _). assert (Acc.drop_preimage a key s = HReturn (MkHst (gas - HostCallCost)
    (<[Z.to_nat A0 := OK]> rs) m (p, dropped a key hp)) None) as Hdrop.
  { subst s. unfold Acc.drop_preimage. host_exec. by rewrite (set_same_account _ (dropped a key hp) ls). }
  assert (∀ ts, hbind (set_meta a key ts) (λ _, hbind (set_own a) (λ _, @Host.withCode _ () OK)) s =
     HReturn (MkHst (gas - HostCallCost) (<[Z.to_nat A0 := OK]> rs) m (p, requested lm key ts hp)) None)
    as Hset.
  { intros ts. subst s. host_exec. by rewrite (set_same_account _ (requested lm key ts hp) ls). }
  unfold expired. destruct (default [] (PreimageMeta _ !! _)) as [|x1 [|x2 [|x3 [|]]]];
    try destruct (_ <? _); rewrite ?Hdrop, ?Hset; try done; subst s; by host_exec.
Qed.
End requests.

(** C34: [Solicit] and [Forget] refine these transitions of a request.  [Solicit]
    changes the own account's request as given, leaves all else alone and answers
    [OK] when the account can pay for the request, and refuses with [HUH] when there
    is no transition; an account that cannot pay is told [FULL].  [Forget] of a
    request the account has, at a slot past the first expulsion period, drops it with
    its preimage or changes it as given and answers [OK], or refuses with [HUH].
    (What happens otherwise: [solicit_full_keeps], [forget_missing],
    [forget_early].) *)
Theorem preimage_requests t gas rs m (x : ctx_state) a ls lm hash :
  let h := x.2 in
  let key := (hash, uint32 (reg_of rs A1)) in
  let request := PreimageMeta (read_account h a) !! key in
  length rs = 13%nat → HostCallCost ≤ gas < 2 ^ 63 → PvmMemory.Read m (reg_of rs A0) 32 = Ok hash →
  services_ref (regular x) = Some ls → services_of (regular x) h !! ctx_ServiceId (regular x) = Some a →
  acct_PreimageMeta a = Some lm →
  let answer code h' := HostReturn (gas - HostCallCost) (<[Z.to_nat A0 := code]> rs) m (x.1, h') None in
  match solicited t request with
  | None => run (Acc.Solicit t) gas rs m x = answer HUH h
  | Some ts =>
      let h' := requested lm key ts h in
      if acct_Balance a <? ThresholdBalance (read_account h' a)
      then ∃ h'', run (Acc.Solicit t) gas rs m x = answer FULL h''
      else run (Acc.Solicit t) gas rs m x = answer OK h'
  end ∧
  (PreimageExpulsionPeriod ≤ t < 2 ^ 32 → ∀ ts, request = Some ts →
   run (Acc.Forget t) gas rs m x =
     match forgotten t ts with
     | Drop => answer OK (dropped a key h)
     | Change ts' => answer OK (requested lm key ts' h)
     | Refuse => answer HUH h
     end).
Proof.
  intros h key request Hl Hg Hh Hs Ha Hm answer. split.
  - pose proof (Solicit_run t gas rs m x a ls lm hash Hl Hg Hh Hs Ha Hm) as E. cbv zeta in E.
    fold h key request in E. destruct (solicited t request) as [ts|]; [|exact E]. cbv zeta.
    destruct (_ <? _); [eexists|]; exact E.
  - intros Ht ts Hts. pose proof (Forget_run t gas rs m x a ls lm hash Hl Hg Hh Hs Ha Hm) as E. cbv zeta in E.
    fold h key request in E. rewrite Hts in E. cbn [default from_option id] in E.
    rewrite uint32_small in E by (unfold PreimageExpulsionPeriod in *; lia). exact E.
Qed.

Lemma preimage_requests_witness :
  let rs := args_regs ArgsAddressLow 10 0 0 0 0 in
  let key := (replicate 32 9, 10) in
  let x : ctx_state := (demo_state.1, requested 0 key [7; 8] demo_heap) in
  run (Acc.Solicit 50) 20 rs demo_ram demo_state =
    HostReturn 10 (<[7%nat := OK]> rs) demo_ram (demo_state.1, requested 0 key [] demo_heap) None ∧
  run (Acc.Forget 28850) 20 rs demo_ram x =
    HostReturn 10 (<[7%nat := OK]> rs) demo_ram (demo_state.1, dropped demo_account key x.2) None.
Proof.
  split.
  - apply (preimage_requests 50 20 (args_regs ArgsAddressLow 10 0 0 0 0) demo_ram demo_state demo_account 0 0
           (replicate 32 9)); try (vm_compute; reflexivity). split; vm_compute; congruence.
  - apply (preimage_requests 28850 20 (args_regs ArgsAddressLow 10 0 0 0 0) demo_ram
      (demo_state.1, requested 0 (replicate 32 9, 10) [7; 8] demo_heap) demo_account 0 0 (replicate 32 9))
      with (ts := [7; 8]); try (vm_compute; reflexivity); split; vm_compute; congruence.
Defined.

(** [Solicit] enters the request before it checks the balance, and leaves it in the
    account when it answers [FULL]. *)
Theorem solicit_full_keeps t gas rs m (x : ctx_state) a ls lm hash :
  let key := (hash, uint32 (reg_of rs A1)) in
  length rs = 13%nat → HostCallCost ≤ gas < 2 ^ 63 → PvmMemory.Read m (reg_of rs A0) 32 = Ok hash →
  services_ref (regular x) = Some ls → services_of (regular x) x.2 !! ctx_ServiceId (regular x) = Some a →
  acct_PreimageMeta a = Some lm → PreimageMeta (read_account x.2 a) !! key = None →
  acct_Balance a < ThresholdBalance (read_account (requested lm key [] x.2) a) →
  run (Acc.Solicit t) gas rs m x =
    HostReturn (gas - HostCallCost) (<[Z.to_nat A0 := FULL]> rs) m (x.1, requested lm key [] x.2) None.
Proof.
  intros key Hl Hg Hh Hs Ha Hm Hnone Hb.
  pose proof (Solicit_run t gas rs m x a ls lm hash Hl Hg Hh Hs Ha Hm) as E. cbv zeta in E.
  fold key in E. rewrite Hnone in E. cbn [solicited] in E. by rewrite (proj2 (Z.ltb_lt _ _) Hb) in E.
Qed.

(** [Forget] of a request the account does not have drops it and answers [OK]. *)
Theorem forget_missing t gas rs m (x : ctx_state) a ls lm hash :
  let key := (hash, uint32 (reg_of rs A1)) in
  length rs = 13%nat → HostCallCost ≤ gas < 2 ^ 63 → PvmMemory.Read m (reg_of rs A0) 32 = Ok hash →
  services_ref (regular x) = Some ls → services_of (regular x) x.2 !! ctx_ServiceId (regular x) = Some a →
  acct_PreimageMeta a = Some lm → PreimageMeta (read_account x.2 a) !! key = None →
  run (Acc.Forget t) gas rs m x =
    HostReturn (gas - HostCallCost) (<[Z.to_nat A0 := OK]> rs) m (x.1, dropped a key x.2) None.
Proof.
  intros key Hl Hg Hh Hs Ha Hm Hnone.
  pose proof (Forget_run t gas rs m x a ls lm hash Hl Hg Hh Hs Ha Hm) as E. cbv zeta in E.
  fold key in E. by rewrite Hnone in E.
Qed.

(** Before slot 28800 the difference wraps around: a request that became unavailable
    a moment ago counts as expired and is dropped. *)
Theorem forget_early :
  run (Acc.Forget 10) 20 (args_regs ArgsAddressLow 10 0 0 0 0) demo_ram
    (demo_state.1, requested 0 (replicate 32 9, 10) [7; 8] demo_heap) =
  HostReturn 10 (args_regs OK 10 0 0 0 0) demo_ram
    (demo_state.1, dropped demo_account (replicate 32 9, 10) (requested 0 (replicate 32 9, 10) [7; 8] demo_heap)) None.
Proof. vm_compute. reflexivity. Qed.

(** ** Accounts *)

(** The account that an invocation works on: the one of its start. *)
Definition start_account (accState : AccStateRef) (i : Z) (h : Heap) : Account :=
  default zeroAcct (map_at (h_services h) (ref_ServiceState accState) !! i).

(** [Lookup], [Read], [Write] and [Info] put the account of the invocation's
    start back into the context, whether they succeed or not: what [Upgrade], [New]
    and [Eject] had written to the service's own account is lost. *)
Theorem account_reset HashData a accState i n gas rs m x gas' rs' m' x' e :
  1 ≤ n ≤ 4 →
  accumulate_host HashData a accState i n gas rs m x = HostReturn gas' rs' m' x' e →
  ctx_account (regular x') x'.2 = start_account accState i x.2.
Proof.
  intros Hn. unfold accumulate_host, run, accumulate_call. rewrite hget_run. cbn [hs_x].
  fold (start_account accState i x.2). set (s := MkHst gas rs m x). set (acc := start_account _ _ _).
  assert (n = 1 ∨ n = 2 ∨ n = 3 ∨ n = 4) as Hcase by lia.
  destruct Hcase as [->|[->|[->| ->]]];
    match goal with |- context [then_restore ?c acc s] => pose proof (restore_account c acc s) as Hr end;
    destruct (then_restore _ _ _); intros; by simplify_eq.
Qed.

(** The service has been upgraded to the code hash of ones. *)
Definition upgraded : Account := with_code (replicate 32 1) 1 1 demo_account.
Definition upgraded_state : ctx_state :=
  let ctx := MkCtx 7 (MkAccRef (Some 1%nat) [] [] 0 0 0 None) 300 [] None in
  (MkPair ctx ctx, with_services {[0%nat := {[7 := demo_account]}; 1%nat := {[7 := upgraded]}]} demo_heap).

Lemma reset_run :
  ∃ gas' rs' m' x' e,
    accumulate_host flat_hash (MkAccumulator 5 ZeroHash) write_acc 7 4 20 (args_regs MaxUint64 0 0 0 0 0)
      demo_ram upgraded_state = HostReturn gas' rs' m' x' e.
Proof. do 5 eexists. vm_compute. reflexivity. Qed.

Lemma account_reset_witness :
  ctx_account (regular upgraded_state) upgraded_state.2 = upgraded ∧
  ∃ gas' rs' m' x' e,
    accumulate_host flat_hash (MkAccumulator 5 ZeroHash) write_acc 7 4 20 (args_regs MaxUint64 0 0 0 0 0)
      demo_ram upgraded_state = HostReturn gas' rs' m' x' e ∧
    ctx_account (regular x') x'.2 = demo_account.
Proof.
  split; [reflexivity|]. destruct reset_run as (gas' & rs' & m' & x' & e & H).
  exists gas', rs', m', x', e. split; [exact H|].
  apply (account_reset flat_hash (MkAccumulator 5 ZeroHash) write_acc 7 4 20 (args_regs MaxUint64 0 0 0 0 0)
           demo_ram upgraded_state gas' rs' m' x' e); [lia|exact H].
Defined.

(** ** New services *)

(** The run of [New] when the check on the balance passes. *)
Lemma New_run gas rs m (x : ctx_state) hash ls account h newId :
  let c := regular x in
  let own := ctx_account c x.2 in
  let b := uint64 (acct_Balance own - ThresholdBalance (read_account h account)) in
  length rs = 13%nat → HostCallCost ≤ gas < 2 ^ 63 → PvmMemory.Read m (reg_of rs A0) 32 = Ok hash →
  services_ref c = Some ls →
  Acc.new_service hash (reg_of rs A1) (reg_of rs A2) (reg_of rs A3) x.2 = (account, h) →
  ThresholdBalance (read_account h own) ≤ b →
  CheckIndex (S (size (services_of c x.2))) (BumpIndex (ctx_NewServiceId c)) (read_services h (Some ls)) =
    Some newId →
  run Acc.New gas rs m x =
    HostReturn (gas - HostCallCost) (<[Z.to_nat A0 := ctx_NewServiceId c]> rs) m
      (MkPair (with_new_id newId c) (ExceptionalCtx x.1),
       with_services (<[ls := <[newId := account]> (<[ctx_ServiceId c := with_balance b own]>
                                 (services_of c x.2))]> (h_services h)) h) None.
Proof.
  intros c own b Hl Hg Hh Hs Hnew Hb Hc.
  assert (h_services h = h_services x.2) as Hsv by (unfold Acc.new_service in Hnew; by injection Hnew as _ <-).
  assert (services_of c h = services_of c x.2) as Hso by (unfold services_of; by rewrite Hsv).
  assert (ctx_account c h = own) as Hown by (unfold own, ctx_account; by rewrite Hso).
  assert (size (read_services h (Some ls)) = size (services_of c x.2)) as Hsz.
  { etransitivity; [apply map_size_fmap|]. rewrite <- Hso. unfold services_of. by rewrite Hs. }
  unfold run, Acc.New. host_exec. rewrite Hnew. host_exec. change (regular (x.1, h)) with c.
  fold c. rewrite Hown. fold b. rewrite (proj2 (Z.leb_le _ _)) by done. host_exec.
  rewrite Hs, Hsz, Hc. host_exec. erewrite set_service_run by done. host_exec.
  unfold regular. cbn [fst RegularCtx]. rewrite services_of_put by done.
  change (services_of (with_new_id newId (RegularCtx x.1)) h) with (services_of c h). rewrite Hso.
  cbn [with_services h_services h_bytes h_meta h_gas]. by rewrite insert_insert_eq.
Qed.

(** A [New] that passes the check takes the new account's threshold from the
    service's balance, stores the account under the first free index after the one
    in the context, and moves the context on to it.  The index it returns is the old
    one, which then names no account; and the check computes modulo [2^64], so that
    a service with less than the threshold passes it and ends up with almost
    [2^64]. *)
Theorem new_service_index gas rs m (x : ctx_state) hash ls account h newId :
  let c := regular x in
  let own := ctx_account c x.2 in
  let cost := ThresholdBalance (read_account h account) in
  let b := uint64 (acct_Balance own - cost) in
  length rs = 13%nat → HostCallCost ≤ gas < 2 ^ 63 → PvmMemory.Read m (reg_of rs A0) 32 = Ok hash →
  services_ref c = Some ls →
  Acc.new_service hash (reg_of rs A1) (reg_of rs A2) (reg_of rs A3) x.2 = (account, h) →
  ThresholdBalance (read_account h own) ≤ b →
  CheckIndex (S (size (services_of c x.2))) (BumpIndex (ctx_NewServiceId c)) (read_services h (Some ls)) =
    Some newId →
  ∃ rs' x',
    run Acc.New gas rs m x = HostReturn (gas - HostCallCost) rs' m x' None ∧
    ctx_NewServiceId (regular x') = newId ∧
    services_of (regular x') x'.2 =
      <[newId := account]> (<[ctx_ServiceId c := with_balance b own]> (services_of c x.2)) ∧
    reg_of rs' A0 = ctx_NewServiceId c ∧
    (services_of c x.2 !! ctx_NewServiceId c = None → ctx_NewServiceId c ≠ ctx_ServiceId c →
     newId ≠ ctx_NewServiceId c → services_of (regular x') x'.2 !! reg_of rs' A0 = None) ∧
    (0 ≤ acct_Balance own < cost → b = 2 ^ 64 - (cost - acct_Balance own)).
Proof.
  intros c own cost b Hl Hg Hh Hs Hnew Hb Hc.
  assert (0 ≤ cost < 2 ^ 64) as Hcost by (apply (uint64_range (_ + _))).
  assert (reg_of (<[Z.to_nat A0 := ctx_NewServiceId c]> rs) A0 = ctx_NewServiceId c) as Hreg.
  { unfold reg_of. rewrite list_lookup_insert_eq; [done|]. rewrite Hl. vm_compute. lia. }
  pose proof (New_run gas rs m x hash ls account h newId Hl Hg Hh Hs Hnew Hb Hc) as Hrun. fold c in Hrun.
  eexists _, _. split; [exact Hrun|]. split; [done|]. rewrite Hreg.
  assert (∀ M, services_of (with_new_id newId c) (with_services (<[ls := M]> (h_services h)) h) = M) as Hput.
  { intros M. by apply services_of_put. }
  cbn [regular fst snd RegularCtx]. unfold regular. cbn [fst RegularCtx]. rewrite Hput.
  split_and!; [done|done| |].
  - intros H1 H2 H3. by rewrite !lookup_insert_ne by congruence.
  - intros Hlow. unfold b, uint64, wrapU. rewrite <- (Z.mod_add _ 1) by lia. rewrite Z.mod_small; lia.
Qed.

(** A service that cannot pay. *)
Definition poor_state : ctx_state :=
  (demo_state.1, with_services {[0%nat := {[7 := with_balance 50 demo_account]}]} demo_heap).

Lemma new_created :
  ∃ account h newId,
    Acc.new_service (replicate 32 9) 0 0 0 poor_state.2 = (account, h) ∧
    ThresholdBalance (read_account h account) = 100 ∧
    ThresholdBalance (read_account h (with_balance 50 demo_account)) = 100 ∧
    CheckIndex 2 (BumpIndex 300) (read_services h (Some 0%nat)) = Some newId ∧ newId = 342.
Proof. do 3 eexists. split; [vm_compute; reflexivity|]. split_and!; vm_compute; reflexivity. Qed.

Lemma new_service_index_witness :
  ∃ rs' x',
    run Acc.New 20 (args_regs ArgsAddressLow 0 0 0 0 0) demo_ram poor_state =
      HostReturn 10 rs' demo_ram x' None ∧
    acct_Balance <$> services_of (regular x') x'.2 !! 7 = Some (2 ^ 64 - 50) ∧
    reg_of rs' A0 = 300 ∧ services_of (regular x') x'.2 !! 300 = None.
Proof.
  destruct new_created as (account & h & newId & Hnew & Ht & Hto & Hc & Hid). subst newId.
  destruct (new_service_index 20 (args_regs ArgsAddressLow 0 0 0 0 0) demo_ram poor_state (replicate 32 9) 0
    account h 342) as (rs' & x' & Hrun & Hnid & Hsv & Hr & Hnone & Hb);
    [reflexivity|split; vm_compute; congruence|vm_compute; reflexivity|reflexivity|exact Hnew| |exact Hc|].
  { change (ctx_account (regular poor_state) poor_state.2) with (with_balance 50 demo_account).
    rewrite Ht, Hto. vm_compute. congruence. }
  exists rs', x'. split; [exact Hrun|]. rewrite Hr in Hnone. split; [|split; [exact Hr|]].
  - rewrite Hsv, Ht. vm_compute. reflexivity.
  - apply Hnone; [reflexivity|discriminate|discriminate].
Defined.

(** ** Transfers cost the sender nothing *)

Lemma read_bytes_same {X} addr n (s : hstate X) :
  match read_bytes addr n s with
  | HNext _ t | HReturn t _ => t = s
  | HCrash => True
  end.
Proof.
  unfold read_bytes, make_bytes, hbind. destruct (go_make _ _ _); simpl; [|done..].
  by destruct (Read _ _ _).
Qed.

(** [Transfer] changes no account: a successful call appends the transfer to the
    context and leaves the sender's balance as it was. *)
Theorem transfer_not_deducted gas rs m (x : ctx_state) :
  length rs = 13%nat →
  match run Acc.Transfer gas rs m x with
  | HostReturn _ _ m' x' _ =>
      m' = m ∧ x'.2 = x.2 ∧ ctx_account (regular x') x'.2 = ctx_account (regular x) x.2
  | HostCrash => True
  end.
Proof.
  intros Hl. unfold run, Acc.Transfer. host_exec. unfold hbind at 1, charge. cbn [hs_gas hs_regs hs_mem hs_x].
  destruct (gas <? _); [done|]. set (s := MkHst _ _ _ _).
  pose proof (read_bytes_same (reg_of rs A3) Acc.TransferMemoSizeBytes s) as Hr. unfold hbind at 1.
  destruct (read_bytes _ _ s) as [mm t|t e|]; [subst t|by subst t|done]. subst s.
  host_exec. destruct (_ !! _); [|by host_exec]. destruct (_ <? _); [by host_exec|].
  host_exec. by destruct (_ <? _); host_exec.
Qed.

(** ** Accumulation with the host calls *)

(** What is excluded stays excluded. *)
Lemma run_tasks_exclude HashData calls turns a t initial ws gas order d d' k :
  run_tasks HashData calls turns a t initial ws gas order d = Some (Ok d') →
  k ∈ resultServicesExclude (d_merge d) → k ∈ resultServicesExclude (d_merge d').
Proof.
  revert d. induction order as [|x order IH]; intros d H Hk; cbn [run_tasks] in H; [by injection H as <-|].
  apply run_bind_Ok in H as ([[[[u tr] y] g] h] & _ & H). apply IH in H; [done|].
  destruct x; cbn; set_solver.
Qed.

(** A service without code gives back its context, that is itself alone. *)
Lemma invoke_codeless HashData calls turns a u t h s gas ops ctx h1 u' tr y g h' :
  newCtx HashData a u s h = Ok (ctx, true, h1) →
  Code <$> read_services h (ref_ServiceState u) !! s = Some None →
  InvokePVM HashData calls turns a u t s gas ops h = Some (Ok (u', tr, y, g, h')) →
  h' = h1 ∧ dom (map_at (h_services h1) (ref_ServiceState u')) = {[s]}.
Proof.
  intros Hctx Hcode Hr. destruct (newCtx_inv _ _ _ _ _ _ _ _ Hctx) as (_ & Hv).
  destruct (Hv eq_refl) as (_ & _ & _ & Hsv & Hb & Hm). unfold InvokePVM in Hr. rewrite Hctx in Hr.
  rewrite read_services_lookup in Hcode.
  destruct (map_at (h_services h) (ref_ServiceState u) !! s) as [acc|] eqn:Hacc; [|done]. simpl in Hcode.
  assert (Code (read_account h1 acc) = None) as Hn.
  { unfold Code, read_account in *. rewrite Hb, Hm. simpl in *. congruence. }
  change (default zeroAcct (Some acc)) with acc in Hr. rewrite Hn in Hr. injection Hr as <- _ _ _ <-.
  split; [done|]. fold (services_ref ctx).
  assert (dom (read_services h1 (services_ref ctx)) = ({[s]} : gset Z)) as Hd
    by (rewrite Hsv; apply dom_singleton_L).
  unfold read_services, ServiceState in Hd. by rewrite dom_fmap_L in Hd.
Qed.

(** A new map leaves the others alone. *)
Lemma newCtx_services HashData a u i h ctx ok h1 r k :
  newCtx HashData a u i h = Ok (ctx, ok, h1) →
  k ∈ dom (map_at (h_services h) r) → map_at (h_services h1) r = map_at (h_services h) r.
Proof.
  intros Hctx Hk. destruct r as [l|]; [|done]. cbn [map_at] in *.
  assert (is_Some (h_services h !! l)) as Hl by (destruct (h_services h !! l); [done|set_solver]).
  unfold newCtx in Hctx. unfold map_new in Hctx. cbv zeta in Hctx.
  assert (h_services h1 = <[fresh (dom (h_services h)) :=
    {[i := default zeroAcct (map_at (h_services h) (ref_ServiceState u) !! i)]}]> (h_services h)) as ->.
  { destruct (newServiceID _ _ _); [destruct (DeriveIndex _ _ _); [|done]|..]; by simplify_eq. }
  rewrite lookup_insert_ne; [done|]. intros E. apply (is_fresh (dom (h_services h))). rewrite E.
  by apply elem_of_dom.
Qed.

(** The context of an invocation holds the invoked service only, and
    [ParallelDelta] takes the services missing from a result for deleted: when the
    first goroutine to run is that of a service without code, every other service
    disappears from the state. *)
Theorem accumulation_drops_services HashData calls turns schedule a t initial ws gas h s order ctx h1 k
    total u tr hp h' :
  schedule (tasks (service_indices ws (map_at (h_gas h) gas))) = Accumulates s :: order →
  newCtx HashData a initial s h = Ok (ctx, true, h1) →
  Code <$> read_services h (ref_ServiceState initial) !! s = Some None →
  k ∈ dom (map_at (h_services h) (ref_ServiceState initial)) → k ≠ s →
  ParallelDelta HashData calls turns schedule a t initial ws gas h = Some (Ok (total, u, tr, hp, h')) →
  map_at (h_services h') (ref_ServiceState u) !! k = None.
Proof.
  intros Ho Hctx Hcode Hk Hne H. unfold ParallelDelta in H. rewrite Ho in H.
  apply run_bind_Ok in H as (d & Hd & H). cbn [run_tasks] in Hd.
  apply run_bind_Ok in Hd as ([[[[u1 tr1] y1] g1] h2] & Hr & Hd). cbn [task_service d_heap] in Hr.
  unfold Delta1 in Hr. destruct (invoke_codeless _ _ _ _ _ _ _ _ _ _ _ _ _ _ _ _ _ Hctx Hcode Hr) as [-> Hdom].
  apply (run_tasks_exclude _ _ _ _ _ _ _ _ _ _ _ k) in Hd.
  2:{ cbn. rewrite (newCtx_services _ _ _ _ _ _ _ _ _ k Hctx Hk). set_solver. }
  cbn [map_new] in H. injection H as _ <- _ _ <-. cbn [with_services_ref ref_ServiceState map_at with_services h_services].
  rewrite lookup_insert_eq. cbn [default from_option id]. apply map_lookup_filter_None. right.
  intros acc _ Hout. by apply Hout.
Qed.

(** Two services, both without code. *)
Definition two_heap : Heap := with_services {[0%nat := {[7 := demo_account; 8 := demo_account]}]} demo_heap.

Definition two_state : AccStateRef := MkAccRef (Some 0%nat) [] [] 0 0 0 (Some 0%nat).
Definition two_gas_heap : Heap := with_gas_map {[0%nat := {[7 := 100]}]} two_heap.

Lemma two_context :
  ∃ ctx h1, newCtx flat_hash (MkAccumulator 5 ZeroHash) two_state 7 two_gas_heap = Ok (ctx, true, h1).
Proof. do 2 eexists. vm_compute. reflexivity. Qed.

Lemma two_delta :
  ∃ total u tr hp h', ParallelDelta flat_hash 10 10 id (MkAccumulator 5 ZeroHash) 5 two_state [] (Some 0%nat)
    two_gas_heap = Some (Ok (total, u, tr, hp, h')).
Proof. do 5 eexists. vm_compute. reflexivity. Qed.

Lemma accumulation_drops_services_witness :
  is_Some (map_at (h_services two_gas_heap) (Some 0%nat) !! 8) ∧
  ∃ total u tr hp h', ParallelDelta flat_hash 10 10 id (MkAccumulator 5 ZeroHash) 5 two_state [] (Some 0%nat)
    two_gas_heap = Some (Ok (total, u, tr, hp, h')) ∧ map_at (h_services h') (ref_ServiceState u) !! 8 = None.
Proof.
  split; [eexists; vm_compute; reflexivity|]. destruct two_context as (ctx & h1 & Hctx).
  destruct two_delta as (total & u & tr & hp & h' & H). exists total, u, tr, hp, h'. split; [exact H|].
  apply (accumulation_drops_services flat_hash 10 10 id (MkAccumulator 5 ZeroHash) 5 two_state [] (Some 0%nat)
           two_gas_heap 7 [TakesPrivileges; TakesKeys; TakesQueues] ctx h1 8 total u tr hp h');
    [vm_compute; reflexivity|exact Hctx|vm_compute; reflexivity| |discriminate|exact H].
  apply elem_of_dom. eexists. vm_compute. reflexivity.
Defined.
