(* ===== verification/AccumulationResults.v ===== *)
(** * Accumulation by result mappings

    The functions of [internal/statetransition/state_transition.go] that work on
    [state.AccumulationResult], one result per service, and those that choose the
    services and their gas from the reports on the cores.  They follow equations
    129 and 157-168 of the paper; [UpdateState] uses [SequentialDelta] and
    [ParallelDelta] instead.  A map that is iterated with effects that may depend
    on the order is the list of its entries in the order of the iteration. *)
From S2P Require Export AccumulateInvoke AccumulationRun ReportsTheorems.
From Stdlib Require Import Sorted.

(** [for _, x := range l] over a state that the body changes *)
Fixpoint range_loop {E A S} (body : A → S → res E S) (l : list A) (s : S) : res E S :=
  match l with
  | [] => Ok s
  | x :: l => let! s := body x s in range_loop body l s
  end.

(** ** Data *)

Record AccumulationResult : Type := MkAccResult {
  ar_ServiceState : option ServiceAccount;
  ar_ValidatorUpdates : ValidatorsData;
  ar_DeferredTransfers : list DeferredTransfer;
  ar_AccumulationRoot : option Hash;
  ar_CoreAssignments : list (list Hash);
  ar_NewServices : ServiceState;
  ar_PrivilegedUpdates : PrivilegedServices;
}.

Definition AccumResults : Type := list (Z * AccumulationResult).

(** [state.PendingAuthorizersQueues{}] *)
Definition emptyQueues : list (list Hash) :=
  replicate (Z.to_nat TotalNumberOfCores)
    (replicate (Z.to_nat PendingAuthorizersQueueSize) ZeroHash).

(** ** Availability *)

(** The inner loop's body: one bit of one assurance. *)
Definition count_core {E} (assurance : Assurance) (coreIndex : Z) (assuranceCounts : list Z)
  : res E (list Z) :=
  let byteIndex := coreIndex / 8 in
  let bitIndex := coreIndex `mod` 8 in
  let! b := go_index (Bitfield assurance) byteIndex in
  if negb (Z.land b (go_shl 8 1 bitIndex) =? 0) then
    let! n := go_index assuranceCounts coreIndex in
    go_update assuranceCounts coreIndex (n + 1)
  else Ok assuranceCounts.

Definition keep_available {E} (assuranceCounts : list Z) (assignments : CoreAssignments)
    (coreIndex : Z) (availableCores : CoreAssignments) : res E CoreAssignments :=
  let! n := go_index assuranceCounts coreIndex in
  if 2 * NumberOfValidators / 3 <? n then
    let! a := go_index assignments coreIndex in
    go_update availableCores coreIndex a
  else Ok availableCores.

Definition verifyAvailability {E} (assurances : list Assurance) (assignments : CoreAssignments)
  : res E CoreAssignments :=
  let cores := seqZ 0 TotalNumberOfCores in
  let! assuranceCounts :=
    range_loop (λ assurance counts, range_loop (count_core assurance) cores counts)
      assurances (replicate (Z.to_nat TotalNumberOfCores) 0) in
  range_loop (keep_available assuranceCounts assignments) cores
    (replicate (Z.to_nat TotalNumberOfCores) None).

(** ** Services and their gas *)

(** [for _, assignment := range coreAssignments { if assignment.WorkReport != nil
    { for _, result := range assignment.WorkReport.WorkResults ... } } }]: the
    pointers of the array are dereferenced without a check. *)
Definition each_result {E S} (body : WorkResult → S → S) (assignment : option Assignment) (s : S)
  : res E S :=
  let! a := deref assignment in
  match assigned_WorkReport a with
  | None => Ok s
  | Some w => Ok (foldl (λ s r, body r s) s (WorkResults w))
  end.

Definition determineServicesToAccumulate {E} (assignments : CoreAssignments)
    (privileged : PrivilegedServices) : res E (list Z) :=
  let! services :=
    range_loop (each_result (λ r services, {[ServiceId r]} ∪ services)) assignments (∅ : gset Z) in
  let services := dom (AmountOfGasPerServiceId privileged) ∪ services in
  Ok (sort_by Z.ltb (elements services)).

(** The minima of the services that exist, and their sum. *)
Definition add_minimum (state : ServiceState) (s : Z * gmap Z Z) (serviceId : Z) : Z * gmap Z Z :=
  let '(totalMinGas, allocations) := s in
  match state !! serviceId with
  | Some account =>
      (uint64 (totalMinGas + GasLimitForAccumulator account),
       <[serviceId := GasLimitForAccumulator account]> allocations)
  | None => (totalMinGas, allocations)
  end.
Definition minimum_gas (state : ServiceState) (services : list Z) : Z * gmap Z Z :=
  foldl (add_minimum state) (0, ∅) services.

(** The loop over [services] for one result. *)
Definition add_ratio (services : list Z) (result : WorkResult) (s : Z * gmap Z Z) : Z * gmap Z Z :=
  foldl (λ '(totalGasRatios, gasRatiosByService) serviceId,
    if ServiceId result =? serviceId then
      (uint64 (totalGasRatios + GasPrioritizationRatio result),
       <[serviceId := uint64 (default 0 (gasRatiosByService !! serviceId)
                              + GasPrioritizationRatio result)]> gasRatiosByService)
    else (totalGasRatios, gasRatiosByService)) s services.

Definition calculateGasAllocations {E} (services : list Z) (state : ServiceState)
    (coreAssignments : CoreAssignments) : res E (gmap Z Z) :=
  let '(totalMinGas, allocations) := minimum_gas state services in
  if MaxAllocatedGasAccumulation <=? totalMinGas then Ok allocations
  else
    let remainingGas := MaxAllocatedGasAccumulation - totalMinGas in
    let! (totalGasRatios, gasRatiosByService) :=
      range_loop (each_result (add_ratio services)) coreAssignments (0, ∅) in
    if 0 <? totalGasRatios then
      Ok (union_with (λ gas additionalGas, Some (uint64 (gas + additionalGas))) allocations
            ((λ ratioSum, uint64 (ratioSum * remainingGas) / totalGasRatios) <$> gasRatiosByService))
    else Ok allocations.

(** ** Results *)

Definition buildServiceAccumulationCommitments (accumResults : gmap Z AccumulationResult)
  : gmap Z Hash :=
  omap ar_AccumulationRoot accumResults.

Definition getServiceIdsAsSet (m : ServiceState) : gset Z := dom m.

(** One turn of the loop: the service's own state, then the new services that do
    not exist in [intermediateState]. *)
Definition apply_result (intermediateState : ServiceState) (newState : ServiceState)
    (entry : Z * AccumulationResult) : ServiceState :=
  let '(serviceId, result) := entry in
  let newState :=
    match ar_ServiceState result with
    | Some account => <[serviceId := account]> newState
    | None => newState
    end in
  filter (λ kv, intermediateState !! kv.1 = None) (ar_NewServices result) ∪ newState.

Definition processServiceTransitions (accumResults : AccumResults) (intermediateState : ServiceState)
  : ServiceState :=
  foldl (apply_result intermediateState) intermediateState accumResults.

(** [if new != 0 { old = new }] *)
Definition update_id (new old : Z) : Z := if negb (new =? 0) then new else old.

Definition apply_privileged
    (s : PrivilegedServices * ValidatorsData * list (list Hash)) (entry : Z * AccumulationResult)
  : PrivilegedServices * ValidatorsData * list (list Hash) :=
  let '(newPrivileged, newValidators, newAuth) := s in
  let result := entry.2 in
  let p := ar_PrivilegedUpdates result in
  (MkPrivileged (update_id (ManagerServiceId p) (ManagerServiceId newPrivileged))
     (update_id (AssignServiceId p) (AssignServiceId newPrivileged))
     (update_id (DesignateServiceId p) (DesignateServiceId newPrivileged))
     (AmountOfGasPerServiceId newPrivileged),
   (if 0 <? len (ar_ValidatorUpdates result) then ar_ValidatorUpdates result else newValidators),
   (if negb (bool_decide (ar_CoreAssignments result = emptyQueues)) then ar_CoreAssignments result
    else newAuth)).

Definition processPrivilegedTransitions (accumResults : AccumResults)
    (privileged : PrivilegedServices) (queuedValidators : ValidatorsData)
    (coreAuth : list (list Hash)) : PrivilegedServices * ValidatorsData * list (list Hash) :=
  foldl apply_privileged (privileged, queuedValidators, coreAuth) accumResults.

(** The maps of the context as they are in the heap. *)
Definition translatePVMContext (ctx : AccumulateContext) (root : option Hash) (h : Heap)
  : AccumulationResult :=
  let u := ctx_AccumulationState ctx in
  let sa := read_account h (ctx_account ctx h) in
  MkAccResult (Some sa) (ref_ValidatorKeys u) (ctx_DeferredTransfers ctx) root
    (ref_PendingAuthorizersQueues u) (read_services h (ref_ServiceState u))
    (MkPrivileged (ref_Manager u) (ref_Assign u) (ref_Designate u)
       (map_at (h_gas h) (ref_AmountOfGas u))).

(** * Theorems *)

(** ** Loops *)

Lemma range_loop_app {E A S} (body : A → S → res E S) l k s :
  range_loop body (l ++ k) s = (let! s := range_loop body l s in range_loop body k s).
Proof.
  revert s. induction l as [|x l IH]; intros s; [done|]. cbn [range_loop app].
  destruct (body x s); cbn [rbind]; [apply IH|done|done].
Qed.

(** A loop over the indices of an array whose turn [c] changes entry [c] only. *)
Lemma range_loop_index {E A} (body : Z → list A → res E (list A)) (g : Z → A → A) (l : list A) :
  (∀ c s x, 0 ≤ c → s !! Z.to_nat c = Some x → length s = length l →
     body c s = Ok (<[Z.to_nat c := g c x]> s)) →
  range_loop body (seqZ 0 (len l)) l = Ok (imap (λ i, g (Z.of_nat i)) l).
Proof.
  intros Hbody.
  cut (∀ suf pre, l = pre ++ suf →
    range_loop body (seqZ (len pre) (len suf)) (imap (λ i, g (Z.of_nat i)) pre ++ suf)
    = Ok (imap (λ i, g (Z.of_nat i)) l)). { intros H. by apply (H l []). }
  induction suf as [|x suf IH]; intros pre Hl.
  - rewrite app_nil_r in Hl |- *. by subst.
  - rewrite seqZ_cons by (unfold len; cbn [length]; lia). cbn [range_loop].
    assert ((imap (λ i, g (Z.of_nat i)) pre ++ x :: suf) !! Z.to_nat (len pre) = Some x) as Hx.
    { unfold len. rewrite Nat2Z.id. apply list_lookup_middle. by rewrite length_imap. }
    rewrite (Hbody _ _ _ (len_nonneg pre) Hx)
      by (rewrite Hl, !length_app, length_imap; done).
    cbn [rbind]. specialize (IH (pre ++ [x])). rewrite <- IH by (by rewrite <- app_assoc).
    f_equal; [f_equal; unfold len; rewrite ?length_app; cbn [length]; lia|].
    rewrite imap_app. unfold len. rewrite Nat2Z.id.
    rewrite insert_app_r_alt by (rewrite length_imap; lia). rewrite length_imap, Nat.sub_diag. cbn.
    rewrite <- app_assoc. cbn. by rewrite Nat.add_0_r.
Qed.

(** ** Availability *)

Lemma count_core_spec {E} assurance (counts : list Z) :
  bitfield_ok assurance → len counts = TotalNumberOfCores →
  range_loop (count_core (E := E) assurance) (seqZ 0 TotalNumberOfCores) counts
  = Ok (imap (λ c n, n + assurances_for (Z.of_nat c) [assurance]) counts).
Proof.
  intros Hb Hl. rewrite <- Hl.
  apply (range_loop_index _ (λ c n, n + assurances_for c [assurance])).
  intros c s x Hc Hx Hs.
  assert (c < TotalNumberOfCores) as Hc'.
  { apply lookup_lt_Some in Hx. unfold len in Hl. lia. }
  destruct (HasAssuranceForCore_total (E := st_error) assurance c Hb ltac:(lia)) as [b Hbit].
  unfold assurances_for. rewrite filter_cons, filter_nil.
  unfold count_core. unfold HasAssuranceForCore in Hbit.
  destruct (go_index (Bitfield assurance) (c / 8)) as [v|e|] eqn:Hv; [|done|done].
  apply go_index_Ok in Hv as [Hv0 Hv]. rewrite (go_index_lookup _ _ _ Hv0 Hv). cbn [rbind] in *.
  injection Hbit as Hbit. destruct (decide (has_bit c assurance)) as [Hd|Hd];
    unfold has_bit, HasAssuranceForCore in Hd; rewrite (go_index_lookup _ _ _ Hv0 Hv) in Hd;
    cbn [rbind] in Hd; rewrite Hbit in Hd |- *.
  - injection Hd as ->. rewrite (go_index_lookup _ _ _ Hc Hx). cbn [rbind].
    unfold go_update. apply lookup_lt_Some in Hx.
    rewrite (proj2 (Z.leb_le 0 c)), (proj2 (Z.ltb_lt c (len s))) by (unfold len; lia). done.
  - destruct b; [done|]. rewrite Z.add_0_r. by rewrite list_insert_id.
Qed.

Lemma assurances_for_cons c a assurances :
  assurances_for c (a :: assurances) = assurances_for c [a] + assurances_for c assurances.
Proof.
  unfold assurances_for. rewrite !filter_cons, filter_nil.
  destruct (decide (has_bit c a)); unfold len; cbn [length]; lia.
Qed.

Lemma count_all_spec {E} assurances (counts : list Z) :
  Forall bitfield_ok assurances → len counts = TotalNumberOfCores →
  range_loop (λ assurance, range_loop (count_core (E := E) assurance) (seqZ 0 TotalNumberOfCores))
    assurances counts
  = Ok (imap (λ c n, n + assurances_for (Z.of_nat c) assurances) counts).
Proof.
  intros Hb. revert counts. induction Hb as [|a assurances Ha Hb IH]; intros counts Hl.
  - cbn [range_loop]. f_equal. symmetry. rewrite (imap_ext _ (const id)).
    + by rewrite imap_const, list_fmap_id.
    + intros i x _. unfold assurances_for, len. cbn. lia.
  - cbn [range_loop]. rewrite count_core_spec by done. cbn [rbind].
    rewrite IH by (by unfold len in *; rewrite length_imap). f_equal.
    apply list_eq. intros i. rewrite !list_lookup_imap. destruct (counts !! i) as [x|]; [|done]. cbn.
    rewrite (assurances_for_cons _ a assurances). f_equal. lia.
Qed.

(** The cores that keep their assignment are those with more than two thirds of
    assurances. *)
Definition available (assurances : list Assurance) (c : Z) (a : option Assignment)
  : option Assignment :=
  if AvailabilityThreshold <? assurances_for c assurances then a else None.

Lemma verifyAvailability_spec {E} assurances assignments :
  Forall bitfield_ok assurances → len assignments = TotalNumberOfCores →
  verifyAvailability (E := E) assurances assignments
  = Ok (imap (λ c, available assurances (Z.of_nat c)) assignments).
Proof.
  intros Hb Hl. unfold verifyAvailability.
  rewrite count_all_spec by done. cbn [rbind].
  change (seqZ 0 TotalNumberOfCores)
    with (seqZ 0 (len (replicate (Z.to_nat TotalNumberOfCores) (@None Assignment)))).
  etrans; [apply (range_loop_index _ (λ c x,
    if AvailabilityThreshold <? assurances_for c assurances
    then default None (assignments !! Z.to_nat c) else x))|].
  2:{ f_equal. apply list_eq. intros i. rewrite !list_lookup_imap.
    destruct (assignments !! i) as [a|] eqn:Ha.
    - rewrite lookup_replicate_2; [cbn; by rewrite Nat2Z.id, Ha|].
      apply lookup_lt_Some in Ha. unfold len in Hl. lia.
    - rewrite (proj1 (lookup_replicate_None _ _ _)); [done|].
      apply lookup_ge_None in Ha. unfold len in Hl. lia. }
  - intros c s x Hc Hx Hs. apply lookup_lt_Some in Hx as Hs'. rewrite length_replicate in Hs.
    destruct (lookup_lt_is_Some_2 assignments (Z.to_nat c)) as [a Ha]; [unfold len in Hl; lia|].
    unfold keep_available.
    rewrite (go_index_lookup _ _ (assurances_for c assurances) Hc).
    2:{ rewrite list_lookup_imap, lookup_replicate_2 by lia. cbn. by rewrite Z2Nat.id. }
    cbn [rbind]. fold AvailabilityThreshold. destruct (AvailabilityThreshold <? _).
    + rewrite (go_index_lookup _ _ _ Hc Ha), Ha. cbn [rbind default].
      apply go_update_ok. unfold len. lia.
    + by rewrite list_insert_id.
Qed.

Lemma join_imap {A B C} (f : nat → A → list C) (g : nat → A → B) (h : B → option C) (l : list A) :
  (∀ i a, f i a = match h (g i a) with Some b => [b] | None => [] end) →
  mjoin (imap f l) = omap h (imap g l).
Proof.
  revert f g. induction l as [|a l IH]; intros f g Hfg; [done|]. cbn.
  rewrite Hfg. rewrite <- (IH (f ∘ S)) by (intros; apply Hfg). by destruct (h (g 0%nat a)).
Qed.

(** The function agrees with the live [CalculateIntermediateCoreAssignmentsFromAvailability]:
    when a block's assurances are accepted, the reports on the cores it selects are
    the reports that become available. *)
Theorem availability_agrees {E} assurances assignments slot assignments' removed :
  len assignments = TotalNumberOfCores → Forall bitfield_ok assurances →
  CalculateIntermediateCoreAssignmentsFromAvailability assurances assignments slot =
    Ok (assignments', removed) →
  ∃ cores, verifyAvailability (E := E) assurances assignments = Ok cores ∧
    removed = omap (fmap assigned_WorkReport) cores.
Proof.
  intros Hl Hb H. eexists. split; [by apply verifyAvailability_spec|].
  destruct (availability_spec _ _ _ _ _ Hl Hb H) as (_ & _ & ->). clear.
  apply join_imap. intros i a. unfold made_available, available.
  destruct (_ <? _); [by destruct a|done].
Qed.

(** ** Services and their gas *)

(** The results of the reports on the cores. *)
Definition results_on (a : option Assignment) : list WorkResult :=
  match a ≫= assigned_WorkReport with Some w => WorkResults w | None => [] end.
Definition core_results (cores : CoreAssignments) : list WorkResult := a ← cores; results_on a.

Lemma range_each_result {E S} (body : WorkResult → S → S) (cores : CoreAssignments) (s : S) :
  None ∉ cores →
  range_loop (E := E) (each_result body) cores s
  = Ok (foldl (λ s r, body r s) s (core_results cores)).
Proof.
  revert s. induction cores as [|[a|] cores IH]; intros s Hn; [done| |].
  - cbn [range_loop]. unfold each_result at 1. cbn [deref rbind].
    unfold core_results. cbn [mbind list_bind]. fold (core_results cores).
    rewrite foldl_app. unfold results_on. cbn [mbind option_bind].
    destruct (assigned_WorkReport a) as [w|]; cbn [rbind foldl]; apply IH; set_solver.
  - destruct Hn. apply list_elem_of_here.
Qed.

(** A free core is a nil dereference. *)
Lemma range_each_result_free {E S} (body : WorkResult → S → S) (cores : CoreAssignments) (s : S) :
  None ∈ cores → range_loop (E := E) (each_result body) cores s = RuntimePanic.
Proof.
  revert s. induction cores as [|[a|] cores IH]; intros s Hn; [by apply not_elem_of_nil in Hn| |done].
  cbn [range_loop]. unfold each_result at 1. cbn [deref rbind].
  destruct (assigned_WorkReport a) as [w|]; cbn [rbind]; apply IH; set_solver.
Qed.

Lemma foldl_services (results : list WorkResult) (services : gset Z) :
  foldl (λ services r, {[ServiceId r]} ∪ services) services results
  = list_to_set (ServiceId <$> results) ∪ services.
Proof.
  revert services. induction results as [|r results IH]; intros services; cbn; [set_solver|].
  rewrite IH. set_solver.
Qed.

(** The services with results on the cores and those that always get gas, once
    each. *)
Theorem services_to_accumulate {E} cores privileged :
  None ∉ cores →
  ∃ services, determineServicesToAccumulate (E := E) cores privileged = Ok services ∧
    NoDup services ∧ StronglySorted Z.le services ∧
    ∀ s, s ∈ services ↔
      is_Some (AmountOfGasPerServiceId privileged !! s) ∨
      ∃ r, r ∈ core_results cores ∧ ServiceId r = s.
Proof.
  intros Hn. unfold determineServicesToAccumulate. rewrite range_each_result by done. cbn [rbind]. rewrite foldl_services.
  eexists. split; [reflexivity|].
  split; [rewrite sort_by_perm; apply NoDup_elements|].
  split; [apply (sort_by_sorted id)|]. intros s. rewrite sort_by_perm, elem_of_elements, !elem_of_union, elem_of_dom, elem_of_list_to_set,
    list_elem_of_fmap. set_solver.
Qed.

(** Any free core makes both functions panic. *)
Theorem free_core_panics {E} cores privileged services st :
  None ∈ cores → (minimum_gas st services).1 < MaxAllocatedGasAccumulation →
  determineServicesToAccumulate (E := E) cores privileged = RuntimePanic ∧
  calculateGasAllocations (E := E) services st cores = RuntimePanic.
Proof.
  intros Hn Hmin. unfold determineServicesToAccumulate, calculateGasAllocations.
  rewrite range_each_result_free by done. split; [done|].
  destruct (minimum_gas st services) as [total alloc]. cbn [fst] in Hmin.
  rewrite (proj2 (Z.leb_gt _ _)) by done. by rewrite range_each_result_free.
Qed.

Definition sum_by {A} (f : A → Z) (l : list A) : Z := foldr (λ x n, f x + n) 0 l.

Lemma sum_by_nonneg {A} (f : A → Z) l : (∀ x, x ∈ l → 0 ≤ f x) → 0 ≤ sum_by f l.
Proof.
  induction l as [|x l IH]; cbn; [lia|]. intros H.
  pose proof (H x (list_elem_of_here _ _)). specialize (IH ltac:(set_solver)). unfold sum_by in *. lia.
Qed.

Lemma sum_by_elem {A} (f : A → Z) l x : (∀ x, x ∈ l → 0 ≤ f x) → x ∈ l → f x ≤ sum_by f l.
Proof.
  induction l as [|y l IH]; intros Hf Hx; [by apply not_elem_of_nil in Hx|]. cbn.
  pose proof (sum_by_nonneg f l ltac:(set_solver)). pose proof (Hf y (list_elem_of_here _ _)).
  apply elem_of_cons in Hx as [->|Hx]; unfold sum_by in *; [lia|].
  specialize (IH ltac:(set_solver) Hx). lia.
Qed.

Lemma sum_by_ext {A} (f g : A → Z) l : (∀ x, x ∈ l → f x = g x) → sum_by f l = sum_by g l.
Proof.
  induction l as [|x l IH]; intros H; [done|]. cbn. rewrite (H x) by apply list_elem_of_here.
  unfold sum_by in IH. rewrite IH by set_solver. done.
Qed.

Lemma sum_by_add {A} (f g : A → Z) l : sum_by (λ x, f x + g x) l = sum_by f l + sum_by g l.
Proof. induction l; cbn; unfold sum_by in *; lia. Qed.

Lemma sum_by_app {A} (f : A → Z) l k : sum_by f (l ++ k) = sum_by f l + sum_by f k.
Proof. induction l; cbn; unfold sum_by in *; lia. Qed.

(** Rounding down loses, never gains. *)
Lemma sum_by_shares {A} (f : A → Z) total rem l :
  0 < total → (∀ x, x ∈ l → 0 ≤ f x) → 0 ≤ rem → sum_by f l ≤ total →
  sum_by (λ x, f x * rem / total) l ≤ rem.
Proof.
  intros Ht Hf Hr Hs.
  assert (total * sum_by (λ x, f x * rem / total) l ≤ sum_by f l * rem) as H.
  { clear Hs. induction l as [|x l IH]; cbn; [lia|]. unfold sum_by in *.
    pose proof (Z.mul_div_le (f x * rem) total Ht). specialize (IH ltac:(set_solver)). lia. }
  assert (total * sum_by (λ x, f x * rem / total) l ≤ total * rem) by nia. nia.
Qed.

Definition gas_in (m : gmap Z Z) (s : Z) : Z := default 0 (m !! s).
Definition limit (st : ServiceState) (s : Z) : Z :=
  default 0 (GasLimitForAccumulator <$> st !! s).

Lemma gas_in_insert m s v (services : list Z) :
  NoDup services → s ∈ services →
  sum_by (gas_in (<[s := v]> m)) services = sum_by (gas_in m) services - gas_in m s + v.
Proof.
  induction 1 as [|x services Hx Hnd IH]; intros Hs; [by apply not_elem_of_nil in Hs|]. cbn.
  unfold sum_by in *. apply elem_of_cons in Hs as [->|Hs].
  - fold (sum_by (gas_in (<[x:=v]> m)) services).
    rewrite (sum_by_ext _ (gas_in m))
      by (intros y Hy; unfold gas_in; rewrite lookup_insert_ne by set_solver; done).
    unfold gas_in at 1. rewrite lookup_insert_eq. unfold sum_by. cbn. lia.
  - rewrite IH by done. unfold gas_in at 1. rewrite lookup_insert_ne by set_solver.
    fold (gas_in m x). lia.
Qed.

Lemma minimum_gas_acc st services total alloc :
  (∀ s, 0 ≤ limit st s) → 0 ≤ total → total + sum_by (limit st) services < 2 ^ 64 →
  (foldl (add_minimum st) (total, alloc) services).1 = total + sum_by (limit st) services ∧
  ∀ s, (foldl (add_minimum st) (total, alloc) services).2 !! s =
    if decide (s ∈ services) then (GasLimitForAccumulator <$> st !! s) ∪ alloc !! s else alloc !! s.
Proof.
  intros Hlim. revert total alloc. induction services as [|x services IH]; intros total alloc Ht Hs.
  { cbn. split; [lia|]. done. }
  pose proof (Hlim x) as Hx.
  pose proof (sum_by_nonneg (limit st) services ltac:(auto)) as Hp.
  change (sum_by (limit st) (x :: services)) with (limit st x + sum_by (limit st) services) in *.
  cbn [foldl add_minimum]. destruct (st !! x) as [a|] eqn:Ea.
  - assert (limit st x = GasLimitForAccumulator a) as El by (unfold limit; by rewrite Ea).
    rewrite El in *. rewrite uint64_small by lia.
    destruct (IH (total + GasLimitForAccumulator a) (<[x := GasLimitForAccumulator a]> alloc))
      as [H1 H2]; [lia..|]. split; [lia|].
    intros s. rewrite H2. destruct (decide (s = x)) as [->|Hne].
    + rewrite lookup_insert_eq, Ea. rewrite (decide_True (P := x ∈ x :: services)) by set_solver.
      destruct (decide _); cbn; by destruct (alloc !! x).
    + rewrite lookup_insert_ne by done.
      destruct (decide (s ∈ services)), (decide (s ∈ x :: services)); set_solver.
  - assert (limit st x = 0) as El by (unfold limit; by rewrite Ea). rewrite El in *.
    destruct (IH total alloc) as [H1 H2]; [lia..|]. split; [lia|]. intros s. rewrite H2.
    destruct (decide (s = x)) as [->|Hne].
    + rewrite Ea. cbn. rewrite (left_id_L None union).
      by destruct (decide (x ∈ services)), (decide (x ∈ x :: services)).
    + destruct (decide (s ∈ services)), (decide (s ∈ x :: services)); set_solver.
Qed.

Lemma minimum_gas_spec st services :
  (∀ s, 0 ≤ limit st s) → sum_by (limit st) services < 2 ^ 64 →
  (minimum_gas st services).1 = sum_by (limit st) services ∧
  ∀ s, (minimum_gas st services).2 !! s =
    if decide (s ∈ services) then GasLimitForAccumulator <$> st !! s else None.
Proof.
  intros Hlim Hsum. destruct (minimum_gas_acc st services 0 ∅ Hlim) as [H1 H2]; [lia..|].
  split; [exact H1|]. intros s. unfold minimum_gas. rewrite H2, lookup_empty.
  by rewrite (right_id_L None union).
Qed.

(** With distinct services a result counts once, if its service is among them. *)
Lemma add_ratio_spec services r total m :
  NoDup services →
  add_ratio services r (total, m) =
  if decide (ServiceId r ∈ services)
  then (uint64 (total + GasPrioritizationRatio r),
        <[ServiceId r := uint64 (gas_in m (ServiceId r) + GasPrioritizationRatio r)]> m)
  else (total, m).
Proof.
  unfold add_ratio. intros Hnd. revert total m.
  induction Hnd as [|x services Hx Hnd IH]; intros total m; [done|]. cbn [foldl].
  destruct (Z.eqb_spec (ServiceId r) x) as [<-|Hne]; rewrite IH.
  - rewrite decide_False by done. by rewrite decide_True by apply list_elem_of_here.
  - destruct (decide (ServiceId r ∈ services)), (decide (ServiceId r ∈ x :: services)); set_solver.
Qed.

(** What the loop over the results keeps: the total is the sum over the
    services. *)
Record ratios_ok (services : list Z) (bound : Z) (s : Z * gmap Z Z) : Prop := {
  ro_total : s.1 = sum_by (gas_in s.2) services;
  ro_bound : s.1 ≤ bound;
  ro_nonneg : ∀ x, 0 ≤ gas_in s.2 x;
  ro_dom : ∀ x, is_Some (s.2 !! x) → x ∈ services;
}.

Definition ratios (results : list WorkResult) : Z := sum_by GasPrioritizationRatio results.

Lemma add_ratio_ok services r bound s :
  NoDup services → 0 ≤ GasPrioritizationRatio r → bound + GasPrioritizationRatio r < 2 ^ 64 →
  ratios_ok services bound s →
  ratios_ok services (bound + GasPrioritizationRatio r) (add_ratio services r s).
Proof.
  intros Hnd Hr Hb. destruct s as [total m]. intros [Ht Hl Hn Hd]. cbn [fst snd] in *.
  rewrite add_ratio_spec by done.
  destruct (decide (ServiceId r ∈ services)) as [Hin|]; [|by split; cbn [fst snd]; [|lia|..]].
  pose proof (sum_by_elem (gas_in m) services _ ltac:(auto) Hin) as Hel. pose proof (Hn (ServiceId r)).
  rewrite !uint64_small by lia. split; cbn [fst snd].
  - rewrite gas_in_insert by done. lia.
  - lia.
  - intros x. unfold gas_in at 1. rewrite lookup_insert. destruct (decide _) as [|_]; [cbn; lia|apply Hn].
  - intros x. rewrite lookup_insert. destruct (decide _) as [<-|_]; [done|apply Hd].
Qed.

Lemma ratios_loop_ok services results bound s :
  NoDup services → Forall (λ r, 0 ≤ GasPrioritizationRatio r) results →
  bound + ratios results < 2 ^ 64 → ratios_ok services bound s →
  ratios_ok services (bound + ratios results)
    (foldl (λ s r, add_ratio services r s) s results).
Proof.
  intros Hnd Hr. revert bound s. induction Hr as [|r results Hr Hrs IH]; intros bound s Hb Hs.
  - cbn. by rewrite Z.add_0_r.
  - change (ratios (r :: results)) with (GasPrioritizationRatio r + ratios results) in *.
    assert (0 ≤ ratios results).
    { apply sum_by_nonneg. by rewrite <- Forall_forall. }
    cbn [foldl]. rewrite Z.add_assoc. apply IH; [lia|]. apply add_ratio_ok; [done|done|lia|done].
Qed.

Lemma core_results_bound cores :
  Forall (λ a, Forall (λ r, 0 ≤ GasPrioritizationRatio r) (results_on a) ∧
               ratios (results_on a) ≤ MaxAllocatedGasAccumulation) cores →
  Forall (λ r, 0 ≤ GasPrioritizationRatio r) (core_results cores) ∧
  0 ≤ ratios (core_results cores) ≤ len cores * MaxAllocatedGasAccumulation.
Proof.
  induction 1 as [|a cores [Ha Hb] _ [IH1 IH2]]; [done|].
  unfold core_results in *. cbn [mbind list_bind]. split; [by apply Forall_app|].
  unfold ratios in *. rewrite sum_by_app.
  assert (0 ≤ sum_by GasPrioritizationRatio (results_on a))
    by (apply sum_by_nonneg; by rewrite <- Forall_forall).
  unfold len in *. cbn [length]. lia.
Qed.

(** The shares of the rest, added to the minima. *)
Lemma allocations_sum alloc ratios total rem services :
  NoDup services → 0 < total → 0 ≤ rem → total * rem < 2 ^ 64 →
  total = sum_by (gas_in ratios) services → (∀ x, 0 ≤ gas_in ratios x) →
  (∀ x, 0 ≤ gas_in alloc x) → sum_by (gas_in alloc) services + rem < 2 ^ 64 →
  let alloc' := union_with (λ gas additionalGas, Some (uint64 (gas + additionalGas))) alloc
    ((λ ratioSum, uint64 (ratioSum * rem) / total) <$> ratios) in
  (∀ s, s ∈ services → gas_in alloc s ≤ gas_in alloc' s) ∧
  sum_by (gas_in alloc') services ≤ sum_by (gas_in alloc) services + rem.
Proof.
  intros Hnd Ht Hrem Hov Htot Hr Ha Hb alloc'.
  assert (∀ s, s ∈ services → gas_in alloc' s = gas_in alloc s + gas_in ratios s * rem / total)
    as Hs.
  { intros s Hs. unfold gas_in at 1, alloc'. rewrite lookup_union_with, lookup_fmap.
    pose proof (sum_by_elem (gas_in ratios) services s ltac:(auto) Hs) as H1.
    pose proof (sum_by_elem (gas_in alloc) services s ltac:(auto) Hs) as H2.
    pose proof (Hr s) as H3. pose proof (Ha s) as H4.
    assert (0 ≤ gas_in ratios s * rem / total ≤ rem).
    { split; [apply Z.div_pos; nia|]. apply Z.div_le_upper_bound; [lia|nia]. }
    assert (0 ≤ gas_in ratios s * rem < 2 ^ 64) by nia.
    assert (gas_in alloc s + gas_in ratios s * rem / total < 2 ^ 64) as H5 by lia.
    revert H3 H4 H5 H H0. clear -Ht. unfold gas_in. intros.
    destruct (alloc !! s) as [g|], (ratios !! s) as [x|]; cbn in *;
      rewrite ?(uint64_small (_ * rem)) by lia; rewrite ?Z.mul_0_l, ?Z.div_0_l by lia;
      rewrite ?uint64_small by lia; lia. }
  split.
  - intros s Hin. rewrite Hs by done.
    assert (0 ≤ gas_in ratios s * rem / total) by (apply Z.div_pos; [specialize (Hr s); nia|lia]). lia.
  - rewrite (sum_by_ext _ _ _ Hs), sum_by_add.
    pose proof (sum_by_shares (gas_in ratios) total rem services Ht ltac:(auto) Hrem ltac:(lia)). lia.
Qed.

(** The gas of a service is at least its minimum, and all services together
    get at most the limit of an accumulation, unless the minima exceed it.  With
    reports that keep the limit on every core, as [ValidateExtrinsicGuarantees]
    accepts them, no product and no sum wraps around. *)
Theorem gas_allocations_bounded {E} services st cores :
  NoDup services → len cores = TotalNumberOfCores → None ∉ cores →
  (∀ s, 0 ≤ limit st s) → sum_by (limit st) services < 2 ^ 64 →
  Forall (λ a, Forall (λ r, 0 ≤ GasPrioritizationRatio r) (results_on a) ∧
               ratios (results_on a) ≤ MaxAllocatedGasAccumulation) cores →
  ∃ alloc, calculateGasAllocations (E := E) services st cores = Ok alloc ∧
    (∀ s, s ∈ services → limit st s ≤ gas_in alloc s) ∧
    sum_by (gas_in alloc) services ≤
      Z.max MaxAllocatedGasAccumulation (sum_by (limit st) services).
Proof.
  intros Hnd Hl Hn Hlim Hsum Hw. unfold calculateGasAllocations.
  destruct (minimum_gas_spec st services Hlim Hsum) as [Hmin Halloc].
  destruct (minimum_gas st services) as [total alloc]. cbn [fst snd] in *. subst total.
  assert (∀ s, s ∈ services → gas_in alloc s = limit st s) as Hg.
  { intros s Hs. unfold gas_in, limit. by rewrite Halloc, decide_True. }
  assert (∀ s, 0 ≤ gas_in alloc s) as Hg0.
  { intros s. unfold gas_in. rewrite Halloc. destruct (decide _); [apply Hlim|done]. }
  pose proof (sum_by_ext _ _ _ Hg) as Hgs.
  destruct (Z.leb_spec MaxAllocatedGasAccumulation (sum_by (limit st) services)) as [|Hlt].
  { eexists. split; [done|]. split; [intros s Hs; rewrite Hg by done; lia|lia]. }
  rewrite range_each_result by done. cbn [rbind].
  destruct (core_results_bound cores Hw) as [Hpos Hrat]. rewrite Hl in Hrat.
  unfold TotalNumberOfCores, MaxAllocatedGasAccumulation in *.
  pose proof (ratios_loop_ok services (core_results cores) 0 (0, ∅) Hnd Hpos ltac:(lia)) as [Ht Hb Hx _].
  { split; cbn [fst snd]; [|lia|intros x; unfold gas_in; by rewrite lookup_empty
      |intros x; rewrite lookup_empty; by intros []].
    clear. induction services; [done|]. cbn. unfold gas_in at 1. rewrite lookup_empty. cbn. done. }
  destruct (foldl _ (0, ∅) _) as [total rs]. cbn [fst snd] in *.
  destruct (Z.ltb_spec 0 total) as [Hpt|].
  - eexists. split; [done|].
    pose proof (sum_by_nonneg (limit st) services ltac:(auto)).
    destruct (allocations_sum alloc rs total (10000000 - sum_by (limit st) services) services)
      as [H1 H2]; [done|lia|lia|nia|done|done|done|lia|].
    split; [|lia]. intros s Hs. rewrite <- Hg by done. by apply H1.
  - eexists. split; [done|]. split; [intros s Hs; rewrite Hg by done; lia|lia].
Qed.

(** Two services, one with a minimum; one result on the first core. *)
Definition demo_result : WorkResult := MkWorkResult 7 ZeroHash ZeroHash 6000000 (ResultOutput []).
Definition demo_report : WorkReport :=
  MkWorkReport (MkSpec ZeroHash 0 ZeroHash ZeroHash 0)
    (MkContext (MkAnchor ZeroHash ZeroHash ZeroHash) (MkLookupAnchor ZeroHash 0) [])
    0 ZeroHash [] ∅ [demo_result].
Definition demo_cores : CoreAssignments :=
  Some (MkAssignment (Some demo_report) 0) :: replicate 340 (Some (MkAssignment None 0)).
Definition demo_services : ServiceState := {[5 := MkAccount ∅ ∅ ∅ ZeroHash 0 1000 0]}.

Lemma gas_allocations_bounded_witness :
  ∃ alloc, calculateGasAllocations (E := unit) [5; 7] demo_services demo_cores = Ok alloc ∧
    gas_in alloc 5 + (gas_in alloc 7 + 0) ≤ 10000000.
Proof.
  destruct (gas_allocations_bounded (E := unit) [5; 7] demo_services demo_cores) as (alloc & H & _ & Hs).
  - apply (bool_decide_unpack _). by vm_compute.
  - done.
  - unfold demo_cores. intros [|Hin]%elem_of_cons; [done|]. by apply elem_of_replicate_inv in Hin.
  - intros s. unfold limit, demo_services, ServiceState. rewrite lookup_singleton. by destruct (decide _).
  - vm_compute. done.
  - unfold demo_cores. constructor; [split; [by repeat constructor|by vm_compute]|].
    apply Forall_replicate. split; [constructor|by vm_compute].
  - exists alloc. split; [done|]. exact Hs.
Defined.

(** ** Results *)

Lemma foldl_permutation {A B} (f : B → A → B) (b : B) (l k : list A) :
  (∀ x y b, x ∈ l → y ∈ l → x ≠ y → f (f b x) y = f (f b y) x) → NoDup l →
  l ≡ₚ k → foldl f b l = foldl f b k.
Proof.
  intros Hc Hnd Hp. revert b Hc Hnd.
  induction Hp as [|x l k Hp IH|x y l|l k j Hp IH Hp' IH']; intros b Hc Hnd; cbn [foldl].
  - done.
  - apply NoDup_cons in Hnd as [_ Hnd]. apply IH; [|done]. intros; apply Hc; set_solver.
  - rewrite Hc; [done|set_solver..|]. apply NoDup_cons in Hnd as [Hx _]. set_solver.
  - rewrite IH by done. apply IH'; [|by rewrite <- Hp]. intros x z b' Hx Hz. by apply Hc; rewrite Hp.
Qed.

(** What equation 165 demands of the results: accumulated services exist, and no
    two services create the same one. *)
Definition no_conflicts (intermediateState : ServiceState) (accumResults : AccumResults) : Prop :=
  (∀ e, e ∈ accumResults → is_Some (intermediateState !! e.1)) ∧
  ∀ e e' s, e ∈ accumResults → e' ∈ accumResults → e ≠ e' →
    is_Some (ar_NewServices e.2 !! s) → is_Some (ar_NewServices e'.2 !! s) →
    is_Some (intermediateState !! s).

Lemma filter_absent {A} (st m : gmap Z A) s :
  filter (λ kv, st !! kv.1 = None) m !! s = match st !! s with None => m !! s | Some _ => None end.
Proof.
  destruct (st !! s) as [b|] eqn:Es.
  - apply map_lookup_filter_None_2. right. intros a _. cbn. by rewrite Es.
  - destruct (m !! s) as [a|] eqn:Ea; [by apply map_lookup_filter_Some_2|].
    apply map_lookup_filter_None_2. by left.
Qed.

Lemma apply_result_lookup st m e s :
  apply_result st m e !! s =
  match st !! s, ar_NewServices e.2 !! s with
  | None, Some a => Some a
  | _, _ => match ar_ServiceState e.2 with
            | Some a => if decide (e.1 = s) then Some a else m !! s
            | None => m !! s
            end
  end.
Proof.
  destruct e as [id r]. cbn [apply_result fst snd]. unfold ServiceState in *. rewrite lookup_union.
  generalize (ar_NewServices r). unfold ServiceState. intros n. rewrite (filter_absent st n).
  destruct (st !! s), (n !! s), (ar_ServiceState r); rewrite ?lookup_insert, ?(left_id_L None union);
    try done; repeat case_decide; by destruct (m !! s).
Qed.

(** Without conflicts the services do not depend on the order in which Go iterates
    the map of results. *)
Theorem service_transitions_order accumResults accumResults' st :
  NoDup accumResults.*1 → no_conflicts st accumResults → accumResults ≡ₚ accumResults' →
  processServiceTransitions accumResults st = processServiceTransitions accumResults' st.
Proof.
  intros Hnd [Hex Hnew] Hp. apply foldl_permutation; [|by eapply NoDup_fmap_1|done].
  intros x y m Hx Hy Hne.
  assert (x.1 ≠ y.1) as Hid.
  { intros Heq. apply Hne. 
    apply list_elem_of_lookup in Hx as [i Hi]. apply list_elem_of_lookup in Hy as [j Hj].
    assert (i = j) as <-; [|congruence].
    eapply (NoDup_lookup _ i j x.1 Hnd); rewrite list_lookup_fmap; [by rewrite Hi|].
    rewrite Hj. cbn. congruence. }
  apply map_eq. intros s. rewrite !apply_result_lookup.
  destruct (st !! s) as [a|] eqn:Es.
  - destruct (ar_ServiceState x.2), (ar_ServiceState y.2); try done.
    by destruct (decide (x.1 = s)), (decide (y.1 = s)); try congruence.
  - pose proof (Hnew x y s Hx Hy Hne) as Hc.
    destruct (ar_NewServices x.2 !! s), (ar_NewServices y.2 !! s);
      [destruct Hc as [? Hc]; [by eauto..|congruence]| | |].
    all: destruct (ar_ServiceState x.2), (ar_ServiceState y.2); try done.
    all: destruct (decide (x.1 = s)), (decide (y.1 = s)); try done; subst.
    all: first [congruence
               | destruct (Hex x Hx) as [? ?]; congruence | destruct (Hex y Hy) as [? ?]; congruence].
Qed.

(** No service is ever removed: one that left the context's map is written back as
    the zero account, where equation 166 removes it. *)
Theorem removed_service_remains ctx h root st :
  services_of ctx h !! ctx_ServiceId ctx = None →
  processServiceTransitions [(ctx_ServiceId ctx, translatePVMContext ctx root h)] st
    !! ctx_ServiceId ctx = Some zeroAccount.
Proof.
  intros Hgone. unfold processServiceTransitions. cbn [foldl].
  rewrite apply_result_lookup. cbn [fst snd translatePVMContext ar_NewServices ar_ServiceState].
  assert (read_services h (ref_ServiceState (ctx_AccumulationState ctx)) !! ctx_ServiceId ctx = None)
    as ->.
  { unfold read_services, ServiceState. rewrite lookup_fmap.
    unfold services_of, services_ref in Hgone. by rewrite Hgone. }
  rewrite decide_True by done. unfold ctx_account. rewrite Hgone. by destruct (st !! _).
Qed.

(** Every result replaces the validators: the array's length is a constant, so the
    test for an update always succeeds, and the last result in the order of the
    iteration wins. *)
Theorem last_validators_win accumResults id result privileged vals auth :
  len (ar_ValidatorUpdates result) = NumberOfValidators →
  (processPrivilegedTransitions (accumResults ++ [(id, result)]) privileged vals auth).1.2
  = ar_ValidatorUpdates result.
Proof.
  intros Hl. unfold processPrivilegedTransitions. rewrite foldl_app. cbn [foldl].
  destruct (foldl _ _ accumResults) as [[p v] a]. cbn [apply_privileged fst snd]. by rewrite Hl.
Qed.

(** So a service that changed nothing undoes the designated validators, or does
    not, as the map's order has it. *)
Theorem validators_by_order s1 r1 s2 r2 privileged vals auth :
  len (ar_ValidatorUpdates r1) = NumberOfValidators →
  len (ar_ValidatorUpdates r2) = NumberOfValidators →
  ar_ValidatorUpdates r1 ≠ ar_ValidatorUpdates r2 →
  (processPrivilegedTransitions [(s1, r1); (s2, r2)] privileged vals auth).1.2 ≠
  (processPrivilegedTransitions [(s2, r2); (s1, r1)] privileged vals auth).1.2.
Proof.
  intros H1 H2 Hne.
  rewrite (last_validators_win [(s1, r1)] s2 r2), (last_validators_win [(s2, r2)] s1 r1) by done. done.
Qed.

(** A privilege cannot be given to service 0. *)
Theorem privilege_of_zero_ignored accumResults privileged vals auth :
  (∀ e, e ∈ accumResults → ManagerServiceId (ar_PrivilegedUpdates e.2) = 0) →
  ManagerServiceId (processPrivilegedTransitions accumResults privileged vals auth).1.1
  = ManagerServiceId privileged.
Proof.
  unfold processPrivilegedTransitions. revert privileged vals auth.
  induction accumResults as [|e accumResults IH]; intros p v a H; [done|].
  cbn [foldl apply_privileged]. rewrite IH by set_solver. cbn [ManagerServiceId].
  by rewrite (H e) by apply list_elem_of_here.
Qed.
