(* ===== verification/Work.v ===== *)
(** * Work packages

    [internal/work]: packages and their items ([package.go], [item.go],
    [constants.go]) and the padding function ([common.go]).  The sums of the
    validations are at the width of their variables. *)
From S2P Require Export Blocks Services.

(** ** Constants *)

Definition MaxSizeServiceCode : Z := 4000000.
Definition MaxNumberOfEntries : Z := 2 ^ 11.
Definition SegmentsPerPage : Z := 64.
Definition MaxSizeOfEncodedWorkPackage : Z := 12 * 2 ^ 20.
Definition MaxAllocatedGasRefine : Z := 500000000.

(** [internal/common]: sizes of segments and of erasure-coded pieces *)
Definition NumberOfErasureCodecPiecesInSegment : Z := 6.
Definition ErasureCodingChunkSize : Z := 684.
Definition SizeOfSegment : Z := NumberOfErasureCodecPiecesInSegment * ErasureCodingChunkSize.
Definition MaxAllocatedGasIsAuthorized : Z := 50000000.

(** ** Padding *)

Definition ZeroPadding (x : list Z) (n : Z) : list Z :=
  if n =? 0 then x
  else
    let start := (len x + n - 1) `mod` n + 1 in
    let paddingLength := n - start in
    if paddingLength <=? 0 then x else x ++ replicate (Z.to_nat paddingLength) 0.

(** ** Items *)

(** [Segment] is an array of [SizeOfSegment] bytes. *)
Definition Segment : Type := list Z.
Definition zeroSegment : Segment := replicate (Z.to_nat SizeOfSegment) 0.

(** [var seg Segment; copy(seg[:], data)] *)
Definition to_segment (data : list Z) : Segment := go_copy zeroSegment data.

Record ImportedSegment : Type := MkImported {
  imported_Hash : Hash;
  imported_Index : Z;
}.

Record ItemExtrinsic : Type := MkExtrinsic {
  extrinsic_Hash : Hash;
  extrinsic_Length : Z;
}.

(** A payload may be nil, which a host call tells apart from an empty one. *)
Record Item : Type := MkItem {
  item_ServiceId : Z;
  item_CodeHash : Hash;
  Payload : option (list Z);
  GasLimitRefine : Z;
  GasLimitAccumulate : Z;
  ImportedSegments : list ImportedSegment;
  Extrinsics : list ItemExtrinsic;
  ExportedSegments : Z;
}.

Definition payload_bytes (w : Item) : list Z := default [] (Payload w).

(** All additions and the product are on [uint64]. *)
Definition Size (w : Item) : Z :=
  let total := len (payload_bytes w) in
  let total := uint64 (total + uint64 (len (ImportedSegments w) * SizeOfSegment)) in
  foldl (λ total bh, uint64 (total + extrinsic_Length bh)) total (Extrinsics w).

Definition ToWorkResult (HashData : list Z → Hash) (w : Item) (o : WorkResultOutput) : WorkResult :=
  let payloadHash := HashData (payload_bytes w) in
  let gasPrioritizationRatio :=
    if 0 <? GasLimitAccumulate w then GasLimitRefine w / GasLimitAccumulate w else 0 in
  MkWorkResult (item_ServiceId w) (item_CodeHash w) payloadHash gasPrioritizationRatio o.

(** ** Packages *)

Record Package : Type := MkPackage {
  AuthorizationToken : list Z;
  AuthorizerService : Z;
  AuthCodeHash : Hash;
  Parameterization : list Z;
  pkg_Context : RefinementContext;
  WorkItems : list Item;
}.

(** A sum over the items at [uint16] or [uint64], from 0. *)
Definition sum_items (wrap : Z → Z) (f : Item → Z) (items : list Item) : Z :=
  foldl (λ total w, wrap (total + f w)) 0 items.

Definition ValidateNumberOfEntries (wp : Package) : res st_error unit :=
  let totalExported := sum_items uint16 ExportedSegments (WorkItems wp) in
  let totalImported := sum_items uint16 (λ w, uint16 (len (ImportedSegments w))) (WorkItems wp) in
  if MaxNumberOfEntries <? totalExported then Err (StErr "exceeded maximum exported segments")
  else if MaxNumberOfEntries <? totalImported then Err (StErr "exceeded maximum imported segments")
  else Ok ().

Definition ValidateSize (wp : Package) : res st_error unit :=
  let totalSize := uint64 (len (AuthorizationToken wp) + len (Parameterization wp)) in
  let totalSize := foldl (λ total w, uint64 (total + Size w)) totalSize (WorkItems wp) in
  if MaxSizeOfEncodedWorkPackage <? totalSize then Err (StErr "work-package size exceeds limit")
  else Ok ().

Definition ValidateGas (wp : Package) : res st_error unit :=
  let totalAccumulate := sum_items uint64 GasLimitAccumulate (WorkItems wp) in
  let totalRefine := sum_items uint64 GasLimitRefine (WorkItems wp) in
  if MaxAllocatedGasAccumulation <=? totalAccumulate
  then Err (StErr "accumulation gas exceeds limit GA")
  else if MaxAllocatedGasRefine <=? totalRefine then Err (StErr "refine gas exceeds limit GR")
  else Ok ().

Definition GetAuthorizationCode (wp : Package) (serviceState : ServiceState)
  : res st_error (list Z) :=
  match serviceState !! AuthorizerService wp with
  | None => Err (StErr "service %d not found in service state")
  | Some sa =>
      match LookupPreimage (lookup_Timeslot (LookupAnchor (pkg_Context wp))) (AuthCodeHash wp) sa with
      | None => Err (StErr "unable to find preimage for AuthCodeHash at given timeslot")
      | Some authorizationCode => Ok authorizationCode
      end
  end.

Definition ComputeAuthorizerHashes (HashData : list Z → Hash) (wp : Package)
    (serviceState : ServiceState) : res st_error (list Z * Hash) :=
  let! authorizationCode := GetAuthorizationCode wp serviceState in
  Ok (authorizationCode, HashData (authorizationCode ++ Parameterization wp)).

(** ** Their encoding *)

Definition imported_type : gotype := TStruct
  [(field "Hash", hash_type); (field "Index", TPrim false Uint16)].
Definition extrinsic_type : gotype := TStruct
  [(field "Hash", hash_type); (field "Length", TPrim false Uint32)].
Definition item_type : gotype := TStruct
  [(field "ServiceId", TPrim true Uint32); (field "CodeHash", hash_type);
   (field "Payload", TBytes); (field "GasLimitRefine", TPrim false Uint64);
   (field "GasLimitAccumulate", TPrim false Uint64);
   (field "ImportedSegments", TSlice imported_type); (field "Extrinsics", TSlice extrinsic_type);
   (field "ExportedSegments", TPrim false Uint16)].
Definition package_type : gotype := TStruct
  [(field "AuthorizationToken", TBytes); (field "AuthorizerService", TPrim false Uint32);
   (field "AuthCodeHash", hash_type); (field "Parameterization", TBytes);
   (field "Context", context_type); (field "WorkItems", TSlice item_type)].

Definition imported_value (i : ImportedSegment) : goval :=
  VSeq [hash_value (imported_Hash i); VNum (imported_Index i)].
Definition extrinsic_value (x : ItemExtrinsic) : goval :=
  VSeq [hash_value (extrinsic_Hash x); VNum (extrinsic_Length x)].
Definition item_value (w : Item) : goval := VSeq
  [VNum (item_ServiceId w); hash_value (item_CodeHash w); VBytes (payload_bytes w);
   VNum (GasLimitRefine w); VNum (GasLimitAccumulate w);
   VSeq (imported_value <$> ImportedSegments w); VSeq (extrinsic_value <$> Extrinsics w);
   VNum (ExportedSegments w)].
Definition package_value (p : Package) : goval := VSeq
  [VBytes (AuthorizationToken p); VNum (AuthorizerService p); hash_value (AuthCodeHash p);
   VBytes (Parameterization p); context_value (pkg_Context p); VSeq (item_value <$> WorkItems p)].

Definition Marshal_package (p : Package) : res jam_error (list Z) :=
  Marshal package_type (package_value p).
