(* ===== verification/HostRefine.v ===== *)
(** * Host calls of refinement

    [internal/polkavm/host_call/refine_functions.go]: historical lookups, fetching
    of the work package's data, exported segments, and machines inside the
    machine.  The context is passed and returned by value; its map of machines is
    shared, but only the returned context is used again, and the memories of the
    machines have no bytes that copies could share (see [machines_ok] in
    [RefineLogic]). *)
From S2P Require Export AccumulateInvoke Work PvmRun.

Record IntegratedPVM : Type := MkPVM {
  pvm_Code : list Z;
  pvm_Ram : Memory;
  pvm_InstructionCounter : Z;
}.

(** [None] is the nil map of an empty context. *)
Record RefineContextPair : Type := MkRefine {
  IntegratedPVMMap : option (gmap Z IntegratedPVM);
  Segments : list Segment;
}.

(** [Memory{}] *)
Definition emptySegment : memorySegment := MemorySegment 0 [] Inaccessible.
Definition emptyMemory : Memory := MkMemory emptySegment emptySegment emptySegment emptySegment.

(** [initialisation.go] *)
Definition MaxPageIndex : Z := AddressSpaceSize / PageSize.

(** Results of inner machines ([common.go]) *)
Definition HALT : Z := 0.
Definition PANIC : Z := 1.
Definition FAULT : Z := 2.
Definition HOST : Z := 3.
Definition OOG : Z := 4.

(** Looking up a machine; assigning to a nil map is a runtime panic. *)
Definition machine_at (x : RefineContextPair) (n : Z) : option IntegratedPVM :=
  match IntegratedPVMMap x with Some m => m !! n | None => None end.
Definition set_machine (n : Z) (u : IntegratedPVM) : host RefineContextPair unit :=
  let? x := hget in
  match IntegratedPVMMap x with
  | Some m => hput (MkRefine (Some (<[n := u]> m)) (Segments x))
  | None => hcrash
  end.
Definition with_ram (m : Memory) (u : IntegratedPVM) : IntegratedPVM :=
  MkPVM (pvm_Code u) m (pvm_InstructionCounter u).

(** The first key from [n] on that the map does not have, among [tries] keys. *)
Fixpoint missing_key (m : gmap Z IntegratedPVM) (n : Z) (tries : nat) : Z :=
  match tries with
  | O => n
  | S tries => match m !! n with None => n | Some _ => missing_key m (uint64 (n + 1)) tries end
  end.
(** A map with [size m] entries misses one of the first [size m + 1] keys. *)
Definition findSmallestMissingKey (m : gmap Z IntegratedPVM) : Z := missing_key m 0 (size m).

Module Ref.
Import Host.

(** An unknown service gives back an empty context. *)
Definition HistoricalLookup (serviceId : Z) (serviceState : ServiceState) (t : Z)
  : host RefineContextPair unit :=
  let? _ := charge HostCallCost in
  let? omega7 := get_reg A0 in
  let lookupID := if omega7 =? MaxUint64 then serviceId else uint32 omega7 in
  match serviceState !! lookupID with
  | None => let? _ := hput (MkRefine None []) in hreturn (Some ErrAccountNotFound)
  | Some a =>
      let? addressToRead := get_reg A1 in
      let? addressToWrite := get_reg A2 in
      let? hashData := read_bytes addressToRead 32 in
      let v := default [] (LookupPreimage t hashData a) in
      if len v =? 0 then withCode NONE
      else
        let? offset := get_reg A3 in
        let? length := get_reg A4 in
        let? _ := writeFromOffset addressToWrite v offset length in
        let? _ := put_reg A0 (uint64 (len v)) in
        hreturn None
  end.

Section fetch.
Context (itemIndex : Z) (workPackage : Package) (authorizerHashOutput : option (list Z))
  (importedSegments : list Segment) (fetcher : option (Hash → res pvm_error (option (list Z)))).

(** [WorkItems[index]], at an index that is compared as a signed number but used
    as it is. *)
Definition item_at (index : Z) : res pvm_error Item := go_index (WorkItems workPackage) index.

Definition preimage_of (fetch : Hash → res pvm_error (option (list Z))) (w : Item) (index : Z)
  : res pvm_error (option (list Z)) :=
  let! extrinsicPair := go_index (Extrinsics w) index in
  fetch (extrinsic_Hash extrinsicPair).

(** [len] of an array is a constant: the segment is not looked up for it. *)
Definition segment_byte (i j : Z) : res pvm_error (option (list Z)) :=
  if int64 j <? SizeOfSegment then
    let! s := go_index importedSegments i in
    let! b := go_index s j in Ok (Some [b])
  else Ok None.

(** The switch over the requested data; [None] is nil. *)
Definition fetch_data (dataID index1 index2 : Z) : res pvm_error (option (list Z)) :=
  match dataID with
  | 0 => let! v := map_err ErrJam (Marshal_package workPackage) in Ok (Some v)
  | 1 => Ok authorizerHashOutput
  | 2 =>
      if int64 index1 <? len (WorkItems workPackage) then
        let! w := item_at index1 in Ok (Payload w)
      else Ok None
  | 3 =>
      match fetcher with
      | None => Ok None
      | Some fetch =>
          if int64 index1 <? len (WorkItems workPackage) then
            let! w := item_at index1 in
            if int64 index2 <? len (Extrinsics w) then preimage_of fetch w index2 else Ok None
          else Ok None
      end
  | 4 =>
      match fetcher with
      | None => Ok None
      | Some fetch =>
          let! w := item_at itemIndex in
          if int64 index1 <? len (Extrinsics w) then preimage_of fetch w index1 else Ok None
      end
  | 5 =>
      if int64 index1 <? len importedSegments then segment_byte index1 index2 else Ok None
  | 6 =>
      if itemIndex <? len importedSegments then segment_byte itemIndex index1 else Ok None
  | _ => Ok None
  end.

Definition Fetch : host RefineContextPair unit :=
  let? _ := charge HostCallCost in
  let? outputAddr := get_reg A0 in
  let? offset := get_reg A1 in
  let? length := get_reg A2 in
  let? dataID := get_reg A3 in
  let? index1 := get_reg A4 in
  let? index2 := get_reg A5 in
  let? v := hcall id (fetch_data dataID index1 index2) in
  match v with
  | None => withCode NONE
  | Some v =>
      let? _ := writeFromOffset outputAddr v offset length in
      let? _ := put_reg A0 (uint64 (len v)) in
      hreturn None
  end.
End fetch.

Definition Export (exportOffset : Z) : host RefineContextPair unit :=
  let? _ := charge HostCallCost in
  let? p := get_reg A0 in
  let? requestedLength := get_reg A1 in
  let z := Z.min requestedLength SizeOfSegment in
  let? data := read_bytes p z in
  let segmentData := to_segment (ZeroPadding data SizeOfSegment) in
  let? x := hget in
  let currentCount := len (Segments x) in
  if MaxNumberOfEntries <=? uint64 (exportOffset + currentCount) then withCode FULL
  else
    let segments := Segments x ++ [segmentData] in
    let? _ := hput (MkRefine (IntegratedPVMMap x) segments) in
    let? _ := put_reg A0 (uint64 (exportOffset + len segments)) in
    hreturn None.

(** [append] and the assignment come after the search for a key, so a nil map
    panics only at the end. *)
Definition Machine : host RefineContextPair unit :=
  let? _ := charge HostCallCost in
  let? po := get_reg A0 in
  let? pz := get_reg A1 in
  let? i := get_reg A2 in
  let? p := read_bytes po pz in
  match Deblob p with
  | RuntimePanic => hcrash
  | Err _ => withCode HUH
  | Ok _ =>
      let? x := hget in
      let n := findSmallestMissingKey (default ∅ (IntegratedPVMMap x)) in
      let pvm := MkPVM p emptyMemory i in
      let? _ := put_reg A0 n in
      let? _ := set_machine n pvm in
      hreturn None
  end.

(** A call on memory whose error has a code of its own. *)
Definition or_code {A} (c : Z) (r : res pvm_error A) : host RefineContextPair A :=
  match r with
  | Ok a => hpure a
  | Err _ => withCode c
  | RuntimePanic => hcrash
  end.

Definition Peek : host RefineContextPair unit :=
  let? _ := charge HostCallCost in
  let? n := get_reg A0 in
  let? o := get_reg A1 in
  let? sReg := get_reg A2 in
  let? z := get_reg A3 in
  let? x := hget in
  match machine_at x n with
  | None => withCode WHO
  | Some u =>
      let? _ := make_bytes z in
      let? s := or_code OOB (PvmMemory.Read (pvm_Ram u) sReg z) in
      let? _ := write_bytes ErrPanicOf o s in
      withCode OK
  end.

Definition Poke : host RefineContextPair unit :=
  let? _ := charge HostCallCost in
  let? n := get_reg A0 in
  let? sReg := get_reg A1 in
  let? o := get_reg A2 in
  let? z := get_reg A3 in
  let? x := hget in
  match machine_at x n with
  | None => withCode WHO
  | Some innerPVM =>
      let? s := read_bytes sReg z in
      let? ram := or_code OOB (PvmMemory.Write (pvm_Ram innerPVM) o s) in
      let? _ := set_machine n (with_ram ram innerPVM) in
      withCode OK
  end.

Definition zeroPage : list Z := replicate (Z.to_nat PageSize) 0.
Definition page_start (pageIndex : Z) : Z := uint64 (pageIndex * PageSize).

(** The turns of [for pageIndex := p; pageIndex < p+c; pageIndex++]. *)
Definition page_turns (p c : Z) : nat := Z.to_nat (uint64 (p + c) - p).

Fixpoint zero_pages (m : Memory) (pageIndex : Z) (n : nat) : res pvm_error Memory :=
  match n with
  | O => Ok m
  | S n =>
      let! m := SetAccess m pageIndex ReadWrite in
      let! m := PvmMemory.Write m (page_start pageIndex) zeroPage in
      zero_pages m (pageIndex + 1) n
  end.

Definition Zero : host RefineContextPair unit :=
  let? _ := charge HostCallCost in
  let? n := get_reg A0 in
  let? p := get_reg A1 in
  let? c := get_reg A2 in
  if (p <? 16) || (MaxPageIndex <=? uint64 (p + c)) then withCode HUH
  else
    let? x := hget in
    match machine_at x n with
    | None => withCode WHO
    | Some u =>
        let? ram := hcall id (zero_pages (pvm_Ram u) p (page_turns p c)) in
        let? _ := set_machine n (with_ram ram u) in
        withCode OK
    end.

(** The first loop of [Void]: [None] when a page is inaccessible. *)
Fixpoint clear_pages (m : Memory) (pageIndex : Z) (n : nat) : res pvm_error (option Memory) :=
  match n with
  | O => Ok (Some m)
  | S n =>
      if decide (GetAccess m pageIndex = Inaccessible) then Ok None
      else
        let! m := PvmMemory.Write m (page_start pageIndex) zeroPage in
        clear_pages m (pageIndex + 1) n
  end.

Fixpoint void_pages (m : Memory) (pageIndex : Z) (n : nat) : res pvm_error Memory :=
  match n with
  | O => Ok m
  | S n => let! m := SetAccess m pageIndex Inaccessible in void_pages m (pageIndex + 1) n
  end.

Definition Void : host RefineContextPair unit :=
  let? _ := charge HostCallCost in
  let? n := get_reg A0 in
  let? p := get_reg A1 in
  let? c := get_reg A2 in
  let? x := hget in
  match machine_at x n with
  | None => withCode WHO
  | Some u =>
      if (p <? 16) || (MaxPageIndex <=? uint64 (p + c)) then withCode HUH
      else
        let? cleared := hcall id (clear_pages (pvm_Ram u) p (page_turns p c)) in
        match cleared with
        | None => withCode HUH
        | Some ram =>
            let? ram := hcall id (void_pages ram p (page_turns p c)) in
            let? _ := set_machine n (with_ram ram u) in
            withCode OK
        end
  end.

(** Registers [i] to 12 of the inner machine, eight bytes each. *)
Fixpoint read_registers (addr i : Z) (n : nat) : host RefineContextPair Registers :=
  match n with
  | O => hpure []
  | S n =>
      let? r := readNumber (TPrim false Uint64) (uint64 (addr + (i + 1) * 8)) 8 in
      let? rs := read_registers addr (i + 1) n in
      hpure (r :: rs)
  end.

Definition inner_state_type : gotype := TArray 14 (TPrim false Uint64).

(** How a machine ended: its code, the value for [A1] if any, and whether the
    counter moves on by one; [None] is the [panic] that must never occur. *)
Definition inner_exit (hostCall : Z) (e : pvm_error) : option (Z * option Z * bool) :=
  match e with
  | ErrOutOfGas => Some (OOG, None, false)
  | ErrHalt => Some (HALT, None, false)
  | ErrHostCall => Some (HOST, Some hostCall, true)
  | ErrPageFault _ address => Some (FAULT, Some address, false)
  | ErrPanic _ | ErrPanicOf _ => Some (PANIC, None, false)
  | _ => None
  end.

(** The loop of the inner machine gets one turn per unit of gas and one more. *)
Definition Invoke : host RefineContextPair unit :=
  let? _ := charge HostCallCost in
  let? pvmKey := get_reg A0 in
  let? addr := get_reg A1 in
  let? invokeGas := readNumber (TPrim true Int64) addr 8 in
  let? invokeRegs := read_registers addr 0 13 in
  let? x := hget in
  match machine_at x pvmKey with
  | None => withCode WHO
  | Some pvm =>
      match Instantiate (pvm_Code pvm) (pvm_InstructionCounter pvm) invokeGas invokeRegs (pvm_Ram pvm) with
      | RuntimePanic => hcrash
      | Err _ => withCode PANIC
      | Ok i =>
          match PvmInvoke.Invoke (gas_turns i) i with
          | None | Some StopCrash => hcrash
          | Some (Stop hostCall invokeErr i) =>
              let '(resultInstr, resultGas, resultRegs, resultMem) := Results i in
              let? bb := hcall ErrPanicOf (map_err ErrJam (Marshal inner_state_type
                           (VSeq (VNum <$> uint64 resultGas :: resultRegs)))) in
              let? _ := write_bytes ErrPanicOf addr bb in
              match inner_exit hostCall invokeErr with
              | None => hcrash
              | Some (code, a1, next) =>
                  let counter := if (next : bool) then uint64 (resultInstr + 1) else resultInstr in
                  let? _ := set_machine pvmKey (MkPVM (pvm_Code pvm) resultMem counter) in
                  let? _ := match a1 with Some v => put_reg A1 v | None => hpure () end in
                  withCode code
              end
          end
      end
  end.

(** Deleting an entry the map has. *)
Definition Expunge : host RefineContextPair unit :=
  let? _ := charge HostCallCost in
  let? n := get_reg A0 in
  let? x := hget in
  match machine_at x n with
  | None => withCode WHO
  | Some pvm =>
      let? _ := put_reg A0 (pvm_InstructionCounter pvm) in
      let? _ := hput (MkRefine (delete n <$> IntegratedPVMMap x) (Segments x)) in
      hreturn None
  end.
End Ref.
