(* ===== verification/Refinement.v ===== *)
(** * Authorization and refinement

    [internal/refine/refine.go] and [internal/authorization/authorization.go]: the
    host functions of the two invocations and the invocations. *)
From S2P Require Export HostRefine.

Definition RefineCost : Z := 10.
Definition isAuthorizedCost : Z := 10.

Definition ErrBad : pvm_error := ErrorString "service's code was not available for lookup".
Definition ErrBig : pvm_error := ErrorString "code beyond the maximum size allowed".

(** ** Refinement *)

Module Refine.
Section refine.
Context (services : ServiceState) (w : Item) (itemIndex : Z) (workPackage : Package)
  (authorizerHashOutput : option (list Z)) (importedSegments : list Segment) (exportOffset : Z).

(** The switch of the closure, by the identifiers of [common.go]. *)
Definition refine_call (hostCall : Z) : host RefineContextPair unit :=
  match hostCall with
  | 0 => Host.GasRemaining
  | 17 => Ref.HistoricalLookup (item_ServiceId w) services
            (lookup_Timeslot (LookupAnchor (pkg_Context workPackage)))
  | 18 => Ref.Fetch itemIndex workPackage authorizerHashOutput importedSegments None
  | 19 => Ref.Export exportOffset
  | 20 => Ref.Machine
  | 21 => Ref.Peek
  | 22 => Ref.Poke
  | 23 => Ref.Zero
  | 24 => Ref.Void
  | 25 => Ref.Invoke
  | 26 => Ref.Expunge
  | _ => unknown_call RefineCost
  end.

(** The closure: the calls assign their error to a variable, and it returns nil. *)
Definition refine_host : HostCall RefineContextPair := λ hostCall gas rs mem x,
  match run (refine_call hostCall) gas rs mem x with
  | HostReturn gas rs mem x _ => HostReturn gas rs mem x None
  | HostCrash => HostCrash
  end.
End refine.

Definition arguments_type : gotype := TStruct
  [(field "ServiceIndex", TPrim true Uint32); (field "WorkPayload", TBytes);
   (field "WorkPackageHash", hash_type); (field "RefinementContext", context_type);
   (field "AuthorizerHash", hash_type)].

(** [a = E(w_s, w_y, H(p), p_x, p_a)] *)
Definition arguments (HashData : list Z → Hash) (workPackage : Package) (w : Item)
    (packageBytes : list Z) : res jam_error (list Z) :=
  Marshal arguments_type
    (VSeq [VNum (item_ServiceId w); VBytes (payload_bytes w); hash_value (HashData packageBytes);
           context_value (pkg_Context workPackage); hash_value (AuthCodeHash workPackage)]).

(** The bytes, the segments and the error; a runtime panic; or, as [None], the
    bounds used up. *)
Definition refined : Type := list Z * list Segment * option pvm_error.

Definition InvokePVM (HashData : list Z → Hash) (calls turns : nat) (services : ServiceState)
    (itemIndex : Z)
    (workPackage : Package) (authorizerHashOutput : option (list Z))
    (importedSegments : list Segment) (exportOffset : Z) : option (res unit refined) :=
  match go_index (E := unit) (WorkItems workPackage) itemIndex with
  | RuntimePanic => Some RuntimePanic
  | Err e => Some (Err e)
  | Ok w =>
      match Marshal_package workPackage with
      | RuntimePanic => Some RuntimePanic
      | Err e => Some (Ok ([], [], Some (ErrJam e)))
      | Ok packageBytes =>
          match arguments HashData workPackage w packageBytes with
          | RuntimePanic => Some RuntimePanic
          | marshalled =>
              (* an error of this call is not looked at *)
              let args := match marshalled with Ok args => args | _ => [] end in
              match services !! item_ServiceId w with
              | None => Some (Ok ([], [], Some ErrBad))
              | Some service =>
                  match LookupPreimage (lookup_Timeslot (LookupAnchor (pkg_Context workPackage)))
                          (item_CodeHash w) service with
                  | None => Some (Ok ([], [], Some ErrBad))
                  | Some code =>
                      if MaxSizeServiceCode <? len code then Some (Ok ([], [], Some ErrBig))
                      else
                        match InvokeWholeProgram
                                (refine_host services w itemIndex workPackage authorizerHashOutput
                                   importedSegments exportOffset)
                                calls turns code 0 (GasLimitRefine w) args (MkRefine (Some ∅) []) with
                        | None => None
                        | Some WholeCrash => Some RuntimePanic
                        | Some (Whole _ result ctxPair err) =>
                            match err with
                            | Some ErrOutOfGas | Some (ErrPanic _) | Some (ErrPanicOf _) =>
                                Some (Ok ([], [], err))
                            | _ => Some (Ok (result, Segments ctxPair, err))
                            end
                        end
                  end
              end
          end
      end
  end.
End Refine.

(** ** Authorization *)

Inductive auth_error : Type :=
| AuthJam (e : jam_error)
| AuthState (e : st_error)
| AuthPvm (e : pvm_error).

Module Authorization.
Definition authorization_host : HostCall unit := λ hostCall gas rs mem ctx,
  match hostCall with
  | 0 => run Host.GasRemaining gas rs mem ctx
  | _ => run (unknown_call isAuthorizedCost) gas rs mem ctx
  end.

Definition arguments_type : gotype := TStruct
  [(field "WorkPackage", package_type); (field "Core", TPrim false Uint16)].

Definition InvokePVM (calls turns : nat) (services : ServiceState) (workPackage : Package)
    (coreCode : Z) : option (res auth_error (list Z)) :=
  match Marshal arguments_type (VSeq [package_value workPackage; VNum coreCode]) with
  | RuntimePanic => Some RuntimePanic
  | Err e => Some (Err (AuthJam e))
  | Ok args =>
      match GetAuthorizationCode workPackage services with
      | RuntimePanic => Some RuntimePanic
      | Err e => Some (Err (AuthState e))
      | Ok pc =>
          match InvokeWholeProgram authorization_host calls turns pc 0 MaxAllocatedGasIsAuthorized
                  args () with
          | None => None
          | Some WholeCrash => Some RuntimePanic
          | Some (Whole _ result _ None) => Some (Ok result)
          | Some (Whole _ _ _ (Some e)) => Some (Err (AuthPvm e))
          end
      end
  end.
End Authorization.
