(* ===== verification/RefineLogic.v ===== *)
(** * Refinement: what its host calls keep

    The invariant of a refinement context: machines have valid code and memory
    without a single byte, exported segments have the right size, and there are
    no more of them than a package may export.  Every host call keeps it, which
    discharges the interpreter's contract with the host. *)
From S2P Require Export Refinement HostEval.

(** ** The memory of inner machines *)

Lemma emptyMemory_wf : mem_wf emptyMemory.
Proof. intros []; (split; [done|split; [done|constructor]]). Qed.

(** No step changes it. *)
Lemma emptyMemory_step m : mem_step emptyMemory m → m = emptyMemory.
Proof.
  intros H. assert (∀ s, get_seg m s = emptySegment) as Hs.
  { intros s. destruct (H s) as (H1 & H2 & _ & H4). destruct (get_seg m s) as [a d acc] eqn:E.
    destruct s; simpl in *; unfold emptySegment; (f_equal; [done|apply H4; [by right|done]|done]). }
  destruct m as [ro rw st ar]. unfold emptyMemory.
  by rewrite <- (Hs SegRO), <- (Hs SegRW), <- (Hs SegStack), <- (Hs SegArgs) at 1.
Qed.

Lemma empty_select address n s d :
  2 ^ 16 ≤ address → select emptyMemory address n ≠ Ok (Some s, d).
Proof.
  intros Ha. unfold select. destruct (first_segment _ _) as [s'|]; [|done].
  replace (get_seg emptyMemory s') with emptySegment by (by destruct s').
  cbv zeta. rewrite go_slice_panic; [done|]. simpl. unfold len. simpl. lia.
Qed.

Lemma empty_Read address n b : Read emptyMemory address n ≠ Ok b.
Proof.
  unfold Read. destruct (Z.ltb_spec address (2 ^ 16)); [done|].
  destruct (select emptyMemory address n) as [[[s|] d]|e|] eqn:E; simpl; try done.
  by apply empty_select in E.
Qed.

Lemma empty_Write address data m : Write emptyMemory address data ≠ Ok m.
Proof.
  unfold Write. destruct (Z.ltb_spec address (2 ^ 16)); [done|].
  destruct (select emptyMemory address _) as [[[s|] d]|e|] eqn:E; simpl; try done.
  by apply empty_select in E.
Qed.

Lemma empty_page p : first_segment (λ x, seg_has x (uint64 (p * PageSize))) emptyMemory = None.
Proof.
  unfold first_segment, emptyMemory, seg_has. simpl. pose proof (uint64_range (p * PageSize)) as [Hp _].
  change (uint64 (0 + len [])) with 0. rewrite (proj2 (Z.ltb_ge _ _)) by done. by rewrite andb_false_r.
Qed.

Lemma empty_SetAccess p a : SetAccess emptyMemory p a = Err (ErrPageFault "page out of valid range" (uint64 (p * PageSize))).
Proof. unfold SetAccess. cbv zeta. by rewrite empty_page. Qed.
Lemma empty_GetAccess p : GetAccess emptyMemory p = Inaccessible.
Proof. unfold GetAccess. cbv zeta. by rewrite empty_page. Qed.

(** ** The invariant *)

Record machine_ok (u : IntegratedPVM) : Prop := MachineOk {
  mo_code : bytes_ok (pvm_Code u);
  mo_ram : pvm_Ram u = emptyMemory;
  mo_counter : inU 64 (pvm_InstructionCounter u);
}.

Definition machines_ok : gmap Z IntegratedPVM → Prop := map_Forall (λ n u, inU 64 n ∧ machine_ok u).

Definition segment_ok (s : Segment) : Prop := length s = Z.to_nat SizeOfSegment ∧ bytes_ok s.

(** The number of segments that are left from an offset on. *)
Definition exports_left (exportOffset : Z) : Z := Z.max 0 (MaxNumberOfEntries - exportOffset).

Record refine_inv (exportOffset : Z) (x : RefineContextPair) : Prop := RefineInv {
  ri_machines : ∀ m, IntegratedPVMMap x = Some m → machines_ok m;
  ri_segments : Forall segment_ok (Segments x);
  ri_count : len (Segments x) ≤ exports_left exportOffset;
}.

Lemma empty_context_inv o m : machines_ok (default ∅ m) → refine_inv o (MkRefine m []).
Proof.
  intros Hm. split; simpl; [|constructor|unfold len, exports_left; simpl; lia].
  by intros m' ->.
Qed.

Lemma machine_at_ok o x n u : refine_inv o x → machine_at x n = Some u → inU 64 n ∧ machine_ok u.
Proof.
  intros Hx. unfold machine_at. destruct (IntegratedPVMMap x) as [m|] eqn:E; [|done].
  by apply (ri_machines o x Hx).
Qed.

Lemma keeps_set_machine o n u :
  inU 64 n → machine_ok u → keeps (refine_inv o) (set_machine n u) (λ _, True).
Proof.
  intros Hn Hu. eapply keeps_bind; [apply keeps_get|]. intros x [Hm Hs Hc].
  destruct (IntegratedPVMMap x) as [m|]; [|apply keeps_crash]. apply keeps_put.
  split; [|done..]. simpl. intros m' [= <-]. apply map_Forall_insert_2; [done|by apply Hm].
Qed.
#[export] Hint Resolve keeps_set_machine : keeps.

Lemma keeps_or_code {A} o c (r : res pvm_error A) (Q : A → Prop) :
  inU 64 c → (∀ a, r = Ok a → Q a) → keeps (refine_inv o) (Ref.or_code c r) Q.
Proof. intros Hc HQ. destruct r; [apply keeps_pure; auto|by apply keeps_code|apply keeps_crash]. Qed.

(** ** Data *)

Lemma go_copy_length {A} (dst src : list A) : length (go_copy dst src) = length dst.
Proof. unfold go_copy. rewrite length_app, length_take, length_drop. lia. Qed.

Lemma to_segment_ok data : bytes_ok data → segment_ok (to_segment data).
Proof.
  intros Hd. split; [apply go_copy_length|]. apply Forall_app.
  split; [by apply Forall_take|]. by apply Forall_drop, Forall_replicate.
Qed.

Lemma ZeroPadding_bytes x n : bytes_ok x → bytes_ok (ZeroPadding x n).
Proof.
  intros Hx. unfold ZeroPadding. cbv zeta. do 2 (case_match; [done|]).
  apply Forall_app. split; [done|by apply Forall_replicate].
Qed.

(** Preimages are byte strings. *)
Definition services_ok : ServiceState → Prop :=
  map_Forall (λ _ a, map_Forall (λ _, buffer_ok) (PreimageLookup a)).

Lemma LookupPreimage_ok services i a t h v :
  services_ok services → services !! i = Some a → LookupPreimage t h a = Some v → buffer_ok v.
Proof.
  intros Hs Ha Hv. unfold LookupPreimage in Hv.
  destruct (PreimageLookup a !! h) as [p|] eqn:E; [|done]. destruct (PreimageMeta a !! _); [|done].
  destruct (isPreimageAvailableAt _ _); [|done]. simplify_eq. by apply (Hs i a Ha) in E.
Qed.

(** What can be fetched is made of bytes. *)
Record fetch_ok (p : Package) (out : option (list Z)) (imported : list Segment) : Prop := FetchOk {
  fo_package : ∀ b, Marshal_package p = Ok b → buffer_ok b;
  fo_output : ∀ b, out = Some b → buffer_ok b;
  fo_payloads : Forall (λ w, ∀ b, Payload w = Some b → buffer_ok b) (WorkItems p);
  fo_imported : Forall bytes_ok imported;
}.

Lemma segment_byte_ok imported i j v :
  Forall bytes_ok imported → Ref.segment_byte imported i j = Ok (Some v) → buffer_ok v.
Proof.
  intros Hi H. unfold Ref.segment_byte in H. destruct (_ <? _); [|done]. go_inv.
  repeat match goal with H : go_index _ _ = Ok _ |- _ => apply go_index_Ok in H as [_ H] end.
  split; [|by vm_compute]. constructor; [|constructor]. by do 2 (eapply Forall_lookup_1; [|done]).
Qed.

Lemma fetch_data_ok p out imported index dataID index1 index2 v :
  fetch_ok p out imported →
  Ref.fetch_data index p out imported None dataID index1 index2 = Ok (Some v) → buffer_ok v.
Proof.
  intros [Hp Ho Hw Hi] H. unfold Ref.fetch_data in H.
  repeat match type of H with
  | context [match ?d with _ => _ end] => is_var d; destruct d; try done
  end; try (by simplify_eq; apply Ho); try (destruct (_ <? _); [|done]); try (by eapply segment_byte_ok).
  - go_inv. by apply Hp.
  - unfold Ref.item_at in H. go_inv.
    match goal with H : go_index _ _ = Ok _ |- _ => apply go_index_Ok in H as [_ E] end.
    by eapply Forall_lookup_1 in E; [|exact Hw]; apply E.
Qed.

(** ** Encodings are bytes *)

Definition bytes_out (c : res jam_error (list Z)) : Prop := ∀ bs, c = Ok bs → bytes_ok bs.

Lemma writes_bytes_out c n : writes_bytes c n → bytes_out c.
Proof. intros (bs & -> & Hb & _) bs' [= <-]. done. Qed.

Lemma bytes_out_prim named k z : kind_fixed k → bytes_out (marshal (TPrim named k) (VNum z)).
Proof. intros Hk. by eapply writes_bytes_out, marshal_prim_bytes. Qed.
Lemma bytes_out_octets n s : bytes_out (marshal (octets_type n) (hash_value s)).
Proof. eapply writes_bytes_out, marshal_octets_bytes. Qed.
Lemma bytes_out_hash s : bytes_out (marshal hash_type (hash_value s)).
Proof. apply (bytes_out_octets 32). Qed.
Lemma bytes_out_bytes b : bytes_ok b → bytes_out (marshal TBytes (VBytes b)).
Proof.
  intros Hb bs H. assert (bs = encodeLength (len b) ++ b) as -> by (cbn [marshal] in H; by simplify_eq).
  apply Forall_app. split; [|done]. apply serializeUint64_bytes_ok, uint64_range.
Qed.

Lemma encode_all_out {A} f (vs : list A) : Forall (λ v, bytes_out (f v)) vs → bytes_out (encode_all f vs).
Proof.
  induction 1 as [|v vs Hv _ IH]; intros bs H; simpl in H; go_inv; [constructor|].
  apply Forall_app. split; [by apply Hv|by apply IH].
Qed.

Lemma bytes_out_slice t vs :
  Forall (λ v, bytes_out (marshal t v)) vs → bytes_out (marshal (TSlice t) (VSeq vs)).
Proof.
  intros Hvs bs H. cbn [marshal] in H. unfold encodeSlice in H.
  apply rbind_Ok_inv in H as (b & Hb & H). assert (bs = encodeLength (len vs) ++ b) as -> by congruence.
  apply Forall_app.
  split; [apply serializeUint64_bytes_ok, uint64_range|]. by eapply encode_all_out.
Qed.

Lemma bytes_out_struct fs vs :
  Forall2 (λ ft v, field_exported ft.1 = true ∧ field_tag ft.1 = NoTag ∧ bytes_out (marshal ft.2 v)) fs vs →
  bytes_out (marshal (TStruct fs) (VSeq vs)).
Proof.
  intros H. cbn [marshal]. induction H as [|[i t] v fs vs (He & Ht & Hv) _ IH]; intros bs Hb.
  { simpl in Hb. go_inv. constructor. }
  cbn [encodeStruct] in Hb. simpl in He, Ht. rewrite He, Ht in Hb. go_inv. apply Forall_app.
  split; [by apply Hv|by apply IH].
Qed.

Create HintDb encodes.
#[export] Hint Resolve bytes_out_prim bytes_out_octets bytes_out_hash bytes_out_bytes : encodes.
#[export] Hint Extern 1 (kind_fixed _) => exact I : encodes.
Ltac encodes :=
  repeat first
    [ solve [auto with encodes]
    | apply bytes_out_struct; repeat (apply Forall2_cons; split; [split_and!; [done|done|cbn [snd]]|]);
      try apply Forall2_nil_2
    | apply bytes_out_slice, Forall_fmap, Forall_true; intros ?; cbn [compose] ].

Lemma context_out x : bytes_out (marshal context_type (context_value x)).
Proof. unfold context_type, context_value. encodes. Qed.
#[export] Hint Resolve context_out : encodes.

Lemma item_out w : bytes_ok (payload_bytes w) → bytes_out (marshal item_type (item_value w)).
Proof. intros Hw. unfold item_type, item_value, imported_type, extrinsic_type. encodes. Qed.

Lemma items_out items :
  Forall (λ w, bytes_ok (payload_bytes w)) items →
  bytes_out (marshal (TSlice item_type) (VSeq (item_value <$> items))).
Proof.
  intros Hw. apply bytes_out_slice, Forall_fmap. eapply Forall_impl; [exact Hw|]. intros w. apply item_out.
Qed.
#[export] Hint Resolve items_out : encodes.

Record package_bytes (p : Package) : Prop := PackageBytes {
  pb_token : bytes_ok (AuthorizationToken p);
  pb_parameters : bytes_ok (Parameterization p);
  pb_payloads : Forall (λ w, bytes_ok (payload_bytes w)) (WorkItems p);
}.

Lemma package_out p : package_bytes p → bytes_out (marshal package_type (package_value p)).
Proof.
  intros [Ht Hp Hw]. unfold package_type, package_value. encodes.
Qed.
#[export] Hint Resolve package_out : encodes.

Lemma arguments_out H p w b :
  bytes_ok (payload_bytes w) → bytes_out (Refine.arguments H p w b).
Proof. intros Hw. unfold Refine.arguments, Marshal, Refine.arguments_type. encodes. Qed.

(** ** The calls *)

Section calls.
Context (exportOffset : Z) (Hoffset : 0 ≤ exportOffset < 2 ^ 63).
Abbreviation inv := (refine_inv exportOffset).

Lemma keeps_HistoricalLookup i services t :
  services_ok services → keeps inv (Ref.HistoricalLookup i services t) (λ _, True).
Proof.
  intros Hs. unfold Ref.HistoricalLookup. do 3 keeps_step.
  - repeat keeps_step. apply keeps_found; [|done].
    match goal with H : services !! _ = Some ?a |- context [LookupPreimage ?t ?h ?a] =>
      destruct (LookupPreimage t h a) as [v|] eqn:E end; [|by split; [constructor|]].
    by eapply LookupPreimage_ok.
  - eapply keeps_bind; [|intros; apply keeps_return]. by apply keeps_put, empty_context_inv.
Qed.

Lemma keeps_Fetch index p out imported :
  fetch_ok p out imported → keeps inv (Ref.Fetch index p out imported None) (λ _, True).
Proof.
  intros Hp. unfold Ref.Fetch. do 7 keeps_step.
  eapply (keeps_bind _ _ _ (λ v, ∀ b, v = Some b → buffer_ok b)).
  { apply keeps_call. intros v Hv b ->. by eapply fetch_data_ok. }
  intros [v|] Hv; [|repeat keeps_step]. apply keeps_found; [by apply Hv|done].
Qed.

Lemma keeps_Export : keeps inv (Ref.Export exportOffset) (λ _, True).
Proof using Hoffset.
  unfold Ref.Export. do 3 keeps_step. cbv zeta. keeps_step. eapply keeps_bind; [apply keeps_get|].
  intros x [Hm Hs Hc]. destruct (Z.leb_spec MaxNumberOfEntries (uint64 (exportOffset + len (Segments x)))) as [|Hlt].
  { repeat keeps_step. }
  eapply keeps_bind; [|intros; repeat keeps_step]. apply keeps_put. split; simpl; [done| |].
  - apply Forall_app. split; [done|]. constructor; [|constructor].
    apply to_segment_ok, ZeroPadding_bytes. by apply H2.
  - unfold exports_left, MaxNumberOfEntries in *. rewrite len_app. change (len [_]) with 1.
    pose proof (len_nonneg (Segments x)). rewrite uint64_small in Hlt by lia. lia.
Qed.

Lemma missing_key_range m n tries : inU 64 n → inU 64 (missing_key m n tries).
Proof.
  revert n. induction tries as [|tries IH]; intros n Hn; [done|]. simpl. destruct (m !! n); [|done].
  apply IH, uint64_range.
Qed.

Lemma keeps_Machine : keeps inv Ref.Machine (λ _, True).
Proof.
  unfold Ref.Machine. do 5 keeps_step. keeps_step; [|repeat keeps_step..].
  eapply keeps_bind; [apply keeps_get|]. intros x Hx. cbv zeta.
  assert (inU 64 (findSmallestMissingKey (default ∅ (IntegratedPVMMap x)))).
  { by apply missing_key_range. }
  keeps_step. eapply keeps_bind; [|intros; apply keeps_return].
  apply keeps_set_machine; [done|]. split; simpl; [by destruct H3|done|done].
Qed.

Lemma keeps_Peek : keeps inv Ref.Peek (λ _, True).
Proof.
  unfold Ref.Peek. do 6 keeps_step. keeps_step; [|repeat keeps_step].
  destruct (machine_at_ok _ _ _ _ H4 Heqo) as (_ & [_ Hr _]). rewrite Hr.
  eapply (keeps_bind _ _ _ (λ _, True)).
  { eapply (keeps_bind _ _ _ (λ _, True)); [by apply keeps_call|intros; by apply keeps_pure]. }
  intros _ _. eapply (keeps_bind _ _ _ (λ _, False)); [|done].
  apply keeps_or_code; [by vm_compute|]. intros b Hb. by apply empty_Read in Hb.
Qed.

Lemma keeps_Poke : keeps inv Ref.Poke (λ _, True).
Proof.
  unfold Ref.Poke. do 6 keeps_step. keeps_step; [|repeat keeps_step].
  destruct (machine_at_ok _ _ _ _ H4 Heqo) as (_ & [_ Hr _]). rewrite Hr. keeps_step.
  eapply (keeps_bind _ _ _ (λ _, False)); [|done].
  apply keeps_or_code; [by vm_compute|]. intros b Hb. by apply empty_Write in Hb.
Qed.

Lemma zero_pages_empty p n m : Ref.zero_pages emptyMemory p n = Ok m → m = emptyMemory.
Proof. destruct n; simpl; [by intros [= <-]|]. by rewrite empty_SetAccess. Qed.
Lemma clear_pages_empty p n m : Ref.clear_pages emptyMemory p n = Ok (Some m) → m = emptyMemory.
Proof.
  destruct n; simpl; [by intros [= <-]|]. by rewrite empty_GetAccess, decide_True.
Qed.
Lemma void_pages_empty p n m : Ref.void_pages emptyMemory p n = Ok m → m = emptyMemory.
Proof. destruct n; simpl; [by intros [= <-]|]. by rewrite empty_SetAccess. Qed.

(** Storing a machine with its memory as it was. *)
Lemma keeps_store n u m :
  inU 64 n → machine_ok u → m = emptyMemory →
  keeps inv (let? _ := set_machine n (with_ram m u) in Host.withCode OK) (λ _ : (), True).
Proof.
  intros Hn [] ->. eapply keeps_bind; [|intros; repeat keeps_step].
  by apply keeps_set_machine; [|split].
Qed.

Lemma keeps_Zero : keeps inv Ref.Zero (λ _, True).
Proof.
  unfold Ref.Zero. do 5 keeps_step; [repeat keeps_step|]. keeps_step. keeps_step; [|repeat keeps_step].
  destruct (machine_at_ok _ _ _ _ H3 Heqo) as (Hn & Hu). destruct (Hu) as [_ Hr _]. rewrite Hr.
  eapply (keeps_bind _ _ _ (λ m, m = emptyMemory)); [|intros m Hm; by apply keeps_store].
  apply keeps_call. intros m. apply zero_pages_empty.
Qed.

Lemma keeps_Void : keeps inv Ref.Void (λ _, True).
Proof.
  unfold Ref.Void. do 5 keeps_step. keeps_step; [|repeat keeps_step].
  destruct (machine_at_ok _ _ _ _ H3 Heqo) as (Hn & Hu). destruct (Hu) as [_ Hr _]. rewrite Hr.
  keeps_step; [repeat keeps_step|].
  eapply (keeps_bind _ _ _ (λ o, ∀ m, o = Some m → m = emptyMemory)).
  { apply keeps_call. intros o Ho m ->. by eapply clear_pages_empty. }
  intros [m|] Hm; [|repeat keeps_step]. rewrite (Hm m) by done.
  eapply (keeps_bind _ _ _ (λ m, m = emptyMemory)); [|intros m' Hm'; by apply keeps_store].
  apply keeps_call. intros m'. apply void_pages_empty.
Qed.

Lemma keeps_Expunge : keeps inv Ref.Expunge (λ _, True).
Proof.
  unfold Ref.Expunge. do 3 keeps_step. keeps_step; [|repeat keeps_step].
  destruct (machine_at_ok _ _ _ _ H1 Heqo) as (Hn & [_ _ Hc]). keeps_step.
  eapply keeps_bind; [|intros; apply keeps_return]. apply keeps_put. destruct H1 as [Hm Hs Hl].
  split; simpl; [|done..]. intros m. destruct (IntegratedPVMMap a1) as [m0|]; simpl; [|done].
  intros [= <-]. apply map_Forall_delete. by apply Hm.
Qed.
End calls.

(** ** Running an inner machine *)

(** Full-width numbers, decoded. *)
Lemma Unmarshal_number named k b v :
  bytes_ok b → Unmarshal (TPrim named k) b (VNum 0) = Ok v →
  (k = Uint64 → inU 64 (num_of v)) ∧ (k = Int64 → inS 64 (num_of v)).
Proof.
  intros Hb H. split; intros ->; rewrite Unmarshal_prim in H; (destruct b as [|z b]; [by simplify_eq|]);
    unfold unmarshal, unmarshal_prim in H; cbn [IntLength rbind] in H; unfold decodeFixedWidth_prim in H;
    go_inv; simpl; [|by apply wrapS_range].
  match goal with H : read 8 _ = _ |- _ => destruct (buf_read_bytes EOF _ _ _ _ Hb H) end.
  rewrite deserializeTrivialNatural_le by done. by apply wrapU_range.
Qed.

Lemma keeps_number {X} (I : X → Prop) named k addr n :
  keeps I (Host.readNumber (TPrim named k) addr n)
    (λ v, (k = Uint64 → inU 64 v) ∧ (k = Int64 → inS 64 v)).
Proof.
  unfold Host.readNumber. eapply keeps_bind; [apply keeps_read|]. intros b [Hb _].
  eapply keeps_bind; [|intros v Hv; apply keeps_pure, Hv].
  apply keeps_call. intros v Hv. go_inv. by eapply Unmarshal_number.
Qed.

Lemma keeps_registers o addr i n :
  keeps (refine_inv o) (Ref.read_registers addr i n) (λ rs, length rs = n ∧ Forall (inU 64) rs).
Proof.
  revert i. induction n as [|n IH]; intros i; [by apply keeps_pure|]. simpl.
  eapply keeps_bind; [apply keeps_number|]. intros r [Hr _].
  eapply keeps_bind; [apply IH|]. intros rs [Hl Hrs]. apply keeps_pure. simpl. split; [lia|].
  constructor; [by apply Hr|done].
Qed.

Lemma numbers_bytes n l :
  writes_bytes (Marshal (TArray n (TPrim false Uint64)) (VSeq (VNum <$> l))) (8 * length l).
Proof.
  unfold Marshal. cbn [marshal]. unfold encodeArray.
  induction l as [|z l (bs & IH & Hb & Hl)]; [exists []; split_and!; [done|constructor|done]|].
  cbn [fmap list_fmap encode_all]. fold (VNum <$> l). rewrite IH.
  destruct (marshal_prim_bytes false Uint64 z) as (b & -> & Hz & Hzl); [done|].
  cbn [rbind]. exists (b ++ bs). rewrite length_app. simpl length.
  split_and!; [done|by apply Forall_app|lia].
Qed.

(** Gas bounds the run of an inner machine; its memory stays empty, and it ends in
    one of the five ways that have a code. *)
Lemma inner_run u gas rs i :
  machine_ok u → inS 64 gas → regs_wf rs →
  Instantiate (pvm_Code u) (pvm_InstructionCounter u) gas rs (pvm_Ram u) = Ok i →
  ∃ r, PvmInvoke.Invoke (gas_turns i) i = Some r ∧
    match r with
    | Stop h e j =>
        memory j = emptyMemory ∧ regs_wf (regs j) ∧ inU 64 (instructionCounter j) ∧
        ∃ c a1 b, Ref.inner_exit h e = Some (c, a1, b) ∧ 0 ≤ c ≤ 4 ∧ (∀ a, a1 = Some a → inU 64 a)
    | StopCrash => True
    end.
Proof.
  intros [Hc Hm Hic] Hg Hr Hi. rewrite Hm in Hi. assert (memory i = emptyMemory) as Hmem.
  { unfold Instantiate in Hi. by go_inv. }
  destruct (Instantiate_run _ _ _ _ _ _ Hc emptyMemory_wf Hr Hg Hic Hi) as [Hwf|[_ Hcr]].
  2:{ exists StopCrash. split; [|done]. unfold gas_turns. simpl. by rewrite Hcr. }
  destruct (Invoke_total i (gas_turns i) Hwf) as [r Hrun]; [done|]. exists r. split; [done|].
  pose proof (Invoke_post _ _ _ Hwf Hrun) as Hp. destruct r as [h e j|]; [|done].
  destruct Hp as (Hj & Hsp & _ & He). split_and!; [|apply Hj| |].
  - destruct Hsp as [_ _ _ _ Hst]. rewrite Hmem in Hst. by apply emptyMemory_step.
  - destruct (wf_ic j Hj). pose proof (cw_len _ _ _ _ (wf_code j Hj)). unfold inU. lia.
  - destruct He as [(-> & Hh & _)|[->|He]]; [do 3 eexists; split_and!; [done|done..|naive_solver]..|].
    destruct e; try done; do 3 eexists; (split_and!; [done|done..|naive_solver]).
Qed.

Lemma keeps_Invoke o : keeps (refine_inv o) Ref.Invoke (λ _, True).
Proof.
  unfold Ref.Invoke. do 3 keeps_step.
  eapply keeps_bind; [apply keeps_number|]. intros gas [_ Hgas]. specialize (Hgas eq_refl).
  eapply keeps_bind; [apply keeps_registers|]. intros rs Hrs. eapply keeps_bind; [apply keeps_get|].
  intros x Hx. destruct (machine_at x a0) as [u|] eqn:Hu; [|repeat keeps_step].
  destruct (machine_at_ok _ _ _ _ Hx Hu) as [Hn Hmu].
  destruct (Instantiate _ _ _ _ _) as [i|e|] eqn:Hi; [|repeat keeps_step..].
  destruct (inner_run u gas rs i Hmu Hgas Hrs Hi) as ([h e j|] & -> & Hp); [|repeat keeps_step].
  destruct Hp as (Hm & Hr & Hic & c & a2 & b & -> & Hc & Ha). cbn [Results].
  eapply (keeps_bind _ _ _ buffer_ok).
  { apply keeps_call. intros bs Hbs. apply map_err_Ok_inv in Hbs. unfold Ref.inner_state_type in Hbs.
    destruct (numbers_bytes 14 (uint64 (gasRemaining j) :: regs j)) as (bs' & Hbs' & Hb & Hl).
    rewrite Hbs' in Hbs. simplify_eq. split; [done|]. destruct Hr as [Hr _].
    simpl in Hl. rewrite Hr in Hl. unfold len. lia. }
  intros bs Hbs. keeps_step. eapply (keeps_bind _ _ _ (λ _, True)).
  { apply keeps_set_machine; [done|]. destruct Hmu. split; simpl; [done|done|].
    destruct b; [apply uint64_range|done]. }
  intros _ _. eapply (keeps_bind _ _ _ (λ _, True)).
  { destruct a2 as [v|]; [by apply keeps_put_reg, Ha|by apply keeps_pure]. }
  intros _ _. apply keeps_code. unfold inU. lia.
Qed.

(** ** The contracts *)

(** A host that drops the errors of a call. *)
Definition drop_error {X} (r : host_result X) : host_result X :=
  match r with
  | HostReturn gas rs mem x _ => HostReturn gas rs mem x None
  | HostCrash => HostCrash
  end.

Lemma answer_drop {X} (I : X → Prop) gas (c : host X ()) rs m x :
  keeps I c (λ _, True) → inS 64 gas → regs_wf rs → mem_wf m → I x →
  answer_ok I gas (drop_error (run c gas rs m x)).
Proof.
  intros Hc Hg Hr Hm Hx. specialize (Hc (MkHst gas rs m x)). unfold run.
  destruct (c _) as [u t|t e|]; [| |done]; destruct Hc as [[] Hle]; try (by split);
    simpl in *; split_and!; try done; lia.
Qed.

Lemma answer_unknown {X} (I : X → Prop) cost gas rs m x :
  0 ≤ cost ≤ 2 ^ 62 → inS 64 gas → 0 ≤ gas → regs_wf rs → mem_wf m → I x →
  answer_ok I gas (run (unknown_call cost) gas rs m x).
Proof.
  intros Hc Hg Hpos Hr Hm Hx. unfold inS in Hg. pose proof (unknown_answer cost gas rs m x) as HU.
  destruct (run (unknown_call _) _ _ _ _) as [g' rs' m' x' e|]; [|done].
  destruct HU as (-> & ? & -> & -> & _); [lia|lia|done|]. split_and!; try done; unfold inS; lia.
Qed.

Lemma unknown_no_error {X} cost gas rs m (x : X) :
  drop_error (run (unknown_call cost) gas rs m x) = run (unknown_call cost) gas rs m x.
Proof. unfold run, unknown_call, hbind, put_reg. by destruct (go_update _ _ _). Qed.

#[export] Instance refine_contract services w index p out imported o :
  services_ok services → fetch_ok p out imported → 0 ≤ o < 2 ^ 63 →
  HostContract (refine_inv o) (Refine.refine_host services w index p out imported o).
Proof.
  intros Hs Hf Ho n gas rs m x Hg Hpos Hr Hm Hx.
  change (answer_ok (refine_inv o) gas
    (drop_error (run (Refine.refine_call services w index p out imported o n) gas rs m x))).
  assert (∀ c, keeps (refine_inv o) c (λ _, True) →
    answer_ok (refine_inv o) gas (drop_error (run c gas rs m x))) as Hk.
  { intros c Hc. by apply answer_drop. }
  assert (answer_ok (refine_inv o) gas (drop_error (run (unknown_call RefineCost) gas rs m x))) as HU.
  { rewrite unknown_no_error. by apply answer_unknown. }
  unfold Refine.refine_call.
  repeat match goal with |- context [match ?d with _ => _ end] => is_var d; destruct d end;
    first [exact HU | apply Hk].
  all: first [apply keeps_GasRemaining | by apply keeps_HistoricalLookup | by apply keeps_Fetch
    | by apply keeps_Export | apply keeps_Machine | apply keeps_Peek | apply keeps_Poke | apply keeps_Zero
    | apply keeps_Void | apply keeps_Invoke | apply keeps_Expunge].
Qed.

#[export] Instance authorization_contract :
  HostContract (λ _, True) Authorization.authorization_host.
Proof.
  intros n gas rs m [] Hg Hpos Hr Hm Hx. unfold Authorization.authorization_host.
  destruct n; [|by apply answer_unknown..]. apply run_keeps; [|done..]. apply keeps_GasRemaining.
Qed.
