(* ===== verification/RefineTheorems.v ===== *)
(** * Refinement: theorems *)
From S2P Require Import RefineLogic HostTheorems PvmDemo.

(** ** Keys of inner machines *)

Lemma initial_keys (m : gmap Z IntegratedPVM) c :
  (∀ k, 0 ≤ k < Z.of_nat c → is_Some (m !! k)) → (c ≤ size m)%nat.
Proof.
  intros H. rewrite <- size_dom.
  replace c with (size (list_to_set (C := gset Z) (seqZ 0 (Z.of_nat c)))).
  - apply subseteq_size. intros k Hk. apply elem_of_list_to_set, elem_of_seqZ in Hk.
    apply elem_of_dom, H. lia.
  - rewrite size_list_to_set by apply NoDup_seqZ. rewrite length_seqZ. lia.
Qed.

Lemma missing_key_spec m n tries :
  0 ≤ n → n + Z.of_nat tries = Z.of_nat (size m) → Z.of_nat (size m) < 2 ^ 64 →
  (∀ k, 0 ≤ k < n → is_Some (m !! k)) →
  let r := missing_key m n tries in
  n ≤ r ∧ m !! r = None ∧ ∀ k, 0 ≤ k < r → is_Some (m !! k).
Proof.
  revert n. induction tries as [|tries IH]; intros n Hn Hsum Hsz Hk; simpl.
  - split_and!; [done| |done]. apply eq_None_not_Some. intros Hs.
    enough (S (size m) ≤ size m)%nat by lia. apply initial_keys. intros k Hk'.
    destruct (decide (k = n)) as [->|]; [done|]. apply Hk. lia.
  - destruct (m !! n) as [u|] eqn:E; [|done]. rewrite uint64_small by lia.
    destruct (IH (n + 1)) as (H1 & H2 & H3); [lia..|done| |split_and!; [lia|done..]].
    intros k Hk'. destruct (decide (k = n)) as [->|]; [by rewrite E|]. apply Hk. lia.
Qed.

Lemma findSmallestMissingKey_spec m :
  Z.of_nat (size m) < 2 ^ 64 →
  let n := findSmallestMissingKey m in
  0 ≤ n ∧ m !! n = None ∧ ∀ k, 0 ≤ k < n → is_Some (m !! k).
Proof. intros Hm. apply missing_key_spec; [done|lia|done|]. intros; lia. Qed.

(** C29: [Machine] and [Expunge] manage a finite map of machines: a machine gets
    the smallest free index and starts with the given code and counter, the other
    machines and the segments stay; [Expunge] of that index returns the counter and
    leaves the context as it was before. *)
Theorem machine_expunge ms segments gas rs mem p d gas' rs' mem' :
  length rs = 13%nat → HostCallCost ≤ gas < 2 ^ 63 → Z.of_nat (size ms) < 2 ^ 64 →
  0 ≤ reg_of rs A1 ≤ 2 ^ 48 → Read mem (reg_of rs A0) (reg_of rs A1) = Ok p → Deblob p = Ok d →
  length rs' = 13%nat → HostCallCost ≤ gas' < 2 ^ 63 →
  ∃ n, 0 ≤ n ∧ ms !! n = None ∧ (∀ k, 0 ≤ k < n → is_Some (ms !! k)) ∧
    run Ref.Machine gas rs mem (MkRefine (Some ms) segments) =
      HostReturn (gas - HostCallCost) (<[Z.to_nat A0 := n]> rs) mem
        (MkRefine (Some (<[n := MkPVM p emptyMemory (reg_of rs A2)]> ms)) segments) None ∧
    (reg_of rs' A0 = n →
     run Ref.Expunge gas' rs' mem'
       (MkRefine (Some (<[n := MkPVM p emptyMemory (reg_of rs A2)]> ms)) segments) =
       HostReturn (gas' - HostCallCost) (<[Z.to_nat A0 := reg_of rs A2]> rs') mem'
         (MkRefine (Some ms) segments) None).
Proof.
  intros Hl Hg Hs Hz Hp Hd Hl' Hg'. destruct (findSmallestMissingKey_spec ms Hs) as (H0 & Hn & Hk).
  exists (findSmallestMissingKey ms). split_and!; [done..| |].
  - unfold run, Ref.Machine. host_exec. rewrite Hd. host_exec. done.
  - intros Hr. unfold run, Ref.Expunge. host_exec. unfold machine_at. simpl.
    rewrite Hr, lookup_insert_eq. host_exec. simpl. by rewrite delete_insert_id.
Qed.

(** A memory with the code of a machine in it, one machine already running. *)
Definition code_ram : Memory := standard_memory [1] [] demo_blob 4096 0.
Definition code_regs (i : Z) : Registers := args_regs ArgsAddressLow (len demo_blob) i 0 0 0.
Definition one_machine : gmap Z IntegratedPVM := {[0 := MkPVM demo_blob emptyMemory 0]}.

Lemma demo_deblob : ∃ d, Deblob demo_blob = Ok d.
Proof. eexists. vm_compute. reflexivity. Qed.

Lemma machine_expunge_witness :
  ∃ n, 0 ≤ n ∧ one_machine !! n = None ∧ (∀ k, 0 ≤ k < n → is_Some (one_machine !! k)) ∧
    run Ref.Machine 30 (code_regs 3) code_ram (MkRefine (Some one_machine) []) =
      HostReturn 20 (<[Z.to_nat A0 := n]> (code_regs 3)) code_ram
        (MkRefine (Some (<[n := MkPVM demo_blob emptyMemory 3]> one_machine)) []) None ∧
    (reg_of (args_regs 1 0 0 0 0 0) A0 = n →
     run Ref.Expunge 20 (args_regs 1 0 0 0 0 0) code_ram
       (MkRefine (Some (<[n := MkPVM demo_blob emptyMemory 3]> one_machine)) []) =
       HostReturn 10 (<[Z.to_nat A0 := 3]> (args_regs 1 0 0 0 0 0)) code_ram
         (MkRefine (Some one_machine) []) None).
Proof.
  destruct demo_deblob as [d Hd].
  apply (machine_expunge one_machine [] 30 (code_regs 3) code_ram demo_blob d 20
    (args_regs 1 0 0 0 0 0) code_ram); try (vm_compute; reflexivity);
    try (split; vm_compute; congruence). exact Hd.
Defined.

(** ** Exported segments *)

Lemma to_segment_padded data :
  len data ≤ SizeOfSegment →
  to_segment (ZeroPadding data SizeOfSegment) =
  data ++ replicate (Z.to_nat (SizeOfSegment - len data)) 0.
Proof.
  intros Hd. unfold ZeroPadding. rewrite (proj2 (Z.eqb_neq SizeOfSegment 0)) by done. cbv zeta.
  pose proof (len_nonneg data). unfold to_segment, zeroSegment, go_copy, len in *.
  change SizeOfSegment with 4104 in *. set (n := length data) in *. rewrite length_replicate.
  destruct (decide (n = 0%nat)) as [Hz|Hz].
  - rewrite Hz. change (_ <=? 0) with true. destruct data; [|done]. done.
  - replace ((Z.of_nat n + 4104 - 1) `mod` 4104) with (Z.of_nat n - 1)
      by (apply Z.mod_unique with 1; lia).
    destruct (Z.leb_spec (4104 - (Z.of_nat n - 1 + 1)) 0).
    + replace (Z.to_nat (4104 - Z.of_nat n)) with 0%nat by lia.
      rewrite take_ge, drop_ge by (rewrite ?length_replicate; fold n; lia). done.
    + rewrite take_ge, drop_ge by (rewrite ?length_app, ?length_replicate; fold n; lia).
      rewrite app_nil_r. do 2 f_equal. lia.
Qed.

(** [Export] appends the given bytes, at most 4104 of them and padded with
    zeros to 4104, as a segment, and returns the number of segments with the offset;
    from 2048 on it answers [FULL] and appends nothing. *)
Theorem export_segment off ms segments gas rs mem data :
  length rs = 13%nat → HostCallCost ≤ gas < 2 ^ 63 → 0 ≤ off → off + len segments < 2 ^ 63 →
  0 ≤ reg_of rs A1 → Read mem (reg_of rs A0) (Z.min (reg_of rs A1) SizeOfSegment) = Ok data →
  len data ≤ SizeOfSegment →
  run (Ref.Export off) gas rs mem (MkRefine ms segments) =
    if off + len segments <? MaxNumberOfEntries then
      HostReturn (gas - HostCallCost) (<[Z.to_nat A0 := off + len segments + 1]> rs) mem
        (MkRefine ms (segments ++ [data ++ replicate (Z.to_nat (SizeOfSegment - len data)) 0])) None
    else
      HostReturn (gas - HostCallCost) (<[Z.to_nat A0 := FULL]> rs) mem (MkRefine ms segments) None.
Proof.
  intros Hl Hg Ho Hs Hz Hr Hd. unfold run, Ref.Export.
  assert (0 ≤ Z.min (reg_of rs A1) SizeOfSegment ≤ 2 ^ 48).
  { unfold SizeOfSegment, NumberOfErasureCodecPiecesInSegment, ErasureCodingChunkSize. lia. }
  host_exec. cbv zeta. host_exec. cbn [Segments]. pose proof (len_nonneg segments).
  rewrite uint64_small by lia. rewrite to_segment_padded by done.
  destruct (Z.leb_spec MaxNumberOfEntries (off + len segments)) as [Hge|Hlt].
  - rewrite (proj2 (Z.ltb_ge _ _)) by lia. by host_exec.
  - rewrite (proj2 (Z.ltb_lt _ _)) by lia. host_exec. rewrite len_app. change (len [_]) with 1.
    rewrite uint64_small by lia. by rewrite Z.add_assoc.
Qed.

Lemma export_segment_witness :
  run (Ref.Export 5) 10 (args_regs ArgsAddressLow 3 0 0 0 0) demo_ram (MkRefine (Some ∅) []) =
    if 5 + len (@nil Segment) <? MaxNumberOfEntries then
      HostReturn (10 - HostCallCost) (args_regs 6 3 0 0 0 0) demo_ram
        (MkRefine (Some ∅) ([] ++ [[9; 9; 9] ++ replicate (Z.to_nat (SizeOfSegment - len [9; 9; 9])) 0])) None
    else
      HostReturn (10 - HostCallCost) (args_regs FULL 3 0 0 0 0) demo_ram (MkRefine (Some ∅) []) None.
Proof.
  apply (export_segment 5 (Some ∅) [] 10 (args_regs ArgsAddressLow 3 0 0 0 0) demo_ram [9; 9; 9]);
    try (vm_compute; reflexivity); try (split; vm_compute; congruence); vm_compute; congruence.
Defined.

(** ** The memory of inner machines *)

(** [c], started with these registers, memory and context, leaves the memory and
    the context as they are, and when it returns without an error its code is not
    [OK]. *)
Definition idle {A} (rs : Registers) (mem : Memory) (x : RefineContextPair)
    (c : host RefineContextPair A) (Q : A → Prop) : Prop :=
  ∀ gas,
    match c (MkHst gas rs mem x) with
    | HNext a t => hs_regs t = rs ∧ hs_mem t = mem ∧ hs_x t = x ∧ Q a
    | HReturn t e => hs_mem t = mem ∧ hs_x t = x ∧ (e = None → reg_of (hs_regs t) A0 ≠ OK)
    | HCrash => True
    end.

Create HintDb idle.

Section idle.
Context (rs : Registers) (mem : Memory) (x : RefineContextPair) (Hl : length rs = 13%nat).

Lemma idle_bind {A B} (c : host RefineContextPair A) (k : A → host RefineContextPair B) Q R :
  idle rs mem x c Q → (∀ a, Q a → idle rs mem x (k a) R) → idle rs mem x (hbind c k) R.
Proof.
  intros Hc Hk gas. unfold hbind. specialize (Hc gas).
  destruct (c _) as [a [g rs' m' x']|t e|]; [|done..]. destruct Hc as (Hr & Hm & Hx & Ha).
  simpl in *. subst. by apply Hk.
Qed.

Lemma idle_charge c : idle rs mem x (charge c) (λ _, True).
Proof. intros gas. unfold charge. by destruct (_ <? _). Qed.
Lemma idle_get_reg r : 0 ≤ r < 13 → idle rs mem x (get_reg r) (λ v, v = reg_of rs r).
Proof using Hl. intros Hr gas. unfold get_reg. cbn [hs_regs]. by rewrite go_index_reg. Qed.
Lemma idle_get : idle rs mem x hget (λ y, y = x).
Proof. by intros gas. Qed.
Lemma idle_call {A} f (r : res pvm_error A) (Q : A → Prop) :
  (∀ a, r = Ok a → Q a) → idle rs mem x (hcall f r) Q.
Proof. intros HQ gas. destruct r; simpl; [split_and!; auto|done|done]. Qed.
Lemma idle_code {A} c (Q : A → Prop) : c ≠ OK → idle rs mem x (Host.withCode c) Q.
Proof using Hl.
  intros Hc gas. rewrite withCode_run by done. simpl. split_and!; [done..|]. intros _.
  unfold reg_of. rewrite list_lookup_insert_eq; [done|]. rewrite Hl. vm_compute. lia.
Qed.
Lemma idle_or_code {A} c (r : res pvm_error A) (Q : A → Prop) :
  c ≠ OK → (∀ a, r ≠ Ok a) → idle rs mem x (Ref.or_code c r) Q.
Proof using Hl. intros Hc Hr. destruct r; [by destruct (Hr a)|by apply idle_code|done]. Qed.
Lemma idle_make n : idle rs mem x (make_bytes n) (λ _, True).
Proof. unfold make_bytes. eapply idle_bind; [by apply (idle_call _ _ (λ _, True))|]. by intros. Qed.
Lemma idle_read addr n : idle rs mem x (read_bytes addr n) (λ _, True).
Proof.
  unfold read_bytes. eapply idle_bind; [apply idle_make|]. intros _ _ gas.
  by apply (idle_call _ _ (λ _, True)).
Qed.

Lemma idle_run c gas :
  idle rs mem x c (λ _, False) →
  match run c gas rs mem x with
  | HostReturn _ rs' mem' x' e => mem' = mem ∧ x' = x ∧ (e = None → reg_of rs' A0 ≠ OK)
  | HostCrash => True
  end.
Proof.
  intros Hc. unfold run. specialize (Hc gas).
  destruct (c _) as [u t|t e|]; [|done..]. by destruct Hc as (_ & _ & _ & []).
Qed.
End idle.
#[export] Hint Resolve idle_charge idle_get idle_make idle_read : idle.
#[export] Hint Extern 1 (idle _ _ _ (get_reg _) _) => (by apply idle_get_reg) : idle.
#[export] Hint Extern 1 (idle _ _ _ (Host.withCode _) _) => (by apply idle_code) : idle.

Ltac idle_step :=
  first
    [ solve [eauto 2 with idle nocore]
    | eapply idle_bind; [solve [eauto 2 with idle nocore]|cbv beta; intros ? ?; try subst]
    | match goal with |- idle _ _ _ (match ?d with _ => _ end) _ => destruct d eqn:? end ].

Section inner.
Context (off : Z) (x : RefineContextPair) (rs : Registers) (mem : Memory)
  (Hx : refine_inv off x) (Hl : length rs = 13%nat).

Lemma inner_ram n u : machine_at x n = Some u → pvm_Ram u = emptyMemory.
Proof using Hx. intros Hu. by destruct (machine_at_ok _ _ _ _ Hx Hu) as [_ []]. Qed.

Lemma idle_Peek : idle rs mem x Ref.Peek (λ _, False).
Proof using Hx Hl.
  unfold Ref.Peek. do 7 idle_step; [|idle_step]. rewrite (inner_ram _ _ Heqo). idle_step.
  eapply (idle_bind _ _ _ _ _ (λ _, False)); [|done]. apply idle_or_code; [done..|apply empty_Read].
Qed.

Lemma idle_Poke : idle rs mem x Ref.Poke (λ _, False).
Proof using Hx Hl.
  unfold Ref.Poke. do 7 idle_step; [|idle_step]. rewrite (inner_ram _ _ Heqo). idle_step.
  eapply (idle_bind _ _ _ _ _ (λ _, False)); [|done]. apply idle_or_code; [done..|apply empty_Write].
Qed.

Context (Hpages : Ref.page_turns (reg_of rs A1) (reg_of rs A2) ≠ 0%nat).

Lemma idle_Zero : idle rs mem x Ref.Zero (λ _, False).
Proof using Hx Hl Hpages.
  unfold Ref.Zero. do 5 idle_step; [idle_step|]. do 2 idle_step; [|idle_step].
  rewrite (inner_ram _ _ Heqo). eapply (idle_bind _ _ _ _ _ (λ _, False)); [|done].
  apply idle_call. intros m. destruct (Ref.page_turns _ _); [done|]. simpl. by rewrite empty_SetAccess.
Qed.

Lemma idle_Void : idle rs mem x Ref.Void (λ _, False).
Proof using Hx Hl Hpages.
  unfold Ref.Void. do 6 idle_step; [|idle_step]. rewrite (inner_ram _ _ Heqo). idle_step; [idle_step|].
  eapply (idle_bind _ _ _ _ _ (λ o, o = None)); [|intros ? ->; idle_step].
  apply idle_call. intros o. destruct (Ref.page_turns _ _); [done|]. simpl.
  rewrite empty_GetAccess, decide_True by done. by intros [= <-].
Qed.
End inner.

(** The machines inside a refinement have no memory at all: whatever the
    caller asks for, [Peek] and [Poke], and [Zero] and [Void] on at least one page,
    change neither its memory nor any machine, and none of them ever answers [OK]. *)
Theorem inner_memory_unusable off x gas rs mem :
  refine_inv off x → length rs = 13%nat →
  Forall (λ c,
    match run c gas rs mem x with
    | HostReturn _ rs' mem' x' e => mem' = mem ∧ x' = x ∧ (e = None → reg_of rs' A0 ≠ OK)
    | HostCrash => True
    end)
    ([Ref.Peek; Ref.Poke] ++
     (if decide (Ref.page_turns (reg_of rs A1) (reg_of rs A2) = 0%nat) then [] else [Ref.Zero; Ref.Void])).
Proof.
  intros Hx Hl. apply Forall_app. split; [|case_decide; [constructor|]]; repeat constructor;
    apply idle_run; eauto using idle_Peek, idle_Poke, idle_Zero, idle_Void.
Qed.

Lemma inner_memory_unusable_witness :
  Forall (λ c,
    match run c 30 (args_regs 0 16 1 0 0 0) demo_ram (MkRefine (Some one_machine) []) with
    | HostReturn _ rs' mem' x' e =>
        mem' = demo_ram ∧ x' = MkRefine (Some one_machine) [] ∧ (e = None → reg_of rs' A0 ≠ OK)
    | HostCrash => True
    end)
    [Ref.Peek; Ref.Poke; Ref.Zero; Ref.Void].
Proof.
  apply (inner_memory_unusable 0 (MkRefine (Some one_machine) []) 30 (args_regs 0 16 1 0 0 0) demo_ram);
    [|reflexivity].
  split; [|constructor|vm_compute; congruence]. intros m [= <-]. apply map_Forall_singleton.
  split; [split; vm_compute; congruence|]. split; [|reflexivity|split; vm_compute; congruence].
  apply (bool_decide_unpack _). vm_compute. reflexivity.
Defined.

(** ** Whole runs *)

Section whole.
Context {X : Type} (hostCall : HostCall X).

(** Gas bounds a run; it gives back a context that satisfies the invariant, after
    an error the one it started with. *)
Lemma whole_ends (inv : X → Prop) `{!HostContract inv hostCall} calls turns p entry gas args x :
  inv x → bytes_ok p → bytes_ok args → len args ≤ InputDataSize → inU 64 entry →
  (Z.to_nat (int64 gas) < calls)%nat → (Z.to_nat (int64 gas) < turns)%nat →
  ∃ r, InvokeWholeProgram hostCall calls turns p entry gas args x = Some r ∧
    match r with
    | Whole _ _ x' None => inv x'
    | Whole _ result x' (Some _) => x' = x ∧ result = []
    | WholeCrash => True
    end.
Proof.
  intros Hx Hp Ha Hl He Hc Ht. unfold InvokeWholeProgram.
  destruct (prepare p entry gas args) as [i|e|] eqn:Hi; [|by eexists..].
  destruct (prepare_instance _ _ _ _ _ Hp Ha Hl He Hi) as [Hg [Hwf|Hcrash]].
  2:{ destruct calls, turns; try lia. simpl. rewrite Hcrash. by eexists. }
  destruct (InvokeHostCall_total inv hostCall i x calls turns Hwf Hx) as [r Hr];
    [unfold gas_turns; lia..|]. rewrite Hr.
  pose proof (InvokeHostCall_inv inv hostCall _ _ _ _ _ Hwf Hx Hr) as Hinv.
  destruct r as [x' [e|] i'|]; [by eexists| |by eexists]. destruct Hinv as (_ & _ & _ & Hinv).
  cbn [Results]. by destruct (rbind _ _) as [res|e|]; eexists.
Qed.

(** With a host that returns no errors, a run fails only before it starts or when
    its result cannot be read. *)
Lemma no_host_error calls turns i x r :
  (∀ n gas rs m x, match hostCall n gas rs m x with
                   | HostReturn _ _ _ _ e => e = None | HostCrash => True end) →
  InvokeHostCall hostCall calls turns i x = Some r →
  match r with Served _ e _ => e = None | ServedCrash => True end.
Proof.
  intros Hh. revert i x. induction calls as [|calls IH]; intros i x; simpl; [done|].
  destruct (Invoke turns i) as [[n e j|]|]; [|by intros [= <-]|done].
  case_decide; [|by intros [= <-]]. specialize (Hh n (gasRemaining j) (regs j) (memory j) x).
  destruct (hostCall _ _ _ _ _) as [g rs m x' e'|]; [|by intros [= <-]]. subst e'.
  destruct (skip _) as [[] j'|e' j'|]; [apply IH|by intros [= <-]..].
Qed.

Lemma whole_errors calls turns p entry gas args x g res x' e :
  (∀ n gas rs m x, match hostCall n gas rs m x with
                   | HostReturn _ _ _ _ e => e = None | HostCrash => True end) →
  InvokeWholeProgram hostCall calls turns p entry gas args x = Some (Whole g res x' (Some e)) →
  prepare p entry gas args = Err e ∨ exit_reason e.
Proof.
  intros Hh. unfold InvokeWholeProgram.
  destruct (prepare p entry gas args) as [i|e'|] eqn:Hi; [|intros [= <- <- <- <-]; by left|done].
  destruct (InvokeHostCall hostCall calls turns i x) as [r|] eqn:Hr; [|done].
  pose proof (no_host_error _ _ _ _ _ Hh Hr) as He. destruct r as [x1 e1 j|]; [|done]. subst e1.
  cbn [Results]. right.
  destruct (go_index (regs j) A0) as [a0|e'|] eqn:E0; cbn [rbind] in *; [|by apply go_index_not_Err in E0|done].
  destruct (go_index (regs j) A1) as [a1|e'|] eqn:E1; cbn [rbind] in *; [|by apply go_index_not_Err in E1|done].
  unfold go_make in *. destruct (_ && _); cbn [rbind] in *; [|done].
  destruct (Read _ a1 a0) as [b|e'|] eqn:ER; simplify_eq. by eapply Read_Err.
Qed.
End whole.

(** ** Refinement *)

(** The inputs of a refinement are byte strings that a machine can hold. *)
Record refine_input (HashData : list Z → Hash) (services : ServiceState) (p : Package) (w : Item)
    (out : option (list Z)) (imported : list Segment) : Prop := RefineInput {
  in_services : services_ok services;
  in_bytes : package_bytes p;
  in_payloads : Forall (λ w, len (payload_bytes w) ≤ 2 ^ 48) (WorkItems p);
  in_item : bytes_ok (payload_bytes w);
  in_size : ∀ b, Marshal_package p = Ok b →
    len b ≤ 2 ^ 48 ∧ ∀ a, Refine.arguments HashData p w b = Ok a → len a ≤ InputDataSize;
  in_output : ∀ b, out = Some b → buffer_ok b;
  in_imported : Forall bytes_ok imported;
}.

Lemma refine_input_fetch H services p w out imported :
  refine_input H services p w out imported → fetch_ok p out imported.
Proof.
  intros [Hs Hb Hp Hi Hsz Ho Hm]. split; [|done| |done].
  - intros b E. split; [by eapply package_out|by apply Hsz].
  - destruct Hb as [_ _ Hb]. apply Forall_forall. intros v Hv b Hpv.
    rewrite Forall_forall in Hp, Hb. specialize (Hp v Hv). specialize (Hb v Hv).
    unfold payload_bytes in *. rewrite Hpv in *. by split.
Qed.

(** Segments of the right size, no more than are left; none after an error. *)
Definition refined_ok (off : Z) (result : list Z) (segments : list Segment) (err : option pvm_error)
  : Prop :=
  Forall segment_ok segments ∧ len segments ≤ exports_left off ∧
  (err ≠ None → result = [] ∧ segments = []).

Definition refine_result (off : Z) (r : res unit Refine.refined) : Prop :=
  match r with
  | Ok (result, segments, err) => refined_ok off result segments err
  | Err _ => False
  | RuntimePanic => True
  end.

Lemma refined_nothing off err : refined_ok off [] [] err.
Proof. split_and!; [constructor|unfold exports_left, len; simpl; lia|done]. Qed.

Lemma refine_run_ends calls turns services w i p out imported off code args :
  services_ok services → fetch_ok p out imported → 0 ≤ off < 2 ^ 63 →
  bytes_ok code → bytes_ok args → len args ≤ InputDataSize →
  (Z.to_nat (int64 (GasLimitRefine w)) < calls)%nat →
  (Z.to_nat (int64 (GasLimitRefine w)) < turns)%nat →
  ∃ r, InvokeWholeProgram (Refine.refine_host services w i p out imported off) calls turns code 0
         (GasLimitRefine w) args (MkRefine (Some ∅) []) = Some r ∧
    match r with
    | Whole _ result x err => refined_ok off result (Segments x) err
    | WholeCrash => True
    end.
Proof.
  intros Hs Hf Ho Hcode Ha Hal Hc Ht.
  pose proof (refine_contract services w i p out imported off Hs Hf Ho).
  destruct (whole_ends _ (refine_inv off) calls turns code 0 (GasLimitRefine w) args (MkRefine (Some ∅) []))
    as (r & Hr & Hp); [by apply empty_context_inv; intros k u Hu; cbn in Hu; rewrite lookup_empty in Hu|done..|].
  exists r. split; [done|]. destruct r as [g res x' [e|]|]; [| |done].
  - destruct Hp as [-> ->]. apply refined_nothing.
  - destruct Hp as [_ H1 H2]. by split_and!.
Qed.


Lemma refine_host_no_error services w i p out imported off n gas rs m x :
  match Refine.refine_host services w i p out imported off n gas rs m x with
  | HostReturn _ _ _ _ e => e = None
  | HostCrash => True
  end.
Proof. unfold Refine.refine_host. by destruct (run _ _ _ _ _). Qed.

(** A refinement never fails because of its run: running out of gas, a panic,
    a page fault and every error of a host call leave no error behind.  An error is
    that of missing or oversized code, of the encoding, of a program that cannot be
    started, or of a result that cannot be read, and never [ErrOutOfGas]. *)
Theorem refine_errors HashData calls turns services i p out imported off result segments e :
  Refine.InvokePVM HashData calls turns services i p out imported off =
    Some (Ok (result, segments, Some e)) →
  e ≠ ErrOutOfGas ∧
  (e = ErrBad ∨ e = ErrBig ∨ (∃ j, e = ErrJam j) ∨ (∃ e', e = ErrPanicOf e') ∨ exit_reason e).
Proof.
  intros H. enough (e = ErrBad ∨ e = ErrBig ∨ (∃ j, e = ErrJam j) ∨ (∃ e', e = ErrPanicOf e') ∨
    exit_reason e) as Hd by (split; [by destruct Hd as [->|[->|[[? ->]|[[? ->]|?]]]]; [..|intros ->]|done]).
  revert H. unfold Refine.InvokePVM.
  destruct (go_index _ _) as [w|[]|]; [|done..].
  destruct (Marshal_package p) as [b|j|]; [|intros [= <- <- <-]; eauto|done].
  destruct (Refine.arguments HashData p w b); [..|done].
  all: destruct (services !! _) as [s|]; [|intros [= <- <- <-]; auto].
  all: destruct (LookupPreimage _ _ s) as [code|]; [|intros [= <- <- <-]; auto].
  all: destruct (_ <? _); [intros [= <- <- <-]; auto|].
  all: destruct (InvokeWholeProgram _ _ _ _ _ _ _ _) as [[g res x' [e'|]|]|] eqn:Hr; try done.
  all: apply whole_errors in Hr; [|apply refine_host_no_error].
  all: intros Heq; assert (e' = e) as -> by (destruct e'; by simplify_eq).
  all: do 3 right; destruct Hr as [Hp|]; [left|by right].
  all: unfold prepare in Hp; destruct (rbind _ _); simplify_eq/=; eauto.
Qed.

(** A package with one item, for a service that does not exist. *)
Definition demo_item : Item := MkItem 7 ZeroHash (Some [1; 2]) 30 40 [] [] 2.
Definition demo_context : RefinementContext :=
  MkContext (MkAnchor ZeroHash ZeroHash ZeroHash) (MkLookupAnchor ZeroHash 3) [].
Definition demo_package : Package := MkPackage [4] 7 ZeroHash [5] demo_context [demo_item].

Lemma refine_errors_witness :
  Refine.InvokePVM flat_hash 1 1 ∅ 0 demo_package None [] 0 = Some (Ok ([], [], Some ErrBad)) ∧
  ErrBad ≠ ErrOutOfGas.
Proof.
  assert (Refine.InvokePVM flat_hash 1 1 ∅ 0 demo_package None [] 0 =
    Some (Ok ([], [], Some ErrBad))) as H by (vm_compute; reflexivity).
  split; [exact H|]. apply (refine_errors flat_hash 1 1 ∅ 0 demo_package None [] 0 [] [] ErrBad H).
Defined.

(** A service whose code exports its arguments and returns their first byte. *)
Definition export_code : list Z := [100; 121; 10; 19; 100; 152; 0].
Definition export_blob : list Z :=
  let c := blob_of 1 [] export_code [85] in
  [0; 0; 0; 0; 0; 0; 0; 0; 0; 16; 0] ++ [len c + 11; 0; 0; 0] ++ c.
Definition export_services : ServiceState :=
  {[7 := MkAccount ∅ {[ZeroHash := export_blob]} {[(ZeroHash, len export_blob) := [0]]} ZeroHash 0 0 0]}.

Definition res_value {E A} (r : res E A) : option A := match r with Ok a => Some a | _ => None end.

#[export] Instance services_ok_dec s : Decision (services_ok s).
Proof. unfold services_ok. apply _. Defined.

Lemma demo_sizes b :
  Marshal_package demo_package = Ok b →
  len b ≤ 2 ^ 48 ∧ ∀ a, Refine.arguments flat_hash demo_package demo_item b = Ok a → len a ≤ InputDataSize.
Proof.
  intros Hb. assert (Marshal_package demo_package = Ok (default [] (res_value (Marshal_package demo_package))))
    as He by (vm_compute; reflexivity).
  rewrite He in Hb. injection Hb as <-. split; [vm_compute; congruence|]. intros a Ha.
  vm_compute in Ha. injection Ha as <-. vm_compute. congruence.
Qed.


(** A lookup of an unknown service throws the refinement's context away: the
    exported segments and the machines are lost, the run goes on, and the next
    [Machine] with valid code panics the process. *)
Theorem unknown_service_resets services w i p out imported off gas rs mem x gas' rs' mem' code d :
  length rs = 13%nat → HostCallCost ≤ gas < 2 ^ 63 →
  services !! (if reg_of rs A0 =? MaxUint64 then item_ServiceId w else uint32 (reg_of rs A0)) = None →
  length rs' = 13%nat → HostCallCost ≤ gas' < 2 ^ 63 →
  0 ≤ reg_of rs' A1 ≤ 2 ^ 48 → Read mem' (reg_of rs' A0) (reg_of rs' A1) = Ok code → Deblob code = Ok d →
  Refine.refine_host services w i p out imported off 17 gas rs mem x =
    HostReturn (gas - HostCallCost) rs mem (MkRefine None []) None ∧
  Refine.refine_host services w i p out imported off 20 gas' rs' mem' (MkRefine None []) = HostCrash.
Proof.
  intros Hl Hg Hs Hl' Hg' Hz Hp Hd. split.
  - unfold Refine.refine_host, Refine.refine_call, run, Ref.HistoricalLookup. host_exec. rewrite Hs.
    by host_exec.
  - unfold Refine.refine_host, Refine.refine_call, run, Ref.Machine. host_exec. rewrite Hd. by host_exec.
Qed.

Lemma unknown_service_resets_witness :
  Refine.refine_host ∅ demo_item 0 demo_package None [] 0 17 30 (args_regs 9 0 0 0 0 0) demo_ram
    (MkRefine (Some one_machine) [zeroSegment]) =
    HostReturn 20 (args_regs 9 0 0 0 0 0) demo_ram (MkRefine None []) None ∧
  Refine.refine_host ∅ demo_item 0 demo_package None [] 0 20 20 (code_regs 0) code_ram
    (MkRefine None []) = HostCrash.
Proof.
  destruct demo_deblob as [d Hd].
  apply (unknown_service_resets ∅ demo_item 0 demo_package None [] 0 30 (args_regs 9 0 0 0 0 0) demo_ram
    (MkRefine (Some one_machine) [zeroSegment]) 20 (code_regs 0) code_ram demo_blob d);
    try (vm_compute; reflexivity); try (split; vm_compute; congruence). exact Hd.
Defined.

(** ** Authorization *)

(** An authorization ends, within the gas that it is given. *)
Theorem authorization_terminates calls turns services p core :
  services_ok services → package_bytes p →
  (∀ args, Marshal Authorization.arguments_type (VSeq [package_value p; VNum core]) = Ok args →
     len args ≤ InputDataSize) →
  (Z.to_nat MaxAllocatedGasIsAuthorized < calls)%nat → (Z.to_nat MaxAllocatedGasIsAuthorized < turns)%nat →
  is_Some (Authorization.InvokePVM calls turns services p core).
Proof.
  intros Hs Hp Hl Hc Ht. unfold Authorization.InvokePVM.
  destruct (Marshal _ _) as [args|e|] eqn:Ha; [|done..]. specialize (Hl args eq_refl).
  assert (bytes_ok args) as Hargs.
  { revert Ha. unfold Marshal, Authorization.arguments_type. match goal with |- ?c = _ → _ =>
      enough (bytes_out c) as Ho by (by intros ?; apply Ho) end. encodes. }
  destruct (GetAuthorizationCode p services) as [pc|e|] eqn:Hpc; [|done..].
  assert (bytes_ok pc) as Hcode.
  { unfold GetAuthorizationCode in Hpc. destruct (services !! _) as [a|] eqn:E; [|done].
    destruct (LookupPreimage _ _ a) as [c|] eqn:Ec; simplify_eq. by eapply LookupPreimage_ok in Ec as []. }
  destruct (whole_ends Authorization.authorization_host (λ _, True) calls turns pc 0
    MaxAllocatedGasIsAuthorized args ()) as (r & -> & _); [done..|].
  by destruct r as [g res x' [e|]|].
Qed.
