(* ===== verification/ErasureCoding.v ===== *)
(** * Erasure coding

    [internal/erasurecoding/erasurecoding.go], the Go side of
    [reedsolomon/reedsolomon.go] and the C interface of the library behind it
    ([erasurecoding/src/lib.rs]).  The functions [encode] and [decode] of the crate
    [reed_solomon_simd] are parameters.  Shards are byte strings; an empty one is
    missing, nil or not.  The slices that Go passes over the C interface are never
    nil, so the null checks there are false. *)
From S2P Require Export Work.

Definition rs_error : Type := string.

(** [reed_solomon_simd::encode] and [decode]: shards with their indices, the
    restored ones in the order in which the map they are in is iterated. *)
Definition encode_fun : Type := Z → Z → list (list Z) → option (list (list Z)).
Definition decode_fun : Type :=
  Z → Z → list (Z * list Z) → list (Z * list Z) → option (list (Z * list Z)).

(** [slice.chunks(size)] of [n * size] bytes *)
Definition chunks_of (n size : Z) (flat : list Z) : list (list Z) :=
  reshape (replicate (Z.to_nat n) (Z.to_nat size)) flat.

(** ** The C interface *)

Definition MaxWorkPackageSize : Z := 12 * 2 ^ 20.
Definition MAX_SHARDS : Z := 65535.

(** The buffer [recovery_shards_out] after the call; [Err] is the result -1 and
    a panic the one of [copy_from_slice] on shards of another length. *)
Definition reed_solomon_encode (encode : encode_fun)
    (original_shards_count recovery_shards_count shard_size : Z) (original_shards : list Z)
    (recovery_shards_out_len : Z) : res rs_error (list Z) :=
  if MAX_SHARDS <? original_shards_count + recovery_shards_count then Err "-1"
  else if negb ((0 <? original_shards_count) && (0 <? recovery_shards_count))
    || negb ((0 <? shard_size) && (shard_size `mod` 2 =? 0))
    || negb (len original_shards `mod` shard_size =? 0)
    || negb (len original_shards / shard_size =? original_shards_count)
    || negb (recovery_shards_out_len =? recovery_shards_count * shard_size)
  then Err "-1"
  else
    match encode original_shards_count recovery_shards_count
            (chunks_of original_shards_count shard_size original_shards) with
    | None => Err "-1"
    | Some recovery =>
        if forallb (λ shard, len shard =? shard_size) recovery
           && (len recovery <=? recovery_shards_count)
        then Ok (go_copy (replicate (Z.to_nat recovery_shards_out_len) 0) (mjoin recovery))
        else RuntimePanic
    end.

(** The buffers for the recovered shards and for their indices. *)
Definition reed_solomon_decode (decode : decode_fun)
    (original_shards_count recovery_shards_count shard_size : Z)
    (original_shards : list Z) (original_shards_indexes : list Z)
    (recovery_shards : list Z) (recovery_shards_indexes : list Z)
    (recovered_shards_out_len : Z) : res rs_error (list Z * list Z) :=
  if MAX_SHARDS <? original_shards_count + recovery_shards_count then Err "-1"
  else if negb ((0 <? original_shards_count) && (0 <? recovery_shards_count))
    || negb ((0 <? shard_size) && (shard_size `mod` 2 =? 0))
    || negb (len original_shards `mod` shard_size =? 0)
    || negb (len recovery_shards `mod` shard_size =? 0)
    || negb (recovered_shards_out_len =?
             shard_size * (original_shards_count - len original_shards / shard_size))
  then Err "-1"
  else
    let original_inputs :=
      zip original_shards_indexes
        (chunks_of (len original_shards / shard_size) shard_size original_shards) in
    let recovery_inputs :=
      zip recovery_shards_indexes
        (chunks_of (len recovery_shards / shard_size) shard_size recovery_shards) in
    match decode original_shards_count recovery_shards_count original_inputs recovery_inputs with
    | None => Err "-1"
    | Some restored =>
        let missing := original_shards_count - len original_shards / shard_size in
        if forallb (λ s : Z * list Z, len s.2 =? shard_size) restored && (len restored <=? missing)
        then Ok (go_copy (replicate (Z.to_nat recovered_shards_out_len) 0) (mjoin (snd <$> restored)),
                 go_copy (replicate (Z.to_nat missing) 0) (fst <$> restored))
        else RuntimePanic
    end.

(** ** Reed-Solomon coding *)

Module Rs.
Definition MaxShards : Z := 65535.
Definition MaxShardSize : Z := 1024.
Definition MaxInt : Z := 2 ^ 63 - 1.

Record Encoder : Type := MkEncoder {
  originalShardsCount : Z;
  recoveryShardsCount : Z;
}.

Definition New (originalShardsCount recoveryShardsCount : Z) : res rs_error Encoder :=
  if MaxInt - originalShardsCount <? recoveryShardsCount then Err "shard count overflow"
  else if MaxShards <? originalShardsCount + recoveryShardsCount then Err "too many total shards"
  else Ok (MkEncoder originalShardsCount recoveryShardsCount).

Fixpoint ShardSize (shards : list (list Z)) : Z :=
  match shards with
  | [] => 0
  | shard :: shards => if len shard =? 0 then ShardSize shards else len shard
  end.

Definition ShardCount (shards : list (list Z)) : Z :=
  foldl (λ count shard, if len shard =? 0 then count else count + 1) 0 shards.

(** The full-sized shards, from index [i] on. *)
Fixpoint chunk_loop (data : list Z) (shardSize i : Z) (n : nat) : res rs_error (list (list Z)) :=
  match n with
  | O => Ok []
  | S n =>
      let start := i * shardSize in
      let! shard := go_slice data start (start + shardSize) in
      let! shards := chunk_loop data shardSize (i + 1) n in
      Ok (shard :: shards)
  end.

Definition Chunk (r : Encoder) (data : list Z) : res rs_error (list (list Z)) :=
  let k := originalShardsCount r in
  if MaxWorkPackageSize <? len data then Err "data length too long"
  else if len data <? k * 2 then Err "data length too short"
  else if k =? 0 then RuntimePanic
  else
    let shardSize := (len data + k - 1) / k in
    let! shards := chunk_loop data shardSize 0 (Z.to_nat (k - 1)) in
    let start := (k - 1) * shardSize in
    let! rest := go_slice_from data start in
    let padded := go_copy (replicate (Z.to_nat shardSize) 0) rest in
    Ok (shards ++ [padded] ++ replicate (Z.to_nat (recoveryShardsCount r)) []).

(** Collecting the shards of a slice that are there, with their indices. *)
Fixpoint collect (shardSize i : Z) (shards : list (list Z)) : res rs_error (list (Z * list Z)) :=
  match shards with
  | [] => Ok []
  | s :: shards =>
      if len s =? 0 then collect shardSize (i + 1) shards
      else if negb (len s =? shardSize) then Err "inconsistent shard size"
      else let! rest := collect shardSize (i + 1) shards in Ok ((i, s) :: rest)
  end.

(** All shards, flattened; a missing one has the wrong size. *)
Fixpoint flatten (shardSize : Z) (shards : list (list Z)) : res rs_error (list Z) :=
  match shards with
  | [] => Ok []
  | s :: shards =>
      if negb (len s =? shardSize) then Err "inconsistent shard size"
      else let! rest := flatten shardSize shards in Ok (s ++ rest)
  end.

Section library.
Context (encode : encode_fun) (decode : decode_fun).

Definition Encode (r : Encoder) (shards : list (list Z)) : res rs_error (list (list Z)) :=
  let k := originalShardsCount r in
  let m := recoveryShardsCount r in
  let! originals := go_slice shards 0 k in
  if negb (ShardCount originals =? k) then Err "too few original shards"
  else if negb (len shards =? k + m) then Err "not enough space for recovery shards"
  else
    let shardSize := ShardSize shards in
    if (shardSize =? 0) || (MaxShardSize <? shardSize) then Err "invalid shard size"
    else
      let! flatOriginalShards := flatten shardSize originals in
      match reed_solomon_encode encode k m shardSize flatOriginalShards (m * shardSize) with
      | Ok recoveryShardsOut => Ok (originals ++ chunks_of m shardSize recoveryShardsOut)
      | Err _ => Err "unable to encode data"
      | RuntimePanic => RuntimePanic
      end.

(** [shards[index] = restored shard], for every restored shard *)
Fixpoint put_shards (restored : list (Z * list Z)) (shards : list (list Z))
  : res rs_error (list (list Z)) :=
  match restored with
  | [] => Ok shards
  | (index, s) :: restored => let! shards := go_update shards index s in put_shards restored shards
  end.

(** The shards after the call, which fills in the missing original ones. *)
Definition Decode (r : Encoder) (shards : list (list Z)) : res rs_error (list (list Z)) :=
  let k := originalShardsCount r in
  let m := recoveryShardsCount r in
  if ShardCount shards <? k then Err "too few shards"
  else
    let shardSize := ShardSize shards in
    if (shardSize =? 0) || (MaxShardSize <? shardSize) then Err "invalid shard size"
    else
      let! originals := go_slice shards 0 k in
      let! os := collect shardSize 0 originals in
      let! recoveries := go_slice_from shards k in
      let! rs := collect shardSize 0 recoveries in
      let restoredShardsCount := k - ShardCount originals in
      match reed_solomon_decode decode k m shardSize (mjoin (snd <$> os)) (fst <$> os)
              (mjoin (snd <$> rs)) (fst <$> rs) (restoredShardsCount * shardSize) with
      | Ok (restoredShards, restoredShardsIndexes) =>
          put_shards (zip restoredShardsIndexes
                        (chunks_of restoredShardsCount shardSize restoredShards)) shards
      | Err _ => Err "unable to decode data"
      | RuntimePanic => RuntimePanic
      end.
End library.
End Rs.

(** ** Striping and coding *)

Module Erasure.
Definition OriginalShards : Z := 342.
Definition RecoveryShards : Z := NumberOfValidators - OriginalShards.
Definition ChunkShardSize : Z := ErasureCodingChunkSize / OriginalShards.

(** [for i, b := range data { result[i%k][i/k] = b }] *)
Fixpoint unzip_loop (k i : Z) (data : list Z) (result : list (list Z))
  : res rs_error (list (list Z)) :=
  match data with
  | [] => Ok result
  | b :: data =>
      let! row := go_index result (i `mod` k) in
      let! row := go_update row (i / k) b in
      let! result := go_update result (i `mod` k) row in
      unzip_loop k (i + 1) data result
  end.

(** [None] is nil. *)
Definition unzip (n : Z) (data : list Z) : res rs_error (option (list (list Z))) :=
  if n <=? 0 then Ok None
  else
    let k := (len data + n - 1) / n in
    let! result := unzip_loop k 0 data (replicate (Z.to_nat k) (replicate (Z.to_nat n) 0)) in
    Ok (Some result).

(** Positions [i] to [i + n - 1] of the result. *)
Fixpoint lace_loop (chunks : list (list Z)) (k i : Z) (n : nat) : res rs_error (list Z) :=
  match n with
  | O => Ok []
  | S n =>
      let! chunk := go_index chunks (i `mod` k) in
      let! b := go_index chunk (i / k) in
      let! rest := lace_loop chunks k (i + 1) n in
      Ok (b :: rest)
  end.

Definition lace (chunks : list (list Z)) (outSize : Z) : res rs_error (list Z) :=
  if len chunks =? 0 then Ok []
  else
    let k := len chunks in
    let! result := go_make 1 outSize 0 in
    lace_loop chunks k 0 (length result).

(** [copy(finalShards[j][start:start+ChunkShardSize], shards[j])], from index [j] on *)
Fixpoint copy_shards (start j : Z) (shards finalShards : list (list Z))
  : res rs_error (list (list Z)) :=
  match finalShards with
  | [] => Ok []
  | row :: rows =>
      let! piece := go_slice row start (start + ChunkShardSize) in
      let! shard := go_index shards j in
      let row := take (Z.to_nat start) row ++ go_copy piece shard
                 ++ drop (Z.to_nat (start + ChunkShardSize)) row in
      let! rows := copy_shards start (j + 1) shards rows in
      Ok (row :: rows)
  end.

Section library.
Context (encode : encode_fun) (decode : decode_fun).

Fixpoint encode_chunks (encoder : Rs.Encoder) (i : Z) (chunks finalShards : list (list Z))
  : res rs_error (list (list Z)) :=
  match chunks with
  | [] => Ok finalShards
  | c :: chunks =>
      let! shards := Rs.Chunk encoder c in
      let! shards := Rs.Encode encode encoder shards in
      let! finalShards := copy_shards (i * ChunkShardSize) 0 shards finalShards in
      encode_chunks encoder (i + 1) chunks finalShards
  end.

Definition Encode (data : list Z) : res rs_error (list (list Z)) :=
  if len data =? 0 then Err "data has length 0"
  else if MaxWorkPackageSize <? len data then Err "data length too long"
  else
    let! encoder := map_err (λ _, "error creating encoder") (Rs.New OriginalShards RecoveryShards) in
    let! chunks := unzip ErasureCodingChunkSize data in
    let chunks := default [] chunks in
    if len chunks =? 0 then Err "couldn't unzip data"
    else
      let finalShards := replicate (Z.to_nat (OriginalShards + RecoveryShards))
                           (replicate (Z.to_nat (len chunks * ChunkShardSize)) 0) in
      encode_chunks encoder 0 chunks finalShards.

(** The piece of each shard that belongs to chunk [j]; nil for a missing shard. *)
Fixpoint chunk_shards (j : Z) (shards : list (list Z)) : res rs_error (list (list Z)) :=
  match shards with
  | [] => Ok []
  | s :: shards =>
      let start := j * ChunkShardSize in
      let! piece := (if len s =? 0 then Ok [] else go_slice s start (start + ChunkShardSize)) in
      let! rest := chunk_shards j shards in
      Ok (piece :: rest)
  end.

(** The chunks from [j] on, [n] of them: their shards, decoded and joined.  The
    pieces of all chunks are cut before the first is decoded. *)
Fixpoint all_chunk_shards (shards : list (list Z)) (j : Z) (n : nat)
  : res rs_error (list (list (list Z))) :=
  match n with
  | O => Ok []
  | S n =>
      let! c := chunk_shards j shards in
      let! rest := all_chunk_shards shards (j + 1) n in
      Ok (c :: rest)
  end.

Fixpoint decode_chunks (encoder : Rs.Encoder) (chunkShards : list (list (list Z)))
  : res rs_error (list (list Z)) :=
  match chunkShards with
  | [] => Ok []
  | c :: chunkShards =>
      let! c := Rs.Decode decode encoder c in
      let! originals := go_slice c 0 OriginalShards in
      let! rest := decode_chunks encoder chunkShards in
      Ok (mjoin originals :: rest)
  end.

Definition Decode (shards : list (list Z)) (outSize : Z) : res rs_error (list Z) :=
  if Rs.ShardCount shards <? OriginalShards then Err "too few shards"
  else
    let shardSize := Rs.ShardSize shards in
    if negb (shardSize `mod` ChunkShardSize =? 0) then Err "invalid shard size"
    else if shardSize * OriginalShards <? outSize then Err "out size too long"
    else
      let! encoder := map_err (λ _, "error creating encoder") (Rs.New OriginalShards RecoveryShards) in
      let noChunks := shardSize / ChunkShardSize in
      let! chunkShards := all_chunk_shards shards 0 (Z.to_nat noChunks) in
      let! unzippedChunks := decode_chunks encoder chunkShards in
      lace unzippedChunks outSize.
End library.
End Erasure.
