(* ===== verification/ErasureTheorems.v ===== *)
(** * Erasure coding: theorems

    Striping as a matrix indexed by position, shards as blocks of a list, and what
    the functions of the library are expected to do; then the round trips. *)
From S2P Require Import ErasureCoding.

Lemma fmap_same {A B} (f : A → B) l y : (∀ x, x ∈ l → f x = y) → f <$> l = replicate (length l) y.
Proof.
  induction l as [|x l IH]; intros H; [done|]. simpl. rewrite H by left. f_equal. apply IH.
  intros z Hz. apply H. by right.
Qed.

(** ** Striping *)

(** The matrix with [k] rows and [n] columns whose entry in row [j] and column [c]
    is [f (c * k + j)]. *)
Definition row_of (k n : Z) (f : Z → Z) (j : Z) : list Z := (λ c, f (c * k + j)) <$> seqZ 0 n.
Definition rows_of (k n : Z) (f : Z → Z) : list (list Z) := row_of k n f <$> seqZ 0 k.

Lemma lookup_seqZ_0 n (j : nat) : Z.of_nat j < n → seqZ 0 n !! j = Some (Z.of_nat j).
Proof. intros Hj. apply lookup_seqZ. lia. Qed.

Lemma len_row_of k n f j : 0 ≤ n → len (row_of k n f j) = n.
Proof. intros. unfold len, row_of. rewrite length_fmap, length_seqZ. lia. Qed.
Lemma len_rows_of k n f : 0 ≤ k → len (rows_of k n f) = k.
Proof. intros. unfold len, rows_of. rewrite length_fmap, length_seqZ. lia. Qed.

Lemma rows_of_lookup k n f j : 0 ≤ j < k → rows_of k n f !! Z.to_nat j = Some (row_of k n f j).
Proof.
  intros Hj. unfold rows_of. rewrite list_lookup_fmap, lookup_seqZ_0 by lia. simpl. by rewrite Z2Nat.id by lia.
Qed.
Lemma row_of_lookup k n f j c : 0 ≤ c < n → row_of k n f j !! Z.to_nat c = Some (f (c * k + j)).
Proof.
  intros Hc. unfold row_of. rewrite list_lookup_fmap, lookup_seqZ_0 by lia. simpl. by rewrite Z2Nat.id by lia.
Qed.

Lemma rows_of_ext k n f g :
  0 ≤ k → 0 ≤ n → (∀ x, 0 ≤ x < k * n → f x = g x) → rows_of k n f = rows_of k n g.
Proof.
  intros Hk Hn H. unfold rows_of. apply list_fmap_ext. intros i j Hj. apply lookup_seqZ in Hj.
  unfold row_of. apply list_fmap_ext. intros i' c Hc. apply lookup_seqZ in Hc. apply H. nia.
Qed.

(** Writing an entry. *)
Lemma rows_of_insert k n f i b :
  0 < k → 0 ≤ i < k * n →
  <[Z.to_nat (i `mod` k) := <[Z.to_nat (i / k) := b]> (row_of k n f (i `mod` k))]> (rows_of k n f) =
  rows_of k n (λ x, if x =? i then b else f x).
Proof.
  intros Hk Hi. pose proof (Z.mod_pos_bound i k Hk). pose proof (Z.div_mod i k ltac:(lia)).
  assert (0 ≤ i / k < n) by nia.
  apply list_eq_same_length with (n := Z.to_nat k);
    [unfold rows_of; by rewrite ?length_insert, !length_fmap, length_seqZ..|].
  intros j x y Hj Hx Hy. rewrite list_lookup_insert_Some in Hx.
  replace j with (Z.to_nat (Z.of_nat j)) in Hy by lia. rewrite rows_of_lookup in Hy by lia. simplify_eq.
  apply list_eq_same_length with (n := Z.to_nat n); [unfold row_of; by rewrite length_fmap, length_seqZ| |].
  { destruct Hx as [(_ & <- & _)|[_ Hx]].
    - rewrite length_insert. unfold row_of. by rewrite length_fmap, length_seqZ.
    - replace j with (Z.to_nat (Z.of_nat j)) in Hx by lia. rewrite rows_of_lookup in Hx by lia.
      simplify_eq. unfold row_of. by rewrite length_fmap, length_seqZ. }
  intros c u v Hc Hu Hv. replace c with (Z.to_nat (Z.of_nat c)) in Hu, Hv by lia.
  rewrite row_of_lookup in Hv by lia. simplify_eq. destruct Hx as [(<- & <- & _)|[Hne Hx]].
  - rewrite Z2Nat.id by lia. destruct (decide (Z.of_nat c = i / k)) as [E|E].
    + rewrite E, list_lookup_insert_eq in Hu
        by (unfold row_of; rewrite length_fmap, length_seqZ; lia). simplify_eq.
      rewrite (proj2 (Z.eqb_eq _ _)) by lia. done.
    + rewrite list_lookup_insert_ne, row_of_lookup in Hu by lia. simplify_eq.
      rewrite (proj2 (Z.eqb_neq _ _)) by nia. done.
  - replace j with (Z.to_nat (Z.of_nat j)) in Hx by lia. rewrite rows_of_lookup in Hx by lia. simplify_eq.
    rewrite row_of_lookup in Hu by lia. simplify_eq. rewrite (proj2 (Z.eqb_neq _ _)); [done|].
    intros E. apply Hne. rewrite <- E, Z.add_comm, Z_mod_plus_full, Z.mod_small by lia. lia.
Qed.

(** Entry [x] of the data, zero behind its end. *)
Definition byte_at (data : list Z) (x : Z) : Z := default 0 (data !! Z.to_nat x).
Definition byte_before (data : list Z) (i x : Z) : Z := if x <? i then byte_at data x else 0.

Lemma unzip_loop_rows k n data i :
  0 < k → 0 ≤ i → len data ≤ k * n → i ≤ len data →
  Erasure.unzip_loop k i (drop (Z.to_nat i) data) (rows_of k n (byte_before data i)) =
  Ok (rows_of k n (byte_at data)).
Proof.
  intros Hk Hi Hd Hle. remember (Z.to_nat (len data - i)) as t eqn:Ht. revert i Hi Hle Ht.
  induction t as [|t IH]; intros i Hi Hle Ht.
  - rewrite drop_ge by (unfold len in *; lia). simpl. f_equal.
    destruct (Z.le_gt_cases 0 n); [|unfold rows_of, row_of, seqZ; apply list_fmap_ext; intros; simpl;
      by replace (Z.to_nat n) with 0%nat by lia].
    apply rows_of_ext; [lia|done|]. intros x Hx. unfold byte_before. destruct (Z.ltb_spec x i); [done|].
    unfold byte_at. by rewrite lookup_ge_None_2 by (unfold len in *; lia).
  - destruct (lookup_lt_is_Some_2 data (Z.to_nat i)) as [b Hb]; [unfold len in *; lia|].
    rewrite (drop_S _ _ _ Hb). simpl. pose proof (Z.mod_pos_bound i k Hk).
    pose proof (Z.div_mod i k ltac:(lia)). assert (0 ≤ i / k < n) by nia.
    rewrite (go_index_lookup _ _ (row_of k n (byte_before data i) (i `mod` k)))
      by (lia || apply rows_of_lookup; lia). cbn [rbind].
    rewrite go_update_ok by (rewrite len_row_of; lia). cbn [rbind].
    rewrite go_update_ok by (rewrite len_rows_of; lia). cbn [rbind].
    rewrite rows_of_insert by lia. replace (S (Z.to_nat i)) with (Z.to_nat (i + 1)) by lia.
    rewrite <- (IH (i + 1)) by lia. f_equal. apply rows_of_ext; [lia..|]. intros x Hx.
    unfold byte_before, byte_at. destruct (Z.eqb_spec x i) as [->|].
    + rewrite (proj2 (Z.ltb_lt _ _)) by lia. by rewrite Hb.
    + destruct (Z.ltb_spec x i), (Z.ltb_spec x (i + 1)); try done; lia.
Qed.

(** The number of rows. *)
Definition stripes (n : Z) (data : list Z) : Z := (len data + n - 1) / n.

Lemma stripes_bounds n data : 0 < n → 0 < len data →
  0 < stripes n data ∧ len data ≤ stripes n data * n < len data + n.
Proof.
  intros Hn Hd. unfold stripes. pose proof (Z.div_mod (len data + n - 1) n ltac:(lia)).
  pose proof (Z.mod_pos_bound (len data + n - 1) n ltac:(lia)). nia.
Qed.

Lemma unzip_rows n data : 0 < n → 0 < len data →
  Erasure.unzip n data = Ok (Some (rows_of (stripes n data) n (byte_at data))).
Proof.
  intros Hn Hd. destruct (stripes_bounds n data Hn Hd) as (Hk & H1 & _). unfold Erasure.unzip.
  rewrite (proj2 (Z.leb_gt _ _)) by lia. cbv zeta. fold (stripes n data).
  pose proof (unzip_loop_rows (stripes n data) n data 0) as H. rewrite drop_0 in H.
  replace (replicate (Z.to_nat (stripes n data)) (replicate (Z.to_nat n) 0))
    with (rows_of (stripes n data) n (byte_before data 0)).
  { by rewrite H by lia. }
  unfold rows_of. rewrite (fmap_same _ _ (replicate (Z.to_nat n) 0)); [by rewrite length_seqZ|].
  intros j Hj. apply elem_of_seqZ in Hj. unfold row_of. rewrite (fmap_same _ _ 0); [by rewrite length_seqZ|].
  intros c Hc. apply elem_of_seqZ in Hc. unfold byte_before. by rewrite (proj2 (Z.ltb_ge _ _)) by nia.
Qed.

Lemma lace_loop_rows k n f i t :
  0 < k → 0 ≤ i → i + Z.of_nat t ≤ k * n →
  Erasure.lace_loop (rows_of k n f) k i t = Ok (f <$> seqZ i (Z.of_nat t)).
Proof.
  intros Hk. revert i. induction t as [|t IH]; intros i Hi Hle; [done|]. simpl.
  pose proof (Z.mod_pos_bound i k Hk). pose proof (Z.div_mod i k ltac:(lia)). assert (0 ≤ i / k < n) by nia.
  rewrite (go_index_lookup _ _ (row_of k n f (i `mod` k))) by (lia || apply rows_of_lookup; lia).
  cbn [rbind]. rewrite (go_index_lookup _ _ (f (i / k * k + i `mod` k)))
    by (lia || apply row_of_lookup; lia). cbn [rbind]. rewrite IH by lia. cbn [rbind].
  rewrite (seqZ_cons i) by lia. cbn [fmap list_fmap]. repeat f_equal; lia.
Qed.

Lemma byte_at_all data : byte_at data <$> seqZ 0 (len data) = data.
Proof.
  apply list_eq. intros i. rewrite list_lookup_fmap. destruct (decide (i < length data)%nat) as [Hi|Hi].
  - rewrite lookup_seqZ_0 by (unfold len; lia). simpl. unfold byte_at. rewrite Nat2Z.id.
    by destruct (lookup_lt_is_Some_2 data i Hi) as [b ->].
  - rewrite (lookup_ge_None_2 data) by lia. rewrite lookup_seqZ_ge by (unfold len; lia). done.
Qed.

(** The chunks of data put back together. *)
Lemma lace_rows n data : 0 < n → 0 < len data ≤ maxAlloc →
  Erasure.lace (rows_of (stripes n data) n (byte_at data)) (len data) = Ok data.
Proof.
  intros Hn Hd. destruct (stripes_bounds n data Hn ltac:(lia)) as (Hk & H1 & _). unfold Erasure.lace.
  rewrite len_rows_of by lia. rewrite (proj2 (Z.eqb_neq _ _)) by lia.
  rewrite go_make_small by lia. cbn [rbind]. rewrite length_replicate, lace_loop_rows by lia.
  rewrite Z2Nat.id by lia. by rewrite byte_at_all.
Qed.

(** ** Blocks *)

Definition blocks (size : nat) (l : list (list Z)) : Prop := Forall (λ s, length s = size) l.

Lemma reshape_blocks n size (l : list Z) :
  length l = (n * size)%nat → blocks size (reshape (replicate n size) l).
Proof.
  revert l. induction n as [|n IH]; intros l Hl; simpl; constructor.
  - rewrite length_take. lia.
  - apply IH. rewrite length_drop. lia.
Qed.

Lemma reshape_mjoin size (l : list (list Z)) :
  blocks size l → reshape (replicate (length l) size) (mjoin l) = l.
Proof.
  induction 1 as [|s l Hs _ IH]; [done|]. simpl. by rewrite take_app_length', drop_app_length', IH.
Qed.

Lemma mjoin_length size (l : list (list Z)) : blocks size l → length (mjoin l) = (length l * size)%nat.
Proof. induction 1 as [|s l Hs _ IH]; [done|]. simpl. rewrite length_app, Hs, IH. lia. Qed.

Lemma len_mjoin size l : blocks (Z.to_nat size) l → 0 ≤ size → len (mjoin l) = len l * size.
Proof. intros Hb Hs. unfold len. rewrite (mjoin_length _ _ Hb). lia. Qed.

Lemma chunks_of_mjoin n size l :
  len l = n → blocks (Z.to_nat size) l → chunks_of n size (mjoin l) = l.
Proof. intros <- Hb. unfold chunks_of, len. rewrite Nat2Z.id. by apply reshape_mjoin. Qed.

Lemma go_copy_exact {A} (dst src : list A) : length src = length dst → go_copy dst src = src.
Proof.
  intros H. unfold go_copy. rewrite take_ge, drop_ge by lia. apply app_nil_r.
Qed.

(** A buffer of [n] blocks, filled with [n] blocks. *)
Lemma go_copy_blocks n size l :
  len l = n → 0 ≤ size → blocks (Z.to_nat size) l →
  go_copy (replicate (Z.to_nat (n * size)) 0) (mjoin l) = mjoin l.
Proof.
  intros <- Hs Hb. apply go_copy_exact. rewrite length_replicate, (mjoin_length _ _ Hb). unfold len. lia.
Qed.

Lemma chunk_loop_blocks data (size : nat) i n :
  0 ≤ i → (i + Z.of_nat n) * Z.of_nat size ≤ len data →
  Rs.chunk_loop data (Z.of_nat size) i n =
  Ok (reshape (replicate n size) (drop (Z.to_nat i * size) data)).
Proof.
  revert i. induction n as [|n IH]; intros i Hi Hle; [done|]. simpl. unfold len in *.
  rewrite go_slice_ok by (unfold len; nia). cbn [rbind]. rewrite IH by lia. cbn [rbind]. do 2 f_equal.
  - f_equal; [lia|]. f_equal. nia.
  - rewrite drop_drop. do 2 f_equal. nia.
Qed.

Lemma reshape_snoc n size (l : list Z) :
  reshape (replicate (S n) size) l =
  reshape (replicate n size) l ++ [take size (drop (n * size) l)].
Proof.
  revert l. induction n as [|n IH]; intros l; [done|].
  change (reshape (replicate (S (S n)) size) l)
    with (take size l :: reshape (replicate (S n) size) (drop size l)).
  rewrite IH. simpl. by rewrite drop_drop.
Qed.

(** [Chunk] on data that fills its shards. *)
Lemma Chunk_blocks k m (size : nat) data :
  0 < k → 0 ≤ m → (2 ≤ size)%nat → len data = k * Z.of_nat size → len data ≤ MaxWorkPackageSize →
  Rs.Chunk (Rs.MkEncoder k m) data =
  Ok (chunks_of k (Z.of_nat size) data ++ replicate (Z.to_nat m) []).
Proof.
  intros Hk Hm Hs Hd Hmax. unfold Rs.Chunk. simpl.
  rewrite (proj2 (Z.ltb_ge _ _)) by lia. rewrite (proj2 (Z.ltb_ge _ _)) by nia.
  rewrite (proj2 (Z.eqb_neq _ _)) by lia. cbv zeta.
  replace ((len data + k - 1) / k) with (Z.of_nat size)
    by (apply Z.div_unique with (k - 1); [lia|rewrite Hd; lia]).
  rewrite chunk_loop_blocks by nia. cbn [rbind]. unfold go_slice_from.
  rewrite go_slice_ok by nia. cbn [rbind]. rewrite drop_0. f_equal.
  rewrite cons_middle, app_assoc. f_equal. unfold chunks_of. rewrite Nat2Z.id.
  replace (Z.to_nat k) with (S (Z.to_nat (k - 1))) by lia. rewrite reshape_snoc. do 2 f_equal.
  replace (Z.to_nat ((k - 1) * Z.of_nat size)) with (Z.to_nat (k - 1) * size)%nat by nia.
  unfold len in *. set (rest := drop _ data).
  assert (length rest = size) as Hr by (subst rest; rewrite length_drop; nia).
  rewrite !take_ge by nia. apply go_copy_exact. by rewrite length_replicate.
Qed.

#[global] Arguments chunks_of : simpl never.

(** ** Coding *)

(** The number of shards that are there. *)
Definition full (l : list (list Z)) : list (list Z) := filter (λ s, s ≠ []) l.

Lemma len_zero {A} (s : list A) : (len s =? 0) = bool_decide (s = []).
Proof. by destruct s. Qed.

Lemma ShardCount_full l : Rs.ShardCount l = len (full l).
Proof.
  unfold Rs.ShardCount, len. enough (∀ c, foldl (λ count shard, if len shard =? 0 then count else count + 1) c l
    = c + Z.of_nat (length (full l))) as H by (by rewrite H).
  unfold full. induction l as [|s l IH]; intros c; [simpl; lia|]. cbn [foldl].
  rewrite IH, len_zero. destruct s as [|b s].
  - by rewrite filter_cons_False by (by intros []).
  - rewrite filter_cons_True by done. cbn. lia.
Qed.

Lemma full_app l l' : full (l ++ l') = full l ++ full l'.
Proof. apply filter_app. Qed.
Lemma full_blocks size l : (0 < size)%nat → blocks size l → full l = l.
Proof.
  intros Hs Hb. induction Hb as [|s l Hl _ IH]; [done|]. unfold full in *.
  rewrite filter_cons_True by (by intros ->; simpl in Hl; lia). by rewrite IH.
Qed.

Lemma ShardSize_first l s : s ∈ full l → ∃ s', s' ∈ full l ∧ Rs.ShardSize l = len s'.
Proof.
  unfold full. induction l as [|x l IH]; [by intros ?%elem_of_nil|]. cbn [Rs.ShardSize].
  rewrite len_zero. destruct x as [|b x].
  - rewrite filter_cons_False by (by intros []). apply IH.
  - rewrite filter_cons_True by done. intros _. eexists. split; [by left|done].
Qed.

Lemma ShardSize_blocks size l : full l ≠ [] → blocks size (full l) → Rs.ShardSize l = Z.of_nat size.
Proof.
  intros Hne Hb. destruct (full l) as [|s fl] eqn:E; [done|].
  destruct (ShardSize_first l s) as (s' & Hs' & ->); [rewrite E; by left|].
  rewrite E in Hs'. unfold len. f_equal. by eapply (proj1 (Forall_forall _ _)) in Hs'; [|exact Hb].
Qed.

Lemma flatten_blocks size l : blocks size l → Rs.flatten (Z.of_nat size) l = Ok (mjoin l).
Proof.
  induction 1 as [|s l Hs _ IH]; [done|]. simpl. unfold len. rewrite Hs, Z.eqb_refl. cbn [negb].
  by rewrite IH.
Qed.

(** What the library needs of its arguments. *)
Record params_ok (k m : Z) (size : nat) : Prop := ParamsOk {
  po_k : 0 < k; po_m : 0 < m; po_km : k + m ≤ 65535;
  po_size : (0 < size ≤ 1024)%nat; po_even : Z.of_nat size `mod` 2 = 0;
}.

(** The guard of both functions of the C interface. *)
Lemma guard_ok k m size : params_ok k m size →
  (MAX_SHARDS <? k + m) = false ∧ (0 <? k) && (0 <? m) = true ∧
  (0 <? Z.of_nat size) && (Z.of_nat size `mod` 2 =? 0) = true ∧
  (Z.of_nat size =? 0) || (Rs.MaxShardSize <? Z.of_nat size) = false.
Proof.
  intros [Hk Hm Hkm Hs He]. unfold MAX_SHARDS, Rs.MaxShardSize. rewrite (proj2 (Z.ltb_ge _ _)) by lia.
  rewrite He, (proj2 (Z.ltb_lt 0 k)), (proj2 (Z.ltb_lt 0 m)), (proj2 (Z.ltb_lt 0 (Z.of_nat size))),
    (proj2 (Z.eqb_neq (Z.of_nat size) 0)), (proj2 (Z.ltb_ge 1024 _)) by lia. done.
Qed.

Lemma blocks_forallb size l : blocks size l → forallb (λ s, len s =? Z.of_nat size) l = true.
Proof.
  induction 1 as [|s l Hs _ IH]; [done|]. simpl. rewrite IH. unfold len. by rewrite Hs, Z.eqb_refl.
Qed.

Lemma full_missing n : full (replicate n []) = [].
Proof. apply filter_none, Forall_replicate. by intros []. Qed.

Lemma Rs_Encode_blocks encode k m size originals recovery :
  params_ok k m size → len originals = k → blocks size originals →
  encode k m originals = Some recovery → len recovery = m → blocks size recovery →
  Rs.Encode encode (Rs.MkEncoder k m) (originals ++ replicate (Z.to_nat m) []) =
  Ok (originals ++ recovery).
Proof.
  intros Hp Hk Hb He Hm Hbr. destruct (guard_ok _ _ _ Hp) as (G1 & G2 & G3 & G4). destruct Hp.
  unfold Rs.Encode. cbn [Rs.originalShardsCount Rs.recoveryShardsCount]. cbv zeta.
  rewrite go_slice_ok by (rewrite ?len_app, ?len_replicate; lia). cbn [rbind].
  rewrite drop_0, take_app_length' by (unfold len in Hk; lia).
  assert (full (originals ++ replicate (Z.to_nat m) []) = originals) as Hf.
  { by rewrite full_app, (full_blocks size), full_missing, app_nil_r by (done || lia). }
  rewrite ShardCount_full, (full_blocks size), Hk, Z.eqb_refl by (done || lia). cbn [negb].
  rewrite len_app, len_replicate, Hk, Z2Nat.id, Z.eqb_refl by lia. cbn [negb].
  rewrite (ShardSize_blocks size); rewrite ?Hf; [|by intros ->; unfold len in Hk; simpl in Hk; lia|done].
  rewrite G4, flatten_blocks by done. cbn [rbind]. unfold reed_solomon_encode.
  rewrite G1, G2, G3. pose proof (blocks_forallb _ _ Hbr) as Hall.
  rewrite <- (Nat2Z.id size) in Hb, Hbr.
  rewrite (len_mjoin _ _ Hb), Hk, Z_mod_mult, Z_div_mult by lia. rewrite !Z.eqb_refl. cbn [negb orb].
  rewrite chunks_of_mjoin, He by done. rewrite Hall, (proj2 (Z.leb_le _ _)) by lia. cbn [andb].
  rewrite go_copy_blocks, chunks_of_mjoin by (done || lia). done.
Qed.

(** *** The library *)

(** [encode] of the library, with [k] shards of the given size, returns the [m]
    recovery shards asked for, of the size of the originals.  It is assumed at the
    parameters the program uses. *)
Class RsEncodes (encode : encode_fun) (k m : Z) (size : nat) : Prop :=
  rs_encodes originals :
    len originals = k → blocks size originals →
    ∃ recovery, encode k m originals = Some recovery ∧ len recovery = m ∧ blocks size recovery.

(** The shards of a list that a mask selects or not, with their indices. *)
Fixpoint select_shards (keep : bool) (i : Z) (mask : list bool) (shards : list (list Z))
  : list (Z * list Z) :=
  match mask, shards with
  | b :: mask, s :: shards =>
      let rest := select_shards keep (i + 1) mask shards in
      if Bool.eqb b keep then (i, s) :: rest else rest
  | _, _ => []
  end.

(** [decode] of the library restores, from the original and recovery shards that
    the masks select, the original shards that are missing, in some order. *)
Class RsRestores (encode : encode_fun) (decode : decode_fun) (k m : Z) (masko maskr : list bool) : Prop :=
  rs_restores size originals recovery :
    params_ok k m size → len originals = k → blocks size originals →
    encode k m originals = Some recovery →
    ∃ restored,
      decode k m (select_shards true 0 masko originals) (select_shards true 0 maskr recovery)
        = Some restored ∧
      restored ≡ₚ select_shards false 0 masko originals.

(** ** Encoding *)

Lemma copy_shards_rows start j shards rows :
  0 ≤ start → 0 ≤ j → length (drop (Z.to_nat j) shards) = length rows → blocks 2 (drop (Z.to_nat j) shards) →
  Forall (λ row, start + 2 ≤ len row) rows →
  Erasure.copy_shards start j shards rows =
  Ok (zip_with (λ row s, take (Z.to_nat start) row ++ s ++ drop (Z.to_nat (start + 2)) row) rows
        (drop (Z.to_nat j) shards)).
Proof.
  intros Hs Hj Hl Hb Hr. revert j Hj Hl Hb. induction Hr as [|row rows Hrow Hr IH]; intros j Hj Hl Hb.
  { by destruct (drop _ shards). }
  simpl. change Erasure.ChunkShardSize with 2. rewrite go_slice_ok by lia. cbn [rbind].
  destruct (drop (Z.to_nat j) shards) as [|s rest] eqn:Hd; [done|].
  assert (shards !! Z.to_nat j = Some s) as Hsh.
  { rewrite <- (Nat.add_0_r (Z.to_nat j)), <- lookup_drop, Hd. done. }
  rewrite (go_index_lookup _ _ s) by (lia || done). cbn [rbind].
  assert (drop (Z.to_nat (j + 1)) shards = rest) as Hrest.
  { rewrite (drop_S _ _ _ Hsh) in Hd. simplify_eq. f_equal. lia. }
  inversion Hb as [|? ? Hs2 Hb']; subst. rewrite IH; rewrite ?Hrest; [|lia|by simplify_eq/=|done].
  cbn [rbind zip_with]. do 2 f_equal. f_equal. f_equal. apply go_copy_exact.
  rewrite length_take, length_drop, Hs2. unfold len in Hrow. lia.
Qed.

Section encoding.
Context (encode : encode_fun) `{!RsEncodes encode 342 681 2}.

(** The 1023 shards of a chunk. *)
Definition codeword (c : list Z) : list (list Z) :=
  let originals := chunks_of 342 2 c in originals ++ default [] (encode 342 681 originals).

Record word_ok (w : list (list Z)) : Prop := WordOk { wo_len : length w = 1023%nat; wo_blocks : blocks 2 w }.

Lemma params_jam : params_ok 342 681 2.
Proof. split; [lia..|done]. Qed.

Lemma originals_ok c : len c = 684 →
  len (chunks_of 342 2 c) = 342 ∧ blocks 2 (chunks_of 342 2 c).
Proof.
  intros Hc. unfold len in *. split; [unfold chunks_of; by rewrite length_reshape, length_replicate|].
  apply reshape_blocks. lia.
Qed.

Lemma codeword_eq c : len c = 684 →
  ∃ recovery, encode 342 681 (chunks_of 342 2 c) = Some recovery ∧ len recovery = 681 ∧ blocks 2 recovery ∧
    codeword c = chunks_of 342 2 c ++ recovery ∧ word_ok (codeword c).
Proof using Type*.
  intros Hc. destruct (originals_ok c Hc) as [Hl Hb].
  destruct (rs_encodes _ Hl Hb) as (r & Hr & Hlr & Hbr). exists r.
  unfold codeword. rewrite Hr. cbn [from_option id]. split_and!; try done. split.
  - rewrite length_app. unfold len in *. lia.
  - by apply Forall_app.
Qed.

Lemma encode_chunk c : len c = 684 →
  ∃ shards, Rs.Chunk (Rs.MkEncoder 342 681) c = Ok shards ∧
    Rs.Encode encode (Rs.MkEncoder 342 681) shards = Ok (codeword c).
Proof using Type*.
  intros Hc. destruct (codeword_eq c Hc) as (r & Hr & Hlr & Hbr & -> & _).
  destruct (originals_ok c Hc) as [Hl Hb]. eexists. split.
  - apply (Chunk_blocks 342 681 2); [lia..|unfold MaxWorkPackageSize; lia].
  - apply (Rs_Encode_blocks encode 342 681 2); [apply params_jam|done..].
Qed.

(** Shard [j] of the whole data: its pieces of all codewords. *)
Definition stripe (ws : list (list (list Z))) (j : nat) : list Z :=
  mjoin ((λ w, default [] (w !! j)) <$> ws).

Lemma stripe_length ws j : Forall word_ok ws → (j < 1023)%nat → length (stripe ws j) = (2 * length ws)%nat.
Proof using Type.
  intros Hw Hj. unfold stripe. rewrite (mjoin_length 2); [rewrite length_fmap; lia|].
  apply Forall_fmap. eapply Forall_impl; [exact Hw|]. intros w [Hl Hb]. simpl.
  destruct (lookup_lt_is_Some_2 w j) as [s Hs]; [lia|]. rewrite Hs. exact (Forall_lookup_1 _ _ _ _ Hb Hs).
Qed.

(** One more codeword is written into the rows. *)
Lemma add_word ws w n i :
  Forall word_ok ws → word_ok w → i = 2 * Z.of_nat (length ws) →
  zip_with (λ row s, take (Z.to_nat i) row ++ s ++ drop (Z.to_nat (i + 2)) row)
    ((λ j, stripe ws j ++ replicate (2 * S n) 0) <$> seq 0 1023) w =
  (λ j, stripe (ws ++ [w]) j ++ replicate (2 * n) 0) <$> seq 0 1023.
Proof using Type.
  intros Hw [Hl Hb] ->. apply list_eq. intros j. rewrite lookup_zip_with, !list_lookup_fmap.
  destruct (decide (j < 1023)%nat) as [Hj|Hj].
  2:{ by rewrite (lookup_ge_None_2 (seq 0 1023)) by (rewrite length_seq; lia). }
  rewrite lookup_seq_lt by done. destruct (lookup_lt_is_Some_2 w j) as [s Hs]; [lia|]. rewrite Hs.
  cbn [fmap option_fmap option_map mbind option_bind]. f_equal. rewrite Nat.add_0_l.
  pose proof (stripe_length ws j Hw Hj) as Hsl.
  rewrite take_app_length' by lia.
  replace (Z.to_nat (2 * Z.of_nat (length ws) + 2)) with (length (stripe ws j) + 2)%nat by lia.
  rewrite drop_app_add, drop_replicate. unfold stripe. rewrite fmap_app, join_app. cbn [fmap list_fmap mjoin list_join].
  rewrite Hs. cbn [from_option id]. rewrite app_nil_r, <- app_assoc. do 2 f_equal. f_equal. lia.
Qed.

Lemma encode_chunks_rows ws chunks i :
  Forall word_ok ws → len ws = i → Forall (λ c, len c = 684) chunks →
  Erasure.encode_chunks encode (Rs.MkEncoder 342 681) i chunks
    ((λ j, stripe ws j ++ replicate (2 * length chunks) 0) <$> seq 0 1023) =
  Ok (stripe (ws ++ (codeword <$> chunks)) <$> seq 0 1023).
Proof using Type*.
  intros Hw Hi Hc. revert ws i Hw Hi. induction Hc as [|c chunks Hc _ IH]; intros ws i Hw Hi.
  { cbn [Erasure.encode_chunks]. rewrite app_nil_r. f_equal. apply list_fmap_ext. intros.
    simpl. apply app_nil_r. }
  cbn [Erasure.encode_chunks]. destruct (encode_chunk c Hc) as (shards & -> & He). cbn [rbind].
  rewrite He. cbn [rbind]. destruct (codeword_eq c Hc) as (_ & _ & _ & _ & _ & [Hl Hb]).
  change Erasure.ChunkShardSize with 2. pose proof (len_nonneg ws).
  rewrite copy_shards_rows; rewrite ?drop_0; [|lia|lia|by rewrite length_fmap, length_seq|done|].
  2:{ apply Forall_fmap, Forall_forall. intros j Hj. apply elem_of_seq in Hj. unfold compose.
      rewrite len_app, len_replicate. unfold len in *. rewrite stripe_length by (done || lia).
      cbn [length]. lia. }
  cbn [rbind fmap list_fmap]. fold (codeword <$> chunks). rewrite (cons_middle (codeword c)), app_assoc.
  rewrite <- (IH (ws ++ [codeword c]) (i + 1)).
  - f_equal. apply (add_word ws (codeword c) (length chunks)); [done|by split|unfold len in Hi; lia].
  - apply Forall_app. split; [done|]. constructor; [by split|constructor].
  - rewrite len_app. change (len [_]) with 1. lia.
Qed.
End encoding.

(** The chunks of data. *)
Definition chunks_of_data (data : list Z) : list (list Z) :=
  rows_of (stripes ErasureCodingChunkSize data) ErasureCodingChunkSize (byte_at data).

Lemma chunks_of_data_ok data : 0 < len data →
  Forall (λ c, len c = 684) (chunks_of_data data) ∧
  len (chunks_of_data data) = stripes ErasureCodingChunkSize data ∧ 0 < len (chunks_of_data data).
Proof.
  intros Hd. destruct (stripes_bounds ErasureCodingChunkSize data ltac:(done) Hd) as (Hk & _).
  unfold chunks_of_data. rewrite len_rows_of by lia. split_and!; [|done|done].
  apply Forall_fmap, Forall_true. intros j. by apply len_row_of.
Qed.

Lemma Encode_rows encode `{!RsEncodes encode 342 681 2} data :
  0 < len data ≤ MaxWorkPackageSize →
  Erasure.Encode encode data = Ok (stripe (codeword encode <$> chunks_of_data data) <$> seq 0 1023).
Proof.
  intros Hd. destruct (chunks_of_data_ok data ltac:(lia)) as (Hc & Hl & Hpos). unfold Erasure.Encode.
  rewrite (proj2 (Z.eqb_neq _ _)), (proj2 (Z.ltb_ge _ _)) by lia.
  change (map_err _ _) with (Ok (E := rs_error) (Rs.MkEncoder 342 681)). cbn [rbind].
  rewrite unzip_rows by (done || lia). cbn [rbind]. fold (chunks_of_data data). cbn [from_option id].
  rewrite (proj2 (Z.eqb_neq _ _)) by lia. cbv zeta.
  etransitivity; [|by apply (encode_chunks_rows encode [] (chunks_of_data data) 0)].
  f_equal. change (Z.to_nat (Erasure.OriginalShards + Erasure.RecoveryShards)) with 1023%nat.
  change Erasure.ChunkShardSize with 2. rewrite (fmap_same _ _ (replicate (2 * length (chunks_of_data data)) 0)).
  - rewrite length_seq. do 2 f_equal. unfold len. lia.
  - done.
Qed.

(** ** Losing shards *)

Definition masked (mask : list bool) (shards : list (list Z)) : list (list Z) :=
  zip_with (λ (b : bool) s, if b then s else []) mask shards.
Definition count_true (mask : list bool) : Z := len (filter (λ b, b = true) mask).

Lemma length_masked mask shards : length mask = length shards → length (masked mask shards) = length shards.
Proof. intros H. unfold masked. rewrite length_zip_with. lia. Qed.

Lemma masked_app m1 m2 l1 l2 : length m1 = length l1 → masked (m1 ++ m2) (l1 ++ l2) = masked m1 l1 ++ masked m2 l2.
Proof. intros H. unfold masked. by apply zip_with_app. Qed.

Lemma select_cons keep i b mask s l :
  select_shards keep i (b :: mask) (s :: l) =
  (if Bool.eqb b keep then [(i, s)] else []) ++ select_shards keep (i + 1) mask l.
Proof. simpl. by destruct (Bool.eqb b keep). Qed.

Section losing.
Context (size : nat) (Hsize : (0 < size)%nat).

Lemma full_masked i mask l :
  blocks size l → length mask = length l → full (masked mask l) = snd <$> select_shards true i mask l.
Proof using Hsize.
  intros Hb. revert i mask. induction Hb as [|s l Hs _ IH]; intros i [|b mask] Hl; try done; injection Hl as Hl.
  unfold full, masked in *. rewrite select_cons. cbn [zip_with]. destruct b; cbn [Bool.eqb app].
  - rewrite filter_cons_True by (by intros ->; simpl in Hs; lia). cbn [fmap list_fmap snd]. f_equal. by apply IH.
  - rewrite filter_cons_False by (by intros []). by apply IH.
Qed.

Lemma collect_masked i mask l :
  blocks size l → length mask = length l →
  Rs.collect (Z.of_nat size) i (masked mask l) = Ok (select_shards true i mask l).
Proof using Hsize.
  intros Hb. revert i mask. induction Hb as [|s l Hs _ IH]; intros i [|b mask] Hl; try done; injection Hl as Hl.
  unfold masked in *. destruct b; cbn.
  - rewrite len_zero, bool_decide_false by (by intros ->; simpl in Hs; lia). unfold len. rewrite Hs, Z.eqb_refl.
    cbn [negb]. by rewrite IH.
  - by apply IH.
Qed.

End losing.

Lemma select_blocks size keep i mask l : blocks size l → blocks size (snd <$> select_shards keep i mask l).
Proof.
  intros Hb. revert i mask. induction Hb as [|s l Hs _ IH]; intros i [|b mask]; [constructor..|].
  rewrite select_cons, fmap_app. apply Forall_app. split; [|apply IH].
  destruct (Bool.eqb b keep); [|constructor]. constructor; [done|constructor].
Qed.

Lemma select_counts i mask (l : list (list Z)) :
  length mask = length l →
  len (select_shards true i mask l) = count_true mask ∧
  len (select_shards true i mask l) + len (select_shards false i mask l) = len l.
Proof.
  unfold count_true. revert i l. induction mask as [|b mask IH]; intros i [|s l] Hl; simplify_eq/=; [done|].
  destruct (IH (i + 1) l Hl) as [H1 H2]. unfold len in *. destruct b; cbn [Bool.eqb].
  - rewrite filter_cons_True by done. simpl. lia.
  - rewrite filter_cons_False by done. simpl. lia.
Qed.

Lemma elem_of_select keep i mask l j s :
  (j, s) ∈ select_shards keep i mask l ↔
  i ≤ j ∧ mask !! Z.to_nat (j - i) = Some keep ∧ l !! Z.to_nat (j - i) = Some s.
Proof.
  revert i l. induction mask as [|b mask IH]; intros i [|x l].
  1-3: simpl; rewrite elem_of_nil; naive_solver.
  rewrite select_cons, elem_of_app, IH. destruct (decide (j = i)) as [->|Hne].
  - rewrite Z.sub_diag. simpl. destruct b, keep; simpl; rewrite ?list_elem_of_singleton, ?elem_of_nil; naive_solver lia.
  - destruct (decide (i < j)) as [Hlt|].
    + replace (Z.to_nat (j - i)) with (S (Z.to_nat (j - (i + 1)))) by lia. simpl.
      destruct (Bool.eqb b keep); rewrite ?list_elem_of_singleton, ?elem_of_nil; naive_solver lia.
    + destruct (Bool.eqb b keep); rewrite ?list_elem_of_singleton, ?elem_of_nil; naive_solver lia.
Qed.
(** Putting shards of [w] at their places keeps what agrees with [w] and makes
    these places agree. *)
Lemma put_shards_agrees w restored shards :
  (∀ j s, (j, s) ∈ restored → 0 ≤ j ∧ w !! Z.to_nat j = Some s) → (length w ≤ length shards)%nat →
  ∃ out, Rs.put_shards restored shards = Ok out ∧ length out = length shards ∧
    (∀ n, shards !! n = w !! n → out !! n = w !! n) ∧
    (∀ j s, (j, s) ∈ restored → out !! Z.to_nat j = w !! Z.to_nat j).
Proof.
  revert shards. induction restored as [|[j s] restored IH]; intros shards Hr Hl; simpl.
  { exists shards. split_and!; [done..|]. intros j s Hin. by apply elem_of_nil in Hin. }
  destruct (Hr j s) as [Hj Hw]; [by left|]. pose proof (lookup_lt_Some _ _ _ Hw) as Hlt.
  rewrite go_update_ok by (unfold len; lia). cbn [rbind].
  destruct (IH (<[Z.to_nat j := s]> shards)) as (out & -> & Hlo & Hkeep & Hput);
    [intros; apply Hr; by right|by rewrite length_insert|].
  rewrite length_insert in Hlo. exists out.
  assert (∀ n, shards !! n = w !! n ∨ n = Z.to_nat j → out !! n = w !! n) as Hn.
  { intros n Hn. apply Hkeep. destruct (decide (n = Z.to_nat j)) as [->|].
    - by rewrite list_lookup_insert_eq by lia.
    - rewrite list_lookup_insert_ne by done. by destruct Hn. }
  split_and!; [done|done|auto|]. intros j' s' [[= -> ->]|Hin]%elem_of_cons; [auto|by eapply Hput].
Qed.

(** Putting the missing shards back gives all of the originals. *)
Lemma put_missing mask originals rest restored :
  length mask = length originals → restored ≡ₚ select_shards false 0 mask originals →
  ∃ out, Rs.put_shards restored (masked mask originals ++ rest) = Ok out ∧
    length out = length (masked mask originals ++ rest) ∧ take (length originals) out = originals.
Proof.
  intros Hm Hr. pose proof (length_masked mask originals Hm) as Hlm.
  assert (∀ j s, (j, s) ∈ restored ↔
    0 ≤ j ∧ mask !! Z.to_nat j = Some false ∧ originals !! Z.to_nat j = Some s) as Hel.
  { intros j s. rewrite Hr, elem_of_select. by rewrite Z.sub_0_r. }
  destruct (put_shards_agrees originals restored (masked mask originals ++ rest)) as (out & Ho & Hlo & Hk & Hp).
  { intros j s [? [_ ?]]%Hel. done. }
  { rewrite length_app. lia. }
  exists out. split_and!; [done|done|]. apply list_eq. intros n.
  destruct (decide (n < length originals)%nat) as [Hn|Hn].
  2:{ rewrite !lookup_ge_None_2; [done|lia|rewrite length_take; lia]. }
  rewrite lookup_take_lt by done. destruct (lookup_lt_is_Some_2 originals n Hn) as [s Hs].
  destruct (lookup_lt_is_Some_2 mask n) as [[] Hb]; [lia|..].
  - apply Hk. rewrite lookup_app_l by lia. unfold masked. by rewrite lookup_zip_with, Hb, Hs.
  - rewrite <- (Nat2Z.id n). apply (Hp _ s), Hel. rewrite Nat2Z.id. split_and!; [lia|done|done].
Qed.

Lemma Rs_Decode_blocks decode k m size masko maskr originals recovery restored :
  params_ok k m size → len originals = k → blocks size originals →
  len recovery = m → blocks size recovery →
  length masko = length originals → length maskr = length recovery →
  k ≤ count_true masko + count_true maskr →
  decode k m (select_shards true 0 masko originals) (select_shards true 0 maskr recovery) = Some restored →
  restored ≡ₚ select_shards false 0 masko originals →
  ∃ out, Rs.Decode decode (Rs.MkEncoder k m) (masked masko originals ++ masked maskr recovery) = Ok out ∧
    len out = k + m ∧ take (Z.to_nat k) out = originals.
Proof.
  intros Hp Hk Hb Hm Hbr Hlo Hlr Hc Hd Hr. destruct (guard_ok _ _ _ Hp) as (G1 & G2 & G3 & G4). destruct Hp.
  pose proof (length_masked masko originals Hlo) as L1. pose proof (length_masked maskr recovery Hlr) as L2.
  destruct (select_counts 0 masko originals Hlo) as [C1 C2].
  destruct (select_counts 0 maskr recovery Hlr) as [C3 _].
  set (shards := masked masko originals ++ masked maskr recovery).
  assert (full shards = (select_shards true 0 masko originals).*2 ++ (select_shards true 0 maskr recovery).*2) as Hf.
  { subst shards. rewrite full_app. f_equal; apply (full_masked size); (done || lia). }
  assert (len (full shards) = count_true masko + count_true maskr) as Hcount.
  { rewrite Hf, len_app, <- C1, <- C3. unfold len. by rewrite !length_fmap. }
  assert (blocks size (full shards)) as Hbf by (rewrite Hf; apply Forall_app; split; by apply select_blocks).
  unfold Rs.Decode. cbn [Rs.originalShardsCount Rs.recoveryShardsCount]. cbv zeta.
  rewrite ShardCount_full, Hcount, (proj2 (Z.ltb_ge _ _)) by lia.
  rewrite (ShardSize_blocks size); [|by intros E; rewrite E in Hcount; unfold len in Hcount; simpl in Hcount; lia|done].
  rewrite G4. rewrite go_slice_ok by (subst shards; rewrite ?len_app; unfold len in *; lia). cbn [rbind].
  replace (take (Z.to_nat (k - 0)) (drop (Z.to_nat 0) shards)) with (masked masko originals)
    by (subst shards; rewrite drop_0, take_app_length'; [done|unfold len in Hk; lia]).
  rewrite (collect_masked size) by (done || lia). cbn [rbind]. unfold go_slice_from.
  rewrite go_slice_ok by (subst shards; rewrite ?len_app; unfold len in *; lia). cbn [rbind].
  replace (take (Z.to_nat (len shards - k)) (drop (Z.to_nat k) shards)) with (masked maskr recovery)
    by (subst shards; rewrite drop_app_length' by (unfold len in Hk; lia); rewrite take_ge; [done|];
        rewrite len_app; unfold len in *; lia).
  rewrite (collect_masked size) by (done || lia). cbn [rbind].
  rewrite ShardCount_full, (full_masked size ltac:(lia) 0) by (done || lia).
  set (os := select_shards true 0 masko originals) in *. set (rs := select_shards true 0 maskr recovery) in *.
  assert (∀ l : list (Z * list Z), len l.*2 = len l) as Hlen by (intros; unfold len; by rewrite length_fmap).
  assert (blocks (Z.to_nat (Z.of_nat size)) os.*2) as Bo by (rewrite Nat2Z.id; by apply select_blocks).
  assert (blocks (Z.to_nat (Z.of_nat size)) rs.*2) as Br by (rewrite Nat2Z.id; by apply select_blocks).
  assert (len restored = k - len os) as Hlres.
  { unfold len in *. rewrite (Permutation_length Hr). lia. }
  assert (blocks size restored.*2) as Bres.
  { unfold blocks. rewrite Hr. by apply select_blocks. }
  unfold reed_solomon_decode. rewrite G1, G2, G3.
  rewrite (len_mjoin _ _ Bo), (len_mjoin _ _ Br), !Hlen by lia. rewrite !Z_mod_mult, !Z_div_mult by lia.
  rewrite (Z.mul_comm (Z.of_nat size)), !Z.eqb_refl. cbn [negb orb].
  rewrite !chunks_of_mjoin by (rewrite ?Hlen; done). rewrite !zip_fst_snd, Hd.
  assert (forallb (λ s : Z * list Z, len s.2 =? Z.of_nat size) restored = true) as Hall.
  { rewrite <- (blocks_forallb _ _ Bres). clear. induction restored as [|? ? IH]; [done|]. simpl. by rewrite IH. }
  rewrite Hall, (proj2 (Z.leb_le _ _)) by lia. cbn [andb].
  rewrite <- (Nat2Z.id size) in Bres.
  rewrite go_copy_blocks, chunks_of_mjoin by (rewrite ?Hlen; lia || done).
  rewrite go_copy_exact by (rewrite length_fmap, length_replicate; unfold len in *; lia).
  rewrite zip_fst_snd. destruct (put_missing masko originals (masked maskr recovery) restored) as (out & Ho & Hlout & Ht);
    [done..|]. exists out. split_and!; [done| |].
  - unfold len in *. rewrite Hlout, length_app. lia.
  - replace (Z.to_nat k) with (length originals) by (unfold len in Hk; lia). done.
Qed.

(** ** Decoding *)

Lemma mjoin_lookup size (l : list (list Z)) j s :
  blocks size l → l !! j = Some s → take size (drop (j * size) (mjoin l)) = s.
Proof.
  intros Hb. revert j. induction Hb as [|x l Hx _ IH]; intros j Hj; [done|].
  destruct j as [|j]; simpl in *.
  - simplify_eq. by rewrite drop_0, take_app_length'.
  - rewrite <- (IH j Hj). f_equal. rewrite <- drop_drop, drop_app_length' by done. done.
Qed.

Lemma stripe_piece ws j w i :
  Forall word_ok ws → ws !! j = Some w → (i < 1023)%nat →
  take 2 (drop (2 * j) (stripe ws i)) = default [] (w !! i).
Proof.
  intros Hw Hj Hi. unfold stripe. rewrite Nat.mul_comm. apply mjoin_lookup.
  - apply Forall_fmap. eapply Forall_impl; [exact Hw|]. intros v [Hl Hb]. unfold compose.
    destruct (lookup_lt_is_Some_2 v i) as [s Hs]; [lia|]. rewrite Hs. exact (Forall_lookup_1 _ _ _ _ Hb Hs).
  - by rewrite list_lookup_fmap, Hj.
Qed.

Lemma chunk_shards_pieces j mask rows :
  Forall (λ row, Z.of_nat (2 * j + 2) ≤ len row) rows → length mask = length rows →
  Erasure.chunk_shards (Z.of_nat j) (masked mask rows) =
  Ok (masked mask ((λ row, take 2 (drop (2 * j) row)) <$> rows)).
Proof.
  intros Hr. revert mask. induction Hr as [|row rows Hrow _ IH]; intros [|b mask] Hl; try done.
  injection Hl as Hl. unfold masked in *. cbn [zip_with fmap list_fmap Erasure.chunk_shards].
  change Erasure.ChunkShardSize with 2. destruct b.
  - rewrite len_zero, bool_decide_false by (by intros ->; unfold len in Hrow; simpl in Hrow; lia).
    rewrite go_slice_ok by lia. cbn [rbind]. rewrite IH by done. cbn [rbind].
    replace (Z.to_nat (Z.of_nat j * 2)) with (2 * j)%nat by lia.
    by replace (Z.to_nat (Z.of_nat j * 2 + 2 - Z.of_nat j * 2)) with 2%nat by lia.
  - cbn [len length Z.of_nat Z.eqb rbind]. change (len [] =? 0) with true. cbn [rbind].
    by rewrite IH.
Qed.

Lemma rows_long ws j : Forall word_ok ws → (j < length ws)%nat →
  Forall (λ row, Z.of_nat (2 * j + 2) ≤ len row) (stripe ws <$> seq 0 1023).
Proof.
  intros Hws Hj. apply Forall_fmap, Forall_forall. intros i Hi. apply elem_of_seq in Hi. unfold compose, len.
  rewrite stripe_length by (done || lia). lia.
Qed.

Section decoding.
Context (ws : list (list (list Z))) (Hws : Forall word_ok ws) (mask : list bool) (Hmask : length mask = 1023%nat).

Lemma chunk_shards_word j w : ws !! j = Some w →
  Erasure.chunk_shards (Z.of_nat j) (masked mask (stripe ws <$> seq 0 1023)) = Ok (masked mask w).
Proof using Hws Hmask.
  intros Hj. rewrite chunk_shards_pieces;
    [|by apply rows_long; [|by eapply lookup_lt_Some]|by rewrite length_fmap, length_seq].
  do 2 f_equal. pose proof (proj1 (Forall_lookup _ _) Hws j w Hj) as [Hl _].
  apply list_eq. intros i. rewrite !list_lookup_fmap. destruct (decide (i < 1023)%nat) as [Hi|Hi].
  - rewrite lookup_seq_lt by done. cbn [fmap option_fmap option_map]. rewrite Nat.add_0_l.
    rewrite (stripe_piece ws j w) by done. by destruct (lookup_lt_is_Some_2 w i) as [s ->]; [lia|].
  - rewrite !lookup_ge_None_2; [done|lia|rewrite length_seq; lia].
Qed.

Lemma all_words j n : (j + n = length ws)%nat →
  Erasure.all_chunk_shards (masked mask (stripe ws <$> seq 0 1023)) (Z.of_nat j) n =
  Ok (masked mask <$> drop j ws).
Proof using Hws Hmask.
  revert j. induction n as [|n IH]; intros j Hj; cbn [Erasure.all_chunk_shards].
  - by rewrite drop_ge by lia.
  - destruct (lookup_lt_is_Some_2 ws j) as [w Hw]; [lia|]. rewrite (chunk_shards_word j w Hw). cbn [rbind].
    replace (Z.of_nat j + 1) with (Z.of_nat (S j)) by lia. rewrite IH by lia. cbn [rbind].
    by rewrite (drop_S _ _ _ Hw).
Qed.

Lemma full_stripes : ws ≠ [] →
  Rs.ShardCount (masked mask (stripe ws <$> seq 0 1023)) = count_true mask ∧
  (0 < count_true mask → Rs.ShardSize (masked mask (stripe ws <$> seq 0 1023)) = 2 * len ws).
Proof using Hws Hmask.
  intros Hne. set (rows := stripe ws <$> seq 0 1023).
  assert (length mask = length rows) as Hl by (subst rows; by rewrite length_fmap, length_seq).
  assert (0 < 2 * length ws)%nat as Hpos by (destruct ws; simpl; [done|lia]).
  assert (blocks (2 * length ws) rows) as Hb.
  { subst rows. apply Forall_fmap, Forall_forall. intros i Hi. apply elem_of_seq in Hi.
    apply stripe_length; [done|lia]. }
  destruct (select_counts 0 mask rows Hl) as [C _].
  assert (len (full (masked mask rows)) = count_true mask) as Hc.
  { rewrite (full_masked _ Hpos 0), <- C by done. unfold len. by rewrite length_fmap. }
  split; [by rewrite ShardCount_full|]. intros Hct.
  rewrite (ShardSize_blocks (2 * length ws)); [unfold len; lia| |].
  - intros E. rewrite E in Hc. unfold len in Hc. simpl in Hc. lia.
  - rewrite (full_masked _ Hpos 0) by done. by apply select_blocks.
Qed.
End decoding.

(** ** Theorems *)

(** [lace] undoes [unzip]: for every number of columns the bytes of the data
    come back, without the padding. *)
Theorem unzip_lace n data :
  0 < n → 0 < len data ≤ maxAlloc →
  ∃ chunks, Erasure.unzip n data = Ok (Some chunks) ∧ Forall (λ c, len c = n) chunks ∧
    Erasure.lace chunks (len data) = Ok data.
Proof.
  intros Hn Hd. eexists. split_and!; [apply unzip_rows; lia| |by apply lace_rows].
  apply Forall_fmap, Forall_true. intros j. apply len_row_of. lia.
Qed.

Lemma unzip_lace_witness :
  ∃ chunks, Erasure.unzip 2 [1; 2; 3; 4; 5] = Ok (Some chunks) ∧ Forall (λ c, len c = 2) chunks ∧
    Erasure.lace chunks (len [1; 2; 3; 4; 5]) = Ok [1; 2; 3; 4; 5].
Proof. apply (unzip_lace 2 [1; 2; 3; 4; 5]); [lia|]. split; vm_compute; congruence. Defined.

Section library.
Context (encode : encode_fun) (decode : decode_fun) `{!RsEncodes encode 342 681 2}.

(** Any data of up to 12 MB is encoded into 1023 shards of equal length: two
    bytes for each started chunk of 684 bytes. *)
Theorem encode_shards data :
  0 < len data ≤ MaxWorkPackageSize →
  ∃ shards, Erasure.Encode encode data = Ok shards ∧ length shards = 1023%nat ∧
    Forall (λ s, len s = 2 * ((len data + 683) / 684)) shards.
Proof using Type*.
  intros Hd. rewrite Encode_rows by done. eexists. split_and!; [done|by rewrite length_fmap, length_seq|].
  destruct (chunks_of_data_ok data ltac:(lia)) as (Hc & Hl & _). apply Forall_fmap, Forall_forall.
  intros j Hj. apply elem_of_seq in Hj. unfold compose. unfold len at 1. rewrite stripe_length.
  - rewrite length_fmap. unfold len in Hl. unfold stripes in Hl.
    change ErasureCodingChunkSize with 684 in Hl. replace (len data + 684 - 1) with (len data + 683) in Hl by lia. lia.
  - apply Forall_fmap. eapply Forall_impl; [exact Hc|]. intros c Hlc.
    by destruct (codeword_eq encode c Hlc) as (_ & _ & _ & _ & _ & ?).
  - lia.
Qed.

Context (masko maskr : list bool) `{!RsRestores encode decode 342 681 masko maskr}.

Lemma decode_words chunks :
  length masko = 342%nat → length maskr = 681%nat → 342 ≤ count_true masko + count_true maskr →
  Forall (λ c, len c = 684) chunks →
  Erasure.decode_chunks decode (Rs.MkEncoder 342 681)
    (masked (masko ++ maskr) <$> (codeword encode <$> chunks)) = Ok chunks.
Proof using Type*.
  intros Hlo Hlr Hct. induction 1 as [|c chunks Hc _ IH]; [done|].
  rewrite !fmap_cons. cbn [Erasure.decode_chunks].
  destruct (codeword_eq encode c Hc) as (r & Hr & Hlen & Hbr & -> & _).
  destruct (originals_ok c Hc) as [Hl Hb].
  destruct (rs_restores 2 _ r params_jam Hl Hb Hr) as (restored & Hdec & Hperm).
  rewrite masked_app by (unfold len in Hl; lia).
  destruct (Rs_Decode_blocks decode 342 681 2 masko maskr (chunks_of 342 2 c) r restored)
    as (out & -> & Hlout & Ht); try done; try apply params_jam; try (unfold len in *; lia).
  cbn [rbind]. rewrite go_slice_ok by (change Erasure.OriginalShards with 342; lia). cbn [rbind].
  rewrite drop_0. change (Z.to_nat (Erasure.OriginalShards - 0)) with (Z.to_nat 342). rewrite Ht.
  rewrite IH. cbn [rbind]. do 2 f_equal. unfold chunks_of. rewrite join_reshape; [done|].
  rewrite sum_list_replicate. unfold len in Hc. lia.
Qed.
End library.

(** C3: Erasure coding recovers data from any 342 shards the library can decode
    from: of the shards of [Encode], lose any that leave 342, and [Decode] returns
    the data. *)
Theorem erasure_roundtrip encode decode masko maskr data :
  RsEncodes encode 342 681 2 → RsRestores encode decode 342 681 masko maskr →
  length masko = 342%nat → length maskr = 681%nat → 342 ≤ count_true masko + count_true maskr →
  0 < len data ≤ MaxWorkPackageSize →
  ∃ shards, Erasure.Encode encode data = Ok shards ∧
    Erasure.Decode decode (masked (masko ++ maskr) shards) (len data) = Ok data.
Proof.
  intros He Hd Hlo Hlr Hct Hdata. rewrite Encode_rows by done. eexists. split; [done|].
  destruct (chunks_of_data_ok data ltac:(lia)) as (Hc & Hl & Hpos). set (ws := codeword encode <$> chunks_of_data data).
  assert (Forall word_ok ws) as Hws.
  { apply Forall_fmap. eapply Forall_impl; [exact Hc|]. intros c Hlc.
    by destruct (codeword_eq encode c Hlc) as (_ & _ & _ & _ & _ & ?). }
  assert (len ws = len (chunks_of_data data)) as Hlw by (unfold len, ws; by rewrite length_fmap).
  assert (length (masko ++ maskr) = 1023%nat) as Hlm by (rewrite length_app; lia).
  assert (count_true (masko ++ maskr) = count_true masko + count_true maskr) as Hcount.
  { unfold count_true. by rewrite filter_app, len_app. }
  destruct (full_stripes ws Hws (masko ++ maskr) Hlm) as [Hsc Hss]; [by intros E; rewrite E in Hlw; unfold len in *; simpl in *; lia|].
  unfold Erasure.Decode. rewrite Hsc, Hcount. change Erasure.OriginalShards with 342.
  rewrite (proj2 (Z.ltb_ge _ _)) by lia. rewrite Hss by lia. change Erasure.ChunkShardSize with 2.
  rewrite (Z.mul_comm 2), Z_mod_mult. cbn [negb Z.eqb].
  destruct (stripes_bounds ErasureCodingChunkSize data ltac:(done) ltac:(lia)) as (_ & Hsb & _).
  change ErasureCodingChunkSize with 684 in Hsb, Hl. rewrite (proj2 (Z.ltb_ge _ _)) by lia.
  change (map_err _ _) with (Ok (E := rs_error) (Rs.MkEncoder 342 681)). cbn [rbind].
  rewrite Z_div_mult by lia. unfold len at 1. rewrite Nat2Z.id.
  change 0 with (Z.of_nat 0). rewrite all_words by (done || lia). cbn [rbind]. rewrite drop_0.
  unfold ws. rewrite decode_words by done. cbn [rbind]. apply lace_rows; [done|].
  unfold MaxWorkPackageSize, maxAlloc in *. lia.
Qed.

(** *** A code that repeats the shards *)

Definition repeat_encode : encode_fun := λ k m originals,
  Some ((λ j, default [] (originals !! Z.to_nat (j `mod` k))) <$> seqZ 0 m).

Definition find_shard (i : Z) (l : list (Z * list Z)) : option (list Z) :=
  head (omap (λ p : Z * list Z, if p.1 =? i then Some p.2 else None) l).

(** A missing shard [i] is the recovery shard [i]. *)
Definition repeat_decode : decode_fun := λ k m os rs,
  Some (omap (λ i, if bool_decide (i ∈ os.*1) then None else (i,.) <$> find_shard i rs) (seqZ 0 k)).

Lemma repeat_encodes k m size : 0 < k → 0 < m → RsEncodes repeat_encode k m size.
Proof.
  intros Hk Hm originals Hl Hb. eexists. split_and!; [done| |].
  - unfold len. rewrite length_fmap, length_seqZ. lia.
  - apply Forall_fmap, Forall_true. intros j. unfold compose.
    pose proof (Z.mod_pos_bound j k Hk). destruct (lookup_lt_is_Some_2 originals (Z.to_nat (j `mod` k))) as [s Hs];
      [unfold len in Hl; lia|]. rewrite Hs. exact (Forall_lookup_1 _ _ _ _ Hb Hs).
Qed.

#[export] Instance repeat_encodes_jam : RsEncodes repeat_encode 342 681 2.
Proof. by apply repeat_encodes. Qed.

Lemma omap_select f mask l i :
  length mask = length l →
  (∀ n b s, mask !! n = Some b → l !! n = Some s →
    f (i + Z.of_nat n) = if (b : bool) then None else Some (i + Z.of_nat n, s)) →
  omap f (seqZ i (len l)) = select_shards false i mask l.
Proof.
  revert i l. induction mask as [|b mask IH]; intros i [|s l] Hl Hf; try done. injection Hl as Hl.
  replace (len (s :: l)) with (1 + len l) by (unfold len; simpl; lia).
  rewrite seqZ_cons by (pose proof (len_nonneg l); lia). rewrite select_cons. cbn [omap list_omap].
  replace (Z.pred (1 + len l)) with (len l) by lia. specialize (Hf 0%nat b s eq_refl eq_refl) as H0.
  rewrite Z.add_0_r in H0. rewrite H0.
  assert (omap f (seqZ (Z.succ i) (len l)) = select_shards false (i + 1) mask l) as E.
  { rewrite <- Z.add_1_r. apply IH; [done|]. intros n b' s' Hb Hs. specialize (Hf (S n) b' s' Hb Hs).
    replace (i + 1 + Z.of_nat n) with (i + Z.of_nat (S n)) by lia. done. }
  rewrite <- E. by destruct b.
Qed.

Lemma find_selected i mask l s :
  0 ≤ i → mask !! Z.to_nat i = Some true → l !! Z.to_nat i = Some s →
  find_shard i (select_shards true 0 mask l) = Some s.
Proof.
  intros Hi Hm Hl. unfold find_shard.
  assert (∀ s', s' ∈ omap (λ p : Z * list Z, if p.1 =? i then Some p.2 else None) (select_shards true 0 mask l) ↔ s' = s) as H.
  { intros s'. rewrite list_elem_of_omap. split.
    - intros ([j x] & Hin & Hx). simpl in Hx. destruct (Z.eqb_spec j i) as [->|]; [|done]. simplify_eq.
      apply elem_of_select in Hin as (_ & _ & Hin). rewrite Z.sub_0_r in Hin. congruence.
    - intros ->. exists (i, s). simpl. rewrite Z.eqb_refl. split; [|done]. apply elem_of_select.
      by rewrite Z.sub_0_r. }
  destruct (omap _ _) as [|x rest]; simpl.
  - by pose proof (proj2 (H s) eq_refl) as ?%elem_of_nil.
  - f_equal. apply H. by left.
Qed.

(** The code restores whatever is missing, if the recovery shard is there. *)
Lemma repeat_restores k m masko maskr :
  length masko = Z.to_nat k → length maskr = Z.to_nat m → k ≤ m →
  (∀ n, masko !! n = Some false → maskr !! n = Some true) →
  RsRestores repeat_encode repeat_decode k m masko maskr.
Proof.
  intros Hlo Hlr Hkm Hcov size originals recovery [Hk Hm _ _ _] Hl Hb [= <-].
  eexists. split; [done|]. rewrite <- Hl at 1. set (rec := _ <$> seqZ 0 m).
  rewrite (omap_select _ masko originals 0); [done|unfold len in Hl; lia|].
  intros n b s Hn Hs. rewrite Z.add_0_l. pose proof (lookup_lt_Some _ _ _ Hs).
  assert (Z.of_nat n ∈ (select_shards true 0 masko originals).*1 ↔ b = true) as Hin.
  { rewrite list_elem_of_fmap. split.
    - intros ([j x] & Hjn & Hj). simpl in Hjn. subst j. apply elem_of_select in Hj as (_ & Hj & _).
      rewrite Z.sub_0_r, Nat2Z.id in Hj. congruence.
    - intros ->. exists (Z.of_nat n, s). split; [done|]. apply elem_of_select.
      rewrite Z.sub_0_r, Nat2Z.id. split_and!; [lia|done|done]. }
  destruct b; [by rewrite bool_decide_true by (by apply Hin)|].
  rewrite bool_decide_false by (by intros ?%Hin). rewrite (find_selected _ maskr rec s); [done|lia| |];
    rewrite Nat2Z.id; [by apply Hcov|]. subst rec. unfold len in Hl.
  rewrite list_lookup_fmap, lookup_seqZ_0 by lia. cbn [fmap option_fmap option_map].
  rewrite Z.mod_small, Nat2Z.id, Hs by lia. done.
Qed.

Definition demo_masko : list bool := false :: replicate 341 true.
Definition demo_maskr : list bool := replicate 681 true.

Lemma erasure_roundtrip_witness :
  ∃ shards, Erasure.Encode repeat_encode [1; 2; 3] = Ok shards ∧
    Erasure.Decode repeat_decode (masked (demo_masko ++ demo_maskr) shards) (len [1; 2; 3]) = Ok [1; 2; 3].
Proof.
  apply (erasure_roundtrip repeat_encode repeat_decode demo_masko demo_maskr [1; 2; 3]).
  - exact repeat_encodes_jam.
  - apply repeat_restores; [reflexivity|reflexivity|lia|]. intros n Hn.
    destruct n as [|n]; [reflexivity|]. exfalso. apply lookup_replicate in Hn as [Hn _]. discriminate.
  - reflexivity.
  - reflexivity.
  - vm_compute. congruence.
  - split; vm_compute; congruence.
Defined.

Lemma encode_shards_witness :
  ∃ shards, Erasure.Encode repeat_encode [1; 2; 3] = Ok shards ∧ length shards = 1023%nat ∧
    Forall (λ s, len s = 2 * ((len [1; 2; 3] + 683) / 684)) shards.
Proof. apply (encode_shards repeat_encode [1; 2; 3]). split; vm_compute; congruence. Defined.
