(* ===== verification/WorkResults.v ===== *)
(** * Work reports and guarantees

    [internal/work/results]: evaluating a work package ([compute.go]) and
    guaranteeing its report ([guarantee.go]).  The two virtual-machine invocations
    are interfaces of the source and fields of a record here; [Refinement] models
    their implementations. *)
From S2P Require Export ErasureCoding BinaryTree.

(** [AuthPVMInvoker], [RefinePVMInvoker] and [Computation] *)
Record Computation : Type := MkComputation {
  Auth : Package → Z → res st_error (list Z);
  Refine_ : Z → Package → list Z → list Segment → Z → res st_error (list Z * list Segment);
  SegmentRoots : gmap Hash Hash;
  SegmentData : gmap Hash (list Z);
  ExtrinsicPreimages : gmap Hash (list Z);
}.

Definition flattenBlobs (blobs : list (list Z)) : list Z := mjoin blobs.
Definition flattenPageProof (proof : list Hash) : list Z := mjoin proof.
Definition segmentsToByteSlices (segs : list Segment) : list (list Z) := segs.

Section computation.
Context (HashData : list Z → Hash) (encode : encode_fun).
Context (c : Computation).

Definition lookup_root (hash : Hash) : Hash := default hash (SegmentRoots c !! hash).

Definition validateSegmentRootLookup : res st_error unit :=
  if decide (map_Forall (λ _ e, is_Some (SegmentData c !! e)) (SegmentRoots c)) then Ok ()
  else Err (StErr "invalid segment root mapping").

Fixpoint buildExtrinsicData (extrinsics : list ItemExtrinsic) : res st_error (list (list Z)) :=
  match extrinsics with
  | [] => Ok []
  | extr :: extrinsics =>
      match ExtrinsicPreimages c !! extrinsic_Hash extr with
      | None => Err (StErr "missing extrinsic data for hash")
      | Some preimage =>
          if negb (len preimage =? extrinsic_Length extr)
          then Err (StErr "extrinsic length mismatch for hash")
          else let! xW := buildExtrinsicData extrinsics in Ok (preimage :: xW)
      end
  end.

(** The loop of [buildImportedSegments] and of [buildJustificationData]: what is
    stored under the root, whatever the index. *)
Fixpoint importSegments (msg : string) (imports : list ImportedSegment)
  : res st_error (list Segment) :=
  match imports with
  | [] => Ok []
  | imp :: imports =>
      match SegmentData c !! lookup_root (imported_Hash imp) with
      | None => Err (StErr msg)
      | Some data => let! rest := importSegments msg imports in Ok (to_segment data :: rest)
      end
  end.

Definition buildImportedSegments (item : Item) : res st_error (list Segment * Hash) :=
  let! segments := importSegments "missing segment data for root" (ImportedSegments item) in
  if len segments =? 0 then Ok (segments, ZeroHash)
  else
    let! sRoot := ComputeConstantDepthRoot HashData (segmentsToByteSlices segments) in
    Ok (segments, sRoot).

Fixpoint page_proofs (segBlobs : list (list Z)) (imports : list ImportedSegment)
  : res st_error (list (list Z)) :=
  match imports with
  | [] => Ok []
  | imp :: imports =>
      let! pageProof := GeneratePageProof HashData segBlobs (imported_Index imp) 0 in
      let! rest := page_proofs segBlobs imports in
      Ok (flattenPageProof pageProof :: rest)
  end.

Definition buildJustificationData (item : Item) : res st_error (list (list Z) * Hash) :=
  let! importedSegments := importSegments "missing data for root" (ImportedSegments item) in
  if len importedSegments =? 0 then Ok ([], ZeroHash)
  else
    let segBlobs := segmentsToByteSlices importedSegments in
    let! jData := page_proofs segBlobs (ImportedSegments item) in
    if len jData =? 0 then Ok (jData, ZeroHash)
    else let! jRoot := ComputeConstantDepthRoot HashData jData in Ok (jData, jRoot).

(** What the loop of [buildAuditableWorkPackage] appends for an item. *)
Definition auditable_item (item : Item) : res st_error (list Z) :=
  let! xW := buildExtrinsicData (Extrinsics item) in
  let! (sSegments, sRoot) := buildImportedSegments item in
  let! (jBlobs, jRoot) := buildJustificationData item in
  Ok (flattenBlobs xW ++ flattenBlobs (segmentsToByteSlices sSegments) ++ sRoot
      ++ flattenBlobs jBlobs ++ jRoot).

Fixpoint auditable_items (items : list Item) : res st_error (list Z) :=
  match items with
  | [] => Ok []
  | item :: items =>
      let! b := auditable_item item in
      let! rest := auditable_items items in Ok (b ++ rest)
  end.

Definition buildAuditableWorkPackage (pkg : Package) : res st_error (list Z) :=
  let! wpBytes := map_err (λ _, StErr "failed to marshal package") (Marshal_package pkg) in
  let! rest := auditable_items (WorkItems pkg) in
  Ok (wpBytes ++ rest).

(** Pages [pageIndex] and on, [n] of them. *)
Fixpoint paged_proofs (blobs : list (list Z)) (pageIndex : Z) (n : nat) : res st_error (list Segment) :=
  match n with
  | O => Ok []
  | S n =>
      let! leafHashes := GetLeafPage HashData blobs pageIndex NumberOfErasureCodecPiecesInSegment in
      let! proof := GeneratePageProof HashData blobs pageIndex NumberOfErasureCodecPiecesInSegment in
      let! marshalledLeaves :=
        map_err StJam (Marshal (TSlice hash_type) (VSeq (hash_value <$> leafHashes))) in
      let! marshalledProof :=
        map_err StJam (Marshal (TSlice hash_type) (VSeq (hash_value <$> proof))) in
      let padded := ZeroPadding (marshalledLeaves ++ marshalledProof) SizeOfSegment in
      let! rest := paged_proofs blobs (pageIndex + 1) n in
      Ok (to_segment padded :: rest)
  end.

Definition ComputePagedProofs (segments : list Segment) : res st_error (list Segment) :=
  if len segments =? 0 then Err (StErr "no segments provided")
  else
    let numPages := (len segments + SegmentsPerPage - 1) / SegmentsPerPage in
    paged_proofs segments 0 (Z.to_nat numPages).

Definition emptySpecification : WorkPackageSpecification := MkSpec ZeroHash 0 ZeroHash ZeroHash 0.

(** [erasurecoding.Encode] and the root of its shards; [None] without shards *)
Definition shards_root (data : list Z) : res st_error (option Hash) :=
  let! shards := map_err StErr (Erasure.Encode encode data) in
  if len shards =? 0 then Ok None
  else let! root := ComputeWellBalancedRoot HashData shards in Ok (Some root).

Definition computeAvailabilitySpecifier (packageHash : Hash) (auditableBlob : list Z)
    (exportedSegments : list Segment) : res st_error WorkPackageSpecification :=
  let l := len auditableBlob in
  if MaxUint32 <? l then Err (StErr "auditable blob too large")
  else
    let auditLen := uint32 l in
    let segBlobs := segmentsToByteSlices exportedSegments in
    let! e := ComputeConstantDepthRoot HashData segBlobs in
    let n := uint16 (len exportedSegments) in
    let padded := ZeroPadding auditableBlob ErasureCodingChunkSize in
    let! bClubs := shards_root padded in
    match bClubs with
    | None => Ok emptySpecification
    | Some bClubs =>
        let! pagedProofs := ComputePagedProofs exportedSegments in
        let combined := flattenBlobs (segmentsToByteSlices exportedSegments
                                      ++ segmentsToByteSlices pagedProofs) in
        let! sClubs := shards_root combined in
        match sClubs with
        | None => Ok emptySpecification
        | Some sClubs =>
            let! u := ComputeWellBalancedRoot HashData [bClubs; sClubs] in
            Ok (MkSpec packageHash auditLen u e n)
        end
    end.

(** The exported segments of an item, filled up or cut to the declared number. *)
Definition final_exported (exported : list Segment) (expected : Z) : res st_error (list Segment) :=
  let actual := len exported in
  if actual <? expected then Ok (exported ++ replicate (Z.to_nat (expected - actual)) zeroSegment)
  else if expected <? actual then go_slice exported 0 expected
  else Ok exported.

Definition refine_item (wp : Package) (authOutput : list Z) (index exportOffset : Z) (item : Item)
  : res st_error (WorkResult * list Segment) :=
  let! (importedSegs, _) := buildImportedSegments item in
  match Refine_ c (uint32 index) wp authOutput importedSegs exportOffset with
  | RuntimePanic => RuntimePanic
  | Err _ =>
      Ok (ToWorkResult HashData item (ResultError UnexpectedTermination),
          replicate (Z.to_nat (ExportedSegments item)) zeroSegment)
  | Ok (refineOut, exported) =>
      let! finalExported := final_exported exported (ExportedSegments item) in
      Ok (ToWorkResult HashData item (ResultOutput refineOut), finalExported)
  end.

(** The loop of [EvaluateWorkPackage]: results and exported segments. *)
Fixpoint refine_items (wp : Package) (authOutput : list Z) (index exportOffset : Z) (items : list Item)
  : res st_error (list WorkResult * list Segment) :=
  match items with
  | [] => Ok ([], [])
  | item :: items =>
      let! (wr, finalExported) := refine_item wp authOutput index exportOffset item in
      let! (wrs, segments) :=
        refine_items wp authOutput (index + 1) (uint64 (exportOffset + ExportedSegments item)) items in
      Ok (wr :: wrs, finalExported ++ segments)
  end.

Definition EvaluateWorkPackage (wp : Package) (coreIndex : Z) : res st_error WorkReport :=
  let! _ := ValidateNumberOfEntries wp in
  let! _ := ValidateSize wp in
  let! _ := ValidateGas wp in
  let! _ := validateSegmentRootLookup in
  let! audBlob := buildAuditableWorkPackage wp in
  let! authOutput := Auth c wp coreIndex in
  let! (allWorkResults, allExportedSegments) := refine_items wp authOutput 0 0 (WorkItems wp) in
  let! wpBytes := map_err (λ _, StErr "failed to serialize work-package") (Marshal_package wp) in
  let! availSpec := computeAvailabilitySpecifier (HashData wpBytes) audBlob allExportedSegments in
  Ok (MkWorkReport availSpec (pkg_Context wp) coreIndex (HashData authOutput) authOutput
        (SegmentRoots c) allWorkResults).
End computation.

(** ** Guarantees *)

Section guarantee.
Context (HashData : list Z → Hash) (encode : encode_fun) (Sign : list Z → list Z → list Z) (now : Z).

(** The map drops duplicates; the keys are distinct, so sorting gives one list. *)
Definition credential_map (creds : list CredentialSignature) (m : gmap Z CredentialSignature)
  : gmap Z CredentialSignature :=
  foldl (λ m cred, <[cred_ValidatorIndex cred := cred]> m) m creds.
Definition credential_less (a b : CredentialSignature) : bool :=
  cred_ValidatorIndex a <? cred_ValidatorIndex b.
Definition mergeAndSortCredentials (existing received : list CredentialSignature)
  : list CredentialSignature :=
  let credentialMap := credential_map received (credential_map existing ∅) in
  sort_by credential_less (map_to_list credentialMap).*2.

Definition generateCredentialSignature (guarantorPrivateKey : list Z) (guarantorIndex : Z)
    (reportPayloadHash : Hash) : CredentialSignature :=
  let message := SignatureContextGuarantee ++ reportPayloadHash in
  MkCredential guarantorIndex (Sign guarantorPrivateKey message).

Definition hashCoreIndexWithWorkReport (workReport : WorkReport) (coreIndex : Z) : res st_error Hash :=
  let! encodedCoreIndex := map_err StJam (Marshal (TPrim false Uint16) (VNum coreIndex)) in
  let! encodedWorkReport := Encode_report workReport in
  Ok (HashData (encodedCoreIndex ++ encodedWorkReport)).

(** The report is never nil here. *)
Definition GenerateGuarantee (workReport : WorkReport) (credentials : list CredentialSignature)
  : res st_error Guarantee :=
  if (len credentials <? 2) || (3 <? len credentials) then Err (StErr "must have 2-3 valid signatures")
  else Ok (MkGuarantee workReport now credentials).

Definition validateWorkPackageAuthorization (wp : Package) (coreIndex : Z) (authPool : list (list Hash))
  : res st_error unit :=
  let! authorizers := go_index authPool coreIndex in
  if existsb (λ authHash, bool_decide (authHash = AuthCodeHash wp)) authorizers then Ok ()
  else Err (StErr "work package not authorized for this core").

Definition ProcessWorkPackageGuarantee (c : Computation) (wp : Package) (coreIndex guarantorIndex : Z)
    (guarantorPrivateKey : list Z) (authPool : list (list Hash)) : res st_error Guarantee :=
  let! _ := validateWorkPackageAuthorization wp coreIndex authPool in
  let! workReport := EvaluateWorkPackage HashData encode c wp coreIndex in
  if negb (OutputSizeIsValid workReport) then Err (StErr "work report output size exceeds limit")
  else
    let! payloadHash := hashCoreIndexWithWorkReport workReport coreIndex in
    let initialCredential := generateCredentialSignature guarantorPrivateKey guarantorIndex payloadHash in
    let receivedCredentials := [] in
    let credentials := mergeAndSortCredentials [initialCredential] receivedCredentials in
    GenerateGuarantee workReport credentials.
End guarantee.
