(* ===== verification/WorkTheorems.v ===== *)
(** * Work packages, reports and guarantees: theorems *)
From Stdlib Require Import Sorted.
From S2P Require Import AccumulationRun ErasureTheorems WorkResults RefineLogic HostTheorems RefineTheorems.

(** ** Packages *)

(** A sum that wraps around at every step is the sum modulo the width. *)
Definition total (f : Item → Z) (items : list Item) : Z := foldr (λ w acc, f w + acc) 0 items.

Lemma sum_items_mod w f items : 0 < w → sum_items (wrapU w) f items = total f items `mod` 2 ^ w.
Proof.
  intros Hw. unfold sum_items.
  enough (∀ acc, foldl (λ t x, wrapU w (t + f x)) (acc `mod` 2 ^ w) items = (acc + total f items) `mod` 2 ^ w) as H.
  { specialize (H 0). by rewrite Z.mod_0_l in H by lia. }
  induction items as [|x items IH]; intros acc; simpl; [by rewrite Z.add_0_r|].
  unfold wrapU at 2. rewrite Z.add_mod_idemp_l by lia. rewrite IH. f_equal. lia.
Qed.

Lemma guard_false_Ok {E} (b : bool) (e : E) (k : res E ()) :
  (if b then Err e else k) = Ok () ↔ b = false ∧ k = Ok ().
Proof. destruct b; naive_solver. Qed.

(** The checks of a package count modulo the width of their variables: it
    passes if its exported and its imported segments, modulo [2^16], are at most
    2048, and its gas limits, modulo [2^64], are below their bounds. *)
Theorem package_checks wp :
  (ValidateNumberOfEntries wp = Ok () ↔
     total ExportedSegments (WorkItems wp) `mod` 2 ^ 16 ≤ MaxNumberOfEntries ∧
     total (λ w, len (ImportedSegments w)) (WorkItems wp) `mod` 2 ^ 16 ≤ MaxNumberOfEntries) ∧
  (ValidateGas wp = Ok () ↔
     total GasLimitAccumulate (WorkItems wp) `mod` 2 ^ 64 < MaxAllocatedGasAccumulation ∧
     total GasLimitRefine (WorkItems wp) `mod` 2 ^ 64 < MaxAllocatedGasRefine).
Proof.
  unfold ValidateNumberOfEntries, ValidateGas. cbv zeta.
  rewrite !guard_false_Ok, !Z.ltb_ge, !Z.leb_gt. unfold uint16, uint64. rewrite !sum_items_mod by done.
  assert (total (λ w, wrapU 16 (len (ImportedSegments w))) (WorkItems wp) `mod` 2 ^ 16 =
    total (λ w, len (ImportedSegments w)) (WorkItems wp) `mod` 2 ^ 16) as ->; [|naive_solver].
  induction (WorkItems wp) as [|x items IH]; [done|]. simpl. rewrite Z.add_mod, IH by lia.
  unfold wrapU. rewrite Z.mod_mod by lia. by rewrite <- Z.add_mod by lia.
Qed.

(** Padding appends zeros, fewer than [n], up to the next multiple of [n]. *)
Theorem zero_padding x n :
  0 < n →
  ∃ z, ZeroPadding x n = x ++ replicate z 0 ∧ Z.of_nat z < n ∧ len (ZeroPadding x n) `mod` n = 0.
Proof.
  intros Hn. unfold ZeroPadding. rewrite (proj2 (Z.eqb_neq _ _)) by lia. cbv zeta.
  pose proof (len_nonneg x). set (s := (len x + n - 1) `mod` n).
  assert (0 ≤ s < n) as Hs by (by apply Z.mod_pos_bound).
  assert (∃ q, len x + n - 1 = n * q + s) as [q Hq] by (exists ((len x + n - 1) / n); apply Z.div_mod; lia).
  assert ((len x + (n - (s + 1))) `mod` n = 0) as Hm.
  { replace (len x + (n - (s + 1))) with (q * n) by lia. by apply Z_mod_mult. }
  destruct (Z.leb_spec (n - (s + 1)) 0).
  - exists 0%nat. rewrite app_nil_r. split_and!; [done|lia|]. by replace (n - (s + 1)) with 0 in Hm by lia; rewrite Z.add_0_r in Hm.
  - exists (Z.to_nat (n - (s + 1))). split_and!; [done|lia|]. rewrite len_app, len_replicate, Z2Nat.id by lia. done.
Qed.

Lemma zero_padding_witness :
  ∃ z, ZeroPadding [1; 2; 3; 4; 5] 4 = [1; 2; 3; 4; 5] ++ replicate z 0 ∧ Z.of_nat z < 4 ∧
    len (ZeroPadding [1; 2; 3; 4; 5] 4) `mod` 4 = 0.
Proof. apply (zero_padding [1; 2; 3; 4; 5] 4). lia. Defined.

(** ** Reports *)

(** The result of an item is about that item. *)
Definition result_of (HashData : list Z → Hash) (item : Item) (wr : WorkResult) : Prop :=
  ServiceId wr = item_ServiceId item ∧ ServiceHashCode wr = item_CodeHash item ∧
  PayloadHash wr = HashData (payload_bytes item) ∧
  match result_Output wr with ResultOutput _ => True | ResultError e => e = UnexpectedTermination end.

Lemma final_exported_length exported expected segs :
  0 ≤ expected → final_exported exported expected = Ok segs → len segs = expected.
Proof.
  intros He. unfold final_exported. cbv zeta. destruct (Z.ltb_spec (len exported) expected).
  - intros [= <-]. rewrite len_app, len_replicate, Z2Nat.id by lia. lia.
  - destruct (Z.ltb_spec expected (len exported)).
    + rewrite go_slice_ok by lia. intros [= <-]. unfold len in *. rewrite drop_0, length_take. lia.
    + intros [= <-]. lia.
Qed.

Section evaluate.
Context (HashData : list Z → Hash) (c : Computation).

Lemma refine_item_spec wp out index off item wr segs :
  0 ≤ ExportedSegments item → refine_item HashData c wp out index off item = Ok (wr, segs) →
  result_of HashData item wr ∧ len segs = ExportedSegments item.
Proof.
  intros He H. unfold refine_item in H. go_inv.
  destruct (Refine_ c _ _ _ _ _) as [[o exported]|e|] eqn:Hr; [| |done]; go_inv.
  - split; [by unfold result_of|by eapply final_exported_length].
  - split; [by unfold result_of|]. rewrite len_replicate. lia.
Qed.

Lemma refine_items_spec wp out index off items wrs segs :
  Forall (λ w, 0 ≤ ExportedSegments w) items →
  refine_items HashData c wp out index off items = Ok (wrs, segs) →
  Forall2 (result_of HashData) items wrs ∧ len segs = total ExportedSegments items.
Proof.
  intros He. revert index off wrs segs. induction He as [|item items Hit _ IH]; intros index off wrs segs H.
  { simpl in H. simplify_eq. split; [constructor|done]. }
  cbn [refine_items] in H. go_inv.
  match goal with H : refine_item _ _ _ _ _ _ _ = Ok _ |- _ => apply refine_item_spec in H as (Hr & Hl); [|done] end.
  match goal with H : refine_items _ _ _ _ _ _ _ = Ok _ |- _ => apply IH in H as (Hrs & Hls) end.
  split; [by constructor|rewrite len_app; simpl; lia].
Qed.
End evaluate.

(** *** The specification of what is available *)

Lemma copy_shards_length start j shards rows out :
  Erasure.copy_shards start j shards rows = Ok out → length out = length rows.
Proof.
  revert j out. induction rows as [|row rows IH]; intros j out H; simpl in H; [by simplify_eq|].
  go_inv. simpl. f_equal. by eapply IH.
Qed.

Lemma encode_chunks_length encode e i chunks rows out :
  Erasure.encode_chunks encode e i chunks rows = Ok out → length out = length rows.
Proof.
  revert i rows. induction chunks as [|ch chunks IH]; intros i rows H; simpl in H; [by simplify_eq|].
  go_inv. match goal with H : Erasure.copy_shards _ _ _ _ = Ok _ |- _ => apply copy_shards_length in H as <- end.
  by eapply IH.
Qed.

(** Encoding never gives an empty list of shards. *)
Lemma shards_root_some HashData encode data : shards_root HashData encode data ≠ Ok None.
Proof.
  unfold shards_root. intros H. apply rbind_Ok_inv in H as (shards & Hs & H). apply map_err_Ok_inv in Hs.
  assert (length shards = 1023%nat) as Hl.
  { unfold Erasure.Encode in Hs. destruct (len data =? 0); [done|]. destruct (_ <? _); [done|].
    apply rbind_Ok_inv in Hs as (e & _ & Hs). apply rbind_Ok_inv in Hs as (chunks & _ & Hs). cbv zeta in Hs.
    destruct (_ =? 0); [done|]. apply encode_chunks_length in Hs. rewrite Hs. apply length_replicate. }
  unfold len in H. rewrite Hl in H. change (Z.of_nat 1023 =? 0) with false in H.
  by apply rbind_Ok_inv in H as (r & _ & H).
Qed.

Lemma specifier_segments HashData encode h blob segs spec :
  computeAvailabilitySpecifier HashData encode h blob segs = Ok spec →
  0 < len segs ∧ SegmentCount spec = len segs `mod` 2 ^ 16 ∧ WorkPackageHash spec = h ∧
  AuditableWorkBundleLength spec = len blob.
Proof.
  unfold computeAvailabilitySpecifier. cbv zeta. destruct (Z.ltb_spec MaxUint32 (len blob)); [done|]. intros H1.
  apply rbind_Ok_inv in H1 as (e & _ & H1). apply rbind_Ok_inv in H1 as ([b|] & Hb & H1);
    [|by apply shards_root_some in Hb].
  apply rbind_Ok_inv in H1 as (pp & Hpp & H1). apply rbind_Ok_inv in H1 as ([s|] & Hs & H1);
    [|by apply shards_root_some in Hs].
  apply rbind_Ok_inv in H1 as (u & _ & H1). injection H1 as <-. unfold ComputePagedProofs in Hpp.
  pose proof (len_nonneg segs). pose proof (len_nonneg blob). destruct (Z.eqb_spec (len segs) 0); [done|].
  split_and!; [lia|done|done|]. simpl. unfold uint32. rewrite wrapU_id; [done|].
  unfold inU, MaxUint32 in *. lia.
Qed.

(** C17: A package that is evaluated gets one result per item, in the order of the
    items, with the item's service, code hash and payload hash and either an output
    or [UnexpectedTermination]; its specification counts the declared exports, as
    long as these are less than [2^16], and names the hash of the encoded package;
    the report has the authorizer's output, the context and core of the package and
    the segment roots of the computation. *)
Theorem evaluated_report HashData encode c wp core report :
  Forall (λ w, 0 ≤ ExportedSegments w) (WorkItems wp) →
  EvaluateWorkPackage HashData encode c wp core = Ok report →
  Forall2 (result_of HashData) (WorkItems wp) (WorkResults report) ∧
  (total ExportedSegments (WorkItems wp) < 2 ^ 16 →
   SegmentCount (Specification report) = total ExportedSegments (WorkItems wp)) ∧
  (∃ b, Marshal_package wp = Ok b ∧ WorkPackageHash (Specification report) = HashData b) ∧
  Auth c wp core = Ok (report_Output report) ∧
  RefContext report = pkg_Context wp ∧ CoreIndex report = core ∧
  SegmentRootLookup report = SegmentRoots c.
Proof.
  intros He H. unfold EvaluateWorkPackage in H.
  do 4 apply rbind_Ok_inv in H as (? & _ & H). apply rbind_Ok_inv in H as (blob & _ & H).
  apply rbind_Ok_inv in H as (out & Hout & H). apply rbind_Ok_inv in H as ([wrs segs] & Hitems & H).
  apply rbind_Ok_inv in H as (b & Hb & H). apply map_err_Ok_inv in Hb.
  apply rbind_Ok_inv in H as (spec & Hspec & H). injection H as <-. cbn.
  apply refine_items_spec in Hitems as (Hr & Hl); [|done].
  apply specifier_segments in Hspec as (Hpos & Hcount & Hh & _). rewrite <- Hl. split_and!; eauto.
  intros Hlt. rewrite Hcount. apply Z.mod_small. lia.
Qed.

(** A computation that authorizes everything and exports nothing. *)
Definition demo_computation : Computation :=
  MkComputation (λ _ _, Ok [1]) (λ _ _ _ _ _, Ok ([2], [])) ∅ ∅ ∅.

Definition export_item : Item := MkItem 7 ZeroHash (Some [1; 2]) 10 5 [] [] 2.
Definition export_package : Package := MkPackage [4] 7 ZeroHash [5] demo_context [export_item].

Lemma export_evaluates :
  ∃ report, EvaluateWorkPackage flat_hash repeat_encode demo_computation export_package 1 = Ok report.
Proof.
  assert (is_Some (res_value
    (EvaluateWorkPackage flat_hash repeat_encode demo_computation export_package 1))) as [report H].
  { apply (bool_decide_unpack _). vm_compute. exact I. }
  exists report. destruct (EvaluateWorkPackage _ _ _ _ _); simpl in H; by simplify_eq.
Qed.

Lemma evaluated_report_witness :
  ∃ report, EvaluateWorkPackage flat_hash repeat_encode demo_computation export_package 1 = Ok report ∧
    SegmentCount (Specification report) = 2 ∧ length (WorkResults report) = 1%nat.
Proof.
  destruct export_evaluates as [report H]. exists report.
  assert (Forall (λ w, 0 ≤ ExportedSegments w) (WorkItems export_package)) as He
    by (constructor; [simpl; lia|constructor]).
  destruct (evaluated_report flat_hash repeat_encode demo_computation export_package 1 report He H)
    as (Hr & Hc & _).
  split; [exact H|]. split; [by apply Hc|]. symmetry. exact (Forall2_length _ _ _ Hr).
Defined.

(** ** Guarantees *)

(** Sorting by the validator index, when the indices differ. *)
Definition by_index (a b : CredentialSignature) : Prop := cred_ValidatorIndex a < cred_ValidatorIndex b.

Lemma sort_by_index l :
  NoDup (cred_ValidatorIndex <$> l) → StronglySorted by_index (sort_by credential_less l).
Proof.
  intros Hnd. pose proof (sort_by_sorted cred_ValidatorIndex l) as Hs.
  change (λ a b, cred_ValidatorIndex a <? cred_ValidatorIndex b) with credential_less in Hs.
  rewrite <- (sort_by_perm credential_less l) in Hnd. revert Hnd.
  induction Hs as [|x k Hk IH Hx]; intros Hnd; [constructor|]. apply NoDup_cons in Hnd as [Hn Hnd].
  constructor; [by apply IH|]. rewrite Forall_forall in Hx. apply Forall_forall. intros y Hy.
  specialize (Hx y Hy). unfold by_index. enough (cred_ValidatorIndex x ≠ cred_ValidatorIndex y) by lia.
  intros Heq. apply Hn. rewrite Heq. by apply list_elem_of_fmap_2.
Qed.

(** [cred] is the last of [l] with its index. *)
Definition last_of (l : list CredentialSignature) (cred : CredentialSignature) : Prop :=
  ∃ l1 l2, l = l1 ++ cred :: l2 ∧ cred_ValidatorIndex cred ∉ cred_ValidatorIndex <$> l2.

Lemma credential_map_last l k cred :
  credential_map l ∅ !! k = Some cred ↔ cred_ValidatorIndex cred = k ∧ last_of l cred.
Proof.
  unfold credential_map, last_of. induction l as [|x l IH] using rev_ind.
  { simpl. split; [done|]. intros (_ & [] & ? & ? & _); by simplify_list_eq. }
  rewrite foldl_app. simpl. destruct (decide (cred_ValidatorIndex x = k)) as [<-|Hne].
  - rewrite lookup_insert_eq. split.
    + intros [= ->]. split; [done|]. exists l, []. split; [done|]. set_solver.
    + intros (Hk & l1 & l2 & Heq & Hn). destruct l2 as [|y l2 _] using rev_ind.
      { apply app_inj_tail in Heq as [_ ->]. done. }
      rewrite app_comm_cons, app_assoc in Heq. apply app_inj_tail in Heq as [_ ->].
      rewrite Hk, fmap_app in Hn. set_solver.
  - rewrite lookup_insert_ne by done. rewrite IH. split; intros (Hk & l1 & l2 & Heq & Hn).
    + split; [done|]. exists l1, (l2 ++ [x]). subst l. rewrite <- app_assoc. split; [done|].
      rewrite fmap_app. set_solver.
    + split; [done|]. destruct l2 as [|y l2 _] using rev_ind.
      { apply app_inj_tail in Heq as [_ ->]. done. }
      rewrite app_comm_cons, app_assoc in Heq. apply app_inj_tail in Heq as [-> ->].
      exists l1, l2. split; [done|]. rewrite fmap_app in Hn. set_solver.
Qed.

Lemma credential_map_indices l :
  cred_ValidatorIndex <$> (map_to_list (credential_map l ∅)).*2 = (map_to_list (credential_map l ∅)).*1.
Proof.
  rewrite <- list_fmap_compose. apply list_fmap_ext. intros i [k cred] Hi. simpl.
  apply list_elem_of_lookup_2, elem_of_map_to_list, credential_map_last in Hi. by destruct Hi.
Qed.

(** Merging credentials keeps, for every validator index, the last credential
    given for it, received ones over existing ones, and lists them in strictly
    increasing order of the index. *)
Theorem merged_credentials existing received :
  StronglySorted by_index (mergeAndSortCredentials existing received) ∧
  ∀ cred, cred ∈ mergeAndSortCredentials existing received ↔ last_of (existing ++ received) cred.
Proof.
  unfold mergeAndSortCredentials. cbv zeta.
  replace (credential_map received (credential_map existing ∅)) with (credential_map (existing ++ received) ∅)
    by apply foldl_app. split.
  - apply sort_by_index. rewrite credential_map_indices. apply NoDup_fst_map_to_list.
  - intros cred. rewrite sort_by_perm, list_elem_of_fmap. split.
    + intros ([k ?] & -> & H). apply elem_of_map_to_list, credential_map_last in H. simpl. by destruct H.
    + intros H. exists (cred_ValidatorIndex cred, cred). split; [done|].
      apply elem_of_map_to_list, credential_map_last. done.
Qed.

(** No guarantee is ever generated: processing a package merges the
    guarantor's own credential with an empty list, and a guarantee takes two or
    three of them.  A package that is authorized, evaluated and small enough ends
    in that error. *)
Theorem guarantee_never_produced HashData encode Sign now c wp core i key pool :
  (∀ g, ProcessWorkPackageGuarantee HashData encode Sign now c wp core i key pool ≠ Ok g) ∧
  ∀ report h,
    validateWorkPackageAuthorization wp core pool = Ok () →
    EvaluateWorkPackage HashData encode c wp core = Ok report → OutputSizeIsValid report = true →
    hashCoreIndexWithWorkReport HashData report core = Ok h →
    ProcessWorkPackageGuarantee HashData encode Sign now c wp core i key pool =
      Err (StErr "must have 2-3 valid signatures").
Proof.
  assert (∀ x, mergeAndSortCredentials [x] [] = [x]) as Hm.
  { intros x. unfold mergeAndSortCredentials, credential_map. simpl. by rewrite insert_empty, map_to_list_singleton. }
  split.
  - intros g H. unfold ProcessWorkPackageGuarantee in H.
    apply rbind_Ok_inv in H as (? & _ & H). apply rbind_Ok_inv in H as (report & _ & H).
    destruct (negb _); [done|]. apply rbind_Ok_inv in H as (? & _ & H). by rewrite Hm in H.
  - intros report h Ha He Hs Hh. unfold ProcessWorkPackageGuarantee.
    rewrite Ha. cbn [rbind]. rewrite He. cbn [rbind]. rewrite Hs. simpl. by rewrite Hh; simpl; rewrite Hm.
Qed.

Lemma guarantee_never_produced_witness :
  (∀ g, ProcessWorkPackageGuarantee flat_hash repeat_encode (λ _ _, []) 9 demo_computation export_package
     1 2 [] [[]; [ZeroHash]] ≠ Ok g) ∧
  validateWorkPackageAuthorization export_package 1 [[]; [ZeroHash]] = Ok () ∧
  ∃ report, EvaluateWorkPackage flat_hash repeat_encode demo_computation export_package 1 = Ok report.
Proof.
  split; [apply guarantee_never_produced|]. split; [vm_compute; reflexivity|]. exact export_evaluates.
Defined.
