(* ===== verification/StateSerialization.v ===== *)
(** * State serialization

    [internal/state/merkle]: the keys of the state's components
    ([serialization_utils.go]), their encoding to a map from keys to bytes
    ([serialization.go]), and the root of that map ([merkle.go]).  Go iterates over
    maps in an order that differs from run to run: [order] rearranges the entries
    of every map that is iterated over. *)
From S2P Require Export Guarantees TrieDb.

(** ** The types and values given to the codec *)

Definition cores : nat := Z.to_nat TotalNumberOfCores.
Definition slots : nat := Z.to_nat TimeslotsPerEpoch.
Definition timeslot_type : gotype := TPrim true Uint32.
Definition service_id_type : gotype := TPrim true Uint32.

Definition CoreAuthorizersPool_type : gotype := TArray cores (TSlice hash_type).
Definition PendingAuthorizersQueues_type : gotype :=
  TArray cores (TArray (Z.to_nat PendingAuthorizersQueueSize) hash_type).
Definition BlockState_type : gotype := TStruct
  [(field "HeaderHash", hash_type); (field "StateRoot", hash_type);
   (field "AccumulationResultMMR", TSlice (TPtr hash_type));
   (field "WorkReportHashes", TMap hash_type hash_type)].
Definition EntropyPool_type : gotype := TArray 4 hash_type.
Definition ValidatorKey_type : gotype := TStruct
  [(field "Bandersnatch", octets_type 32); (field "Ed25519", TPublicKey);
   (field "Bls", octets_type 144); (field "Metadata", octets_type 128)].
Definition ValidatorsData_type : gotype :=
  TArray (Z.to_nat NumberOfValidators) (TPtr ValidatorKey_type).
Definition Assignment_type : gotype := TStruct
  [(field "WorkReport", TPtr report_type); (field "Time", timeslot_type)].
Definition CoreAssignments_type : gotype := TArray cores (TPtr Assignment_type).
Definition PrivilegedServices_type : gotype := TStruct
  [(field "ManagerServiceId", service_id_type); (field "AssignServiceId", service_id_type);
   (field "DesignateServiceId", service_id_type);
   (field "AmountOfGasPerServiceId", TMap service_id_type (TPrim false Uint64))].
Definition ValidatorStatistics_type : gotype := TStruct
  [(field "NumOfBlocks", TPrim false Uint32); (field "NumOfTickets", TPrim false Uint64);
   (field "NumOfPreimages", TPrim false Uint64); (field "NumOfBytesAllPreimages", TPrim false Uint64);
   (field "NumOfGuaranteedReports", TPrim false Uint64);
   (field "NumOfAvailabilityAssurances", TPrim false Uint64)].
Definition ValidatorStatisticsState_type : gotype :=
  TArray 2 (TArray (Z.to_nat NumberOfValidators) ValidatorStatistics_type).
Definition hash_set_type : gotype := TMap hash_type (TStruct []).
Definition AccumulationQueue_type : gotype := TArray slots (TSlice (TStruct
  [(field "WorkReport", report_type); (field "Dependencies", hash_set_type)])).
Definition AccumulationHistory_type : gotype := TArray slots hash_set_type.
(** [ValueAt] of [safrole.TicketAccumulator] *)
Definition SealingKeySeries_type : gotype := TEnum ErrUnsupportedEnumTypeValue
  [Some (TArray slots ticket_type); Some (TArray slots (octets_type 32))].
Definition SafroleState_type : gotype := TStruct
  [(field "NextValidators", ValidatorsData_type); (field "TicketAccumulator", TSlice ticket_type);
   (field "SealingKeySeries", SealingKeySeries_type); (field "RingCommitment", octets_type 144)].

Definition hash_map_value (m : gmap Hash Hash) : goval :=
  VMap ((λ kv, (hash_value kv.1, hash_value kv.2)) <$> map_to_list m).
Definition hash_set_value (s : gset Hash) : goval :=
  VMap ((λ h, (hash_value h, VSeq [])) <$> elements s).
Definition BlockState_value (b : BlockState) : goval := VSeq
  [hash_value (block_HeaderHash b); hash_value (StateRoot b);
   VSeq ((λ p, ptr_value (hash_value <$> p)) <$> AccumulationResultMMR b);
   hash_map_value (WorkReportHashes b)].
Definition ValidatorKey_value (k : ValidatorKey) : goval := VSeq
  [hash_value (Bandersnatch k); VBytes (Ed25519 k); hash_value (Bls k); hash_value (Metadata k)].
Definition ValidatorsData_value (v : ValidatorsData) : goval :=
  VSeq ((λ k, ptr_value (ValidatorKey_value <$> k)) <$> v).
Definition Assignment_value (a : Assignment) : goval := VSeq
  [ptr_value (report_value <$> assigned_WorkReport a); VNum (Time a)].
Definition PrivilegedServices_value (p : PrivilegedServices) : goval := VSeq
  [VNum (ManagerServiceId p); VNum (AssignServiceId p); VNum (DesignateServiceId p);
   VMap ((λ kv, (VNum kv.1, VNum kv.2)) <$> map_to_list (AmountOfGasPerServiceId p))].
Definition ValidatorStatistics_value (s : ValidatorStatistics) : goval := VSeq
  [VNum (NumOfBlocks s); VNum (NumOfTickets s); VNum (NumOfPreimages s);
   VNum (NumOfBytesAllPreimages s); VNum (NumOfGuaranteedReports s);
   VNum (NumOfAvailabilityAssurances s)].
Definition QueuedReport_value (q : QueuedReport) : goval := VSeq
  [report_value (queued_WorkReport q); hash_set_value (Dependencies q)].
(** [IndexValue], which has no answer for an accumulator that was never set *)
Definition SealingKeySeries_value (k : option TicketsOrKeys) : goval :=
  match k with
  | Some (TicketsBodies ts) => VEnum 0 (Some (VSeq (ticket_value <$> ts)))
  | Some (EpochKeys ks) => VEnum 1 (Some (VSeq (hash_value <$> ks)))
  | None => VNil
  end.
Definition SafroleState_value (s : SafroleState) : goval := VSeq
  [ValidatorsData_value (NextValidators s); VSeq (ticket_value <$> TicketAccumulator s);
   SealingKeySeries_value (SealingKeySeries s); hash_value (RingCommitment s)].

(** ** Keys ([serialization_utils.go]) *)

Definition Marshal_st (t : gotype) (v : goval) : res st_error (list Z) := map_err StJam (Marshal t v).

Definition generateStateKeyBasic (i : Z) : Hash := i :: replicate 31 0.

Definition generateStateKeyInterleavedBasic (i s : Z) : res st_error Hash :=
  let! encodedServiceId := Marshal_st service_id_type (VNum s) in
  let! e0 := go_index encodedServiceId 0 in
  let! e1 := go_index encodedServiceId 1 in
  let! e2 := go_index encodedServiceId 2 in
  let! e3 := go_index encodedServiceId 3 in
  Ok ([i; e0; 0; e1; 0; e2; 0; e3] ++ replicate 24 0).

Definition generateStateKeyInterleaved (s : Z) (h : Hash) : res st_error Hash :=
  let! encodedServiceId := Marshal_st service_id_type (VNum s) in
  let! e0 := go_index encodedServiceId 0 in let! h0 := go_index h 0 in
  let! e1 := go_index encodedServiceId 1 in let! h1 := go_index h 1 in
  let! e2 := go_index encodedServiceId 2 in let! h2 := go_index h 2 in
  let! e3 := go_index encodedServiceId 3 in let! h3 := go_index h 3 in
  Ok ([e0; h0; e1; h1; e2; h2; e3; h3] ++ go_copy (replicate 24 0) (drop 4 h)).

Definition combineEncoded (components : list (list Z)) : list Z := mjoin components.

(** Equal elements are the same bytes, so every sorting algorithm gives this. *)
Definition sortByteSlicesCopy (slice : list (list Z)) : list (list Z) := sort_by bytes_less slice.

(** ** Serialization ([serialization.go]) *)

Definition SerializedState : Type := gmap Hash (list Z).

Section serialize.
Context (HashData : list Z → Hash) (order : ∀ A, list A → list A).

Definition iterate {K A} `{Countable K} (m : gmap K A) : list (K * A) := order _ (map_to_list m).

(** [for ... { if err := f(...); err != nil { return err } }] *)
Fixpoint put_each {A} (f : A → SerializedState → res st_error SerializedState) (l : list A)
    (serializedState : SerializedState) : res st_error SerializedState :=
  match l with
  | [] => Ok serializedState
  | a :: l => let! serializedState := f a serializedState in put_each f l serializedState
  end.

(** [81 + key.Length] is on [uint32]. *)
Definition calculateFootprintSize (storage : gmap Hash (list Z))
    (preimageMeta : gmap PreImageMetaKey (list Z)) : Z :=
  let totalSize :=
    foldl (λ total (e : PreImageMetaKey * list Z), uint64 (total + uint32 (81 + e.1.2))) 0
      (iterate preimageMeta) in
  foldl (λ total (e : Hash * list Z), uint64 (total + uint64 (32 + len e.2))) totalSize
    (iterate storage).

Definition serializeField (f : Z * gotype * goval) (serializedState : SerializedState)
  : res st_error SerializedState :=
  let '(key, t, v) := f in
  let stateKey := generateStateKeyBasic key in
  let! encodedValue := Marshal_st t v in
  Ok (<[stateKey := encodedValue]> serializedState).

Definition basicFields (s : State) : list (Z * gotype * goval) :=
  let v := keys_of (st_ValidatorState s) in
  [(1, CoreAuthorizersPool_type,
      VSeq ((λ p, VSeq (hash_value <$> p)) <$> st_CoreAuthorizersPool s));
   (2, PendingAuthorizersQueues_type,
      VSeq ((λ p, VSeq (hash_value <$> p)) <$> st_PendingAuthorizersQueues s));
   (3, TSlice BlockState_type, VSeq (BlockState_value <$> st_RecentBlocks s));
   (6, EntropyPool_type, VSeq (hash_value <$> st_EntropyPool s));
   (7, ValidatorsData_type, ValidatorsData_value (QueuedValidators v));
   (8, ValidatorsData_type, ValidatorsData_value (CurrentValidators v));
   (9, ValidatorsData_type, ValidatorsData_value (ArchivedValidators v));
   (10, CoreAssignments_type,
      VSeq ((λ a, ptr_value (Assignment_value <$> a)) <$> st_CoreAssignments s));
   (11, timeslot_type, VNum (st_TimeslotIndex s));
   (12, PrivilegedServices_type, PrivilegedServices_value (st_PrivilegedServices s));
   (13, ValidatorStatisticsState_type,
      VSeq [VSeq (ValidatorStatistics_value <$> (st_ValidatorStatistics s).1);
            VSeq (ValidatorStatistics_value <$> (st_ValidatorStatistics s).2)]);
   (14, AccumulationQueue_type,
      VSeq ((λ q, VSeq (QueuedReport_value <$> q)) <$> st_AccumulationQueue s));
   (15, AccumulationHistory_type, VSeq (hash_set_value <$> st_AccumulationHistory s))].

Definition serializeSafroleState (s : State) (serializedState : SerializedState)
  : res st_error SerializedState :=
  let! encodedSafroleState :=
    Marshal_st SafroleState_type (SafroleState_value (SafroleOf (st_ValidatorState s))) in
  Ok (<[generateStateKeyBasic 4 := encodedSafroleState]> serializedState).

Definition hashes_value (hs : list Hash) : goval := VSeq (hash_value <$> sortByteSlicesCopy hs).
Definition keys_value (ks : list (list Z)) : goval := VSeq (VBytes <$> sortByteSlicesCopy ks).

Definition serializeJudgements (s : State) (serializedState : SerializedState)
  : res st_error SerializedState :=
  let j := st_PastJudgements s in
  let! encodedGoodWorkReports := Marshal_st (TSlice hash_type) (hashes_value (GoodWorkReports j)) in
  let! encodedBadWorkReports := Marshal_st (TSlice hash_type) (hashes_value (BadWorkReports j)) in
  let! encodedWonkyWorkReports := Marshal_st (TSlice hash_type) (hashes_value (WonkyWorkReports j)) in
  let! encodedOffendingValidators :=
    Marshal_st (TSlice TPublicKey) (keys_value (OffendingValidators j)) in
  let combined := combineEncoded [encodedGoodWorkReports; encodedBadWorkReports;
                                  encodedWonkyWorkReports; encodedOffendingValidators] in
  Ok (<[generateStateKeyBasic 5 := combined]> serializedState).

(** A storage item or a preimage: [prefix] is 4 bytes, [rest] 28. *)
Definition putItem (serviceId : Z) (prefix rest value : list Z) (serializedState : SerializedState)
  : res st_error SerializedState :=
  let! encodedValue := Marshal_st TBytes (VBytes value) in
  let combined := go_copy (replicate 4 0) prefix ++ go_copy (replicate 28 0) rest in
  let! stateKey := generateStateKeyInterleaved serviceId combined in
  Ok (<[stateKey := encodedValue]> serializedState).

(** The key with the length and the hash of the timeslots is computed and not
    used: the item goes under the hash of its key. *)
Definition putMeta (serviceId : Z) (e : PreImageMetaKey * list Z) (serializedState : SerializedState)
  : res st_error SerializedState :=
  let '((hash, length), preImageHistoricalTimeslots) := e in
  let! _ := Marshal_st (TPrim true Uint32) (VNum length) in
  let! encodedPreImageHistoricalTimeslots :=
    Marshal_st (TSlice timeslot_type) (VSeq (VNum <$> preImageHistoricalTimeslots)) in
  let! stateKey := generateStateKeyInterleaved serviceId hash in
  Ok (<[stateKey := encodedPreImageHistoricalTimeslots]> serializedState).

(** [math.MaxUint32] is an [int] for the codec, which encodes it at variable
    length. *)
Definition serializeStorageAndPreimage (serviceId : Z) (serviceAccount : ServiceAccount)
    (serializedState : SerializedState) : res st_error SerializedState :=
  let! encodedMaxUint32 := Marshal_st (TPrim false Int) (VNum MaxUint32) in
  let! serializedState :=
    put_each (λ e : Hash * list Z, putItem serviceId encodedMaxUint32 (take 28 e.1) e.2)
      (iterate (Storage serviceAccount)) serializedState in
  let! encodedMaxUint32MinusOne := Marshal_st (TPrim false Int) (VNum (MaxUint32 - 1)) in
  let! serializedState :=
    put_each (λ e : Hash * list Z, putItem serviceId encodedMaxUint32MinusOne (take 28 (drop 1 e.1)) e.2)
      (iterate (PreimageLookup serviceAccount)) serializedState in
  put_each (putMeta serviceId) (iterate (PreimageMeta serviceAccount)) serializedState.

Definition serializeServiceAccount (serviceId : Z) (serviceAccount : ServiceAccount)
    (serializedState : SerializedState) : res st_error SerializedState :=
  let a := serviceAccount in
  let! encodedCodeHash := Marshal_st hash_type (hash_value (CodeHash a)) in
  let! encodedBalance := Marshal_st (TPrim false Uint64) (VNum (Balance a)) in
  let! encodedGasLimitForAccumulator :=
    Marshal_st (TPrim false Uint64) (VNum (GasLimitForAccumulator a)) in
  let! encodedGasLimitOnTransfer := Marshal_st (TPrim false Uint64) (VNum (GasLimitOnTransfer a)) in
  let totalFootprintSize := calculateFootprintSize (Storage a) (PreimageMeta a) in
  let! encodedFootprintSize := Marshal_st (TPrim false Uint64) (VNum totalFootprintSize) in
  let footprintItems := 2 * Z.of_nat (size (PreimageMeta a)) + Z.of_nat (size (Storage a)) in
  let! encodedFootprintItems := Marshal_st (TPrim false Int) (VNum footprintItems) in
  let combined := combineEncoded [encodedCodeHash; encodedBalance; encodedGasLimitForAccumulator;
                                  encodedGasLimitOnTransfer; encodedFootprintSize;
                                  encodedFootprintItems] in
  let! stateKey := generateStateKeyInterleavedBasic 255 serviceId in
  serializeStorageAndPreimage serviceId a (<[stateKey := combined]> serializedState).

Definition SerializeState (s : State) : res st_error SerializedState :=
  let! serializedState := put_each serializeField (basicFields s) ∅ in
  let! serializedState := serializeSafroleState s serializedState in
  let! serializedState := serializeJudgements s serializedState in
  put_each (λ e : Z * ServiceAccount, serializeServiceAccount e.1 e.2) (iterate (st_Services s))
    serializedState.

(** ** The root of the state ([merkle.go]) *)

Definition MerklizeState (kv : KVStore) (calls : nat) (s : State) (db : DB kv)
  : option (res (st_error + trie_error) Hash * DB kv) :=
  match SerializeState s with
  | Ok serializedState =>
      let kvs := iterate serializedState in
      match MerklizeAndCommit kv HashData calls db kvs with
      | Some (r, db') => Some (map_err inr r, db')
      | None => None
      end
  | Err e => Some (Err (inl e), db)
  | RuntimePanic => Some (RuntimePanic, db)
  end.
End serialize.
