(* ===== verification/StateTheorems.v ===== *)
(** * State serialization: theorems

    The keys as functions of service and hash, the entries of a state as a list,
    the proof that the loops of the code put these entries into the map, and what
    can be read back from it. *)
From S2P Require Import StateSerialization JamRoundtrip MerkleTheorems.

(** ** Encodings *)

(** The bytes of an encodable value. *)
Definition encoding (t : gotype) (v : goval) : list Z :=
  match Marshal t v with Ok b => b | _ => [] end.

Lemma Marshal_st_ok t v : encodable t → well_typed t v → Marshal_st t v = Ok (encoding t v).
Proof.
  intros Ht Hv. destruct (marshal_roundtrip t Ht v Hv) as (bs & Hbs & _).
  unfold Marshal_st, encoding, Marshal. by rewrite Hbs.
Qed.

Lemma encoding_decodes t v rest :
  encodable t → well_typed t v → unmarshal t (encoding t v ++ rest) = Ok (canon t v, rest).
Proof.
  intros Ht Hv. destruct (marshal_roundtrip t Ht v Hv) as (bs & Hbs & Hdec).
  unfold encoding, Marshal. rewrite Hbs. apply Hdec.
Qed.

(** The types of the components can all be encoded. *)
Lemma basicFields_encodable s : Forall (λ f : Z * gotype * goval, encodable f.1.2) (basicFields s).
Proof. repeat (apply Forall_cons; split; [cbn; repeat split; (done || lia)|]). constructor. Qed.
Lemma SafroleState_encodable : encodable SafroleState_type.
Proof. cbn. repeat split; (done || lia). Qed.

(** ** Keys *)

Definition le32 (s : Z) : list Z := Z_to_little_endian 4 8 s.

Lemma le32_ok s : ∃ a b c d, le32 s = [a; b; c; d] ∧ bytes_ok [a; b; c; d].
Proof.
  pose proof (length_Z_to_little_endian 4 8 s ltac:(lia)) as Hl.
  pose proof (le_bytes_ok 4 s ltac:(lia)) as Hb. unfold le32.
  destruct (Z_to_little_endian 4 8 s) as [|a [|b [|c [|d [|]]]]]; simpl in Hl; try lia.
  by exists a, b, c, d.
Qed.

Lemma le32_inj s s' : inU 32 s → inU 32 s' → le32 s = le32 s' → s = s'.
Proof.
  intros Hs Hs' H. apply (f_equal (little_endian_to_Z 8)) in H. unfold le32 in H.
  rewrite !little_endian_to_Z_to_little_endian in H by lia.
  unfold inU in *. rewrite !Z.mod_small in H by lia. done.
Qed.

Lemma Marshal_service_id s : inU 32 s → Marshal_st service_id_type (VNum s) = Ok (le32 s).
Proof.
  intros Hs. unfold Marshal_st, Marshal, service_id_type, le32. cbn [marshal].
  rewrite <- serializeTrivialNatural_le by (unfold inU in *; lia). done.
Qed.

(** The bytes of service and hash in turn, then the hash up to byte 27. *)
Definition item_key (s : Z) (h : Hash) : Hash :=
  mjoin (zip_with (λ a b, [a; b]) (le32 s) h) ++ take 24 (drop 4 h).
Definition account_key (s : Z) : Hash :=
  255 :: drop 1 (mjoin ((λ b, [0; b]) <$> le32 s)) ++ replicate 24 0.

Lemma generateStateKeyInterleavedBasic_ok s :
  inU 32 s → generateStateKeyInterleavedBasic 255 s = Ok (account_key s).
Proof.
  intros Hs. unfold generateStateKeyInterleavedBasic, account_key. rewrite Marshal_service_id by done.
  destruct (le32_ok s) as (a & b & c & d & -> & _). done.
Qed.

(** A hash by its first four bytes. *)
Lemma hash_split (h : Hash) : length h = 32%nat →
  ∃ a b c d r, h = a :: b :: c :: d :: r ∧ length r = 28%nat.
Proof.
  intros H. destruct h as [|a [|b [|c [|d r]]]]; simpl in H; try lia. exists a, b, c, d, r. split; [done|lia].
Qed.

Lemma generateStateKeyInterleaved_ok s h :
  inU 32 s → length h = 32%nat → generateStateKeyInterleaved s h = Ok (item_key s h).
Proof.
  intros Hs Hh. unfold generateStateKeyInterleaved, item_key. rewrite Marshal_service_id by done.
  destruct (le32_ok s) as (a & b & c & d & -> & _).
  destruct (hash_split h Hh) as (h0 & h1 & h2 & h3 & r & -> & Hr).
  transitivity (Ok (E := st_error) ([a; h0; b; h1; c; h2; d; h3] ++ go_copy (replicate 24 0) r)); [reflexivity|].
  unfold go_copy. rewrite length_replicate, (drop_ge (replicate 24 0)), app_nil_r
    by (rewrite length_replicate; lia). done.
Qed.

Lemma item_key_inj s s' h h' :
  inU 32 s → inU 32 s' → length h = 32%nat → length h' = 32%nat →
  item_key s h = item_key s' h' ↔ s = s' ∧ take 28 h = take 28 h'.
Proof.
  intros Hs Hs' Hh Hh'. unfold item_key.
  destruct (hash_split h Hh) as (h0 & h1 & h2 & h3 & r & -> & Hr).
  destruct (hash_split h' Hh') as (h0' & h1' & h2' & h3' & r' & -> & Hr').
  destruct (le32_ok s) as (a & b & c & d & E & _), (le32_ok s') as (a' & b' & c' & d' & E' & _).
  rewrite E, E'. change (take 28 (?x :: ?y :: ?z :: ?u :: ?l)) with (x :: y :: z :: u :: take 24 l).
  cbn -[take]. rewrite !drop_0. split.
  - intros H. injection H. intros. subst. split; [|congruence].
    apply le32_inj; [done|done|by rewrite E, E'].
  - intros [-> H]. rewrite E in E'. injection E'. injection H. intros. congruence.
Qed.

Lemma item_key_ok s h : length h = 32%nat → bytes_ok h → length (item_key s h) = 32%nat ∧ bytes_ok (item_key s h).
Proof.
  intros Hh Hb. unfold item_key. destruct (hash_split h Hh) as (h0 & h1 & h2 & h3 & r & -> & Hr).
  destruct (le32_ok s) as (a & b & c & d & -> & Hle). cbn -[take]. rewrite drop_0.
  rewrite !Forall_cons in Hb, Hle. split.
  - cbn [length]. rewrite length_take. lia.
  - rewrite !Forall_cons. split_and!; try tauto. apply Forall_take. tauto.
Qed.

Lemma account_key_ok s : length (account_key s) = 32%nat ∧ bytes_ok (account_key s).
Proof.
  unfold account_key. destruct (le32_ok s) as (a & b & c & d & -> & Hle). split; [done|].
  rewrite !Forall_cons in Hle. cbn -[replicate]. rewrite !Forall_cons.
  assert (is_byte 255 ∧ is_byte 0) as [? ?] by (unfold is_byte, inU; lia).
  split_and!; try tauto. by apply Forall_replicate.
Qed.

(** ** Values of the state *)

(** The values that fit their Go types; a hash is an array of 32 bytes. *)
Definition hash_typed (h : Hash) : Prop := length h = 32%nat ∧ bytes_ok h.

Record account_typed (a : ServiceAccount) : Prop := AccountTyped {
  typed_code : hash_typed (CodeHash a);
  typed_numbers : inU 64 (Balance a) ∧ inU 64 (GasLimitForAccumulator a) ∧ inU 64 (GasLimitOnTransfer a);
  typed_sizes : inS 64 (2 * Z.of_nat (size (PreimageMeta a)) + Z.of_nat (size (Storage a)));
  typed_storage : map_Forall (λ h v, hash_typed h ∧ len v ≤ MaxUint32) (Storage a);
  typed_preimages : map_Forall (λ h v, hash_typed h ∧ len v ≤ MaxUint32) (PreimageLookup a);
  typed_meta : map_Forall (λ (k : PreImageMetaKey) ts, hash_typed k.1 ∧ inU 32 k.2 ∧
                 Forall (inU 32) ts ∧ inU 64 (len ts)) (PreimageMeta a);
}.

Record state_typed (s : State) : Prop := StateTyped {
  typed_fields : Forall (λ f : Z * gotype * goval, well_typed f.1.2 f.2) (basicFields s);
  typed_safrole : well_typed SafroleState_type (SafroleState_value (SafroleOf (st_ValidatorState s)));
  typed_judgements : let j := st_PastJudgements s in
    Forall (λ hs, Forall hash_typed hs ∧ inU 64 (len hs))
      [GoodWorkReports j; BadWorkReports j; WonkyWorkReports j] ∧
    Forall (λ k, len k = Ed25519PublicSize) (OffendingValidators j) ∧ inU 64 (len (OffendingValidators j));
  typed_services : map_Forall (λ id a, inU 32 id ∧ account_typed a) (st_Services s);
}.

Lemma hash_well_typed h : hash_typed h → well_typed hash_type (hash_value h).
Proof.
  intros [Hl Hb]. split; [|by rewrite length_fmap]. apply Forall_fmap. eapply Forall_impl; [exact Hb|]. done.
Qed.

(** ** The entries of a state *)

(** The sums that wrap around at every step. *)
Definition sum_of {A} (f : A → Z) (l : list A) : Z := foldr (λ a t, f a + t) 0 l.
Definition footprint (storage : gmap Hash (list Z)) (meta : gmap PreImageMetaKey (list Z)) : Z :=
  (sum_of (λ e : PreImageMetaKey * list Z, uint32 (81 + e.1.2)) (map_to_list meta) +
   sum_of (λ e : Hash * list Z, uint64 (32 + len e.2)) (map_to_list storage)) `mod` 2 ^ 64.

Definition account_bytes (a : ServiceAccount) : list Z :=
  encoding hash_type (hash_value (CodeHash a)) ++ encoding (TPrim false Uint64) (VNum (Balance a)) ++
  encoding (TPrim false Uint64) (VNum (GasLimitForAccumulator a)) ++
  encoding (TPrim false Uint64) (VNum (GasLimitOnTransfer a)) ++
  encoding (TPrim false Uint64) (VNum (footprint (Storage a) (PreimageMeta a))) ++
  encoding (TPrim false Int) (VNum (2 * Z.of_nat (size (PreimageMeta a)) + Z.of_nat (size (Storage a)))).

(** The first four bytes of the variable-length encodings of [2^32 - 1] and
    [2^32 - 2]. *)
Definition storage_prefix : list Z := [240; 255; 255; 255].
Definition preimage_prefix : list Z := [240; 254; 255; 255].

Definition storage_key (id : Z) (h : Hash) : Hash := item_key id (storage_prefix ++ take 28 h).
Definition preimage_key (id : Z) (h : Hash) : Hash := item_key id (preimage_prefix ++ take 28 (drop 1 h)).
Definition meta_entry (id : Z) (e : PreImageMetaKey * list Z) : Hash * list Z :=
  (item_key id e.1.1, encoding (TSlice timeslot_type) (VSeq (VNum <$> e.2))).
Definition bytes_encoding (v : list Z) : list Z := encoding TBytes (VBytes v).

Section entries.
Context (order : ∀ A, list A → list A).

Definition account_entries (e : Z * ServiceAccount) : list (Hash * list Z) :=
  let '(id, a) := e in
  (account_key id, account_bytes a) ::
  ((λ e, (storage_key id e.1, bytes_encoding e.2)) <$> iterate order (Storage a)) ++
  ((λ e, (preimage_key id e.1, bytes_encoding e.2)) <$> iterate order (PreimageLookup a)) ++
  (meta_entry id <$> iterate order (PreimageMeta a)).

Definition judgements_bytes (j : Judgements) : list Z :=
  encoding (TSlice hash_type) (hashes_value (GoodWorkReports j)) ++
  encoding (TSlice hash_type) (hashes_value (BadWorkReports j)) ++
  encoding (TSlice hash_type) (hashes_value (WonkyWorkReports j)) ++
  encoding (TSlice TPublicKey) (keys_value (OffendingValidators j)).

(** The components under their numbers, then the services. *)
Definition component_entries (s : State) : list (Hash * list Z) :=
  ((λ f : Z * gotype * goval, (generateStateKeyBasic f.1.1, encoding f.1.2 f.2)) <$> basicFields s) ++
  [(generateStateKeyBasic 4, encoding SafroleState_type (SafroleState_value (SafroleOf (st_ValidatorState s))));
   (generateStateKeyBasic 5, judgements_bytes (st_PastJudgements s))].
Definition ordered_entries (s : State) : list (Hash * list Z) :=
  component_entries s ++ mjoin (account_entries <$> iterate order (st_Services s)).
End entries.

(** The entries in the order of the maps' own lists. *)
Definition state_entries (s : State) : list (Hash * list Z) := ordered_entries (λ A l, l) s.

(** Writing entries one after the other. *)
Definition put_entries (es : list (Hash * list Z)) (m : SerializedState) : SerializedState :=
  foldl (λ m e, <[e.1 := e.2]> m) m es.

Lemma put_entries_app es es' m : put_entries (es ++ es') m = put_entries es' (put_entries es m).
Proof. apply foldl_app. Qed.

Lemma put_each_entries {A} (f : A → SerializedState → res st_error SerializedState)
    (E : A → list (Hash * list Z)) l m :
  Forall (λ a, ∀ m, f a m = Ok (put_entries (E a) m)) l →
  put_each f l m = Ok (put_entries (mjoin (E <$> l)) m).
Proof.
  intros H. revert m. induction H as [|a l Ha _ IH]; intros m; cbn [put_each]; [done|].
  rewrite Ha. cbn [rbind]. rewrite IH. simpl. by rewrite put_entries_app.
Qed.

Lemma mjoin_singletons {A B} (f : A → B) l : mjoin ((λ a, [f a]) <$> l) = f <$> l.
Proof. induction l as [|a l IH]; [done|]. cbn. f_equal. exact IH. Qed.

(** Without repeated keys the order does not matter. *)
Lemma put_entries_map es : NoDup es.*1 → put_entries es ∅ = list_to_map es.
Proof.
  intros Hnd. enough (∀ m, NoDup es.*1 → put_entries es m = list_to_map es ∪ m) as H.
  { rewrite H by done. apply (right_id_L ∅ (∪)). }
  clear Hnd. induction es as [|[k v] es IH]; intros m Hnd; simpl; [by rewrite (left_id_L ∅ (∪))|].
  apply NoDup_cons in Hnd as [Hk Hnd]. rewrite IH by done.
  etransitivity; [symmetry; apply insert_union_r|apply insert_union_l]. by apply not_elem_of_list_to_map_1.
Qed.

(** ** What the code computes *)

Lemma sum_of_perm {A} (f : A → Z) l l' : l ≡ₚ l' → sum_of f l = sum_of f l'.
Proof. induction 1; simpl; lia. Qed.

Lemma foldl_wrap {A} (f : A → Z) l t :
  foldl (λ t a, uint64 (t + f a)) (uint64 t) l = uint64 (t + sum_of f l).
Proof.
  revert t. induction l as [|a l IH]; intros t; simpl; [by rewrite Z.add_0_r|].
  replace (uint64 (uint64 t + f a)) with (uint64 (t + f a))
    by (unfold uint64, wrapU; by rewrite Z.add_mod_idemp_l by lia).
  rewrite IH. f_equal. lia.
Qed.

Class Reorders (order : ∀ A, list A → list A) : Prop := reorders A l : order A l ≡ₚ l.

Section order.
Context (order : ∀ A, list A → list A) `{!Reorders order}.

Lemma iterate_perm {K A} `{Countable K} (m : gmap K A) : iterate order m ≡ₚ map_to_list m.
Proof using Type*. unfold iterate. apply (reorders (order := order)). Qed.

Lemma Forall_iterate {K A} `{Countable K} (P : K → A → Prop) (Q : K * A → Prop) (m : gmap K A) :
  map_Forall P m → (∀ k a, P k a → Q (k, a)) → Forall Q (iterate order m).
Proof using Type*.
  intros HP HQ. rewrite iterate_perm. apply Forall_forall. intros [k a] Hin%elem_of_map_to_list.
  by apply HQ, HP.
Qed.

Lemma calculateFootprintSize_ok storage meta :
  calculateFootprintSize order storage meta = footprint storage meta.
Proof using Type*.
  unfold calculateFootprintSize, footprint. cbv zeta. change 0 with (uint64 0) at 1.
  rewrite (foldl_wrap (λ e : PreImageMetaKey * list Z, uint32 (81 + e.1.2))).
  rewrite (foldl_wrap (λ e : Hash * list Z, uint64 (32 + len e.2))). rewrite Z.add_0_l.
  by rewrite (sum_of_perm _ _ _ (iterate_perm storage)), (sum_of_perm _ _ _ (iterate_perm meta)).
Qed.

Lemma ordered_entries_perm s : ordered_entries order s ≡ₚ state_entries s.
Proof using Type*.
  unfold state_entries, ordered_entries. f_equiv.
  assert (∀ e, account_entries order e ≡ₚ account_entries (λ A l, l) e) as He.
  { intros [id a]. unfold account_entries. constructor. repeat f_equiv; apply iterate_perm. }
  rewrite (fmap_Permutation _ _ _ (iterate_perm (st_Services s))).
  assert (∀ l, mjoin (account_entries order <$> l) ≡ₚ mjoin (account_entries (λ A l, l) <$> l)) as Hl; [|apply Hl].
  intros l. induction l as [|e l IH]; simpl; [done|]. by rewrite He, IH.
Qed.

Lemma serializeField_ok f m :
  encodable f.1.2 → well_typed f.1.2 f.2 →
  serializeField f m = Ok (put_entries [(generateStateKeyBasic f.1.1, encoding f.1.2 f.2)] m).
Proof. destruct f as [[k t] v]. intros Ht Hv. unfold serializeField. by rewrite Marshal_st_ok. Qed.

Lemma sortByteSlicesCopy_perm l : sortByteSlicesCopy l ≡ₚ l.
Proof. apply sort_by_perm. Qed.

Lemma hashes_typed hs :
  Forall hash_typed hs → inU 64 (len hs) → well_typed (TSlice hash_type) (hashes_value hs).
Proof.
  intros Hh Hl. cbn [well_typed hashes_value]. split.
  - apply Forall_fmap. rewrite sortByteSlicesCopy_perm. eapply Forall_impl; [exact Hh|]. apply hash_well_typed.
  - unfold len in *. by rewrite length_fmap, sortByteSlicesCopy_perm.
Qed.

Lemma public_keys_typed ks :
  Forall (λ k, len k = Ed25519PublicSize) ks → inU 64 (len ks) → well_typed (TSlice TPublicKey) (keys_value ks).
Proof.
  intros Hk Hl. cbn [well_typed keys_value]. split.
  - apply Forall_fmap. rewrite sortByteSlicesCopy_perm. exact Hk.
  - unfold len in *. by rewrite length_fmap, sortByteSlicesCopy_perm.
Qed.

Lemma serializeJudgements_ok s m :
  state_typed s →
  serializeJudgements s m =
    Ok (put_entries [(generateStateKeyBasic 5, judgements_bytes (st_PastJudgements s))] m).
Proof.
  intros [_ _ (Hh & Hk & Hl) _]. rewrite !Forall_cons in Hh. destruct Hh as ([? ?] & [? ?] & [? ?] & _).
  unfold serializeJudgements. cbv zeta.
  rewrite (Marshal_st_ok _ (hashes_value (GoodWorkReports _))) by (done || by apply hashes_typed). cbn [rbind].
  rewrite (Marshal_st_ok _ (hashes_value (BadWorkReports _))) by (done || by apply hashes_typed). cbn [rbind].
  rewrite (Marshal_st_ok _ (hashes_value (WonkyWorkReports _))) by (done || by apply hashes_typed). cbn [rbind].
  rewrite Marshal_st_ok by (done || by apply public_keys_typed). cbn [rbind].
  unfold judgements_bytes, combineEncoded. simpl. by rewrite app_nil_r.
Qed.

Lemma putItem_ok id prefix rest v m :
  inU 32 id → (4 ≤ length prefix)%nat → length rest = 28%nat → len v ≤ MaxUint32 →
  putItem id prefix rest v m = Ok (put_entries [(item_key id (take 4 prefix ++ rest), bytes_encoding v)] m).
Proof.
  intros Hid Hp Hr Hv. unfold putItem. rewrite Marshal_st_ok by done. cbn [rbind].
  assert (go_copy (replicate 4 0) prefix = take 4 prefix) as ->.
  { unfold go_copy. rewrite length_replicate, (drop_ge (replicate 4 0)) by (rewrite length_replicate; lia).
    apply app_nil_r. }
  assert (go_copy (replicate 28 0) rest = rest) as ->.
  { unfold go_copy. rewrite length_replicate, drop_ge, take_ge by (rewrite ?length_replicate; lia). apply app_nil_r. }
  rewrite generateStateKeyInterleaved_ok; [done|done|]. rewrite length_app, length_take. lia.
Qed.

Lemma putMeta_ok id e m :
  inU 32 id → hash_typed e.1.1 → inU 32 e.1.2 → Forall (inU 32) e.2 → inU 64 (len e.2) →
  putMeta id e m = Ok (put_entries [meta_entry id e] m).
Proof.
  destruct e as [[h l] ts]. simpl. intros Hid [Hh _] Hl Hts Hn. rewrite Marshal_st_ok; [|done|].
  - cbn [rbind]. by rewrite generateStateKeyInterleaved_ok.
  - split; [by apply Forall_fmap|]. unfold len in *. by rewrite length_fmap.
Qed.

Lemma serializeStorageAndPreimage_ok id a m :
  inU 32 id → account_typed a →
  serializeStorageAndPreimage order id a m =
    Ok (put_entries (drop 1 (account_entries order (id, a))) m).
Proof using Type*.
  intros Hid Ha. unfold serializeStorageAndPreimage.
  change (Marshal_st (TPrim false Int) (VNum MaxUint32)) with (Ok (E := st_error) [240; 255; 255; 255; 255]).
  change (Marshal_st (TPrim false Int) (VNum (MaxUint32 - 1)))
    with (Ok (E := st_error) [240; 254; 255; 255; 255]). cbn [rbind].
  rewrite (put_each_entries _ (λ e, [(storage_key id e.1, bytes_encoding e.2)])).
  2:{ eapply Forall_iterate; [apply (typed_storage _ Ha)|]. intros h v [[Hh _] Hv] m'.
      apply putItem_ok; [done|simpl; lia|rewrite length_take; cbn [fst]; lia|done]. }
  cbn [rbind]. rewrite (put_each_entries _ (λ e, [(preimage_key id e.1, bytes_encoding e.2)])).
  2:{ eapply Forall_iterate; [apply (typed_preimages _ Ha)|]. intros h v [[Hh _] Hv] m'.
      apply putItem_ok; [done|simpl; lia|rewrite length_take, length_drop; cbn [fst]; lia|done]. }
  cbn [rbind]. rewrite (put_each_entries _ (λ e, [meta_entry id e])).
  2:{ eapply Forall_iterate; [apply (typed_meta _ Ha)|]. intros k ts (Hk & Hl & Hts & Hn) m'.
      by apply putMeta_ok. }
  rewrite <- !put_entries_app. unfold account_entries. cbn [drop].
  rewrite !mjoin_singletons. done.
Qed.

Lemma serializeServiceAccount_ok id a m :
  inU 32 id → account_typed a →
  serializeServiceAccount order id a m = Ok (put_entries (account_entries order (id, a)) m).
Proof using Type*.
  intros Hid Ha. pose proof (typed_numbers _ Ha) as (Hb & Hg1 & Hg2). unfold serializeServiceAccount. cbv zeta.
  rewrite (Marshal_st_ok hash_type) by (done || by apply hash_well_typed, (typed_code _ Ha)). cbn [rbind].
  rewrite (Marshal_st_ok _ (VNum (Balance a))) by done. cbn [rbind].
  rewrite (Marshal_st_ok _ (VNum (GasLimitForAccumulator a))) by done. cbn [rbind].
  rewrite (Marshal_st_ok _ (VNum (GasLimitOnTransfer a))) by done. cbn [rbind].
  rewrite calculateFootprintSize_ok.
  rewrite (Marshal_st_ok _ (VNum (footprint _ _))).
  2:{ done. }
  2:{ cbn. unfold footprint, inU. apply Z.mod_pos_bound. lia. }
  cbn [rbind]. rewrite Marshal_st_ok by (done || apply (typed_sizes _ Ha)). cbn [rbind].
  rewrite generateStateKeyInterleavedBasic_ok by done. cbn [rbind].
  rewrite serializeStorageAndPreimage_ok by done. unfold account_entries at 2. cbn [put_entries foldl].
  unfold combineEncoded, account_bytes. simpl. by rewrite app_nil_r.
Qed.

(** The map is the entries, written one after the other. *)
Lemma SerializeState_entries s :
  state_typed s → SerializeState order s = Ok (put_entries (ordered_entries order s) ∅).
Proof using Type*.
  intros Hs. unfold SerializeState, ordered_entries, component_entries.
  rewrite (put_each_entries _ (λ f, [(generateStateKeyBasic f.1.1, encoding f.1.2 f.2)])).
  2:{ pose proof (basicFields_encodable s) as He. pose proof (typed_fields _ Hs) as Ht.
      rewrite Forall_forall in He, Ht. apply Forall_forall. intros f Hf m.
      apply serializeField_ok; [by apply He|by apply Ht]. }
  cbn [rbind]. unfold serializeSafroleState.
  rewrite Marshal_st_ok by (apply SafroleState_encodable || apply (typed_safrole _ Hs)). cbn [rbind].
  rewrite serializeJudgements_ok by done. cbn [rbind].
  rewrite (put_each_entries _ (account_entries order)).
  2:{ eapply Forall_iterate; [apply (typed_services _ Hs)|]. intros id a [Hid Ha] m.
      by apply serializeServiceAccount_ok. }
  rewrite mjoin_singletons, !put_entries_app. done.
Qed.
End order.

(** ** Theorems *)

(** ** Keys *)

(** The key of a service's item tells the service and the first 28 bytes of
    the item's hash apart from all others, and nothing else. *)
Theorem state_keys s s' h h' :
  inU 32 s → inU 32 s' → length h = 32%nat → length h' = 32%nat →
  ∃ k k', generateStateKeyInterleaved s h = Ok k ∧ generateStateKeyInterleaved s' h' = Ok k' ∧
    length k = 32%nat ∧ (k = k' ↔ s = s' ∧ take 28 h = take 28 h').
Proof.
  intros Hs Hs' Hh Hh'. exists (item_key s h), (item_key s' h').
  rewrite !generateStateKeyInterleaved_ok by done. split_and!; [done|done| |by apply item_key_inj].
  unfold item_key. destruct (hash_split h Hh) as (a & b & c & d & r & -> & Hr).
  destruct (le32_ok s) as (? & ? & ? & ? & -> & _). cbn -[take]. rewrite drop_0, length_take. lia.
Qed.

Lemma state_keys_witness :
  ∃ k k', generateStateKeyInterleaved 258 (replicate 32 7) = Ok k ∧
    generateStateKeyInterleaved 258 (replicate 28 7 ++ replicate 4 9) = Ok k' ∧ length k = 32%nat ∧
    (k = k' ↔ 258 = 258 ∧ take 28 (replicate 32 7) = take 28 (replicate 28 7 ++ replicate 4 9)).
Proof. apply (state_keys 258 258 (replicate 32 7) (replicate 28 7 ++ replicate 4 9)); [unfold inU; lia..|done|done]. Defined.

(** ** What is in the serialized state *)

(** A struct is encoded field by field. *)
Definition struct_of (l : list (string * gotype * goval)) : gotype :=
  TStruct ((λ e : string * gotype * goval, (field e.1.1, e.1.2)) <$> l).
Definition value_of (l : list (string * gotype * goval)) : goval :=
  VSeq ((λ e : string * gotype * goval, e.2) <$> l).
Definition field_ok (e : string * gotype * goval) : Prop := encodable e.1.2 ∧ well_typed e.1.2 e.2.

Lemma encoding_struct l :
  Forall field_ok l →
  encoding (struct_of l) (value_of l) = mjoin ((λ e : string * gotype * goval, encoding e.1.2 e.2) <$> l).
Proof.
  intros Hl. enough (marshal (struct_of l) (value_of l) =
    Ok (mjoin ((λ e : string * gotype * goval, encoding e.1.2 e.2) <$> l))) as H
    by (unfold encoding at 1, Marshal; by rewrite H).
  unfold struct_of, value_of. cbn [marshal].
  induction Hl as [|[[n t] v] l [Ht Hv] _ IH]; [done|]. cbn. pose proof (Marshal_st_ok t v Ht Hv) as Hm.
  unfold Marshal_st, Marshal in Hm. destruct (marshal t v); simpl in Hm; simplify_eq. cbn [map_err rbind].
  cbn in IH. by rewrite IH.
Qed.

Lemma struct_decodes l rest :
  Forall field_ok l →
  unmarshal (struct_of l) (mjoin ((λ e : string * gotype * goval, encoding e.1.2 e.2) <$> l) ++ rest) =
    Ok (canon (struct_of l) (value_of l), rest).
Proof.
  intros Hl. rewrite <- encoding_struct by done. apply encoding_decodes.
  - unfold struct_of. cbn [encodable]. induction Hl as [|[[n t] v] l [Ht _] _ IH]; cbn; done.
  - unfold struct_of, value_of. cbn [well_typed]. induction Hl as [|[[n t] v] l [_ Hv] _ IH]; cbn; done.
Qed.

(** The judgements and an account as the structs that their entries are. *)
Definition judgement_fields (j : Judgements) : list (string * gotype * goval) :=
  [("Good", TSlice hash_type, hashes_value (GoodWorkReports j));
   ("Bad", TSlice hash_type, hashes_value (BadWorkReports j));
   ("Wonky", TSlice hash_type, hashes_value (WonkyWorkReports j));
   ("Offenders", TSlice TPublicKey, keys_value (OffendingValidators j))]%string.
Definition account_fields (a : ServiceAccount) : list (string * gotype * goval) :=
  [("CodeHash", hash_type, hash_value (CodeHash a));
   ("Balance", TPrim false Uint64, VNum (Balance a));
   ("GasLimitForAccumulator", TPrim false Uint64, VNum (GasLimitForAccumulator a));
   ("GasLimitOnTransfer", TPrim false Uint64, VNum (GasLimitOnTransfer a));
   ("FootprintSize", TPrim false Uint64, VNum (footprint (Storage a) (PreimageMeta a)));
   ("FootprintItems", TPrim false Int,
      VNum (2 * Z.of_nat (size (PreimageMeta a)) + Z.of_nat (size (Storage a))))]%string.

Lemma judgement_fields_ok s : state_typed s → Forall field_ok (judgement_fields (st_PastJudgements s)).
Proof.
  intros [_ _ (Hh & Hk & Hl) _]. rewrite !Forall_cons in Hh. destruct Hh as ([? ?] & [? ?] & [? ?] & _).
  repeat (apply Forall_cons; split); [..|constructor]; (split; [done|]);
    by (apply hashes_typed || apply public_keys_typed).
Qed.

Lemma account_fields_ok a : account_typed a → Forall field_ok (account_fields a).
Proof.
  intros Ha. pose proof (typed_numbers _ Ha) as (? & ? & ?). pose proof (typed_sizes _ Ha).
  repeat (apply Forall_cons; split); [..|constructor]; (split; [done|]); try done.
  - apply hash_well_typed, (typed_code _ Ha).
  - cbn. unfold footprint, inU. apply Z.mod_pos_bound. lia.
Qed.

(** The entry under a key holds a value of a type. *)
Definition holds (m : SerializedState) (key : Hash) (t : gotype) (v : goval) : Prop :=
  ∃ b, m !! key = Some b ∧ unmarshal t b = Ok (canon t v, []).

Lemma holds_encoding es key t v :
  NoDup es.*1 → (key, encoding t v) ∈ es → encodable t → well_typed t v → holds (list_to_map es) key t v.
Proof.
  intros Hnd Hin Ht Hv. exists (encoding t v). split; [by apply elem_of_list_to_map_1|].
  rewrite <- (app_nil_r (encoding t v)). by apply encoding_decodes.
Qed.

Lemma serialized_map order s :
  Reorders order → state_typed s → NoDup (state_entries s).*1 →
  SerializeState order s = Ok (list_to_map (state_entries s)).
Proof.
  intros Ho Hs Hnd. rewrite (SerializeState_entries order s Hs). f_equal.
  pose proof (ordered_entries_perm order s) as Hp. rewrite put_entries_map by (by rewrite Hp).
  apply list_to_map_proper; [by rewrite Hp|done].
Qed.

Lemma component_entry s e : e ∈ component_entries s → e ∈ state_entries s.
Proof. intros H. apply elem_of_app. by left. Qed.

Lemma service_entry s id a e :
  st_Services s !! id = Some a → e ∈ account_entries (λ A l, l) (id, a) → e ∈ state_entries s.
Proof.
  intros Ha He. apply elem_of_app. right. apply list_elem_of_join. eexists. split; [exact He|].
  apply list_elem_of_fmap_2. by apply elem_of_map_to_list.
Qed.

(** The entries of one account. *)
Record account_held (m : SerializedState) (id : Z) (a : ServiceAccount) : Prop := AccountHeld {
  held_info : holds m (account_key id) (struct_of (account_fields a)) (value_of (account_fields a));
  held_storage h v : Storage a !! h = Some v → holds m (storage_key id h) TBytes (VBytes v);
  held_preimage h v : PreimageLookup a !! h = Some v → holds m (preimage_key id h) TBytes (VBytes v);
  held_meta k ts : PreimageMeta a !! k = Some ts →
    holds m (item_key id k.1) (TSlice timeslot_type) (VSeq (VNum <$> ts));
}.

Lemma account_read_back s id a :
  state_typed s → NoDup (state_entries s).*1 → st_Services s !! id = Some a →
  account_held (list_to_map (state_entries s)) id a.
Proof.
  intros Hs Hnd Ha. destruct (typed_services _ Hs _ _ Ha) as [Hid Hta].
  assert (∀ e, e = (account_key id, account_bytes a) ∨
    e ∈ (λ e, (storage_key id e.1, bytes_encoding e.2)) <$> map_to_list (Storage a) ∨
    e ∈ (λ e, (preimage_key id e.1, bytes_encoding e.2)) <$> map_to_list (PreimageLookup a) ∨
    e ∈ meta_entry id <$> map_to_list (PreimageMeta a) → e ∈ state_entries s) as Hin.
  { intros e He. apply (service_entry s id a e Ha). unfold account_entries.
    rewrite elem_of_cons, !elem_of_app. exact He. }
  split.
  - exists (account_bytes a). split; [apply elem_of_list_to_map_1; auto|].
    pose proof (struct_decodes (account_fields a) [] (account_fields_ok a Hta)) as H.
    unfold account_fields in H at 2. simpl in H. rewrite !app_nil_r in H. exact H.
  - intros h v Hv. destruct (typed_storage _ Hta _ _ Hv) as [_ ?]. apply holds_encoding; try done.
    apply Hin. right. left. apply list_elem_of_fmap. exists (h, v). split; [done|]. by apply elem_of_map_to_list.
  - intros h v Hv. destruct (typed_preimages _ Hta _ _ Hv) as [_ ?]. apply holds_encoding; try done.
    apply Hin. do 2 right. left. apply list_elem_of_fmap. exists (h, v). split; [done|].
    by apply elem_of_map_to_list.
  - intros k ts Hk. destruct (typed_meta _ Hta _ _ Hk) as (_ & _ & ? & ?). apply holds_encoding; try done.
    + apply Hin. do 3 right. apply list_elem_of_fmap. exists (k, ts). split; [done|].
      by apply elem_of_map_to_list.
    + split; [by apply Forall_fmap|]. unfold len in *. by rewrite length_fmap.
Qed.

(** C6: The state can be read back from its serialization.  For values that fit
    their types and entries with different keys, [SerializeState] succeeds, with the
    same map for every order in which Go iterates; under its number every component
    is found and decodes to its value, the judgements sorted, and for every service
    its account with the footprint, its storage, its preimages and their requests. *)
Theorem state_read_back s :
  state_typed s → NoDup (state_entries s).*1 →
  ∃ m, (∀ order, Reorders order → SerializeState order s = Ok m) ∧
    (∀ i t v, (i, t, v) ∈ basicFields s → holds m (generateStateKeyBasic i) t v) ∧
    holds m (generateStateKeyBasic 4) SafroleState_type (SafroleState_value (SafroleOf (st_ValidatorState s))) ∧
    (let j := judgement_fields (st_PastJudgements s) in
     holds m (generateStateKeyBasic 5) (struct_of j) (value_of j)) ∧
    ∀ id a, st_Services s !! id = Some a → account_held m id a.
Proof.
  intros Hs Hnd. exists (list_to_map (state_entries s)). split_and!.
  - intros order Ho. by apply serialized_map.
  - intros i t v Hf. pose proof (basicFields_encodable s) as He. pose proof (typed_fields _ Hs) as Ht.
    rewrite Forall_forall in He, Ht. apply holds_encoding; [done| |exact (He _ Hf)|exact (Ht _ Hf)].
    apply component_entry, elem_of_app. left. apply list_elem_of_fmap. by exists (i, t, v).
  - apply holds_encoding; [done| |apply SafroleState_encodable|apply (typed_safrole _ Hs)].
    apply component_entry, elem_of_app. right. by left.
  - exists (judgements_bytes (st_PastJudgements s)). split.
    + apply elem_of_list_to_map_1; [done|]. apply component_entry, elem_of_app. right. right. by left.
    + pose proof (struct_decodes (judgement_fields (st_PastJudgements s)) [] (judgement_fields_ok s Hs)) as H.
      unfold judgement_fields in H at 2. simpl in H. rewrite !app_nil_r in H. exact H.
  - intros id a Ha. by apply account_read_back.
Qed.

(** ** The root of the state *)

Lemma prefix_typed p (h : list Z) :
  length p = 4%nat → bytes_ok p → length h = 28%nat → bytes_ok h → hash_typed (p ++ h).
Proof. intros Hp Hbp Hh Hb. split; [by rewrite length_app, Hp, Hh|]. by apply Forall_app. Qed.

Lemma typed_item_key id h (v : list Z) : hash_typed h → key_ok (item_key id h, v).
Proof. intros [Hl Hb]. by apply item_key_ok. Qed.

Lemma take_typed n (h : Hash) :
  hash_typed h → (n ≤ 4)%nat → length (take 28 (drop n h)) = 28%nat ∧ bytes_ok (take 28 (drop n h)).
Proof.
  intros [Hl Hb] Hn. split; [rewrite length_take, length_drop; lia|]. by apply Forall_take, Forall_drop.
Qed.

(** The keys of all entries are 32 bytes. *)
Lemma state_entries_keys s : state_typed s → Forall key_ok (state_entries s).
Proof.
  intros Hs. apply Forall_app. split.
  - repeat (apply Forall_cons; split; [split; [done|by apply (bool_decide_unpack _)]|]). constructor.
  - apply Forall_forall. intros e (es & He & Hes)%list_elem_of_join.
    apply list_elem_of_fmap in Hes as ([id a] & -> & Ha%elem_of_map_to_list).
    destruct (typed_services _ Hs _ _ Ha) as [Hid Hta]. unfold account_entries in He.
    rewrite elem_of_cons, !elem_of_app, !list_elem_of_fmap in He.
    destruct He as [->|[([h v] & -> & H)|[([h v] & -> & H)|([[h l] ts] & -> & H)]]]; [apply account_key_ok|..];
      apply elem_of_map_to_list in H; apply typed_item_key.
    + destruct (typed_storage _ Hta _ _ H) as [Hh _]. destruct (take_typed 0 h Hh ltac:(lia)).
      rewrite drop_0 in *. apply prefix_typed; [done|by apply (bool_decide_unpack _)|done|done].
    + destruct (typed_preimages _ Hta _ _ H) as [Hh _]. destruct (take_typed 1 h Hh ltac:(lia)).
      apply prefix_typed; [done|by apply (bool_decide_unpack _)|done|done].
    + by destruct (typed_meta _ Hta _ _ H) as [Hh _].
Qed.

(** C16: The root of a state whose entries have different keys is that of the
    Patricia trie of its entries, for every order of iteration and every key-value
    store that keeps its promises; it is the new root of the database, which is left
    as it was when the store returns an error. *)
Theorem state_root kv held HashData s :
  StoreLaws kv held → (∀ bs, length (HashData bs) = 32%nat) →
  state_typed s → NoDup (state_entries s).*1 →
  ∃ t, patricia 0 t ∧ entries t ≡ₚ state_entries s ∧
    ∀ order calls db, Reorders order → (257 ≤ calls)%nat →
      ∃ r db', MerklizeState HashData order kv calls s db = Some (r, db') ∧
        match r with
        | Ok h => h = root HashData t ∧ Root kv db' = h
        | Err (inl _) => False
        | Err (inr _) => db' = db
        | RuntimePanic => True
        end.
Proof.
  intros Hkv Hh Hs Hnd. pose proof (state_entries_keys s Hs) as Hk.
  destruct (Merklize_trie HashData (state_entries s) 0 257) as (t & Hp & He & _);
    [lia|lia|done|done|intros ? ? ? _ _ ?; lia|].
  exists t. split_and!; [done|done|]. intros order calls db Ho Hc. unfold MerklizeState.
  rewrite (serialized_map order s) by done. cbv zeta. set (kvs := iterate order _).
  assert (kvs ≡ₚ state_entries s) as HP.
  { subst kvs. rewrite (iterate_perm order). by apply map_to_list_to_map. }
  destruct (MerklizeAndCommit_trie kv held HashData Hh db kvs calls) as (t' & Hp' & He' & r & db' & Hm & Hr);
    [done|by rewrite HP|change (NoDup kvs.*1); by rewrite HP|].
  rewrite Hm. exists (map_err inr r), db'. split; [done|].
  assert (t' = t) as -> by (apply (patricia_unique 0); [done|done|by rewrite He', HP, He]).
  destruct r as [h|e|]; [by destruct Hr as (? & ? & _)|done|done].
Qed.

(** ** Values for the witnesses *)

(** A service with an item in its storage, a preimage and a request for it. *)
Definition demo_service (requests : gmap PreImageMetaKey (list Z)) : ServiceAccount :=
  MkAccount {[replicate 32 1 := [4; 5]]} {[replicate 32 2 := [6]]} requests (replicate 32 2) 100 10 20.
Definition one_request : gmap PreImageMetaKey (list Z) := {[(replicate 32 2, 1) := [3]]}.
Definition no_validators : ValidatorsData := replicate (Z.to_nat NumberOfValidators) None.
Definition demo_state (requests : gmap PreImageMetaKey (list Z)) : State :=
  MkState {[7 := demo_service requests]} (MkPrivileged 1 2 3 {[7 := 50]})
    (MkValidators (MkValidatorState no_validators no_validators no_validators)
       (MkSafrole no_validators [] (Some (EpochKeys (replicate slots (replicate 32 0)))) (replicate 144 0)))
    (replicate 4 ZeroHash) (replicate cores [ZeroHash])
    (replicate cores (replicate (Z.to_nat PendingAuthorizersQueueSize) ZeroHash)) (replicate cores None) [] 4
    (MkJudgements [replicate 32 9] [] [replicate 32 8; replicate 32 7] [replicate 32 5])
    (replicate (Z.to_nat NumberOfValidators) (MkStatistics 0 0 0 0 0 0),
     replicate (Z.to_nat NumberOfValidators) (MkStatistics 0 0 0 0 0 0))
    (replicate slots []) (replicate slots ∅).

Lemma replicate_typed n b : is_byte b → length (replicate n b) = n ∧ bytes_ok (replicate n b).
Proof. intros Hb. split; [apply length_replicate|by apply Forall_replicate]. Qed.

(** An array of the same value. *)
Lemma array_typed {A} n t (f : A → goval) a :
  well_typed t (f a) → well_typed (TArray n t) (VSeq (f <$> replicate n a)).
Proof.
  intros Ha. cbn [well_typed]. rewrite fmap_replicate. split; [by apply Forall_replicate|apply length_replicate].
Qed.

Lemma octets_typed n b : is_byte b → well_typed (octets_type n) (hash_value (replicate n b)).
Proof. intros Hb. by apply array_typed. Qed.

Lemma demo_typed requests :
  map_Forall (λ (k : PreImageMetaKey) ts, hash_typed k.1 ∧ inU 32 k.2 ∧ Forall (inU 32) ts ∧ inU 64 (len ts)) requests →
  inS 64 (2 * Z.of_nat (size requests) + 1) → state_typed (demo_state requests).
Proof.
  intros Hr Hn. assert (∀ b, is_byte b → hash_typed (replicate 32 b)) as Hh by apply replicate_typed.
  assert (is_byte 0) as H0 by (unfold is_byte, inU; lia).
  assert (well_typed ValidatorsData_type (ValidatorsData_value no_validators)) as Hv by by apply array_typed.
  split.
  - unfold basicFields. cbv zeta. cbn [demo_state st_CoreAuthorizersPool st_PendingAuthorizersQueues
      st_RecentBlocks st_EntropyPool st_ValidatorState keys_of QueuedValidators CurrentValidators
      ArchivedValidators st_CoreAssignments st_TimeslotIndex st_PrivilegedServices st_ValidatorStatistics
      st_AccumulationQueue st_AccumulationHistory].
    repeat (apply Forall_cons; split); cbn [fst snd]; try exact Hv.
    + apply array_typed. split; [apply Forall_cons; split; [by apply octets_typed|constructor]|done].
    + apply array_typed, array_typed. by apply octets_typed.
    + by split.
    + apply array_typed. by apply octets_typed.
    + by apply array_typed.
    + done.
    + cbn. rewrite map_to_list_singleton. split_and!; try done; [by repeat constructor|].
      apply NoDup_singleton.
    + split; [|done]. rewrite !Forall_cons, Forall_nil. split_and!; try done; apply array_typed; cbn; by split_and!.
    + apply array_typed. by split.
    + apply array_typed. split_and!; [constructor|constructor|done].
    + constructor.
  - cbn [demo_state st_ValidatorState SafroleOf SafroleState_value]. unfold SafroleState_type.
    cbn [well_typed fields_typed field_tag field]. split_and!; try done; [|by apply (octets_typed 144)].
    split; [lia|]. apply (array_typed slots (octets_type 32) hash_value). by apply octets_typed.
  - cbn. split_and!; [|repeat constructor|done].
    repeat (apply Forall_cons; split; [split; [repeat (apply Forall_cons; split; [apply Hh; done|]); constructor|done]|]).
    constructor.
  - cbn. intros id a [<- <-]%lookup_singleton_Some. split; [done|]. split; cbn; try done.
    + by apply Hh.
    + intros h v [<- <-]%lookup_singleton_Some. split; [by apply Hh|done].
    + intros h v [<- <-]%lookup_singleton_Some. split; [by apply Hh|done].
Qed.

Lemma one_request_typed : state_typed (demo_state one_request).
Proof.
  apply demo_typed; [|vm_compute; split; congruence].
  unfold one_request. intros k ts [<- <-]%lookup_singleton_Some.
  split_and!; [by apply replicate_typed|done|by repeat constructor|done].
Qed.
Lemma one_request_keys : NoDup (state_entries (demo_state one_request)).*1.
Proof. apply (bool_decide_unpack _). vm_compute. exact I. Qed.

Lemma state_read_back_witness :
  ∃ m, (∀ order, Reorders order → SerializeState order (demo_state one_request) = Ok m) ∧
    account_held m 7 (demo_service one_request).
Proof.
  destruct (state_read_back (demo_state one_request) one_request_typed one_request_keys)
    as (m & Hm & _ & _ & _ & Ha).
  exists m. split; [exact Hm|]. apply Ha. reflexivity.
Defined.

Lemma state_root_witness :
  ∃ t, patricia 0 t ∧ entries t ≡ₚ state_entries (demo_state one_request) ∧
    ∀ order calls db, Reorders order → (257 ≤ calls)%nat →
      ∃ r db', MerklizeState sum32 order mapStore calls (demo_state one_request) db = Some (r, db') ∧
        match r with
        | Ok h => h = root sum32 t ∧ Root mapStore db' = h
        | Err (inl _) => False
        | Err (inr _) => db' = db
        | RuntimePanic => True
        end.
Proof.
  exact (state_root mapStore _ sum32 (demo_state one_request) mapStore_laws (λ bs, eq_refl)
    one_request_typed one_request_keys).
Defined.

(** Two requests for one hash, with different lengths, have the same key: which
    of them is in the serialized state, and so the root of the state, depends on
    the order in which Go iterates over the map. *)
Definition two_requests : gmap PreImageMetaKey (list Z) :=
  <[(replicate 32 2, 2) := []]> one_request.

Definition bytes_at (k : Hash) (r : res st_error SerializedState) : option (list Z) :=
  match r with Ok m => m !! k | _ => None end.

Lemma first_request :
  bytes_at (item_key 7 (replicate 32 2)) (SerializeState (λ _ l, l) (demo_state two_requests)) = Some [0].
Proof. vm_compute. reflexivity. Qed.
Lemma second_request :
  bytes_at (item_key 7 (replicate 32 2)) (SerializeState (λ _ l, reverse l) (demo_state two_requests)) =
  Some [1; 3; 0; 0; 0].
Proof. vm_compute. reflexivity. Qed.

Theorem requests_share_key :
  state_typed (demo_state two_requests) ∧ Reorders (λ _ l, l) ∧ Reorders (λ _ l, reverse l) ∧
  SerializeState (λ _ l, l) (demo_state two_requests) ≠
  SerializeState (λ _ l, reverse l) (demo_state two_requests).
Proof.
  split_and!.
  - apply demo_typed; [|vm_compute; split; congruence]. unfold two_requests, one_request. intros k ts H.
    apply lookup_insert_Some in H as [[<- <-]|[_ H%lookup_singleton_Some]]; [|destruct H as [<- <-]];
      split_and!; try (by apply replicate_typed); try done; by repeat constructor.
  - by intros A l.
  - intros A l. apply reverse_Permutation.
  - intros H. pose proof first_request as H1. rewrite H, second_request in H1. congruence.
Qed.
