(* ===== verification/Chain.v ===== *)
(** * The chain store and the block service

    [pkg/db/pebble] (the wrapper of the key-value library Pebble, which is a
    parameter), [internal/store/chain.go] and [internal/chain/service.go].  The
    operations are modelled one after the other; every lock of the service protects
    a single assignment. *)
From S2P Require Export History.

(** ** The key-value store ([pkg/db/pebble]) *)

Inductive db_error : Type :=
| ErrClosed | ErrNotFound | ErrBatchDone | ErrIteratorInvalid | ErrPebble (msg : string).

(** Writes of a batch: a value, or [None] to delete the key. *)
Definition batch_op : Type := list Z * option (list Z).

(** What the wrapper uses of Pebble: an iterator gives the entries between two
    keys in ascending order, some of whose values may not be readable. *)
Record Pebble : Type := MkPebble {
  PDB : Type;
  PGet : PDB → list Z → res db_error (list Z);
  PSet : PDB → list Z → list Z → res db_error PDB;
  PDelete : PDB → list Z → res db_error PDB;
  PCommit : PDB → list batch_op → res db_error PDB;
  PNewIter : PDB → list Z → list Z → res db_error (list (list Z * res db_error (list Z)));
}.

Module Db.
Section wrapper.
Context (p : Pebble).

Record KVStore : Type := MkKVStore { db : PDB p; closed : bool }.

Definition Get (s : KVStore) (key : list Z) : res db_error (list Z) :=
  if closed s then Err ErrClosed else PGet p (db s) key.
Definition Put (s : KVStore) (key value : list Z) : res db_error KVStore :=
  if closed s then Err ErrClosed
  else let! d := PSet p (db s) key value in Ok (MkKVStore d (closed s)).
Definition Delete (s : KVStore) (key : list Z) : res db_error KVStore :=
  if closed s then Err ErrClosed
  else let! d := PDelete p (db s) key in Ok (MkKVStore d (closed s)).
Definition Close (s : KVStore) : KVStore := MkKVStore (db s) true.

(** A batch is either open, with its writes, or done. *)
Record Batch : Type := MkBatch { ops : list batch_op; done_ : bool }.
Definition NewBatch : Batch := MkBatch [] false.
Definition BatchPut (b : Batch) (key value : list Z) : res db_error Batch :=
  if done_ b then Err ErrBatchDone else Ok (MkBatch (ops b ++ [(key, Some value)]) false).
Definition BatchDelete (b : Batch) (key : list Z) : res db_error Batch :=
  if done_ b then Err ErrBatchDone else Ok (MkBatch (ops b ++ [(key, None)]) false).
(** It does not look at [closed]. *)
Definition BatchCommit (s : KVStore) (b : Batch) : res db_error (KVStore * Batch) :=
  if done_ b then Err ErrBatchDone
  else let! d := PCommit p (db s) (ops b) in Ok (MkKVStore d (closed s), MkBatch (ops b) true).
Definition BatchClose (b : Batch) : Batch := MkBatch (ops b) true.

(** The position of an iterator: before the first or after the last entry it is
    [None], and the next step goes to the first one in both cases. *)
Record Iterator : Type := MkIterator {
  entries : list (list Z * res db_error (list Z));
  position : option nat;
}.
Definition NewIterator (s : KVStore) (start end_ : list Z) : res db_error Iterator :=
  let! es := PNewIter p (db s) start end_ in Ok (MkIterator es None).
Definition Valid (it : Iterator) : bool := bool_decide (is_Some (position it)).
Definition Next (it : Iterator) : bool * Iterator :=
  let i := match position it with None => 0%nat | Some i => S i end in
  if bool_decide (i < length (entries it))%nat
  then (true, MkIterator (entries it) (Some i)) else (false, MkIterator (entries it) None).
Definition Value (it : Iterator) : res db_error (list Z) :=
  match position it with
  | None => Err ErrIteratorInvalid
  | Some i => match entries it !! i with Some (_, v) => v | None => Err ErrIteratorInvalid end
  end.
End wrapper.
End Db.

(** ** Headers and blocks from bytes ([internal/block]) *)

Definition ticket_proof_type : gotype := TStruct
  [(field "EntryIndex", TPrim false Uint8); (field "Proof", octets_type 784)].
Definition preimage_type : gotype := TStruct
  [(field "ServiceIndex", TPrim false Uint32); (field "Data", TBytes)].
Definition credential_type : gotype := TStruct
  [(field "ValidatorIndex", TPrim false Uint16); (field "Signature", octets_type 64)].
Definition guarantee_type : gotype := TStruct
  [(field "WorkReport", report_type); (field "Timeslot", TPrim true Uint32);
   (field "Credentials", TSlice credential_type)].
Definition assurance_type : gotype := TStruct
  [(field "Anchor", hash_type); (field "Bitfield", octets_type 43);
   (field "ValidatorIndex", TPrim false Uint16); (field "Signature", octets_type 64)].
Definition judgement_type : gotype := TStruct
  [(field "IsValid", TPrim false Bool); (field "ValidatorIndex", TPrim false Uint16);
   (field "Signature", octets_type 64)].
Definition verdict_type : gotype := TStruct
  [(field "ReportHash", hash_type); (field "EpochIndex", TPrim false Uint32);
   (field "Judgements", TArray (Z.to_nat ValidatorsSuperMajority) judgement_type)].
Definition culprit_type : gotype := TStruct
  [(field "ReportHash", hash_type); (field "ValidatorEd25519PublicKey", TPublicKey);
   (field "Signature", octets_type 64)].
Definition fault_type : gotype := TStruct
  [(field "ReportHash", hash_type); (field "IsValid", TPrim false Bool);
   (field "ValidatorEd25519PublicKey", TPublicKey); (field "Signature", octets_type 64)].
Definition extrinsic_type : gotype := TStruct
  [(field "ET", TStruct [(field "TicketProofs", TSlice ticket_proof_type)]);
   (field "EP", TSlice preimage_type);
   (field "EG", TStruct [(field "Guarantees", TSlice guarantee_type)]);
   (field "EA", TSlice assurance_type);
   (field "ED", TStruct [(field "Verdicts", TSlice verdict_type); (field "Culprits", TSlice culprit_type);
                         (field "Faults", TSlice fault_type)])].
Definition block_type : gotype := TStruct [(field "Header", header_type); (field "Extrinsic", extrinsic_type)].

(** The parts of a decoded value. *)
Definition elems (v : goval) : list goval := match v with VSeq vs => vs | _ => [] end.
Definition part (v : goval) (i : nat) : goval := default VNil (elems v !! i).
Definition octets (v : goval) : list Z :=
  match v with VSeq vs => num_of <$> vs | VBytes b => b | _ => [] end.
Definition pointee (v : goval) : option goval := match v with VPtr v => Some v | _ => None end.

Definition header_of (v : goval) : Header :=
  MkHeader (octets (part v 0)) (octets (part v 1)) (octets (part v 2)) (num_of (part v 3))
    ((λ m, MkEpochMarker (octets (part m 0)) (octets (part m 1)) (octets <$> elems (part m 2)))
       <$> pointee (part v 4))
    ((λ m, (λ t, MkTicket (octets (part t 0)) (num_of (part t 1))) <$> elems m) <$> pointee (part v 5))
    (octets <$> elems (part v 6)) (num_of (part v 7)) (octets (part v 8)) (octets (part v 9)).

Definition HeaderFromBytes (data : list Z) : res st_error Header :=
  let! v := map_err StJam (Unmarshal header_type data (zero_value header_type)) in Ok (header_of v).

(** A block with its extrinsics as the codec's value: nothing here looks inside. *)
Record StoredBlock : Type := MkStored { stored_Header : Header; stored_Extrinsic : goval }.

Definition block_value (b : StoredBlock) : goval :=
  VSeq [header_value (stored_Header b); stored_Extrinsic b].
Definition Bytes_block (b : StoredBlock) : res st_error (list Z) :=
  map_err StJam (Marshal block_type (block_value b)).
Definition BlockFromBytes (data : list Z) : res st_error StoredBlock :=
  let! v := map_err StJam (Unmarshal block_type data (zero_value block_type)) in
  Ok (MkStored (header_of (part v 0)) (part v 1)).

(** ** The chain store ([internal/store/chain.go]) *)

Inductive chain_error : Type :=
| ErrBlockNotFound | ErrHeaderNotFound | ErrChainClosed
| ErrChainCodec (e : st_error) | ErrChainDb (e : db_error).

Definition prefixHeader : Z := 1.
Definition prefixBlock : Z := 2.
Definition makeKey (prefix : Z) (hash : list Z) : list Z := prefix :: hash.

Section store.
Context (p : Pebble) (HashData : list Z → Hash).

Record Chain : Type := MkChain { chain_db : Db.KVStore p; chain_closed : bool }.

Definition PutHeader (c : Chain) (h : Header) : res chain_error Chain :=
  if chain_closed c then Err ErrChainClosed
  else
    let! bytes := map_err ErrChainCodec (Bytes_header h) in
    let! hash := map_err ErrChainCodec (Hash_header HashData h) in
    let! d := map_err ErrChainDb (Db.Put p (chain_db c) (makeKey prefixHeader hash) bytes) in
    Ok (MkChain d (chain_closed c)).

Definition GetHeader (c : Chain) (hash : Hash) : res chain_error Header :=
  if chain_closed c then Err ErrChainClosed
  else
    match Db.Get p (chain_db c) (makeKey prefixHeader hash) with
    | Ok headerBytes => map_err ErrChainCodec (HeaderFromBytes headerBytes)
    | Err ErrNotFound => Err ErrHeaderNotFound
    | Err e => Err (ErrChainDb e)
    | RuntimePanic => RuntimePanic
    end.

(** The deferred [batch.Close] frees the batch. *)
Definition PutBlock (c : Chain) (b : StoredBlock) : res chain_error Chain :=
  if chain_closed c then Err ErrChainClosed
  else
    let batch := Db.NewBatch in
    let! headerHash := map_err ErrChainCodec (Hash_header HashData (stored_Header b)) in
    let! headerBytes := map_err ErrChainCodec (Bytes_header (stored_Header b)) in
    let! batch := map_err ErrChainDb (Db.BatchPut batch (makeKey prefixHeader headerHash) headerBytes) in
    let! blockBytes := map_err ErrChainCodec (Bytes_block b) in
    let! batch := map_err ErrChainDb (Db.BatchPut batch (makeKey prefixBlock headerHash) blockBytes) in
    let! (d, _) := map_err ErrChainDb (Db.BatchCommit p (chain_db c) batch) in
    Ok (MkChain d (chain_closed c)).

Definition GetBlock (c : Chain) (hash : Hash) : res chain_error StoredBlock :=
  if chain_closed c then Err ErrChainClosed
  else
    match Db.Get p (chain_db c) (makeKey prefixBlock hash) with
    | Ok blockBytes => map_err ErrChainCodec (BlockFromBytes blockBytes)
    | Err ErrNotFound => Err ErrBlockNotFound
    | Err e => Err (ErrChainDb e)
    | RuntimePanic => RuntimePanic
    end.

(** [for iter.Next() { ... }], where the body gets the value; [None] is a bound
    used up. *)
Fixpoint for_each {A} (turns : nat) (body : res db_error (list Z) → A → A) (it : Db.Iterator) (a : A)
  : option A :=
  match turns with
  | O => None
  | S turns =>
      let '(more, it) := Db.Next it in
      if (more : bool) then for_each turns body it (body (Db.Value it) a) else Some a
  end.

(** [for iter.Next()] with the early returns of [FindHeader]. *)
Fixpoint find_stored_header (turns : nat) (fn : Header → bool) (it : Db.Iterator)
  : option (res chain_error Header) :=
  match turns with
  | O => None
  | S turns =>
      let '(more, it) := Db.Next it in
      if (more : bool) then
        match (let! headerBytes := map_err ErrChainDb (Db.Value it) in
               map_err ErrChainCodec (HeaderFromBytes headerBytes)) with
        | Ok header => if fn header then Some (Ok header) else find_stored_header turns fn it
        | Err e => Some (Err e)
        | RuntimePanic => Some RuntimePanic
        end
      else Some (Ok zeroHeader)
  end.

Definition ChainFindHeader (c : Chain) (fn : Header → bool) : option (res chain_error Header) :=
  if chain_closed c then Some (Err ErrChainClosed)
  else
    match Db.NewIterator p (chain_db c) [prefixHeader] [prefixHeader + 1] with
    | Ok it => find_stored_header (S (length (Db.entries it))) fn it
    | Err e => Some (Err (ErrChainDb e))
    | RuntimePanic => Some RuntimePanic
    end.

(** Values and blocks that cannot be read are logged and skipped; the decoder
    does not panic. *)
Definition child_of (parentHash : Hash) (v : res db_error (list Z)) (children : list StoredBlock)
  : list StoredBlock :=
  match v with
  | Ok blockBytes =>
      match BlockFromBytes blockBytes with
      | Ok b => if bool_decide (ParentHash (stored_Header b) = parentHash)
                then children ++ [b] else children
      | _ => children
      end
  | _ => children
  end.

Definition FindChildren (c : Chain) (parentHash : Hash) : option (res chain_error (list StoredBlock)) :=
  if chain_closed c then Some (Err ErrChainClosed)
  else
    match Db.NewIterator p (chain_db c) [prefixBlock] [prefixBlock + 1] with
    | Ok it => Ok <$> for_each (S (length (Db.entries it))) (child_of parentHash) it []
    | Err e => Some (Err (ErrChainDb e))
    | RuntimePanic => Some RuntimePanic
    end.

(** The loop of [GetBlockSequence]. *)
Fixpoint block_sequence (turns : nat) (c : Chain) (startHash : Hash) (ascending : bool) (maxBlocks : Z)
    (currentHash : Hash) (currentBlock : StoredBlock) (blocks : list StoredBlock)
  : option (res chain_error (list StoredBlock)) :=
  match turns with
  | O => None
  | S turns =>
      if negb (uint32 (len blocks) <? maxBlocks) then Some (Ok blocks)
      else
        let next hash blocks :=
          match GetBlock c hash with
          | Ok b => block_sequence turns c startHash ascending maxBlocks hash b blocks
          | Err ErrBlockNotFound => Some (Ok blocks)
          | Err e => Some (Err e)
          | RuntimePanic => Some RuntimePanic
          end in
        if ascending then
          let blocks := if bool_decide (currentHash = startHash) then blocks
                        else blocks ++ [currentBlock] in
          match FindChildren c currentHash with
          | None => None
          | Some (Ok (child :: _)) =>
              match Hash_header HashData (stored_Header child) with
              | Ok hash => next hash blocks
              | Err e => Some (Err (ErrChainCodec e))
              | RuntimePanic => Some RuntimePanic
              end
          | Some RuntimePanic => Some RuntimePanic
          | Some _ => Some (Ok blocks)
          end
        else next (ParentHash (stored_Header currentBlock)) (blocks ++ [currentBlock])
  end.

Definition GetBlockSequence (turns : nat) (c : Chain) (startHash : Hash) (ascending : bool) (maxBlocks : Z)
  : option (res chain_error (list StoredBlock)) :=
  if chain_closed c then Some (Err ErrChainClosed)
  else
    match GetBlock c startHash with
    | Ok currentBlock => block_sequence turns c startHash ascending maxBlocks startHash currentBlock []
    | Err e => Some (Err e)
    | RuntimePanic => Some RuntimePanic
    end.

Definition CloseChain (c : Chain) : Chain :=
  if chain_closed c then c else MkChain (Db.Close p (chain_db c)) true.

(** ** The block service ([internal/chain/service.go]) *)

Record LatestFinalized : Type := MkFinalized { finalized_Hash : Hash; finalized_Slot : Z }.

Record BlockService : Type := MkService {
  KnownLeaves : gmap Hash Z;
  Latest : LatestFinalized;
  ChainStore : Chain;
}.

Definition UpdateLatestFinalized (hash : Hash) (slot : Z) (bs : BlockService) : BlockService :=
  MkService (KnownLeaves bs) (MkFinalized hash slot) (ChainStore bs).
Definition AddLeaf (hash : Hash) (slot : Z) (bs : BlockService) : BlockService :=
  MkService (<[hash := slot]> (KnownLeaves bs)) (Latest bs) (ChainStore bs).
Definition RemoveLeaf (hash : Hash) (bs : BlockService) : BlockService :=
  MkService (delete hash (KnownLeaves bs)) (Latest bs) (ChainStore bs).
Definition with_store (c : Chain) (bs : BlockService) : BlockService :=
  MkService (KnownLeaves bs) (Latest bs) c.

Definition genesisHeader : Header :=
  MkHeader (1 :: replicate 31 0) ZeroHash ZeroHash 1 None None [] 0 (replicate 96 0) (replicate 96 0).

(** The service afterwards, and the error that stopped it, if any. *)
Definition initializeState (bs : BlockService) : BlockService * res chain_error unit :=
  match map_err ErrChainCodec (Hash_header HashData genesisHeader) with
  | Ok hash =>
      match PutHeader (ChainStore bs) genesisHeader with
      | Ok c =>
          match PutBlock c (MkStored genesisHeader (zero_value extrinsic_type)) with
          | Ok c => (UpdateLatestFinalized hash (TimeSlotIndex genesisHeader) (with_store c bs), Ok ())
          | Err e => (with_store c bs, Err e)
          | RuntimePanic => (with_store c bs, RuntimePanic)
          end
      | Err e => (bs, Err e)
      | RuntimePanic => (bs, RuntimePanic)
      end
  | Err e => (bs, Err e)
  | RuntimePanic => (bs, RuntimePanic)
  end.

(** Errors of the initialization are printed only. *)
Definition emptyService (d : PDB p) : BlockService :=
  MkService ∅ (MkFinalized ZeroHash 0) (MkChain (Db.MkKVStore p d false) false).
Definition NewBlockService (d : PDB p) : BlockService := (initializeState (emptyService d)).1.

(** The headers of [hash] and its ancestors, [n] of them, the oldest last;
    [None] if one is missing. *)
Fixpoint ancestor_chain (c : Chain) (n : nat) (hash : Hash) : res chain_error (option (list Header)) :=
  match n with
  | O => Ok (Some [])
  | S n =>
      match GetHeader c hash with
      | Ok header =>
          let! rest := ancestor_chain c n (ParentHash header) in Ok (cons header <$> rest)
      | Err ErrHeaderNotFound => Ok None
      | Err e => Err e
      | RuntimePanic => RuntimePanic
      end
  end.

Definition checkFinalization (hash : Hash) (bs : BlockService) : res chain_error BlockService :=
  let! ancestorChain := ancestor_chain (ChainStore bs) 6 hash in
  match ancestorChain with
  | None => Ok bs
  | Some ancestorChain =>
      match last ancestorChain with
      | None => RuntimePanic
      | Some finalizeHeader =>
          let! finalizeHash := map_err ErrChainCodec (Hash_header HashData finalizeHeader) in
          Ok (UpdateLatestFinalized finalizeHash (TimeSlotIndex finalizeHeader)
                (RemoveLeaf finalizeHash bs))
      end
  end.

(** The loop; [None] is a bound used up. *)
Fixpoint walk_back (turns : nat) (c : Chain) (finalizedSlot : Z) (current : Header)
  : option (res chain_error Header) :=
  match turns with
  | O => None
  | S turns =>
      if finalizedSlot <? TimeSlotIndex current then
        match GetHeader c (ParentHash current) with
        | Ok parent => walk_back turns c finalizedSlot parent
        | Err e => Some (Err e)
        | RuntimePanic => Some RuntimePanic
        end
      else Some (Ok current)
  end.

Definition isDescendantOfFinalized (turns : nat) (header : Header) (bs : BlockService)
  : option (res chain_error bool) :=
  match walk_back turns (ChainStore bs) (finalized_Slot (Latest bs)) header with
  | None => None
  | Some r => Some (
      let! current := r in
      if TimeSlotIndex current =? finalized_Slot (Latest bs) then
        let! currentHash := map_err ErrChainCodec (Hash_header HashData current) in
        Ok (bool_decide (currentHash = finalized_Hash (Latest bs)))
      else Ok false)
  end.

(** [None] inside the result: the block does not descend from the finalized one.
    An error leaves the service as it was; one of the finalization is printed
    only. *)
Definition HandleNewHeader (turns : nat) (header : Header) (bs : BlockService)
  : option (res chain_error (option BlockService)) :=
  match map_err ErrChainCodec (Hash_header HashData header) with
  | Err e => Some (Err e)
  | RuntimePanic => Some RuntimePanic
  | Ok hash =>
      match isDescendantOfFinalized turns header bs with
      | None => None
      | Some r => Some (
          let! isDescendant := r in
          if negb isDescendant then Ok None
          else
            let! c := PutHeader (ChainStore bs) header in
            let bs := AddLeaf hash (TimeSlotIndex header)
                        (RemoveLeaf (ParentHash header) (with_store c bs)) in
            match checkFinalization (ParentHash header) bs with
            | Ok bs => Ok (Some bs)
            | Err _ => Ok (Some bs)
            | RuntimePanic => RuntimePanic
            end)
      end
  end.
End store.
