(* ===== verification/ChainTheorems.v ===== *)
(** * The chain store and the block service: theorems *)
From Stdlib Require Import Sorted.
From S2P Require Import Chain JamRoundtrip.

(** ** Headers and blocks survive their encoding *)

Lemma octets_canon n named k h : octets (canon (TArray n (TPrim named k)) (hash_value h)) = h.
Proof.
  unfold hash_value. cbn [canon octets]. induction h as [|z h IH]; [done|]. cbn. f_equal. exact IH.
Qed.

Lemma octets_list_canon n t hs :
  (∀ h, octets (canon t (hash_value h)) = h) →
  octets <$> elems (canon (TArray n t) (VSeq (hash_value <$> hs))) = hs.
Proof. intros Ht. cbn. induction hs as [|h hs IH]; [done|]. cbn. f_equal; [apply Ht|exact IH]. Qed.

Lemma keys_list_canon ks : octets <$> elems (canon (TSlice TPublicKey) (VSeq (VBytes <$> ks))) = ks.
Proof. cbn. induction ks as [|k ks IH]; [done|]. cbn. f_equal. exact IH. Qed.

Lemma tickets_canon n ts :
  (λ t, MkTicket (octets (part t 0)) (num_of (part t 1))) <$>
    elems (canon (TArray n ticket_type) (VSeq (ticket_value <$> ts))) = ts.
Proof.
  cbn [canon elems]. induction ts as [|[id e] ts IH]; [done|]. cbn [fmap list_fmap map].
  f_equal; [|exact IH]. cbn. f_equal. apply (octets_canon 32 false Uint8).
Qed.

(** The canonical value of a header, field by field. *)
Lemma header_canon h :
  canon header_type (header_value h) = VSeq
    [canon hash_type (hash_value (ParentHash h)); canon hash_type (hash_value (PriorStateRoot h));
     canon hash_type (hash_value (ExtrinsicHash h)); VNum (TimeSlotIndex h);
     ptr_value (canon epoch_marker_type <$> (epoch_marker_value <$> header_EpochMarker h));
     ptr_value (canon (TArray (Z.to_nat TimeslotsPerEpoch) ticket_type) <$>
       ((λ ts, VSeq (ticket_value <$> ts)) <$> WinningTicketsMarker h));
     canon (TSlice TPublicKey) (VSeq (VBytes <$> OffendersMarkers h)); VNum (BlockAuthorIndex h);
     canon (octets_type 96) (hash_value (VRFSignature h));
     canon (octets_type 96) (hash_value (BlockSealSignature h))].
Proof. destruct h as [? ? ? ? [] [] ? ? ? ?]; reflexivity. Qed.

Lemma epoch_marker_canon m :
  MkEpochMarker (octets (part (canon epoch_marker_type (epoch_marker_value m)) 0))
    (octets (part (canon epoch_marker_type (epoch_marker_value m)) 1))
    (octets <$> elems (part (canon epoch_marker_type (epoch_marker_value m)) 2)) = m.
Proof.
  destruct m as [e t ks]. unfold epoch_marker_value. cbn [marker_Entropy TicketsEntropy marker_Keys].
  set (n := Z.to_nat NumberOfValidators). assert (canon epoch_marker_type (VSeq [hash_value e; hash_value t;
    VSeq (hash_value <$> ks)]) = VSeq [canon hash_type (hash_value e); canon hash_type (hash_value t);
    canon (TArray n (octets_type 32)) (VSeq (hash_value <$> ks))]) as -> by reflexivity.
  cbn [part elems lookup list_lookup default from_option id]. f_equal; try apply octets_canon.
  apply octets_list_canon. apply octets_canon.
Qed.

Lemma header_of_value h : header_of (canon header_type (header_value h)) = h.
Proof.
  rewrite header_canon. destruct h as [p r x slot m w o i v s]. unfold header_of.
  cbn [ParentHash PriorStateRoot ExtrinsicHash TimeSlotIndex header_EpochMarker WinningTicketsMarker
    OffendersMarkers BlockAuthorIndex VRFSignature BlockSealSignature].
  cbn [part elems lookup list_lookup default from_option id num_of].
  f_equal; try apply octets_canon; [..|apply keys_list_canon].
  - destruct m as [m|]; [|done]. cbn [fmap option_fmap option_map ptr_value pointee]. f_equal. apply epoch_marker_canon.
  - destruct w as [ts|]; [|done]. cbn [fmap option_fmap option_map ptr_value pointee]. f_equal. apply tickets_canon.
Qed.

Definition header_typed (h : Header) : Prop := well_typed header_type (header_value h).

Lemma header_encodable : encodable header_type.
Proof. cbn. repeat split; tauto. Qed.
Lemma block_encodable : encodable block_type.
Proof. cbn. repeat split; (tauto || lia). Qed.

(** The encoding of a typed header, read back. *)
Lemma Bytes_header_ok h :
  header_typed h → ∃ b, Bytes_header h = Ok b ∧ b ≠ [] ∧ HeaderFromBytes b = Ok h.
Proof.
  intros Hh. destruct (marshal_roundtrip _ header_encodable _ Hh) as (b & Hb & Hdec). exists b.
  assert (b ≠ []) as Hne by (intros ->; specialize (Hdec []); by vm_compute in Hdec).
  split_and!; [unfold Bytes_header, Marshal; by rewrite Hb|done|]. unfold HeaderFromBytes.
  rewrite (Unmarshal_fresh header_type b _ Hh) by (done || intros []).
  cbn [rbind map_err]. by rewrite header_of_value.
Qed.

Definition block_typed (b : StoredBlock) : Prop :=
  header_typed (stored_Header b) ∧ well_typed extrinsic_type (stored_Extrinsic b).

(** Extrinsics with the entries of their maps in order. *)
Definition canonical (b : StoredBlock) : StoredBlock :=
  MkStored (stored_Header b) (canon extrinsic_type (stored_Extrinsic b)).

Lemma canonical_of b :
  MkStored (header_of (part (canon block_type (block_value b)) 0)) (part (canon block_type (block_value b)) 1) =
  canonical b.
Proof.
  assert (canon block_type (block_value b) = VSeq [canon header_type (header_value (stored_Header b));
    canon extrinsic_type (stored_Extrinsic b)]) as -> by reflexivity.
  cbn [part elems lookup list_lookup default from_option id]. unfold canonical. by rewrite header_of_value.
Qed.

Lemma Bytes_block_ok b :
  block_typed b → ∃ bs, Bytes_block b = Ok bs ∧ BlockFromBytes bs = Ok (canonical b).
Proof.
  intros [Hh He]. assert (well_typed block_type (block_value b)) as Hb by (split; [exact Hh|split; [done|split; [exact He|done]]]).
  destruct (marshal_roundtrip _ block_encodable _ Hb) as (bs & Hbs & Hdec). exists bs.
  assert (bs ≠ []) as Hne by (intros ->; specialize (Hdec []); by vm_compute in Hdec).
  split; [unfold Bytes_block, Marshal; by rewrite Hbs|]. unfold BlockFromBytes.
  rewrite (Unmarshal_fresh block_type bs _ Hb) by (done || intros []).
  cbn [rbind map_err]. by rewrite canonical_of.
Qed.

(** ** What Pebble promises *)

Definition apply_op (m : gmap (list Z) (list Z)) (op : batch_op) : gmap (list Z) (list Z) :=
  match op.2 with Some v => <[op.1 := v]> m | None => delete op.1 m end.

(** [low <= key < high], lexicographically. *)
Definition in_range (low high : list Z) (e : list Z * list Z) : Prop :=
  bytes_less e.1 low = false ∧ bytes_less e.1 high = true.
#[export] Instance in_range_dec low high e : Decision (in_range low high e).
Proof. unfold in_range. apply _. Defined.

(** A database is a map; batches are applied in order, and an iterator lists the
    entries of a range by ascending keys. *)
Class PebbleLaws (p : Pebble) (content : PDB p → gmap (list Z) (list Z)) : Prop := {
  pebble_get d k : PGet p d k = match content d !! k with Some v => Ok v | None => Err ErrNotFound end;
  pebble_set d k v d' : PSet p d k v = Ok d' → content d' = <[k := v]> (content d);
  pebble_commit d ops d' : PCommit p d ops = Ok d' → content d' = foldl apply_op (content d) ops;
  pebble_iter_total d low high : PNewIter p d low high ≠ RuntimePanic;
  pebble_iter d low high es : PNewIter p d low high = Ok es →
    ∃ l, es = (λ e : list Z * list Z, (e.1, Ok e.2)) <$> l ∧
      l ≡ₚ filter (in_range low high) (map_to_list (content d)) ∧
      StronglySorted (λ a b : list Z * list Z, bytes_less a.1 b.1 = true) l;
}.

(** The loop over an iterator visits every entry once, in order. *)
Lemma for_each_from {A} turns (body : res db_error (list Z) → A → A) es i a :
  (length es - i < turns)%nat → (i ≤ length es)%nat →
  for_each turns body (Db.MkIterator es (match i with O => None | S i => Some i end)) a =
  Some (foldl (λ a e, body e.2 a) a (drop i es)).
Proof.
  revert i a. induction turns as [|turns IH]; intros i a Ht Hi; [lia|]. cbn [for_each]. unfold Db.Next.
  cbn [Db.position Db.entries]. set (j := match match i with O => None | S i => Some i end with
    | None => 0%nat | Some i => S i end). assert (j = i) as -> by (subst j; by destruct i).
  destruct (decide (i < length es)%nat) as [Hlt|Hge].
  - rewrite bool_decide_true by done. unfold Db.Value at 1. cbn [Db.position Db.entries].
    destruct (lookup_lt_is_Some_2 es i Hlt) as [[k v] Hk]. rewrite Hk.
    change (Some i) with (match S i with O => None | S i => Some i end). rewrite IH by lia.
    by rewrite (drop_S _ _ _ Hk).
  - rewrite bool_decide_false by done. by rewrite drop_ge by lia.
Qed.

Lemma for_each_all {A} (body : res db_error (list Z) → A → A) es a :
  for_each (S (length es)) body (Db.MkIterator es None) a = Some (foldl (λ a e, body e.2 a) a es).
Proof. apply (for_each_from (S (length es)) body es 0 a); lia. Qed.

(** In conversions the encodings unfold last. *)
#[local] Strategy 1000 [Bytes_header Bytes_block HeaderFromBytes BlockFromBytes].

Section store.
Context (p : Pebble) (content : PDB p → gmap (list Z) (list Z)) `{!PebbleLaws p content}.
Context (HashData : list Z → Hash).

(** The entries of an open store. *)
Definition held (c : Chain p) : gmap (list Z) (list Z) := content (Db.db p (chain_db p c)).
Definition open (c : Chain p) : Prop := chain_closed p c = false ∧ Db.closed p (chain_db p c) = false.

Lemma GetHeader_held c k :
  open c → GetHeader p c k =
    match held c !! makeKey prefixHeader k with
    | Some b => map_err ErrChainCodec (HeaderFromBytes b)
    | None => Err ErrHeaderNotFound
    end.
Proof using Type*.
  intros [H1 H2]. unfold GetHeader, Db.Get, held. rewrite H1, H2, pebble_get. by destruct (_ !! _).
Qed.

Lemma GetBlock_held c k :
  open c → GetBlock p c k =
    match held c !! makeKey prefixBlock k with
    | Some b => map_err ErrChainCodec (BlockFromBytes b)
    | None => Err ErrBlockNotFound
    end.
Proof using Type*.
  intros [H1 H2]. unfold GetBlock, Db.Get, held. rewrite H1, H2, pebble_get. by destruct (_ !! _).
Qed.

Lemma PutHeader_held c h c' :
  open c → PutHeader p HashData c h = Ok c' →
  ∃ b, Bytes_header h = Ok b ∧ open c' ∧ held c' = <[makeKey prefixHeader (HashData b) := b]> (held c).
Proof using Type*.
  intros [H1 H2] H. unfold PutHeader in H. rewrite H1 in H.
  apply rbind_Ok_inv in H as (b & Hb & H). apply map_err_Ok_inv in Hb. exists b.
  apply rbind_Ok_inv in H as (hash & Hhash & H). apply map_err_Ok_inv in Hhash.
  unfold Hash_header in Hhash. rewrite Hb in Hhash. injection Hhash as <-.
  apply rbind_Ok_inv in H as (d & Hd & H). apply map_err_Ok_inv in Hd. injection H as <-.
  unfold Db.Put in Hd. rewrite H2 in Hd. apply rbind_Ok_inv in Hd as (d' & Hd' & Hd). injection Hd as <-.
  split_and!; [done|by split|]. unfold held. cbn. by apply pebble_set.
Qed.

Lemma PutBlock_held c b c' :
  open c → PutBlock p HashData c b = Ok c' →
  ∃ hb bb, Bytes_header (stored_Header b) = Ok hb ∧ Bytes_block b = Ok bb ∧ open c' ∧
    held c' = <[makeKey prefixBlock (HashData hb) := bb]>
                (<[makeKey prefixHeader (HashData hb) := hb]> (held c)).
Proof using Type*.
  intros [H1 H2] H. unfold PutBlock in H. rewrite H1 in H. cbv zeta in H.
  apply rbind_Ok_inv in H as (hash & Hhash & H). apply map_err_Ok_inv in Hhash.
  apply rbind_Ok_inv in H as (hb & Hhb & H). apply map_err_Ok_inv in Hhb.
  unfold Hash_header in Hhash. rewrite Hhb in Hhash. injection Hhash as <-.
  apply rbind_Ok_inv in H as (batch & Hbatch & H). apply map_err_Ok_inv in Hbatch. injection Hbatch as <-.
  apply rbind_Ok_inv in H as (bb & Hbb & H). apply map_err_Ok_inv in Hbb.
  apply rbind_Ok_inv in H as (batch & Hbatch & H). apply map_err_Ok_inv in Hbatch. injection Hbatch as <-.
  apply rbind_Ok_inv in H as ([d b'] & Hd & H). apply map_err_Ok_inv in Hd. injection H as <-.
  unfold Db.BatchCommit in Hd. cbn in Hd. apply rbind_Ok_inv in Hd as (d' & Hd' & Hd). injection Hd as <- _.
  exists hb, bb. split_and!; [done|done|by split|]. unfold held. cbn. apply pebble_commit in Hd'. exact Hd'.
Qed.
End store.

(** What [PutBlock] stores is read back under the hash of its header, the
    header with [GetHeader] and the block, in canonical form, with [GetBlock]; what
    is stored under other hashes stays. *)
Theorem chain_put_get p content HashData c b c' :
  PebbleLaws p content → open p c → block_typed b → PutBlock p HashData c b = Ok c' →
  ∃ hash, Hash_header HashData (stored_Header b) = Ok hash ∧ open p c' ∧
    GetHeader p c' hash = Ok (stored_Header b) ∧ GetBlock p c' hash = Ok (canonical b) ∧
    ∀ k, k ≠ hash → GetHeader p c' k = GetHeader p c k ∧ GetBlock p c' k = GetBlock p c k.
Proof.
  intros Hp Ho Hb H. destruct (PutBlock_held p content HashData c b c' Ho H) as (hb & bb & Hhb & Hbb & Ho' & Hc).
  exists (HashData hb). unfold Hash_header. rewrite Hhb.
  destruct (Bytes_header_ok _ (proj1 Hb)) as (hb' & E & _ & Hread). rewrite Hhb in E. injection E as <-.
  destruct (Bytes_block_ok b Hb) as (bb' & E & Hread'). rewrite Hbb in E. injection E as <-.
  split_and!; [done|done| | |].
  - rewrite (GetHeader_held p content) by done. rewrite Hc, lookup_insert_ne, lookup_insert_eq by done.
    by rewrite Hread.
  - rewrite (GetBlock_held p content) by done. rewrite Hc, lookup_insert_eq. by rewrite Hread'.
  - intros k Hk. rewrite !(GetHeader_held p content), !(GetBlock_held p content) by done.
    rewrite Hc, !lookup_insert_ne by (unfold makeKey, prefixBlock, prefixHeader; congruence). done.
Qed.

(** The store's [FindHeader] is the search that the guarantees use: over the headers
    in the order of their keys. *)
Lemma find_stored_header_from fn es i turns :
  (length es - i < turns)%nat → (i ≤ length es)%nat →
  ∃ r, find_stored_header turns fn (Db.MkIterator es (match i with O => None | S i => Some i end)) = Some r ∧
    ∀ h, r = Ok h ↔ find_header fn ((λ e : list Z * res db_error (list Z),
      let! b := map_err (λ _, StStore "value") e.2 in HeaderFromBytes b) <$> drop i es) = Ok h.
Proof.
  revert i. induction turns as [|turns IH]; intros i Ht Hi; [lia|]. cbn [find_stored_header]. unfold Db.Next.
  cbn [Db.position Db.entries]. set (j := match match i with O => None | S i => Some i end with
    | None => 0%nat | Some i => S i end). assert (j = i) as -> by (subst j; by destruct i).
  destruct (decide (i < length es)%nat) as [Hlt|Hge].
  - rewrite bool_decide_true by done. unfold Db.Value. cbn [Db.position Db.entries].
    destruct (lookup_lt_is_Some_2 es i Hlt) as [[k v] Hk]. rewrite Hk, (drop_S _ _ _ Hk).
    cbn [fmap list_fmap find_header snd]. destruct v as [b|e|]; cbn [map_err rbind]; [|by eexists..].
    destruct (HeaderFromBytes b) as [h|e|]; cbn [map_err rbind]; [|by eexists..].
    destruct (fn h); [eexists; split; [done|]; intros h'; split; congruence|].
    apply (IH (S i)); lia.
  - rewrite bool_decide_false by done. rewrite drop_ge by lia. eexists. split; [done|].
    intros h'. cbn. split; congruence.
Qed.

(** ** Sequences of blocks *)

Section blocks.
Context (p : Pebble) (content : PDB p → gmap (list Z) (list Z)) `{!PebbleLaws p content}.
Context (HashData : list Z → Hash).

(** Blocks are stored under the hash of their header, parents before children. *)
Record block_store (c : Chain p) : Prop := MkBlockStore {
  blocks_open : open p c;
  blocks_hash k bytes : held p content c !! makeKey prefixBlock k = Some bytes →
    ∃ b, BlockFromBytes bytes = Ok b ∧ Hash_header HashData (stored_Header b) = Ok k ∧
      block_typed b ∧ canonical b = b;
  blocks_rank : ∃ rank : Hash → nat, ∀ k b b', GetBlock p c k = Ok b →
    GetBlock p c (ParentHash (stored_Header b)) = Ok b' → (rank (ParentHash (stored_Header b)) < rank k)%nat;
}.

(** A new block that no stored block names as its parent; the entries of its maps,
    which have no order in Go, are listed by their keys. *)
Definition appended (c c' : Chain p) : Prop :=
  ∃ b hash, block_typed b ∧ canonical b = b ∧ Hash_header HashData (stored_Header b) = Ok hash ∧
    ParentHash (stored_Header b) ≠ hash ∧ GetBlock p c hash = Err ErrBlockNotFound ∧
    (∀ k b', GetBlock p c k = Ok b' → ParentHash (stored_Header b') ≠ hash) ∧
    PutBlock p HashData c b = Ok c'.

Lemma GetBlock_store c k :
  block_store c → (∃ b, GetBlock p c k = Ok b ∧ Hash_header HashData (stored_Header b) = Ok k ∧
    block_typed b ∧ canonical b = b) ∨
    GetBlock p c k = Err ErrBlockNotFound.
Proof using Type*.
  intros Hs. rewrite (GetBlock_held p content) by apply Hs.
  destruct (held p content c !! makeKey prefixBlock k) as [bytes|] eqn:E; [left|by right].
  destruct (blocks_hash _ Hs _ _ E) as (b & -> & Hb). by exists b.
Qed.

Lemma block_store_empty d : content d = ∅ → block_store (MkChain p (Db.MkKVStore p d false) false).
Proof using Type*.
  intros Hd. assert (open p (MkChain p (Db.MkKVStore p d false) false)) as Ho by done. split; [done| |].
  - intros k bytes. unfold held. cbn. rewrite Hd. done.
  - exists (λ _, 0%nat). intros k b b'. rewrite (GetBlock_held p content) by done. unfold held. cbn. by rewrite Hd.
Qed.

Lemma block_store_appended c c' : block_store c → appended c c' → block_store c'.
Proof using Type*.
  intros Hs (b & hash & Hb & Hcan & Hh & Hne & Hnew & Hno & Hput).
  destruct (PutBlock_held p content HashData c b c' (blocks_open _ Hs) Hput) as (hb & bb & Hhb & Hbb & Ho' & Hc).
  unfold Hash_header in Hh. rewrite Hhb in Hh. injection Hh as <-.
  destruct (Bytes_block_ok b Hb) as (bb' & E & Hread). rewrite Hbb in E. injection E as <-.
  assert (GetBlock p c' (HashData hb) = Ok (canonical b)) as Hget
    by (rewrite (GetBlock_held p content) by done; rewrite Hc, lookup_insert_eq; by rewrite Hread).
  assert (∀ k, k ≠ HashData hb → GetBlock p c' k = GetBlock p c k) as Hold.
  { intros k Hk. rewrite !(GetBlock_held p content) by (done || apply Hs).
    rewrite Hc, !lookup_insert_ne by (unfold makeKey, prefixBlock, prefixHeader; congruence). done. }
  split; [done| |].
  - intros k bytes. rewrite Hc. destruct (decide (k = HashData hb)) as [->|Hk].
    + rewrite lookup_insert_eq. intros [= <-]. exists b. rewrite Hcan in Hread. split_and!; [done| |done|done]. unfold Hash_header. by rewrite Hhb.
    + rewrite !lookup_insert_ne by (unfold makeKey, prefixBlock, prefixHeader; congruence). apply (blocks_hash _ Hs).
  - destruct (blocks_rank _ Hs) as [rank Hrank].
    exists (λ k, if decide (k = HashData hb) then S (rank (ParentHash (stored_Header b))) else rank k).
    intros k x x'. destruct (decide (k = HashData hb)) as [->|Hk].
    + rewrite Hget. intros [= <-] _. cbn. rewrite decide_False by done. lia.
    + rewrite Hold by done. intros Hx. pose proof (Hno _ _ Hx). rewrite Hold, decide_False by done. by apply Hrank.
Qed.

(** The stored children, as the iterator gives them. *)
Lemma in_block_range k : bytes_less k [prefixBlock] = false → bytes_less k [prefixBlock + 1] = true →
  ∃ hash, k = makeKey prefixBlock hash.
Proof.
  destruct k as [|x k]; cbn; [done|]. unfold makeKey, prefixBlock. intros H1 H2.
  destruct (x <? 2) eqn:E1; [done|]. destruct (x <? 2 + 1) eqn:E2; [exists k; f_equal; lia|].
  destruct (2 + 1 <? x); [done|]. by destruct k.
Qed.

Lemma child_of_fold parent es cs :
  foldl (λ a e, child_of parent e.2 a) cs es =
  cs ++ omap (λ e : list Z * res db_error (list Z), match child_of parent e.2 [] with [b] => Some b | _ => None end) es.
Proof.
  revert cs. induction es as [|[k v] es IH]; intros cs; cbn [foldl omap list_omap snd]; [by rewrite app_nil_r|].
  rewrite IH. unfold child_of. destruct v as [bytes|e|]; [|done..]. destruct (BlockFromBytes bytes) as [b|e|]; [|done..].
  case_bool_decide; [|done]. cbn [app]. by rewrite <- app_assoc.
Qed.

Lemma FindChildren_store c parent :
  block_store c → (∃ e, FindChildren p c parent = Some (Err (ErrChainDb e))) ∨
    ∃ children, FindChildren p c parent = Some (Ok children) ∧
      ∀ b, b ∈ children ↔ ParentHash (stored_Header b) = parent ∧
        ∃ k, Hash_header HashData (stored_Header b) = Ok k ∧ GetBlock p c k = Ok b.
Proof using Type*.
  intros Hs. unfold FindChildren, Db.NewIterator. rewrite (proj1 (blocks_open _ Hs)).
  destruct (PNewIter _ _ _ _) as [es|e|] eqn:E; [right|left; by exists e|by apply pebble_iter_total in E].
  cbn [rbind Db.entries]. rewrite for_each_all, child_of_fold. eexists. split; [reflexivity|]. intros b.
  apply pebble_iter in E as (l & -> & Hl & _). cbn [app]. rewrite list_elem_of_omap. split.
  - intros ([k v] & Hkv & Hb). apply list_elem_of_fmap in Hkv as ([k' bytes] & [= -> ->] & Hkv). cbn in Hb.
    rewrite Hl, list_elem_of_filter, elem_of_map_to_list in Hkv. destruct Hkv as ([Hlow Hhigh] & Hkv).
    destruct (in_block_range _ Hlow Hhigh) as [hash Hk]. cbn in Hk. subst k'.
    destruct (blocks_hash _ Hs _ _ Hkv) as (b' & Hb' & Hh & _). rewrite Hb' in Hb.
    case_bool_decide; [|done]. injection Hb as <-. split; [done|]. exists hash. split; [done|].
    rewrite (GetBlock_held p content) by apply Hs. unfold held. rewrite Hkv. by rewrite Hb'.
  - intros (Hp & k & Hk & Hb). rewrite (GetBlock_held p content) in Hb by apply Hs.
    destruct (held p content c !! makeKey prefixBlock k) as [bytes|] eqn:Hbytes; [|done].
    apply map_err_Ok_inv in Hb. exists (makeKey prefixBlock k, Ok bytes). split.
    + apply list_elem_of_fmap. exists (makeKey prefixBlock k, bytes). split; [done|].
      rewrite Hl, list_elem_of_filter, elem_of_map_to_list. split; [|exact Hbytes]. split; cbn; by destruct k.
    + cbn. rewrite Hb. by rewrite bool_decide_true.
Qed.

(** [blocks] goes from [k] towards the genesis, or away from it. *)
Fixpoint back_from (c : Chain p) (k : Hash) (blocks : list StoredBlock) : Prop :=
  match blocks with
  | [] => True
  | b :: blocks => GetBlock p c k = Ok b ∧ back_from c (ParentHash (stored_Header b)) blocks
  end.
Fixpoint forth_from (c : Chain p) (k : Hash) (blocks : list StoredBlock) : Prop :=
  match blocks with
  | [] => True
  | b :: blocks => ParentHash (stored_Header b) = k ∧
      ∃ hash, Hash_header HashData (stored_Header b) = Ok hash ∧ GetBlock p c hash = Ok b ∧ forth_from c hash blocks
  end.

Lemma block_sequence_back c start turns k b blocks max :
  block_store c → GetBlock p c k = Ok b → 0 ≤ max < 2 ^ 32 → len blocks ≤ max →
  (Z.to_nat (max - len blocks) < turns)%nat →
  ∃ more, block_sequence p HashData turns c start false max k b blocks = Some (Ok (blocks ++ more)) ∧
    len (blocks ++ more) ≤ max ∧ back_from c k more ∧
    (len (blocks ++ more) = max ∨ ∃ last_, last more = Some last_ ∧
      GetBlock p c (ParentHash (stored_Header last_)) = Err ErrBlockNotFound).
Proof using Type*.
  intros Hs. revert k b blocks. induction turns as [|turns IH]; intros k b blocks Hb Hmax Hlen Ht; [lia|].
  cbn [block_sequence]. rewrite uint32_small by (unfold len in *; lia).
  destruct (Z.ltb_spec (len blocks) max) as [Hlt|Hge]; cbn [negb].
  - assert (len (blocks ++ [b]) = len blocks + 1) as Hl1 by (unfold len; rewrite length_app; cbn; lia).
    destruct (GetBlock_store c (ParentHash (stored_Header b)) Hs) as [(b' & Hb' & _)|Hn].
    + rewrite Hb'. destruct (IH _ b' (blocks ++ [b]) Hb') as (more & -> & Hle & Hm & Hend); [lia..|].
      exists (b :: more). rewrite <- app_assoc in *. split_and!; [done|done|by split|].
      destruct Hend as [?|(z & Hz & Hzn)]; [by left|right]. exists z. split; [|done]. rewrite last_cons. by rewrite Hz.
    + rewrite Hn. exists [b]. split_and!; [done|lia|by split|]. right. by exists b.
  - exists []. rewrite app_nil_r. split_and!; [done|done|done|]. left. lia.
Qed.
(** Nothing follows [k]: no stored block has it as its parent, or the iterator
    over the store could not be created. *)
Definition tip (c : Chain p) (k : Hash) : Prop :=
  (∃ e, FindChildren p c k = Some (Err e)) ∨
  ∀ k' b, GetBlock p c k' = Ok b → ParentHash (stored_Header b) ≠ k.
Definition hash_from (k : Hash) (blocks : list StoredBlock) : Hash :=
  match last blocks with
  | Some b => match Hash_header HashData (stored_Header b) with Ok k => k | _ => [] end
  | None => k
  end.

(** One step away from the genesis. *)
Lemma next_child c k :
  block_store c → tip c k ∧ (FindChildren p c k = Some (Ok []) ∨ ∃ e, FindChildren p c k = Some (Err (ErrChainDb e))) ∨
  ∃ b bs k', FindChildren p c k = Some (Ok (b :: bs)) ∧ ParentHash (stored_Header b) = k ∧
    Hash_header HashData (stored_Header b) = Ok k' ∧ GetBlock p c k' = Ok b.
Proof using Type*.
  intros Hs. destruct (FindChildren_store c k Hs) as [(e & He)|(children & Hc & Hall)].
  - left. split; [left; eauto|right; eauto].
  - destruct children as [|b bs].
    + left. split; [right|by left]. intros k' b Hb Hp.
      assert (b ∈ @nil StoredBlock) as Hin; [|by apply not_elem_of_nil in Hin]. apply Hall. split; [done|].
      destruct (GetBlock_store c k' Hs) as [(b' & Hb' & Hh & _)|Hn]; [|congruence]. assert (b' = b) as -> by congruence. eauto.
    + right. destruct (proj1 (Hall b) ltac:(by constructor)) as (Hp & k' & Hh & Hb). by exists b, bs, k'.
Qed.

Lemma block_sequence_forth c start rank turns k b blocks max :
  block_store c → (∀ k b b', GetBlock p c k = Ok b → GetBlock p c (ParentHash (stored_Header b)) = Ok b' →
    (rank (ParentHash (stored_Header b)) < rank k)%nat) →
  GetBlock p c k = Ok b → Hash_header HashData (stored_Header b) = Ok k → (rank start < rank k)%nat →
  0 ≤ max < 2 ^ 32 → len blocks ≤ max → (Z.to_nat (max - len blocks) < turns)%nat →
  ∃ more, block_sequence p HashData turns c start true max k b blocks = Some (Ok (blocks ++ more)) ∧
    len (blocks ++ more) ≤ max ∧ forth_from c (ParentHash (stored_Header b)) more ∧
    (len (blocks ++ more) = max ∨ more ≠ [] ∧ tip c (hash_from k more)).
Proof using Type*.
  intros Hs Hrank. revert k b blocks. induction turns as [|turns IH]; intros k b blocks Hb Hh Hr Hmax Hlen Ht; [lia|].
  cbn [block_sequence]. rewrite uint32_small by (unfold len in *; lia).
  destruct (Z.ltb_spec (len blocks) max) as [Hlt|Hge]; cbn [negb];
    [|exists []; rewrite app_nil_r; split_and!; [done|done|done|left; lia]].
  assert (len (blocks ++ [b]) = len blocks + 1) as Hl1 by (unfold len; rewrite length_app; cbn; lia).
  rewrite bool_decide_false by (intros ->; lia).
  destruct (next_child c k Hs) as [(Htip & Hc)|(b' & bs & k' & Hc & Hp & Hh' & Hb')].
  - exists [b]. split_and!; [by destruct Hc as [->|[e ->]]|lia|split; [done|]; exists k; by split_and!|].
    right. split; [done|]. unfold hash_from. cbn. by rewrite Hh.
  - rewrite Hc, Hh', Hb'. pose proof Hrank _ _ b Hb' as Hr'. rewrite Hp in Hr'. specialize (Hr' Hb).
    destruct (IH k' b' (blocks ++ [b]) Hb' Hh') as (more & -> & Hle & Hm & Hend); [lia..|].
    exists (b :: more). rewrite <- app_assoc in *. rewrite Hp in Hm. split_and!; [done|done|split; [done|]; exists k; by split_and!|].
    destruct Hend as [?|[Hne Htip]]; [by left|right]. split; [done|]. unfold hash_from in *. rewrite last_cons.
    by destruct more using rev_ind; [|rewrite last_snoc in *].
Qed.

Lemma block_store_reachable c c' : block_store c → rtc appended c c' → block_store c'.
Proof using Type*. intros Hs. induction 1; [done|]. eauto using block_store_appended. Qed.
End blocks.

Lemma GetBlockSequence_ok p content HashData c start b0 ascending maxBlocks :
  PebbleLaws p content → block_store p content HashData c → GetBlock p c start = Ok b0 → 0 ≤ maxBlocks < 2 ^ 32 →
  ∃ blocks, GetBlockSequence p HashData (Z.to_nat maxBlocks + 2) c start ascending maxBlocks = Some (Ok blocks) ∧
    len blocks ≤ maxBlocks ∧
    if (ascending : bool) then
      forth_from p HashData c start blocks ∧
      (len blocks = maxBlocks ∨ tip p c (hash_from HashData start blocks))
    else
      back_from p c start blocks ∧
      (len blocks = maxBlocks ∨ ∃ b, last blocks = Some b ∧
         GetBlock p c (ParentHash (stored_Header b)) = Err ErrBlockNotFound).
Proof.
  intros Hp Hs Hb Hmax.
  unfold GetBlockSequence. rewrite (proj1 (blocks_open _ _ _ _ Hs)), Hb. destruct ascending.
  - replace (Z.to_nat maxBlocks + 2)%nat with (S (S (Z.to_nat maxBlocks))) by lia. set (turns := S (Z.to_nat maxBlocks)).
    cbn [block_sequence]. change (uint32 (len [])) with 0. destruct (Z.ltb_spec 0 maxBlocks) as [Hlt|Hge]; cbn [negb].
    2: { exists []. change (len []) with 0. split_and!; [done|lia|done|left; lia]. }
    rewrite bool_decide_true by done.
    destruct (next_child p content HashData c start Hs) as [(Htip & Hc)|(b' & bs & k' & Hc & Hpar & Hh' & Hb')].
    + exists []. split_and!; [by destruct Hc as [->|[e ->]]|by change (len []) with 0; lia|done|by right].
    + rewrite Hc, Hh', Hb'. destruct (blocks_rank _ _ _ _ Hs) as [rank Hrank].
      assert (rank start < rank k')%nat as Hlt' by (pose proof Hrank _ _ b0 Hb' as H; rewrite Hpar in H; by apply H).
      destruct (block_sequence_forth p content HashData c start rank turns k' b' [] maxBlocks Hs Hrank Hb' Hh' Hlt' Hmax)
        as (more & E & Hle & Hm & Hend); [change (len []) with 0; lia..|]. rewrite app_nil_l in *. exists more. rewrite Hpar in Hm.
      split_and!; [done|done|done|]. destruct Hend as [?|[Hne Ht]]; [by left|right].
      unfold hash_from in *. by destruct more using rev_ind; [|rewrite last_snoc in *].
  - destruct (block_sequence_back p content HashData c start (Z.to_nat maxBlocks + 2) start b0 [] maxBlocks Hs Hb Hmax)
      as (more & E & Hle & Hm & Hend); [change (len []) with 0; lia..|]. rewrite app_nil_l in *. by exists more.
Qed.

(** The blocks of a sequence are stored ones. *)
Lemma sequence_stored p HashData c start (ascending : bool) blocks :
  (if ascending then forth_from p HashData c start blocks else back_from p c start blocks) →
  Forall (λ b, ∃ k, GetBlock p c k = Ok b) blocks.
Proof.
  revert start. induction blocks as [|b blocks IH]; intros start H; [done|]. destruct ascending.
  - destruct H as (_ & hash & _ & Hb & H). constructor; [by exists hash|by apply (IH hash)].
  - destruct H as [Hb H]. constructor; [by exists start|by eapply IH].
Qed.

(** C18: Requests for blocks.  In a store filled block after block, a request from a
    stored block always gets a list of at most as many blocks as it asks for, within
    two turns of the loop more than that number.  Descending it is the block, its
    parent and so on, and it ends early only where a parent is missing; ascending it
    starts with a child of the block, each next block is a child of the one before,
    and it ends early only at a block that has none (or if no iterator can be
    created). *)
Theorem block_requests p content HashData d c start b0 ascending maxBlocks :
  PebbleLaws p content → content d = ∅ →
  rtc (appended p HashData) (MkChain p (Db.MkKVStore p d false) false) c →
  GetBlock p c start = Ok b0 → 0 ≤ maxBlocks < 2 ^ 32 →
  ∃ blocks, GetBlockSequence p HashData (Z.to_nat maxBlocks + 2) c start ascending maxBlocks = Some (Ok blocks) ∧
    len blocks ≤ maxBlocks ∧
    if (ascending : bool) then
      forth_from p HashData c start blocks ∧
      (len blocks = maxBlocks ∨ tip p c (hash_from HashData start blocks))
    else
      back_from p c start blocks ∧
      (len blocks = maxBlocks ∨ ∃ b, last blocks = Some b ∧
         GetBlock p c (ParentHash (stored_Header b)) = Err ErrBlockNotFound).
Proof.
  intros Hp Hd Hr. apply (GetBlockSequence_ok p content); [done|].
  apply (block_store_reachable p content HashData _ c (block_store_empty p content HashData d Hd) Hr).
Qed.

(** ** The tree of headers *)

Section service.
Context (p : Pebble) (content : PDB p → gmap (list Z) (list Z)) `{!PebbleLaws p content}.
Context (HashData : list Z → Hash).

Definition stored (c : Chain p) (k : Hash) (h : Header) : Prop := GetHeader p c k = Ok h.

(** [k] is [n] generations below [a]. *)
Inductive descends (c : Chain p) : nat → Hash → Hash → Prop :=
| descends_self k : descends c 0 k k
| descends_child n k h a : stored c k h → descends c n (ParentHash h) a → descends c (S n) k a.

(** The service's view between announcements, with [g] the hash of the genesis
    header: headers are stored under their hashes and together with their parents,
    which come before them in some order; the known leaves are the headers without
    a stored child, and the finalized header is the genesis or has six generations
    below it. *)
Record tree (g : Hash) (bs : BlockService p) : Prop := MkTree {
  tree_open : open p (ChainStore p bs);
  tree_total k : (∃ h, stored (ChainStore p bs) k h) ∨ GetHeader p (ChainStore p bs) k = Err ErrHeaderNotFound;
  tree_hash k h : stored (ChainStore p bs) k h → Hash_header HashData h = Ok k;
  tree_genesis : stored (ChainStore p bs) g genesisHeader ∧
    GetHeader p (ChainStore p bs) (ParentHash genesisHeader) = Err ErrHeaderNotFound;
  tree_parent k h : stored (ChainStore p bs) k h → k ≠ g → ∃ h', stored (ChainStore p bs) (ParentHash h) h';
  tree_rank : ∃ rank : Hash → nat, ∀ k h h', stored (ChainStore p bs) k h →
    stored (ChainStore p bs) (ParentHash h) h' → (rank (ParentHash h) < rank k)%nat;
  tree_leaves k slot : KnownLeaves p bs !! k = Some slot ↔
    k ≠ g ∧ ∃ h, stored (ChainStore p bs) k h ∧ slot = TimeSlotIndex h ∧
      ∀ k' h', stored (ChainStore p bs) k' h' → ParentHash h' ≠ k;
  tree_final : ∃ h, stored (ChainStore p bs) (finalized_Hash (Latest p bs)) h ∧
    finalized_Slot (Latest p bs) = TimeSlotIndex h;
  tree_confirmed : finalized_Hash (Latest p bs) = g ∨
    ∃ k, descends (ChainStore p bs) 6 k (finalized_Hash (Latest p bs));
}.

(** A header that was not stored before; no header has the hash that the genesis
    header names as its parent. *)
Definition fresh (bs : BlockService p) (header : Header) (hash : Hash) : Prop :=
  header_typed header ∧ Hash_header HashData header = Ok hash ∧
  GetHeader p (ChainStore p bs) hash = Err ErrHeaderNotFound ∧ hash ≠ ParentHash genesisHeader.

Definition announced (bs bs' : BlockService p) : Prop :=
  ∃ turns header hash, fresh bs header hash ∧
    HandleNewHeader p HashData turns header bs = Some (Ok (Some bs')).

Lemma Hash_header_bytes h hash b : Hash_header HashData h = Ok hash → Bytes_header h = Ok b → hash = HashData b.
Proof. unfold Hash_header. intros H Hb. rewrite Hb in H. by injection H. Qed.

(** Storing a header adds it and changes nothing else. *)
Lemma PutHeader_get c h hash c' :
  open p c → header_typed h → Hash_header HashData h = Ok hash → PutHeader p HashData c h = Ok c' →
  open p c' ∧ stored c' hash h ∧ ∀ k, k ≠ hash → GetHeader p c' k = GetHeader p c k.
Proof using Type*.
  intros Ho Ht Hh H. destruct (PutHeader_held p content HashData c h c' Ho H) as (b & Hb & Ho' & Hc).
  rewrite (Hash_header_bytes _ _ _ Hh Hb) in *. destruct (Bytes_header_ok h Ht) as (b' & E & _ & Hread).
  rewrite Hb in E. injection E as <-. split_and!; [done| |].
  - unfold stored. rewrite (GetHeader_held p content) by done. rewrite Hc, lookup_insert_eq. by rewrite Hread.
  - intros k Hk. rewrite !(GetHeader_held p content) by done.
    rewrite Hc, lookup_insert_ne by (unfold makeKey; congruence). done.
Qed.

(** The parent of a fresh header that is accepted is stored. *)
Lemma descendant_parent g turns bs header hash :
  tree g bs → fresh bs header hash →
  isDescendantOfFinalized p HashData turns header bs = Some (Ok true) →
  ∃ h, stored (ChainStore p bs) (ParentHash header) h.
Proof.
  intros Ht (_ & Hh & Hfresh & _) H. unfold isDescendantOfFinalized in H.
  destruct turns as [|turns]; [done|]. cbn [walk_back] in H. destruct (_ <? _).
  - destruct (GetHeader p _ (ParentHash header)) as [h| |] eqn:E; [by exists h|done..].
  - apply (inj Some) in H. cbn [rbind] in H. destruct (_ =? _); [|done].
    apply rbind_Ok_inv in H as (k & Hk & H). apply map_err_Ok_inv in Hk. rewrite Hh in Hk. injection Hk as <-.
    injection H as H. apply bool_decide_eq_true in H. destruct (tree_final _ _ Ht) as (hf & Hf & _).
    unfold stored in Hf. rewrite <- H, Hfresh in Hf. done.
Qed.

(** What the walk of the finalization reaches. *)
Lemma ancestor_chain_last c n hash l :
  ancestor_chain p c (S n) hash = Ok (Some l) →
  ∃ k h, last l = Some h ∧ stored c k h ∧ descends c n hash k.
Proof.
  revert hash l. induction n as [|n IH]; intros hash l H.
  - cbn [ancestor_chain] in H. destruct (GetHeader p c hash) as [h|e|] eqn:E; [|by destruct e|done].
    injection H as <-. exists hash, h. split_and!; [done|done|constructor].
  - remember (S n) as m eqn:Em. cbn [ancestor_chain] in H.
    destruct (GetHeader p c hash) as [h|e|] eqn:E; [|by destruct e|done].
    apply rbind_Ok_inv in H as (rest & Hr & H). destruct rest as [rest|]; [|done]. injection H as <-. subst m.
    destruct (IH _ _ Hr) as (k & hk & Hl & Hs & Hd). exists k, hk. split_and!; [|done|by econstructor].
    rewrite last_cons. by rewrite Hl.
Qed.

(** The tree with a fresh header whose parent is stored. *)
Section grow.
Context (g : Hash) (bs : BlockService p) (header : Header) (hash : Hash) (parent : Header) (c' : Chain p).
Context (Ht : tree g bs) (Hf : fresh bs header hash).
Context (Hparent : stored (ChainStore p bs) (ParentHash header) parent).
Context (Ho : open p c') (Hnew : stored c' hash header).
Context (Hold : ∀ k, k ≠ hash → GetHeader p c' k = GetHeader p (ChainStore p bs) k).

Lemma not_fresh k h : stored (ChainStore p bs) k h → k ≠ hash.
Proof using Hf. intros Hk ->. destruct Hf as (_ & _ & Hn & _). unfold stored in Hk. by rewrite Hn in Hk. Qed.

Lemma stored_new k h : stored c' k h ↔ k = hash ∧ h = header ∨ stored (ChainStore p bs) k h.
Proof using Hf Hnew Hold.
  unfold stored. destruct (decide (k = hash)) as [->|Hne].
  - unfold stored in Hnew. rewrite Hnew. destruct Hf as (_ & _ & -> & _). split; [intros [= <-]; by left|by intros [[_ ->]|?]].
  - rewrite Hold by done. split; [by right|by intros [[? _]|?]].
Qed.

(** No stored header has the fresh one as its parent. *)
Lemma no_child k h : stored c' k h → ParentHash h ≠ hash.
Proof using All.
  intros [[-> ->]|Hk]%stored_new; [by eapply not_fresh|]. destruct (decide (k = g)) as [->|Hg].
  - destruct (tree_genesis _ _ Ht) as [Hgen _]. unfold stored in Hgen, Hk. rewrite Hgen in Hk.
    injection Hk as <-. destruct Hf as (_ & _ & _ & Hn). congruence.
  - destruct (tree_parent _ _ Ht k h Hk Hg) as [h' Hh']. by eapply not_fresh.
Qed.

Lemma descends_new n k a : descends (ChainStore p bs) n k a → descends c' n k a.
Proof using Hf Hnew Hold.
  induction 1 as [k|n k h a Hk _ IH]; [constructor|]. econstructor; [|exact IH]. apply stored_new. by right.
Qed.

Lemma tree_grows :
  tree g (AddLeaf p hash (TimeSlotIndex header) (RemoveLeaf p (ParentHash header) (with_store p c' bs))).
Proof using All.
  pose proof Hf as (_ & Hh & Hn & Hng). destruct (tree_genesis _ _ Ht) as [Hgen Hgp].
  pose proof (not_fresh _ _ Hgen) as Hg. pose proof (not_fresh _ _ Hparent) as Hph. split; cbn.
  - exact Ho.
  - intros k. destruct (decide (k = hash)) as [->|Hk]; [left; by exists header|]. unfold stored.
    rewrite Hold by done. apply (tree_total _ _ Ht).
  - intros k h [[-> ->]|Hk]%stored_new; [done|by apply (tree_hash _ _ Ht)].
  - split; [apply stored_new; by right|]. rewrite Hold by done. done.
  - intros k h [[-> ->]|Hk]%stored_new Hkg.
    + exists parent. apply stored_new. by right.
    + destruct (tree_parent _ _ Ht k h Hk Hkg) as [h' Hh']. exists h'. apply stored_new. by right.
  - destruct (tree_rank _ _ Ht) as [rank Hrank].
    exists (λ k, if decide (k = hash) then S (rank (ParentHash header)) else rank k).
    intros k h h' Hk Hp. pose proof (no_child k h Hk) as Hne. rewrite (decide_False (P := ParentHash h = hash)) by done.
    apply stored_new in Hp as [[? _]|Hp]; [done|]. apply stored_new in Hk as [[-> ->]|Hk].
    + rewrite decide_True by done. lia.
    + rewrite decide_False by (by eapply not_fresh). by eapply Hrank.
  - intros k slot. destruct (decide (k = hash)) as [->|Hk].
    + rewrite lookup_insert_eq. split.
      * intros [= <-]. split; [done|]. exists header. split_and!; [done|done|apply no_child].
      * intros (_ & h & Hs & -> & _). unfold stored in Hs, Hnew. rewrite Hnew in Hs. by injection Hs as <-.
    + rewrite lookup_insert_ne by done. destruct (decide (k = ParentHash header)) as [->|Hkp].
      * rewrite lookup_delete_eq. split; [done|]. intros (_ & h & _ & _ & Hno). by destruct (Hno hash header Hnew).
      * rewrite lookup_delete_ne by done. rewrite (tree_leaves _ _ Ht). f_equiv. f_equiv. intros h.
        rewrite stored_new. split.
        -- intros (Hs & Hslot & Hno). split_and!; [by right|done|]. intros k' h' [[-> ->]|Hs']%stored_new; [done|by eapply Hno].
        -- intros ([[? _]|Hs] & Hslot & Hno); [done|]. split_and!; [done|done|]. intros k' h' Hs'.
           apply (Hno k' h'). apply stored_new. by right.
  - destruct (tree_final _ _ Ht) as (h & Hs & Hslot). exists h. split; [apply stored_new; by right|done].
  - destruct (tree_confirmed _ _ Ht) as [?|[k Hk]]; [by left|right]. exists k. by apply descends_new.
Qed.
End grow.

Lemma checkFinalization_tree g hash header bs bs' :
  tree g bs → stored (ChainStore p bs) hash header →
  checkFinalization p HashData (ParentHash header) bs = Ok bs' → tree g bs'.
Proof.
  intros Ht Hs H. unfold checkFinalization in H. apply rbind_Ok_inv in H as ([l|] & Hl & H); [|by injection H as <-].
  apply ancestor_chain_last in Hl as (k & h & Hlast & Hk & Hd). rewrite Hlast in H.
  rewrite (tree_hash _ _ Ht k h Hk) in H. injection H as <-.
  assert (∃ k' h', stored (ChainStore p bs) k' h' ∧ ParentHash h' = k) as (k' & h' & Hk' & Hp).
  { clear -Hd. generalize 4%nat (ParentHash header) Hd. clear. intros n x Hd.
    remember (S n) as m eqn:E. revert n E. induction Hd as [|m x h a Hx Hd IH]; intros n E; [done|].
    injection E as ->. destruct n as [|n]; [inversion Hd; subst; eauto|by eapply IH]. }
  assert (KnownLeaves p bs !! k = None) as Hleaf.
  { destruct (KnownLeaves p bs !! k) as [slot|] eqn:E; [|done]. apply (tree_leaves _ _ Ht) in E as (_ & _ & _ & _ & Hno).
    by destruct (Hno k' h' Hk'). }
  destruct Ht. split; cbn; try done.
  - intros x slot. by rewrite (delete_id _ _ Hleaf).
  - eauto.
  - right. exists hash. by econstructor.
Qed.

Lemma tree_announced g bs bs' : tree g bs → announced bs bs' → tree g bs'.
Proof using Type*.
  intros Ht (turns & header & hash & Hf & H). pose proof Hf as (Hty & Hh & _).
  unfold HandleNewHeader in H. rewrite Hh in H. cbn [map_err] in H.
  destruct (isDescendantOfFinalized p HashData turns header bs) as [r|] eqn:Hd; [|done].
  apply (inj Some) in H. apply rbind_Ok_inv in H as (b & -> & H). destruct b; [|done]. cbn [negb] in H.
  destruct (descendant_parent _ _ _ _ _ Ht Hf Hd) as [parent Hparent].
  apply rbind_Ok_inv in H as (c' & Hput & H).
  destruct (PutHeader_get _ _ _ _ (tree_open _ _ Ht) Hty Hh Hput) as (Ho & Hnew & Hold).
  pose proof (tree_grows g bs header hash parent c' Ht Hf Hparent Ho Hnew Hold) as Hg. cbv zeta in H.
  destruct (checkFinalization _ _ _ _) as [bs1|e|] eqn:Hc; [|by injection H as <-|done].
  injection H as <-. eapply checkFinalization_tree; [exact Hg|exact Hnew|exact Hc].
Qed.

(** The walk back from a header ends. *)
Lemma walk_back_ends g bs header :
  tree g bs → ∃ n, ∀ turns, (n ≤ turns)%nat →
    walk_back p turns (ChainStore p bs) (finalized_Slot (Latest p bs)) header ≠ None.
Proof.
  intros Ht. destruct (tree_rank _ _ Ht) as [rank Hrank]. generalize (finalized_Slot (Latest p bs)). intros slot.
  assert (∀ r k h turns, stored (ChainStore p bs) k h → (rank k ≤ r)%nat → (r < turns)%nat →
    walk_back p turns (ChainStore p bs) slot h ≠ None) as Hw.
  { intros r. induction r as [|r IH]; intros k h [|turns] Hk Hr Hturns; try lia; cbn [walk_back];
      (destruct (_ <? _); [|done]); destruct (GetHeader p _ (ParentHash h)) as [h'| |] eqn:E; try done.
    - specialize (Hrank k h h' Hk E). lia.
    - eapply IH; [exact E| |lia]. specialize (Hrank k h h' Hk E). lia. }
  exists (S (S (rank (ParentHash header)))). intros [|turns] Hturns; [lia|]. cbn [walk_back].
  destruct (_ <? _); [|done]. destruct (GetHeader p _ (ParentHash header)) as [h'| |] eqn:E; try done.
  eapply Hw; [exact E|done|lia].
Qed.

Lemma genesis_typed : header_typed genesisHeader.
Proof.
  assert (∀ n, well_typed (octets_type n) (hash_value (replicate n 0))) as H0.
  { intros n. cbn. unfold hash_value. rewrite fmap_replicate. split; [by apply Forall_replicate|apply length_replicate]. }
  unfold header_typed, header_type, header_value, genesisHeader. cbn -[well_typed octets_type replicate hash_value].
  cbn [well_typed fields_typed field_tag field]. split_and!; try done; try apply (H0 32%nat); try apply (H0 96%nat).
  split; [|done]. by repeat constructor.
Qed.

(** The service starts with the genesis header. *)
Lemma new_service_tree d g bs0 :
  content d = ∅ → Hash_header HashData genesisHeader = Ok g → g ≠ ParentHash genesisHeader →
  initializeState p HashData (emptyService p d) = (bs0, Ok ()) → tree g bs0.
Proof using Type*.
  intros Hd Hg Hne H. unfold initializeState in H. rewrite Hg in H. cbn [map_err ChainStore emptyService] in H.
  set (c := MkChain p _ false) in H. assert (open p c) as Ho by done.
  assert (held p content c = ∅) as Hc by exact Hd.
  destruct (PutHeader p HashData c genesisHeader) as [c1| |] eqn:H1; [|done..].
  destruct (PutHeader_get _ _ _ _ Ho genesis_typed Hg H1) as (Ho1 & Hs1 & Hold1).
  destruct (PutBlock p HashData c1 _) as [c2| |] eqn:H2; [|done..]. injection H as <-.
  destruct (PutBlock_held p content HashData c1 _ c2 Ho1 H2) as (hb & bb & Hhb & _ & Ho2 & Hc2).
  cbn [stored_Header] in Hhb. rewrite <- (Hash_header_bytes _ _ _ Hg Hhb) in Hc2.
  assert (∀ k, GetHeader p c2 k = if decide (k = g) then Ok genesisHeader else Err ErrHeaderNotFound) as Hget.
  { intros k. rewrite (GetHeader_held p content) by done. rewrite Hc2, lookup_insert_ne by done. case_decide as Hk.
    - subst k. rewrite lookup_insert_eq. destruct (Bytes_header_ok _ genesis_typed) as (b & E & _ & Hread).
      rewrite Hhb in E. injection E as <-. by rewrite Hread.
    - rewrite lookup_insert_ne by (unfold makeKey; congruence). pose proof (Hold1 k Hk) as Hk1.
      rewrite !(GetHeader_held p content), Hc in Hk1 by done. by destruct (held p content c1 !! _). }
  assert (∀ k h, stored c2 k h ↔ k = g ∧ h = genesisHeader) as Hst.
  { intros k h. unfold stored. rewrite Hget. case_decide; split; [by intros [= <-]|by intros [_ ->]|done|by intros [? _]]. }
  split; cbn [with_store UpdateLatestFinalized ChainStore KnownLeaves Latest finalized_Hash finalized_Slot emptyService].
  - done.
  - intros k. unfold stored. rewrite Hget. case_decide; [left; by eexists|by right].
  - by intros k h [-> ->]%Hst.
  - split; [by apply Hst|]. rewrite Hget. by rewrite decide_False.
  - by intros k h [-> ->]%Hst.
  - exists (λ _, 0%nat). intros k h h' [-> ->]%Hst [E _]%Hst. by destruct Hne.
  - intros k slot. rewrite lookup_empty. split; [done|]. intros (Hk & h & [-> _]%Hst & _). done.
  - exists genesisHeader. split; [by apply Hst|done].
  - by left.
Qed.

Lemma tree_reachable g bs bs' : tree g bs → rtc announced bs bs' → tree g bs'.
Proof using Type*. intros Ht H. induction H as [|bs bs1 bs' H1 _ IH]; [done|]. apply IH. by eapply tree_announced. Qed.

(** Walking back is deterministic. *)
Lemma descends_split c n m k a : descends c (n + m) k a → ∃ b, descends c n k b ∧ descends c m b a.
Proof.
  revert k. induction n as [|n IH]; intros k H; [exists k; split; [constructor|done]|].
  inversion H as [|? ? h ? Hk Hd]; subst. destruct (IH _ Hd) as (b & Hb & Ha). exists b. split; [by econstructor|done].
Qed.

Lemma descends_det c n k a b : descends c n k a → descends c n k b → a = b.
Proof.
  intros H. induction H as [k|n k h a Hk _ IH]; intros Hb; inversion Hb as [|? ? h' ? Hk' Hd]; subst; [done|].
  apply IH. unfold stored in *. rewrite Hk in Hk'. by injection Hk' as <-.
Qed.

Lemma ancestor_chain_exists c n k a h :
  descends c n k a → stored c a h → ∃ l, ancestor_chain p c (S n) k = Ok (Some l).
Proof.
  intros Hd Ha. induction Hd as [k|n k h' a Hk _ IH]; cbn [ancestor_chain].
  - unfold stored in Ha. rewrite Ha. by eexists.
  - unfold stored in Hk. rewrite Hk. destruct (IH Ha) as [l Hl]. cbn [ancestor_chain] in Hl. rewrite Hl. by eexists.
Qed.

(** The parent [n] generations below the finalized header, [n] at least 5. *)
Lemma finality_step g turns bs header hash bs' n :
  tree g bs → fresh bs header hash →
  HandleNewHeader p HashData turns header bs = Some (Ok (Some bs')) →
  descends (ChainStore p bs) (5 + n) (ParentHash header) (finalized_Hash (Latest p bs)) →
  descends (ChainStore p bs') n (finalized_Hash (Latest p bs')) (finalized_Hash (Latest p bs)).
Proof using Type*.
  intros Ht Hf H Hdesc. pose proof Hf as (Hty & Hh & _). unfold HandleNewHeader in H. rewrite Hh in H. cbn [map_err] in H.
  destruct (isDescendantOfFinalized p HashData turns header bs) as [r|] eqn:Hd; [|done].
  apply (inj Some) in H. apply rbind_Ok_inv in H as (b & -> & H). destruct b; [|done]. cbn [negb] in H.
  apply rbind_Ok_inv in H as (c' & Hput & H). cbv zeta in H.
  destruct (PutHeader_get _ _ _ _ (tree_open _ _ Ht) Hty Hh Hput) as (Ho & Hnew & Hold).
  destruct (descends_split _ _ _ _ _ Hdesc) as (k & Hk & Hkf).
  assert (∀ m x y, descends (ChainStore p bs) m x y → descends c' m x y) as Hmono
    by (intros m x y; by apply (descends_new bs header hash c' Hf Hnew Hold)).
  assert (∃ hk, stored (ChainStore p bs) k hk) as [hk Hsk].
  { destruct n; inversion Hkf; subst; [|eauto]. destruct (tree_final _ _ Ht) as (hf & ? & _). eauto. }
  assert (stored c' k hk) as Hsk' by (apply (stored_new bs header hash c' Hf Hnew Hold); by right).
  destruct (ancestor_chain_exists c' 5 (ParentHash header) k hk (Hmono _ _ _ Hk) Hsk') as [l Hl].
  unfold checkFinalization in H at 1. cbn [ChainStore AddLeaf RemoveLeaf with_store] in H. rewrite Hl in H.
  cbn [rbind] in H. apply ancestor_chain_last in Hl as (k2 & h2 & Hlast & Hk2 & Hd2).
  rewrite (descends_det _ _ _ _ _ Hd2 (Hmono _ _ _ Hk)) in Hk2. rewrite Hlast in H.
  assert (h2 = hk) as -> by (unfold stored in *; rewrite Hsk' in Hk2; by injection Hk2).
  rewrite (tree_hash _ _ Ht k hk Hsk) in H. cbn [rbind map_err] in H. injection H as <-. cbn. by apply Hmono.
Qed.
End service.

(** C7: The block service tracks the tips of the chain.  Starting from an empty
    store and after any sequence of announced headers that were not known before:
    of the headers other than the genesis, the known leaves are exactly the stored
    ones that are the parent of no stored header, with their slots; the finalized
    header is stored with its slot, and is the genesis or has at least five
    generations of stored descendants; and the handling of any header ends. *)
Theorem leaves_exact p content HashData d g bs0 bs :
  PebbleLaws p content → content d = ∅ →
  Hash_header HashData genesisHeader = Ok g → g ≠ ParentHash genesisHeader →
  initializeState p HashData (emptyService p d) = (bs0, Ok ()) → rtc (announced p HashData) bs0 bs →
  (∀ k slot, k ≠ g →
     (KnownLeaves p bs !! k = Some slot ↔
      ∃ h, GetHeader p (ChainStore p bs) k = Ok h ∧ slot = TimeSlotIndex h ∧
        ∀ k' h', GetHeader p (ChainStore p bs) k' = Ok h' → ParentHash h' ≠ k)) ∧
  (∃ h, GetHeader p (ChainStore p bs) (finalized_Hash (Latest p bs)) = Ok h ∧
     finalized_Slot (Latest p bs) = TimeSlotIndex h) ∧
  (finalized_Hash (Latest p bs) = g ∨
     ∃ k, descends p (ChainStore p bs) 5 k (finalized_Hash (Latest p bs))) ∧
  ∀ header, ∃ n, ∀ turns, (n ≤ turns)%nat → HandleNewHeader p HashData turns header bs ≠ None.
Proof.
  intros Hp Hd Hg Hne H0 Hr. pose proof (new_service_tree p content HashData d g bs0 Hd Hg Hne H0) as Ht0.
  pose proof (tree_reachable p content HashData g bs0 bs Ht0 Hr) as Ht. split_and!.
  - intros k slot Hk. rewrite (tree_leaves _ _ _ _ Ht). tauto.
  - apply (tree_final _ _ _ _ Ht).
  - destruct (tree_confirmed _ _ _ _ Ht) as [Hf|[k Hk]]; [by left|right].
    inversion Hk as [|? ? h ? _ Hk']; subst. by exists (ParentHash h).
  - intros header. destruct (walk_back_ends p HashData g bs header Ht) as [n Hn]. exists n. intros turns Hturns.
    specialize (Hn turns Hturns). unfold HandleNewHeader, isDescendantOfFinalized.
    destruct (map_err _ _); [|done..]. by destruct (walk_back _ _ _ _ _).
Qed.

(** ** A store in memory *)

Definition memPebble : Pebble := {|
  PDB := gmap (list Z) (list Z);
  PGet d k := match d !! k with Some v => Ok v | None => Err ErrNotFound end;
  PSet d k v := Ok (<[k := v]> d);
  PDelete d k := Ok (delete k d);
  PCommit d ops := Ok (foldl apply_op d ops);
  PNewIter d low high := Ok ((λ e : list Z * list Z, (e.1, Ok e.2)) <$>
    sort_by (λ a b : list Z * list Z, bytes_less a.1 b.1) (filter (in_range low high) (map_to_list d)));
|}.

Lemma insert_by_bytes (x : list Z * list Z) l :
  StronglySorted (λ a b : list Z * list Z, bytes_less a.1 b.1 = true) l → x.1 ∉ l.*1 →
  StronglySorted (λ a b : list Z * list Z, bytes_less a.1 b.1 = true)
    (insert_by (λ a b : list Z * list Z, bytes_less a.1 b.1) x l).
Proof.
  induction 1 as [|y l Hl IH Hy]; intros Hx; simpl; [repeat constructor|].
  rewrite fmap_cons, not_elem_of_cons in Hx. destruct Hx as [Hxy Hx]. destruct (bytes_less y.1 x.1) eqn:E.
  - constructor; [by apply IH|]. rewrite insert_by_perm. by constructor.
  - constructor; [by constructor|]. assert (bytes_less x.1 y.1 = true) as Hlt.
    { destruct (bytes_less_total x.1 y.1) as [?|[?|?]]; [done|done|congruence]. }
    constructor; [done|]. eapply Forall_impl; [exact Hy|]. intros z Hz. by eapply bytes_less_trans.
Qed.

#[export] Instance memPebble_laws : PebbleLaws memPebble (λ d, d).
Proof.
  split; cbn; [done|congruence|congruence|done|]. intros d low high es [= <-].
  eexists. split; [reflexivity|]. split; [apply sort_by_perm|].
  assert (NoDup (filter (in_range low high) (map_to_list d)).*1) as Hnd.
  { eapply sublist_NoDup; [apply (NoDup_fst_map_to_list d)|]. apply fmap_sublist, sublist_filter. }
  induction (filter (in_range low high) (map_to_list d)) as [|x l IH]; [constructor|].
  rewrite fmap_cons, NoDup_cons in Hnd. destruct Hnd as [Hx Hnd].
  apply (insert_by_bytes x (sort_by _ l)); [by apply IH|]. by rewrite sort_by_perm.
Qed.

(** Headers numbered by their extrinsic hash, which is also their hash. *)
Definition number_hash (b : list Z) : Hash := take 32 (drop 64 b).
Definition number (i : Z) : Hash := i :: replicate 31 0.
Definition numbered (parent i slot : Z) : Header :=
  MkHeader (number parent) ZeroHash (number i) slot None None [] 0 (replicate 96 0) (replicate 96 0).

Lemma numbered_typed parent i slot :
  is_byte parent → is_byte i → inU 32 slot → header_typed (numbered parent i slot).
Proof.
  intros Hp Hi Hs.
  assert (∀ n, well_typed (octets_type n) (hash_value (replicate n 0))) as H0.
  { intros n. cbn. unfold hash_value. rewrite fmap_replicate. split; [by apply Forall_replicate|apply length_replicate]. }
  assert (∀ j, is_byte j → well_typed hash_type (hash_value (number j))) as Hn.
  { intros j Hj. unfold number, hash_value. split; [|done]. apply Forall_fmap, Forall_cons. split; [exact Hj|].
    apply Forall_replicate. done. }
  unfold header_typed, header_type, header_value, numbered. cbn -[well_typed octets_type replicate hash_value number].
  cbn [well_typed fields_typed field_tag field].
  split_and!; try done; try (by apply Hn); try apply (H0 32%nat); apply (H0 96%nat).
Qed.

(** Blocks with numbered headers and no extrinsics, stored one after the other. *)
Definition numbered_block (parent i : Z) : StoredBlock :=
  MkStored (numbered parent i i) (zero_value extrinsic_type).

Lemma numbered_block_typed parent i : is_byte parent → is_byte i → block_typed (numbered_block parent i).
Proof.
  intros Hp Hi. split; [apply numbered_typed; try done; unfold is_byte, inU in *; lia|].
  cbn. split_and!; done.
Qed.

Definition names_parent (hash : Hash) (bytes : list Z) : bool :=
  match BlockFromBytes bytes with Ok b => bool_decide (ParentHash (stored_Header b) = hash) | _ => false end.
Definition append (x : Z * Z) (c : Chain memPebble) : option (Chain memPebble) :=
  let '(parent, i) := x in
  let b := numbered_block parent i in
  if bool_decide (is_byte parent ∧ is_byte i ∧ parent ≠ i ∧ open memPebble c) then
    match Hash_header number_hash (stored_Header b), GetBlock memPebble c (number i),
          PutBlock memPebble number_hash c b with
    | Ok k, Err ErrBlockNotFound, Ok c' =>
        if decide (k = number i) then
          if existsb (names_parent (number i)) (map_to_list (held memPebble (λ d, d) c)).*2 then None else Some c'
        else None
    | _, _, _ => None
    end
  else None.
Fixpoint append_all (xs : list (Z * Z)) (c : Chain memPebble) : option (Chain memPebble) :=
  match xs with [] => Some c | x :: xs => append x c ≫= append_all xs end.

Lemma append_appended x c c' : append x c = Some c' → appended memPebble number_hash c c'.
Proof.
  destruct x as [parent i]. unfold append. cbv zeta. case_bool_decide as Hb; [|done]. destruct Hb as (Hp & Hi & Hne & Ho).
  intros H. destruct (Hash_header number_hash _) as [k| |] eqn:Hk; [|done..].
  destruct (GetBlock memPebble _ _) as [|e|] eqn:Hg; [discriminate H|destruct e; [|discriminate H..]|discriminate H].
  destruct (PutBlock _ _ _ _) as [c1| |] eqn:Hput; [|done..]. destruct (decide _) as [->|]; [|done].
  destruct (existsb _ _) eqn:He; [done|]. injection H as <-. exists (numbered_block parent i), (number i).
  split_and!; [by apply numbered_block_typed|done|done|intros [= ?]; done|done| |done].
  intros k b' Hb' Hpar. rewrite (GetBlock_held memPebble (λ d, d)) in Hb' by done.
  destruct (held memPebble (λ d, d) c !! makeKey prefixBlock k) as [bytes|] eqn:E; [|done]. apply map_err_Ok_inv in Hb'.
  apply not_true_iff_false in He. apply He, existsb_exists. exists bytes. split.
  - apply list_elem_of_In, list_elem_of_fmap. exists (makeKey prefixBlock k, bytes). split; [done|].
    by apply elem_of_map_to_list.
  - unfold names_parent. rewrite Hb'. by apply bool_decide_eq_true.
Qed.

Lemma append_all_rtc xs c c' : append_all xs c = Some c' → rtc (appended memPebble number_hash) c c'.
Proof.
  revert c. induction xs as [|x xs IH]; intros c H; cbn [append_all] in H; [by simplify_eq|].
  apply bind_Some in H as (c1 & H1 & H). eapply rtc_l; [by eapply append_appended|by apply IH].
Qed.

Definition empty_chain : Chain memPebble := MkChain memPebble (Db.MkKVStore memPebble ∅ false) false.

(** Three blocks in a row, and a second child of the first. *)
Definition four_blocks : option (Chain memPebble) := append_all [(1, 2); (2, 3); (3, 4); (2, 5)] empty_chain.
Definition block_numbers (r : option (res chain_error (list StoredBlock))) : list (option Z) :=
  match r with Some (Ok bs) => (λ b, head (ExtrinsicHash (stored_Header b))) <$> bs | _ => [] end.

Lemma four_blocks_requests :
  (λ c, (block_numbers (GetBlockSequence memPebble number_hash 9 c (number 4) false 7),
         block_numbers (GetBlockSequence memPebble number_hash 9 c (number 2) true 7),
         match GetBlock memPebble c (number 2) with Ok _ => true | _ => false end)) <$> four_blocks =
  Some (Some <$> [4; 3; 2], Some <$> [3; 4], true).
Proof. vm_compute. reflexivity. Qed.

Lemma block_requests_witness :
  ∃ c blocks, rtc (appended memPebble number_hash) empty_chain c ∧
    GetBlockSequence memPebble number_hash 9 c (number 2) true 7 = Some (Ok blocks) ∧
    forth_from memPebble number_hash c (number 2) blocks ∧ block_numbers (Some (Ok blocks)) = Some <$> [3; 4].
Proof.
  pose proof four_blocks_requests as H. unfold four_blocks in H.
  destruct (append_all _ empty_chain) as [c|] eqn:E; [|done]. cbn [fmap option_fmap option_map] in H.
  injection H as _ H2 H3. pose proof (append_all_rtc _ _ _ E) as Hr. exists c.
  destruct (GetBlock memPebble c (number 2)) as [b0| |] eqn:Hb; [|done..].
  destruct (block_requests memPebble (λ d, d) number_hash ∅ c (number 2) b0 true 7 memPebble_laws eq_refl Hr Hb
    ltac:(lia)) as (blocks & Hs & _ & Hf & _). exists blocks. split_and!; [done|exact Hs|done|].
  change (Z.to_nat 7 + 2)%nat with 9%nat in Hs. by rewrite Hs in H2.
Defined.

Lemma block_put :
  match PutBlock memPebble number_hash empty_chain (numbered_block 1 2) with Ok _ => true | _ => false end = true.
Proof. vm_compute. reflexivity. Qed.

Lemma chain_put_get_witness :
  ∃ c', PutBlock memPebble number_hash empty_chain (numbered_block 1 2) = Ok c' ∧
    ∃ hash, Hash_header number_hash (numbered 1 2 2) = Ok hash ∧ GetHeader memPebble c' hash = Ok (numbered 1 2 2).
Proof.
  pose proof block_put as Hput.
  destruct (PutBlock memPebble number_hash empty_chain (numbered_block 1 2)) as [c'| |] eqn:E; [|discriminate Hput..].
  exists c'. split; [done|].
  destruct (chain_put_get memPebble (λ d, d) number_hash empty_chain (numbered_block 1 2) c' memPebble_laws ltac:(done)
    ltac:(by apply numbered_block_typed) E) as (hash & Hh & _ & Hg & _). by exists hash.
Defined.

(** Announcing headers one after the other. *)
Definition announce (x : Z * Z * Z) (bs : BlockService memPebble) : option (BlockService memPebble) :=
  let '(parent, i, slot) := x in
  let h := numbered parent i slot in
  if bool_decide (is_byte parent ∧ is_byte i ∧ inU 32 slot ∧ number i ≠ ParentHash genesisHeader) then
    match Hash_header number_hash h, GetHeader memPebble (ChainStore memPebble bs) (number i),
          HandleNewHeader memPebble number_hash 20 h bs with
    | Ok k, Err ErrHeaderNotFound, Some (Ok (Some bs')) => if decide (k = number i) then Some bs' else None
    | _, _, _ => None
    end
  else None.
Fixpoint announce_all (hs : list (Z * Z * Z)) (bs : BlockService memPebble) : option (BlockService memPebble) :=
  match hs with [] => Some bs | x :: hs => announce x bs ≫= announce_all hs end.

Lemma announce_ok parent i slot bs bs' :
  announce (parent, i, slot) bs = Some bs' →
  fresh memPebble number_hash bs (numbered parent i slot) (number i) ∧
  HandleNewHeader memPebble number_hash 20 (numbered parent i slot) bs = Some (Ok (Some bs')).
Proof.
  unfold announce. cbv zeta. case_bool_decide as Hb; [|done]. destruct Hb as (Hp & Hi & Hs & Hn). intros H.
  destruct (Hash_header number_hash _) as [k| |] eqn:Hk; [|done..].
  destruct (GetHeader memPebble _ _) as [|e|] eqn:Hg; [discriminate H|destruct e; [discriminate H| |discriminate H..]|discriminate H].
  destruct (HandleNewHeader _ _ _ _ _) as [[[bs1|]| |]|] eqn:Hh; [|discriminate H..]. destruct (decide _) as [->|]; [|done].
  injection H as <-. split; [|done]. split_and!; [by apply numbered_typed|done|done|done].
Qed.

Lemma announce_announced x bs bs' : announce x bs = Some bs' → announced memPebble number_hash bs bs'.
Proof. destruct x as [[parent i] slot]. intros [Hf H]%announce_ok. by eexists _, _, _. Qed.

Lemma announce_all_rtc hs bs bs' : announce_all hs bs = Some bs' → rtc (announced memPebble number_hash) bs bs'.
Proof.
  revert bs. induction hs as [|x hs IH]; intros bs H; cbn [announce_all] in H; [by simplify_eq|].
  apply bind_Some in H as (bs1 & H1 & H). eapply rtc_l; [by eapply announce_announced|by apply IH].
Qed.

(** A chain of twelve headers, and a second child of the sixth. *)
Definition twelve : list (Z * Z * Z) :=
  (0, 2, 2) :: ((λ i, (i, i + 1, i + 1)) <$> seqZ 2 11).
Definition second_child : Z * Z * Z := (7, 50, 20).

Definition genesis_service : BlockService memPebble := NewBlockService memPebble number_hash ∅.

Lemma genesis_initialized : initializeState memPebble number_hash (emptyService memPebble ∅) = (genesis_service, Ok ()).
Proof.
  unfold genesis_service, NewBlockService. assert ((initializeState memPebble number_hash (emptyService memPebble ∅)).2 = Ok ())
    as <- by (vm_compute; reflexivity). by destruct (initializeState _ _ _).
Qed.

Definition after_twelve : option (BlockService memPebble) := announce_all twelve genesis_service.

(** The leaves and the finalized header, which determine the rest of a check. *)
Definition summary (bs : BlockService memPebble) : list (Hash * Z) * Z :=
  (map_to_list (KnownLeaves memPebble bs), finalized_Slot (Latest memPebble bs)).

Lemma after_twelve_summary : summary <$> after_twelve = Some ([(number 13, 13)], 7).
Proof. vm_compute. reflexivity. Qed.
Lemma after_second_child :
  summary <$> (after_twelve ≫= announce second_child) = Some ([(number 13, 13); (number 50, 20)], 2).
Proof. vm_compute. reflexivity. Qed.

Lemma leaves_exact_witness :
  ∃ bs, rtc (announced memPebble number_hash) genesis_service bs ∧
    KnownLeaves memPebble bs !! number 13 = Some 13 ∧
    ∀ k' h', GetHeader memPebble (ChainStore memPebble bs) k' = Ok h' → ParentHash h' ≠ number 13.
Proof.
  pose proof after_twelve_summary as Hs. unfold after_twelve in Hs.
  destruct (announce_all twelve genesis_service) as [bs|] eqn:E; [|done]. exists bs.
  pose proof (announce_all_rtc _ _ _ E) as Hr. split; [exact Hr|].
  assert (KnownLeaves memPebble bs !! number 13 = Some 13) as Hl.
  { apply elem_of_map_to_list. injection Hs as Hs _. rewrite Hs. by constructor. }
  split; [exact Hl|].
  destruct (leaves_exact memPebble (λ d, d) number_hash ∅ ZeroHash genesis_service bs memPebble_laws eq_refl eq_refl
    ltac:(done) genesis_initialized Hr) as (Hleaf & _).
  apply Hleaf in Hl as (h & _ & _ & Hno); [exact Hno|discriminate].
Defined.

(** Finality moves forward along a chain: if the parent of the new header is
    five or more generations below the finalized header, the new finalized header
    is the old one or descends from it. *)
Theorem finality_advances p content HashData g turns bs header hash bs' n :
  PebbleLaws p content → tree p HashData g bs → fresh p HashData bs header hash →
  HandleNewHeader p HashData turns header bs = Some (Ok (Some bs')) →
  descends p (ChainStore p bs) (5 + n) (ParentHash header) (finalized_Hash (Latest p bs)) →
  descends p (ChainStore p bs') n (finalized_Hash (Latest p bs')) (finalized_Hash (Latest p bs)).
Proof. intros Hp. apply (finality_step p content). Qed.

(** The parents of the last six of the twelve headers. *)
Definition parents (bs : BlockService memPebble) : list (option Hash) :=
  (λ i, match GetHeader memPebble (ChainStore memPebble bs) (number i) with
        | Ok h => Some (ParentHash h) | _ => None end) <$> [13; 12; 11; 10; 9; 8].
Lemma after_twelve_parents :
  (λ bs, (parents bs, finalized_Hash (Latest memPebble bs))) <$> after_twelve =
  Some (Some ∘ number <$> [12; 11; 10; 9; 8; 7], number 7).
Proof. vm_compute. reflexivity. Qed.

Lemma parent_descends (bs : BlockService memPebble) i j n a :
  match GetHeader memPebble (ChainStore memPebble bs) (number i) with
  | Ok h => Some (ParentHash h) | _ => None end = Some (number j) →
  descends memPebble (ChainStore memPebble bs) n (number j) a →
  descends memPebble (ChainStore memPebble bs) (S n) (number i) a.
Proof.
  intros Hp Hd. destruct (GetHeader memPebble _ _) as [h| |] eqn:E; [|done..]. injection Hp as Hp.
  econstructor; [exact E|]. by rewrite Hp.
Qed.

Lemma after_third : is_Some (after_twelve ≫= announce (13, 14, 14)).
Proof. apply (bool_decide_unpack _). vm_compute. exact I. Qed.

Lemma finality_advances_witness :
  ∃ bs bs', rtc (announced memPebble number_hash) genesis_service bs ∧
    HandleNewHeader memPebble number_hash 20 (numbered 13 14 14) bs = Some (Ok (Some bs')) ∧
    descends memPebble (ChainStore memPebble bs') 1 (finalized_Hash (Latest memPebble bs'))
      (finalized_Hash (Latest memPebble bs)).
Proof.
  pose proof after_twelve_parents as Hp. pose proof after_third as [bs' H3]. unfold after_twelve in *.
  destruct (announce_all twelve genesis_service) as [bs|] eqn:E; [|done]. cbn [mbind option_bind] in H3.
  exists bs, bs'. pose proof (announce_all_rtc _ _ _ E) as Hr. apply announce_ok in H3 as [Hf H3].
  split; [exact Hr|]. split; [exact H3|].
  pose proof (new_service_tree memPebble (λ d, d) number_hash ∅ ZeroHash genesis_service eq_refl eq_refl
    ltac:(done) genesis_initialized) as Ht0.
  pose proof (tree_reachable memPebble (λ d, d) number_hash ZeroHash _ _ Ht0 Hr) as Ht.
  apply (finality_advances memPebble (λ d, d) number_hash ZeroHash 20 bs (numbered 13 14 14) (number 14) bs' 1
    memPebble_laws Ht Hf H3).
  unfold parents in Hp. cbn [fmap option_fmap option_map list_fmap] in Hp. injection Hp as H13 H12 H11 H10 H9 H8 Hfin.
  rewrite Hfin.
  apply (parent_descends bs 13 12 _ _ H13), (parent_descends bs 12 11 _ _ H12), (parent_descends bs 11 10 _ _ H11),
    (parent_descends bs 10 9 _ _ H10), (parent_descends bs 9 8 _ _ H9), (parent_descends bs 8 7 _ _ H8).
  constructor.
Defined.

(** But it can move back: a header whose parent is the finalized header itself
    finalizes the fifth ancestor of that header. *)
Theorem finality_reverts :
  ∃ bs bs', rtc (announced memPebble number_hash) genesis_service bs ∧ announced memPebble number_hash bs bs' ∧
    finalized_Slot (Latest memPebble bs) = 7 ∧ finalized_Slot (Latest memPebble bs') = 2.
Proof.
  pose proof after_twelve_summary as Hs. pose proof after_second_child as Hs'. unfold after_twelve in *.
  destruct (announce_all twelve genesis_service) as [bs|] eqn:E; [|done]. cbn [mbind option_bind] in Hs'.
  destruct (announce second_child bs) as [bs'|] eqn:E'; [|done]. exists bs, bs'.
  split_and!; [by eapply announce_all_rtc|by eapply announce_announced|by injection Hs|by injection Hs'].
Qed.
