(* ===== verification/Network.v ===== *)
(** * Networking

    The protocol side of [pkg/network]: protocol identifiers ([protocol/alpn.go],
    [protocol/manager.go]), certificates ([cert/cert.go]), streams and their
    handlers ([protocol/streams.go], [protocol/conn.go], [handlers/message.go],
    [handlers/block_request.go]) and peers ([peer/node.go], [peer/peer.go],
    [transport/transport.go]).  QUIC streams and X.509 certificates are
    parameters; Go strings are the strings of their bytes. *)
From Stdlib Require Import Ascii String.
From stdpp Require Import strings.
From S2P Require Export Chain.

Inductive net_error : Type :=
| NetErr (msg : string) | NetCodec (e : jam_error) | NetChain (e : chain_error)
| NetStream (msg : string) | NetContext (msg : string) | NetCertificate (msg : string).

(** ** Protocol identifiers ([protocol/alpn.go]) *)

Module Alpn.
Definition protocolPrefix : string := "jamnp-s".
Definition currentVersion : string := "0".
Definition builderSuffix : string := "builder".
Definition chainHashLength : nat := 8.

Record ProtocolID : Type := MkProtocolID { Version : string; ChainHash : string; IsBuilder : bool }.

Definition NewProtocolID (chainHash : string) (isBuilder : bool) : ProtocolID :=
  MkProtocolID currentVersion chainHash isBuilder.

(** [strings.Join(parts, "/")] *)
Fixpoint join (parts : list string) : string :=
  match parts with
  | [] => ""
  | [x] => x
  | x :: parts => x +:+ "/" +:+ join parts
  end.

Definition ToString (p : ProtocolID) : string :=
  join ([protocolPrefix; Version p; ChainHash p] ++ if IsBuilder p then [builderSuffix] else []).

(** [strings.Split(s, "/")] *)
Fixpoint split (s : string) : list string :=
  match s with
  | EmptyString => [""]
  | String c s =>
      if Ascii.eqb c "/" then "" :: split s
      else match split s with
           | x :: parts => String c x :: parts
           | [] => [String c ""]
           end
  end.

(** [(c >= '0' && c <= '9') || (c >= 'a' && c <= 'f')]: no byte of a character
    outside ASCII is in these ranges. *)
Definition is_nibble (c : ascii) : bool :=
  let n := N_of_ascii c in
  ((48 <=? n) && (n <=? 57) || (97 <=? n) && (n <=? 102))%N.
Fixpoint all_nibbles (s : string) : bool :=
  match s with EmptyString => true | String c s => is_nibble c && all_nibbles s end.

(** [strings.ToLower(s) == t] for a [t] of lower-case ASCII letters: besides the
    ASCII capitals only the dotted capital I (bytes C4 B0) and the Kelvin sign
    (E2 84 AA) have an ASCII letter as their lower case. *)
Definition ascii_lower (c : ascii) : ascii :=
  let n := N_of_ascii c in
  if ((65 <=? n) && (n <=? 90))%N then ascii_of_N (n + 32) else c.
Fixpoint lower_is (s t : string) : bool :=
  match s, t with
  | EmptyString, EmptyString => true
  | String c s, String d t =>
      if Ascii.eqb (ascii_lower c) d then lower_is s t
      else if Ascii.eqb c "196" && Ascii.eqb d "i" then
        match s with String c2 s => Ascii.eqb c2 "176" && lower_is s t | _ => false end
      else if Ascii.eqb c "226" && Ascii.eqb d "k" then
        match s with
        | String c2 (String c3 s) => Ascii.eqb c2 "132" && Ascii.eqb c3 "170" && lower_is s t
        | _ => false
        end
      else false
  | _, _ => false
  end.

Definition ParseProtocolID (protocol : string) : res net_error ProtocolID :=
  let parts := split protocol in
  match parts with
  | prefix :: version :: chainHash :: suffix =>
      if bool_decide (1 < length suffix)%nat then Err (NetErr "invalid protocol format")
      else if negb (String.eqb prefix protocolPrefix) then Err (NetErr "invalid protocol prefix")
      else if negb (String.eqb version currentVersion) then Err (NetErr "unsupported protocol version")
      else if negb (String.length chainHash =? chainHashLength)%nat then Err (NetErr "invalid chain hash length")
      else if negb (all_nibbles chainHash) then Err (NetErr "invalid chain hash character")
      else
        match suffix with
        | builder :: _ =>
            if lower_is builder builderSuffix then Ok (MkProtocolID version chainHash true)
            else Err (NetErr "invalid protocol suffix")
        | [] => Ok (MkProtocolID version chainHash false)
        end
  | _ => Err (NetErr "invalid protocol format")
  end.

Definition ValidateALPNProtocol (protocol : string) : res net_error unit :=
  let! _ := ParseProtocolID protocol in Ok ().
Definition AcceptableProtocols (chainHash : string) : list string :=
  [ToString (NewProtocolID chainHash false); ToString (NewProtocolID chainHash true)].

(** ** The protocol manager ([protocol/manager.go]) *)

Record Config : Type := MkConfig { config_ChainHash : string; config_IsBuilder : bool; MaxBuilderSlots : Z }.

(** A manager is its configuration; the registry of handlers is below. *)
Definition NewManager (config : Config) : res net_error Config :=
  if String.eqb (config_ChainHash config) "" then Err (NetErr "chain hash required")
  else
    let! _ := ValidateALPNProtocol (ToString (NewProtocolID (config_ChainHash config) false)) in Ok config.

Definition GetProtocols (config : Config) : list string := AcceptableProtocols (config_ChainHash config).

Definition ValidateConnection (config : Config) (negotiatedProtocol : string) : res net_error unit :=
  if String.eqb negotiatedProtocol "" then Err (NetErr "no protocol negotiated")
  else
    let! protocolID := ParseProtocolID negotiatedProtocol in
    if negb (String.eqb (ChainHash protocolID) (config_ChainHash config))
    then Err (NetErr "chain hash mismatch")
    else if IsBuilder protocolID && negb (config_IsBuilder config)
    then Err (NetErr "builder connections not accepted")
    else Ok ().
End Alpn.

(** ** Certificates ([cert/cert.go]) *)

Module Cert.
Definition DNSNamePrefix : string := "e".
Definition alphabet : string := "abcdefghijklmnopqrstuvwxyz234567".

(** Base 32 without padding: five bits a character, the highest bit first; the
    last group is filled up with zeros. *)
Definition byte_bits (b : Z) : list bool := Z.testbit b <$> [7; 6; 5; 4; 3; 2; 1; 0].
Fixpoint groups (bits : list bool) : list (list bool) :=
  match bits with
  | [] => []
  | a :: b :: c :: d :: e :: bits => [a; b; c; d; e] :: groups bits
  | _ => [take 5 (bits ++ replicate 4 false)]
  end.
Definition bits_nat (bits : list bool) : nat := foldl (λ n (b : bool), 2 * n + if b then 1 else 0)%nat 0%nat bits.
Definition letter (bits : list bool) : ascii := default "000"%char (String.get (bits_nat bits) alphabet).
Definition EncodeToString (src : list Z) : string :=
  string_of_list_ascii (letter <$> groups (mjoin (byte_bits <$> src))).

Definition EncodePubKeyToDNS (pubKey : list Z) : string := DNSNamePrefix +:+ EncodeToString pubKey.

(** The fields of an [x509.Certificate] that the code reads; the public key is
    [None] if it is not an Ed25519 key.  Times are in nanoseconds. *)
Record Certificate : Type := MkCertificate {
  IsPureEd25519 : bool;
  PublicKey : option (list Z);
  DNSNames : list string;
  NotBefore : Z;
  NotAfter : Z;
}.

Definition ValidateCertificate (now : Z) (cert : Certificate) : res net_error unit :=
  if negb (IsPureEd25519 cert) then Err (NetErr "invalid signature algorithm")
  else
    match PublicKey cert with
    | None => Err (NetErr "certificate public key is not Ed25519")
    | Some pubKey =>
        match DNSNames cert with
        | [dnsName] =>
            if negb (String.length dnsName =? 53)%nat || negb (String.prefix DNSNamePrefix dnsName)
            then Err (NetErr "invalid DNS name format")
            else if negb (String.eqb dnsName (EncodePubKeyToDNS pubKey))
            then Err (NetErr "DNS name does not match public key")
            else if now <? NotBefore cert then Err (NetErr "certificate is not yet valid")
            else if NotAfter cert <? now then Err (NetErr "certificate has expired")
            else Ok ()
        | _ => Err (NetErr "certificate must have exactly one DNS name")
        end
    end.

Definition ExtractPublicKey (cert : Certificate) : res net_error (list Z) :=
  match PublicKey cert with
  | Some pubKey => Ok pubKey
  | None => Err (NetErr "certificate public key is not an Ed25519 key")
  end.

(** [x509] signs the template and parses what it has written. *)
Definition GenerateCertificate (x509 : Certificate → list Z → res net_error Certificate)
    (now1 now2 : Z) (publicKey privateKey : list Z) (certValidityPeriod : Z) : res net_error Certificate :=
  let dnsName := EncodePubKeyToDNS publicKey in
  x509 (MkCertificate true (Some publicKey) [dnsName] now1 (now2 + certValidityPeriod)) privateKey.
End Cert.

(** ** Streams ([handlers/message.go], [protocol/streams.go], [protocol/conn.go]) *)

(** What the code uses of a QUIC stream: writing, [io.ReadFull] for a number of
    bytes, and closing its own direction. *)
Record Quic : Type := MkQuic {
  QStream : Type;
  QWrite : QStream → list Z → QStream * res net_error unit;
  QReadFull : QStream → Z → QStream * res net_error (list Z);
  QClose : QStream → QStream * res net_error unit;
}.

Section streams.
Context (q : Quic).

(** The select between the goroutine and the context; [ctx] is the error of a
    context that is done first. *)
Definition select_ctx {A} (ctx : option net_error) (r : res net_error A) : res net_error A :=
  match ctx with Some e => Err e | None => r end.

Definition WriteMessageWithContext (ctx : option net_error) (w : QStream q) (content : list Z)
  : QStream q * res net_error unit :=
  let size := uint32 (len content) in
  let '(w, r) := QWrite q w (Z_to_little_endian 4 8 size) in
  match r with
  | Ok _ => let '(w, r) := QWrite q w content in (w, select_ctx ctx r)
  | r => (w, select_ctx ctx r)
  end.

Record Message : Type := MkMessage { Size : Z; Content : list Z }.

Definition ReadMessageWithContext (ctx : option net_error) (r : QStream q)
  : QStream q * res net_error Message :=
  match QReadFull q r 4 with
  | (r, Ok b) =>
      let size := little_endian_to_Z 8 b in
      match QReadFull q r size with
      | (r, Ok content) => (r, select_ctx ctx (Ok (MkMessage size content)))
      | (r, Err e) => (r, select_ctx ctx (Err e))
      | (r, RuntimePanic) => (r, RuntimePanic)
      end
  | (r, Err e) => (r, select_ctx ctx (Err e))
  | (r, RuntimePanic) => (r, RuntimePanic)
  end.

(** The kinds of streams and their handlers. *)
Definition StreamKindBlockAnnouncement : Z := 0.
Definition StreamKindBlockRequest : Z := 128.
Definition StreamKindJudgmentPublish : Z := 145.

Definition ValidateKind (kindByte : Z) : res net_error unit :=
  if (kindByte <? StreamKindBlockAnnouncement) || (StreamKindJudgmentPublish <? kindByte)
  then Err (NetErr "invalid stream kind") else Ok ().
Definition IsUniquePersistent (k : Z) : bool := k <? 128.

Definition RegisterHandler {H} (kind : Z) (handler : H) (handlers : gmap Z H) : gmap Z H :=
  <[kind := handler]> handlers.
Definition GetHandler {H} (handlers : gmap Z H) (kindByte : Z) : res net_error H :=
  match handlers !! kindByte with Some h => Ok h | None => Err (NetErr "no handler for kind") end.

(** The connection has given the stream; writing the kind. *)
Definition OpenStream (ctx : option net_error) (kind : Z) (stream : QStream q)
  : QStream q * res net_error unit :=
  let '(stream, r) := QWrite q stream [uint8 kind] in
  match select_ctx ctx r with
  | Ok _ => (stream, Ok ())
  | r => ((QClose q stream).1, r)
  end.

(** The stream, whose first byte is the kind, and the handler that is started on
    it. *)
Definition AcceptStream {H} (handlers : gmap Z H) (stream : QStream q)
  : QStream q * res net_error H :=
  match QReadFull q stream 1 with
  | (stream, Ok kind) =>
      match GetHandler handlers (default 0 (head kind)) with
      | Ok h => (stream, Ok h)
      | r => ((QClose q stream).1, r)
      end
  | (stream, Err e) => ((QClose q stream).1, Err e)
  | (stream, RuntimePanic) => (stream, RuntimePanic)
  end.

(** ** Block requests ([handlers/block_request.go]) *)

Definition blocks_type : gotype := TSlice block_type.
Definition blocks_value (blocks : list StoredBlock) : goval := VSeq (block_value <$> blocks).

Section requests.
Context (p : Pebble) (HashData : list Z → Hash).

(** [None] is a bound on the search of the blocks used up. *)
Definition HandleStream (ctx : option net_error) (c : Chain p) (stream : QStream q)
  : option (QStream q * res net_error unit) :=
  match ReadMessageWithContext ctx stream with
  | (stream, Ok msg) =>
      if len (Content msg) <? 37 then Some (stream, Err (NetErr "message too short"))
      else
        match map_err NetCodec (Unmarshal (TPrim false Uint32) (take 4 (drop 33 (Content msg)))
                                  (zero_value (TPrim false Uint32))) with
        | Ok v =>
            let maxBlocks := num_of v in
            let direction := default 0 (Content msg !! 32%nat) in
            let hash := take 32 (Content msg) in
            let ascending := direction =? 0 in
            match GetBlockSequence p HashData (Z.to_nat maxBlocks + 2) c hash ascending maxBlocks with
            | None => None
            | Some (Ok blocks) =>
                match map_err NetCodec (Marshal blocks_type (blocks_value blocks)) with
                | Ok response =>
                    let '(stream, r) := WriteMessageWithContext ctx stream response in
                    match r with
                    | Ok _ => Some (QClose q stream)
                    | r => Some (stream, r)
                    end
                | Err e => Some (stream, Err e)
                | RuntimePanic => Some (stream, RuntimePanic)
                end
            | Some (Err e) => Some (stream, Err (NetChain e))
            | Some RuntimePanic => Some (stream, RuntimePanic)
            end
        | Err e => Some (stream, Err e)
        | RuntimePanic => Some (stream, RuntimePanic)
        end
  | (stream, Err e) => Some (stream, Err e)
  | (stream, RuntimePanic) => Some (stream, RuntimePanic)
  end.

Definition request_content (headerHash : Hash) (ascending : bool) (maxBlocks : Z) : res net_error (list Z) :=
  let direction := if ascending then 0 else 1 in
  let! maxBlocksBytes := map_err NetCodec (Marshal (TPrim false Uint32) (VNum maxBlocks)) in
  Ok (go_copy (replicate 32 0) headerHash ++ [direction] ++ go_copy (replicate 4 0) maxBlocksBytes).

Definition RequestBlocks (ctx : option net_error) (stream : QStream q) (headerHash : Hash)
    (ascending : bool) (maxBlocks : Z) : QStream q * res net_error (list StoredBlock) :=
  match request_content headerHash ascending maxBlocks with
  | Ok content =>
      match WriteMessageWithContext ctx stream content with
      | (stream, Ok _) =>
          match QClose q stream with
          | (stream, Ok _) =>
              match ReadMessageWithContext ctx stream with
              | (stream, Ok response) =>
                  (stream,
                   let! v := map_err NetCodec (Unmarshal blocks_type (Content response)
                                                 (zero_value blocks_type)) in
                   Ok ((λ b, MkStored (header_of (part b 0)) (part b 1)) <$> elems v))
              | (stream, Err e) => (stream, Err e)
              | (stream, RuntimePanic) => (stream, RuntimePanic)
              end
          | (stream, Err e) => (stream, Err e)
          | (stream, RuntimePanic) => (stream, RuntimePanic)
          end
      | (stream, Err e) => (stream, Err e)
      | (stream, RuntimePanic) => (stream, RuntimePanic)
      end
  | Err e => (stream, Err e)
  | RuntimePanic => (stream, RuntimePanic)
  end.
End requests.
End streams.

(** ** Peers ([peer/node.go], [peer/peer.go]) and connections ([transport/transport.go]) *)

Module Peers.
(** A peer with the number of its connection; the address as the string of the
    [UDPAddr]. *)
Record Peer : Type := MkPeer {
  ProtoConn : Z;
  Address : string;
  Ed25519Key : list Z;
  ValidatorIndex : option Z;
}.

Record PeerSet : Type := MkPeerSet {
  byEd25519Key : gmap (list Z) Peer;
  byAddress : gmap string Peer;
  byValidatorIndex : gmap Z Peer;
}.
Definition NewPeerSet : PeerSet := MkPeerSet ∅ ∅ ∅.

Definition AddPeer (peer : Peer) (ps : PeerSet) : PeerSet :=
  MkPeerSet (<[Ed25519Key peer := peer]> (byEd25519Key ps)) (<[Address peer := peer]> (byAddress ps))
    (match ValidatorIndex peer with
     | Some i => <[i := peer]> (byValidatorIndex ps)
     | None => byValidatorIndex ps
     end).
Definition RemovePeer (peer : Peer) (ps : PeerSet) : PeerSet :=
  MkPeerSet (delete (Ed25519Key peer) (byEd25519Key ps)) (delete (Address peer) (byAddress ps))
    (match ValidatorIndex peer with
     | Some i => delete i (byValidatorIndex ps)
     | None => byValidatorIndex ps
     end).
Definition GetByEd25519Key (key : list Z) (ps : PeerSet) : option Peer := byEd25519Key ps !! key.
Definition GetByAddress (addr : string) (ps : PeerSet) : option Peer := byAddress ps !! addr.
Definition GetByValidatorIndex (index : Z) (ps : PeerSet) : option Peer := byValidatorIndex ps !! index.

(** A transport connection: its number, the key of the peer, and the remote address
    if it is a UDP address. *)
Record Conn : Type := MkConn { conn_id : Z; PeerKey : list Z; RemoteAddr : option string }.

Definition NewPeer (pConn : Conn) : option Peer :=
  match RemoteAddr pConn with
  | Some remoteAddr => Some (MkPeer (conn_id pConn) remoteAddr (PeerKey pConn) None)
  | None => None
  end.

(** The node's peers, and the connections it has closed. *)
Record Node : Type := MkNode { peersSet : PeerSet; closedConns : list Z }.

Definition OnConnection (conn : Conn) (n : Node) : Node :=
  let n := match GetByEd25519Key (PeerKey conn) (peersSet n) with
           | Some existingPeer =>
               MkNode (RemovePeer existingPeer (peersSet n)) (ProtoConn existingPeer :: closedConns n)
           | None => n
           end in
  match NewPeer conn with
  | None => MkNode (peersSet n) (conn_id conn :: closedConns n)
  | Some peer => MkNode (AddPeer peer (peersSet n)) (closedConns n)
  end.

(** The check before the transport dials. *)
Definition ConnectToPeer (addr : string) (n : Node) : res net_error unit :=
  match GetByAddress addr (peersSet n) with
  | Some _ => Err (NetErr "peer already exists")
  | None => Ok ()
  end.

(** What TLS reports of a connection. *)
Record ConnectionState : Type := MkConnState {
  PeerCertificates : list Cert.Certificate;
  NegotiatedProtocol : string;
}.

(** [VerifyConnection] of [Start] *)
Definition VerifyConnection (now : Z) (config : Alpn.Config) (cs : ConnectionState) : res net_error unit :=
  match PeerCertificates cs with
  | [] => Err (NetCertificate "no peer certificate provided")
  | cert :: _ =>
      let! _ := map_err (λ _, NetCertificate "") (Cert.ValidateCertificate now cert) in
      map_err (λ _, NetErr "connection validation failed") (Alpn.ValidateConnection config (NegotiatedProtocol cs))
  end.

(** A connection whose key cannot be extracted is closed and passed on with a nil
    key all the same. *)
Definition handleConnection (cs : ConnectionState) (id : Z) (addr : option string) (n : Node)
  : res net_error Node :=
  match PeerCertificates cs with
  | [] => RuntimePanic
  | cert :: _ =>
      match Cert.ExtractPublicKey cert with
      | Ok peerKey => Ok (OnConnection (MkConn id peerKey addr) n)
      | _ => Ok (OnConnection (MkConn id [] addr) (MkNode (peersSet n) (id :: closedConns n)))
      end
  end.
End Peers.

(** ** Nodes ([peer/node.go], [transport/transport.go], [protocol/manager.go]) *)

Section node.
Context (q : Quic).

(** [Node.RequestBlocks]: a stream of the peer's connection is opened, its kind and
    the request are sent; [open] is [OpenStreamSync] of a connection.  The stream
    afterwards, without the deferred [Close], and the result. *)
Definition NodeRequestBlocks (ctx : option net_error) (open : Z → res net_error (QStream q)) (hash : Hash)
    (ascending : bool) (maxBlocks : Z) (peerKey : list Z) (n : Peers.Node)
  : option (QStream q) * res net_error (list StoredBlock) :=
  match Peers.GetByEd25519Key peerKey (Peers.peersSet n) with
  | None => (None, Err (NetErr "no peers available to request block from"))
  | Some existingPeer =>
      match open (Peers.ProtoConn existingPeer) with
      | Ok stream =>
          match OpenStream q ctx StreamKindBlockRequest stream with
          | (stream, Ok _) =>
              let '(stream, r) := RequestBlocks q ctx stream hash ascending maxBlocks in (Some stream, r)
          | (stream, Err e) => (Some stream, Err e)
          | (stream, RuntimePanic) => (Some stream, RuntimePanic)
          end
      | Err e => (None, Err e)
      | RuntimePanic => (None, RuntimePanic)
      end
  end.
End node.

(** [NewTransport]: the certificate, if any, and whether the two interfaces are
    given. *)
Definition NewTransport (now : Z) (tlsCert : option Cert.Certificate) (certValidator handler : bool)
  : res net_error unit :=
  match tlsCert with
  | None => Err (NetErr "TLS certificate required")
  | Some cert =>
      if negb certValidator then Err (NetErr "certificate validator required")
      else if negb handler then Err (NetErr "connection handler required")
      else map_err (λ _, NetCertificate "") (Cert.ValidateCertificate now cert)
  end.

(** [VerifyPeerCertificate] of [Connect]; [parse] is [x509.ParseCertificate]. *)
Definition VerifyPeerCertificate (parse : list Z → res net_error Cert.Certificate) (now : Z)
    (rawCerts : list (list Z)) : res net_error unit :=
  let! raw := go_index rawCerts 0 in
  let! c := map_err (λ _, NetCertificate "") (parse raw) in
  map_err (λ _, NetCertificate "") (Cert.ValidateCertificate now c).

(** A QUIC connection as [ConnectionState] and [RemoteAddr] describe it. *)
Record QuicConn : Type := MkQuicConn {
  quic_State : Peers.ConnectionState;
  quic_id : Z;
  quic_RemoteAddr : option string;
}.

(** [Connect] and [ConnectToPeer]; [dial] is [quic.DialAddr], which is given the
    check of the peer's certificates. *)
Section connect.
Context (dial : string → (list (list Z) → res net_error unit) → res net_error QuicConn).
Context (parse : list Z → res net_error Cert.Certificate).

Definition Connect (now : Z) (addr : string) (n : Peers.Node) : res net_error Peers.Node :=
  let! quicConn := map_err (λ _, NetErr "failed to dial peer") (dial addr (VerifyPeerCertificate parse now)) in
  Peers.handleConnection (quic_State quicConn) (quic_id quicConn) (quic_RemoteAddr quicConn) n.

Definition NodeConnectToPeer (now : Z) (addr : string) (n : Peers.Node) : res net_error Peers.Node :=
  let! _ := Peers.ConnectToPeer addr n in
  map_err (λ _, NetErr "failed to connect to peer") (Connect now addr n).
End connect.

(** [acceptLoop]: in turn [i] the context is looked at, a connection accepted or
    not and, if not, the context looked at again.  The connections handed to
    [handleConnection], once the loop has returned. *)
Fixpoint acceptLoop {C} (turns : nat) (ctxDone : nat → bool) (accept : nat → option C)
    (ctxErr : nat → bool) (i : nat) : option (list C) :=
  match turns with
  | O => None
  | S turns =>
      if ctxDone i then Some []
      else match accept i with
           | None => if ctxErr i then Some [] else acceptLoop turns ctxDone accept ctxErr (S i)
           | Some conn =>
               match acceptLoop turns ctxDone accept ctxErr (S i) with
               | Some handled => Some (conn :: handled)
               | None => None
               end
           end
  end.

(** A transport: whether its context is cancelled, whether it has a listener, and
    the channel [done], nil or with the outcome of waiting for it. *)
Record Transport : Type := MkTransport {
  tr_cancelled : bool;
  tr_listener : bool;
  tr_done : option (option unit);
}.

Definition NewTransportState : Transport := MkTransport false false None.

(** [Start], with the outcome of [quic.ListenAddr] and of the goroutine's loop. *)
Definition Start (listen : res net_error unit) (loop : option unit) (t : Transport)
  : Transport * res net_error unit :=
  match listen with
  | Ok _ => (MkTransport (tr_cancelled t) true (Some loop), Ok ())
  | Err _ => (t, Err (NetErr "failed to create QUIC listener"))
  | RuntimePanic => (t, RuntimePanic)
  end.

(** [None] is a call that does not return: a receive from a nil channel, or from
    one that is not closed. *)
Definition Stop (close : res net_error unit) (t : Transport) : option (Transport * res net_error unit) :=
  let t := MkTransport true (tr_listener t) (tr_done t) in
  match (if tr_listener t then close else Ok ()) with
  | Ok _ =>
      match tr_done t with
      | Some (Some _) => Some (t, Ok ())
      | _ => None
      end
  | Err _ => Some (t, Err (NetErr "failed to close listener"))
  | RuntimePanic => Some (t, RuntimePanic)
  end.

(** The handlers a node registers. *)
Inductive StreamHandler : Type := BlockRequestHandler.

Record NodeParts : Type := MkNodeParts {
  node_Cert : Cert.Certificate;
  node_Config : Alpn.Config;
  node_Handlers : gmap Z StreamHandler;
  node_Peers : Peers.Node;
}.

Definition protoConfig : Alpn.Config := Alpn.MkConfig "12345678" true 20.
Definition certValidityPeriod : Z := 24 * 3600 * 10 ^ 9.

(** The times are those of the three readings of the clock; [blockService] is the
    outcome of [NewBlockService]. *)
Definition NewNode (x509 : Cert.Certificate → list Z → res net_error Cert.Certificate)
    (blockService : res net_error unit) (now1 now2 now3 : Z) (edPub edPrv : list Z) : res net_error NodeParts :=
  let! tlsCert := Cert.GenerateCertificate x509 now1 now2 edPub edPrv certValidityPeriod in
  let! _ := blockService in
  let! protoManager := Alpn.NewManager protoConfig in
  let handlers := RegisterHandler StreamKindBlockRequest BlockRequestHandler ∅ in
  let! _ := NewTransport now3 (Some tlsCert) true true in
  Ok (MkNodeParts tlsCert protoManager handlers (Peers.MkNode Peers.NewPeerSet [])).

(** [handleStreams]: the outcomes of [AcceptStream], and whether the context of the
    connection is done when an error is looked at. *)
Inductive accept_result : Type := Accepted | AcceptError (msg : string) (ctx_done : bool).

Definition isTimeoutError (msg : string) : bool :=
  match String.index 0 "timeout: no recent network activity" msg with Some _ => true | None => false end.

(** The turn in which the loop returns; [None] is a bound used up. *)
Fixpoint handleStreams (turns : nat) (accept : nat → accept_result) (i : nat) : option nat :=
  match turns with
  | O => None
  | S turns =>
      match accept i with
      | Accepted => handleStreams turns accept (S i)
      | AcceptError msg ctx_done =>
          if ctx_done then Some i
          else if isTimeoutError msg then Some i
          else handleStreams turns accept (S i)
      end
  end.
