(* ===== verification/NetworkTheorems.v ===== *)
(** * Networking: theorems

    Protocol identifiers, certificates, the exchange of a block request between two
    nodes, and the set of peers. *)
From Stdlib Require Import Ascii String.
From stdpp Require Import strings.
From S2P Require Import Network ChainTheorems JamRoundtrip.

(** ** Protocol identifiers *)

Fixpoint no_slash (s : string) : bool :=
  match s with EmptyString => true | String c s => negb (Ascii.eqb c "/") && no_slash s end.

Lemma split_cons s : ∃ x l, Alpn.split s = x :: l.
Proof.
  induction s as [|c s (x & l & IH)]; [by eexists _, _|]. cbn. destruct (Ascii.eqb c "/"); [by eexists _, _|].
  rewrite IH. by eexists _, _.
Qed.

Lemma join_split s : Alpn.join (Alpn.split s) = s.
Proof.
  induction s as [|c s IH]; [done|]. destruct (split_cons s) as (x & l & Hs). cbn [Alpn.split].
  destruct (Ascii.eqb_spec c "/") as [->|Hc]; rewrite Hs in *.
  - change (String "/" (Alpn.join (x :: l)) = String "/" s). by rewrite IH.
  - rewrite <- IH. by destruct l.
Qed.

Lemma split_no_slash s : Forall (λ x, no_slash x = true) (Alpn.split s).
Proof.
  induction s as [|c s IH]; [by repeat constructor|]. destruct (split_cons s) as (x & l & Hs). cbn [Alpn.split].
  destruct (Ascii.eqb c "/") eqn:Hc; rewrite Hs in *; [by constructor|].
  apply Forall_cons in IH as [Hx Hl]. constructor; [|done]. cbn. by rewrite Hc, Hx.
Qed.

Lemma split_app x s : no_slash x = true → Alpn.split (x +:+ String "/" s) = x :: Alpn.split s.
Proof.
  induction x as [|c x IH]; intros Hx; [done|]. cbn in Hx. apply andb_true_iff in Hx as [Hc Hx].
  change (Alpn.split (String c (x +:+ String "/" s)) = String c x :: Alpn.split s). cbn [Alpn.split].
  apply negb_true_iff in Hc. by rewrite Hc, (IH Hx).
Qed.

Lemma split_word x : no_slash x = true → Alpn.split x = [x].
Proof.
  induction x as [|c x IH]; intros Hx; [done|]. cbn in Hx. apply andb_true_iff in Hx as [Hc Hx].
  cbn [Alpn.split]. apply negb_true_iff in Hc. by rewrite Hc, (IH Hx).
Qed.

Lemma split_join parts :
  parts ≠ [] → Forall (λ x, no_slash x = true) parts → Alpn.split (Alpn.join parts) = parts.
Proof.
  intros Hne H. induction H as [|x parts Hx Hp IH]; [done|]. destruct parts as [|y parts]; [by apply split_word|].
  change (Alpn.split (x +:+ String "/" (Alpn.join (y :: parts))) = x :: y :: parts).
  rewrite split_app by done. by rewrite IH.
Qed.

Lemma nibbles_no_slash s : Alpn.all_nibbles s = true → no_slash s = true.
Proof.
  induction s as [|c s IH]; [done|]. cbn. intros [Hc Hs]%andb_true_iff. rewrite (IH Hs), andb_true_r.
  by destruct (Ascii.eqb_spec c "/") as [->|].
Qed.

Lemma lower_no_slash n s t : (String.length s ≤ n)%nat → no_slash t = true → Alpn.lower_is s t = true → no_slash s = true.
Proof.
  revert s t. induction n as [|n IH]; intros [|c s] [|d t] Hn Ht H; cbn in Hn; try done; [lia|].
  cbn in Ht. apply andb_true_iff in Ht as [Hd Ht]. cbn [Alpn.lower_is] in H. cbn [no_slash].
  destruct (Ascii.eqb_spec (Alpn.ascii_lower c) d) as [<-|_].
  - rewrite (IH s t) by (done || lia). destruct (Ascii.eqb_spec c "/") as [->|]; done.
  - destruct (Ascii.eqb_spec c "196") as [->|]; [destruct (Ascii.eqb d "i")|]; cbn [andb] in H.
    + destruct s as [|c2 s]; [done|]. apply andb_true_iff in H as [Hc H]. cbn in Hn |- *.
      rewrite (IH s t) by (done || lia). by destruct (Ascii.eqb_spec c2 "176") as [->|].
    + done.
    + destruct (Ascii.eqb_spec c "226") as [->|]; [destruct (Ascii.eqb d "k")|]; cbn [andb] in H; [|done..].
      destruct s as [|c2 [|c3 s]]; [done..|]. rewrite !andb_true_iff in H. destruct H as [[H2 H3] H]. cbn in Hn |- *.
      rewrite (IH s t) by (done || lia). destruct (Ascii.eqb_spec c2 "132") as [->|]; [|done].
      by destruct (Ascii.eqb_spec c3 "170") as [->|].
Qed.

Definition chain_hash (h : string) : Prop :=
  String.length h = Alpn.chainHashLength ∧ Alpn.all_nibbles h = true.

(** The parts after the prefix, the version and the chain hash. *)
Definition suffix_of (builder : bool) (suffix : list string) : Prop :=
  if builder then ∃ x, suffix = [x] ∧ Alpn.lower_is x Alpn.builderSuffix = true else suffix = [].

Lemma parse_sound protocol id :
  Alpn.ParseProtocolID protocol = Ok id →
  Alpn.Version id = Alpn.currentVersion ∧ chain_hash (Alpn.ChainHash id) ∧
  ∃ suffix, protocol = Alpn.join ([Alpn.protocolPrefix; Alpn.currentVersion; Alpn.ChainHash id] ++ suffix) ∧
    suffix_of (Alpn.IsBuilder id) suffix.
Proof.
  intros H. unfold Alpn.ParseProtocolID in H. cbv zeta in H. pose proof (join_split protocol) as Hj.
  destruct (Alpn.split protocol) as [|prefix [|version [|chainHash suffix]]]; try done.
  case_bool_decide as Hl; [done|]. destruct (String.eqb_spec prefix Alpn.protocolPrefix) as [->|]; [|done].
  destruct (String.eqb_spec version Alpn.currentVersion) as [->|]; [|done]. cbn [negb] in H.
  destruct (Nat.eqb_spec (String.length chainHash) Alpn.chainHashLength) as [Hlen|]; [|done].
  destruct (Alpn.all_nibbles chainHash) eqn:Hn; [|done]. cbn [negb] in H.
  destruct suffix as [|x [|y suffix]]; [| |cbn in Hl; lia].
  - injection H as <-. split_and!; [done|by split|]. by exists [].
  - destruct (Alpn.lower_is x _) eqn:Hx; [|done]. injection H as <-. split_and!; [done|by split|].
    exists [x]. split; [done|]. by exists x.
Qed.

Lemma parse_complete h b suffix :
  chain_hash h → suffix_of b suffix →
  Alpn.ParseProtocolID (Alpn.join ([Alpn.protocolPrefix; Alpn.currentVersion; h] ++ suffix)) =
  Ok (Alpn.NewProtocolID h b).
Proof.
  intros [Hlen Hn] Hb. assert (Forall (λ x, no_slash x = true) suffix) as Hs.
  { destruct b; cbn in Hb; [|by subst]. destruct Hb as (x & -> & Hx). constructor; [|done].
    by apply (lower_no_slash (String.length x) x Alpn.builderSuffix). }
  unfold Alpn.ParseProtocolID. rewrite split_join; [|done|].
  2: { apply Forall_app. split; [|done]. repeat constructor. by apply nibbles_no_slash. }
  cbn [app]. cbv zeta. rewrite bool_decide_false by (destruct b; [destruct Hb as (x & -> & _)|rewrite Hb]; cbn; lia).
  rewrite !String.eqb_refl, Hlen, Nat.eqb_refl, Hn. cbn [negb].
  destruct b; [destruct Hb as (x & -> & ->)|rewrite Hb]; done.
Qed.

(** The protocol identifiers that [ParseProtocolID] accepts, and what it gives:
    the prefix, version 0 and eight lower-case nibbles, separated by slashes, and for
    a builder the suffix in any case; what [String] writes is parsed back. *)
Theorem protocol_ids protocol id :
  (Alpn.ParseProtocolID protocol = Ok id ↔
    Alpn.Version id = Alpn.currentVersion ∧ chain_hash (Alpn.ChainHash id) ∧
    ∃ suffix, protocol = Alpn.join ([Alpn.protocolPrefix; Alpn.currentVersion; Alpn.ChainHash id] ++ suffix) ∧
      suffix_of (Alpn.IsBuilder id) suffix) ∧
  (∀ h b, chain_hash h →
     Alpn.ParseProtocolID (Alpn.ToString (Alpn.NewProtocolID h b)) = Ok (Alpn.NewProtocolID h b)).
Proof.
  split; [split; [apply parse_sound|]|].
  - destruct id as [version h b]. cbn. intros (-> & Hh & suffix & -> & Hb). by apply (parse_complete h b suffix).
  - intros h b Hh. apply parse_complete; [done|]. destruct b; [by exists Alpn.builderSuffix|done].
Qed.

Lemma validate_connection config negotiated :
  chain_hash (Alpn.config_ChainHash config) →
  Alpn.ValidateConnection config negotiated = Ok () ↔
  ∃ b suffix, (b = true → Alpn.config_IsBuilder config = true) ∧ suffix_of b suffix ∧
    negotiated = Alpn.join ([Alpn.protocolPrefix; Alpn.currentVersion; Alpn.config_ChainHash config] ++ suffix).
Proof.
  intros Hh. unfold Alpn.ValidateConnection. split.
  - intros H. destruct (String.eqb negotiated ""); [done|]. apply rbind_Ok_inv in H as (id' & Hid' & H).
    apply parse_sound in Hid' as (_ & _ & suffix & -> & Hs).
    destruct (String.eqb_spec (Alpn.ChainHash id') (Alpn.config_ChainHash config)) as [Heq|]; [|done]. cbn [negb] in H.
    exists (Alpn.IsBuilder id'), suffix. split_and!; [|done|by rewrite Heq].
    intros Hb. rewrite Hb in H. by destruct (Alpn.config_IsBuilder config).
  - intros (b & suffix & Hb & Hs & ->). rewrite (parse_complete _ b suffix Hh Hs).
    change (String.eqb (Alpn.join _) "") with false. cbn [rbind Alpn.ChainHash Alpn.IsBuilder Alpn.NewProtocolID].
    rewrite String.eqb_refl. cbn [negb]. destruct b; [by rewrite Hb|done].
Qed.

(** A manager for eight nibbles can be created, and accepts the protocols it
    offers, the builder's only as a builder itself. *)
Theorem manager_protocols config :
  chain_hash (Alpn.config_ChainHash config) →
  Alpn.NewManager config = Ok config ∧
  (λ p, Alpn.ValidateConnection config p) <$> Alpn.GetProtocols config =
    [Ok (); if Alpn.config_IsBuilder config then Ok () else Err (NetErr "builder connections not accepted")].
Proof.
  intros Hh. unfold Alpn.NewManager, Alpn.ValidateALPNProtocol, Alpn.GetProtocols, Alpn.AcceptableProtocols,
    Alpn.ToString, Alpn.ValidateConnection.
  cbn [Alpn.NewProtocolID Alpn.IsBuilder Alpn.Version Alpn.ChainHash fmap list_fmap].
  rewrite (parse_complete _ false []), (parse_complete _ true [Alpn.builderSuffix]) by (done || by eexists).
  split; [by destruct (String.eqb_spec (Alpn.config_ChainHash config) "") as [E|]; [rewrite E in Hh; destruct Hh|]|].
  change (String.eqb (Alpn.join _) "") with false. cbn [rbind Alpn.ChainHash Alpn.IsBuilder Alpn.NewProtocolID].
  rewrite String.eqb_refl. by destruct (Alpn.config_IsBuilder config).
Qed.

(** A chain hash with the builder's suffix passes the check of the configuration,
    and then no connection is ever accepted. *)
Theorem manager_suffixed_hash negotiated :
  let config := Alpn.MkConfig "12345678/builder" true 20 in
  Alpn.NewManager config = Ok config ∧ Alpn.ValidateConnection config negotiated ≠ Ok ().
Proof.
  split; [done|]. unfold Alpn.ValidateConnection. destruct (String.eqb negotiated ""); [done|].
  cbn [Alpn.config_ChainHash Alpn.config_IsBuilder]. intros H. apply rbind_Ok_inv in H as (id & Hid & H). apply parse_sound in Hid as (_ & [Hl _] & _).
  by destruct (String.eqb_spec (Alpn.ChainHash id) "12345678/builder") as [E|]; [rewrite E in Hl|].
Qed.

(** ** Certificates *)

Lemma byte_bits_inj a b : is_byte a → is_byte b → Cert.byte_bits a = Cert.byte_bits b → a = b.
Proof.
  intros Ha Hb [= H7 H6 H5 H4 H3 H2 H1 H0]. apply Z.bits_inj'. intros n Hn.
  destruct (decide (n < 8)) as [Hlt|Hge].
  - assert (n = 0 ∨ n = 1 ∨ n = 2 ∨ n = 3 ∨ n = 4 ∨ n = 5 ∨ n = 6 ∨ n = 7) as Hc by lia.
    destruct_or! Hc; by subst.
  - assert (∀ x, is_byte x → Z.testbit x n = false) as Hx; [|by rewrite !Hx].
    intros x Hx. apply Z.testbit_false; [lia|]. rewrite Z.div_small; [done|]. unfold is_byte, inU in Hx. split; [lia|].
    apply Z.lt_le_trans with (2 ^ 8); [lia|]. apply Z.pow_le_mono_r; lia.
Qed.

Lemma bits_inj k k' :
  Forall is_byte k → Forall is_byte k' → length k = length k' →
  mjoin (Cert.byte_bits <$> k) = mjoin (Cert.byte_bits <$> k') → k = k'.
Proof.
  intros Hk. revert k'. induction Hk as [|a k Ha Hk IH]; intros [|b k'] Hk' Hl H; try done.
  apply Forall_cons in Hk' as [Hb Hk']. cbn [fmap list_fmap mjoin list_join] in H.
  apply app_inj_1 in H as [Hab H]; [|done]. f_equal; [by apply byte_bits_inj|]. apply IH; [done| |done]. by injection Hl.
Qed.

(** The characters of a group determine it. *)
Lemma letter_inj g g' : length g = 5%nat → length g' = 5%nat → Cert.letter g = Cert.letter g' → g = g'.
Proof.
  intros Hg Hg'. destruct g as [|a [|b [|c [|d [|e [|]]]]]]; try done.
  destruct g' as [|a' [|b' [|c' [|d' [|e' [|]]]]]]; try done. intros H.
  destruct a, b, c, d, e; destruct a', b', c', d', e'; (reflexivity || discriminate H).
Qed.

Lemma groups_length n bits : (length bits ≤ n)%nat →
  Forall (λ g, length g = 5%nat) (Cert.groups bits) ∧
  (5 * length (Cert.groups bits) - 5 < length bits ≤ 5 * length (Cert.groups bits) ∨ bits = [])%nat.
Proof.
  revert bits. induction n as [|n IH]; intros bits Hn; [destruct bits; [by repeat constructor|cbn in Hn; lia]|].
  destruct bits as [|a [|b [|c [|d [|e bits]]]]]; try (by repeat constructor); try (split; [by repeat constructor|left; cbn; lia]).
  cbn in Hn. destruct (IH bits) as [H1 H2]; [lia|]. cbn [Cert.groups]. split; [by constructor|]. left. cbn [length].
  destruct H2 as [H2| ->]; [lia|]. cbn. lia.
Qed.

Lemma groups_inj n bits bits' :
  (length bits ≤ n)%nat → length bits = length bits' → Cert.groups bits = Cert.groups bits' → bits = bits'.
Proof.
  revert bits bits'. induction n as [|n IH]; intros bits bits' Hn Hl H; [destruct bits, bits'; cbn in *; (done || lia)|].
  destruct bits as [|a [|b [|c [|d [|e bits]]]]], bits' as [|a' [|b' [|c' [|d' [|e' bits']]]]];
    try discriminate Hl; try (cbn in H; congruence).
  cbn [Cert.groups] in H. injection H as -> -> -> -> -> H. do 5 f_equal. cbn in Hn, Hl.
  apply IH; [lia|lia|done].
Qed.

Lemma string_of_list_length l : String.length (string_of_list_ascii l) = length l.
Proof. induction l as [|c l IH]; [done|]. cbn. by rewrite IH. Qed.

Lemma encode_length k :
  length (mjoin (Cert.byte_bits <$> k)) = (8 * length k)%nat ∧
  (5 * String.length (Cert.EncodeToString k) - 5 < 8 * length k ≤ 5 * String.length (Cert.EncodeToString k) ∨ k = [])%nat.
Proof.
  assert (length (mjoin (Cert.byte_bits <$> k)) = (8 * length k)%nat) as Hl.
  { induction k as [|a k IH]; [done|].
    change (length (Cert.byte_bits a ++ mjoin (Cert.byte_bits <$> k)) = (8 * S (length k))%nat).
    rewrite length_app, IH. change (length (Cert.byte_bits a)) with 8%nat. lia. }
  split; [done|]. unfold Cert.EncodeToString. rewrite string_of_list_length, length_fmap.
  destruct (groups_length _ (mjoin (Cert.byte_bits <$> k)) (le_n _)) as [_ [H|H]]; [left; lia|right].
  rewrite H in Hl. destruct k; [done|cbn in Hl; lia].
Qed.

(** Keys of 32 bytes have different names. *)
Lemma encode_inj k k' :
  Forall is_byte k → Forall is_byte k' → length k = length k' →
  Cert.EncodePubKeyToDNS k = Cert.EncodePubKeyToDNS k' → k = k'.
Proof.
  intros Hk Hk' Hl [= H]. change (Cert.EncodeToString k = Cert.EncodeToString k') in H. apply (f_equal list_ascii_of_string) in H. unfold Cert.EncodeToString in H. rewrite !list_ascii_of_string_of_list_ascii in H.
  apply bits_inj; [done..|]. assert (length (mjoin (Cert.byte_bits <$> k)) = length (mjoin (Cert.byte_bits <$> k'))) as Hlb
    by (rewrite !(proj1 (encode_length _)); lia).
  eapply groups_inj; [reflexivity|done|].
  pose proof (proj1 (groups_length _ (mjoin (Cert.byte_bits <$> k)) (le_n _))) as F.
  pose proof (proj1 (groups_length _ (mjoin (Cert.byte_bits <$> k')) (le_n _))) as F'.
  revert H F F'. generalize (Cert.groups (mjoin (Cert.byte_bits <$> k'))).
  induction (Cert.groups (mjoin (Cert.byte_bits <$> k))) as [|g gs IH]; intros [|g' gs'] H F F'; try done.
  cbn [fmap list_fmap] in H. injection H as Hg H. apply Forall_cons in F as [? F]. apply Forall_cons in F' as [? F'].
  f_equal; [by apply letter_inj|by apply IH].
Qed.

Lemma validated now cert :
  Cert.ValidateCertificate now cert = Ok () →
  ∃ k, Cert.PublicKey cert = Some k ∧ length k = 32%nat ∧ Cert.DNSNames cert = [Cert.EncodePubKeyToDNS k] ∧
    Cert.IsPureEd25519 cert = true ∧ Cert.NotBefore cert ≤ now ≤ Cert.NotAfter cert.
Proof.
  unfold Cert.ValidateCertificate. destruct (Cert.IsPureEd25519 cert); [|done]. cbn [negb].
  destruct (Cert.PublicKey cert) as [k|]; [|done]. destruct (Cert.DNSNames cert) as [|x [|]]; [done| |done].
  destruct (Nat.eqb_spec (String.length x) 53) as [Hl|]; [|done]. cbn [negb orb]. destruct (String.prefix _ _); [|done].
  cbn [negb]. destruct (String.eqb_spec x (Cert.EncodePubKeyToDNS k)) as [->|]; [|done]. cbn [negb].
  destruct (Z.ltb_spec now (Cert.NotBefore cert)); [done|]. destruct (Z.ltb_spec (Cert.NotAfter cert) now); [done|].
  intros _. exists k. split_and!; [done| |done|done|lia|lia].
  change (S (String.length (Cert.EncodeToString k)) = 53%nat) in Hl. destruct (encode_length k) as [_ [Hk| ->]]; [lia|done].
Qed.

(** Names stand for keys: a certificate that is accepted carries a key of 32
    bytes, and two accepted certificates with the same names carry the same key. *)
Theorem certificate_names now now' cert cert' :
  Cert.ValidateCertificate now cert = Ok () → Cert.ValidateCertificate now' cert' = Ok () →
  (∀ k, Cert.PublicKey cert = Some k ∨ Cert.PublicKey cert' = Some k → Forall is_byte k) →
  (∃ k, Cert.ExtractPublicKey cert = Ok k ∧ length k = 32%nat) ∧
  (Cert.DNSNames cert = Cert.DNSNames cert' → Cert.ExtractPublicKey cert = Cert.ExtractPublicKey cert').
Proof.
  intros (k & Hk & Hl & Hd & _)%validated (k' & Hk' & Hl' & Hd' & _)%validated Hb.
  unfold Cert.ExtractPublicKey. rewrite Hk, Hk', Hd, Hd'. split; [by exists k|]. intros H.
  f_equal. apply encode_inj; [auto..|lia|]. by apply (inj (λ x, [x])) in H.
Qed.

(** ** Block requests *)

(** A stream of an unbroken connection: what the peer writes until it closes its
    direction, what was written here, and whether this direction is closed. *)
Class ReliableQuic (q : Quic) (inbox outbox : QStream q → list Z) (fin : QStream q → bool) : Prop := {
  quic_write s b : fin s = false → ∃ s', QWrite q s b = (s', Ok ()) ∧ inbox s' = inbox s ∧
    outbox s' = outbox s ++ b ∧ fin s' = false;
  quic_read s b rest : inbox s = b ++ rest → ∃ s', QReadFull q s (len b) = (s', Ok b) ∧ inbox s' = rest ∧
    outbox s' = outbox s ∧ fin s' = fin s;
  quic_close s : ∃ s', QClose q s = (s', Ok ()) ∧ inbox s' = inbox s ∧ outbox s' = outbox s;
}.

(** A message on the wire. *)
Definition frame (content : list Z) : list Z := Z_to_little_endian 4 8 (len content) ++ content.

Section exchange.
Context (q : Quic) (inbox outbox : QStream q → list Z) (fin : QStream q → bool) `{!ReliableQuic q inbox outbox fin}.

Lemma write_message s content :
  fin s = false → len content < 2 ^ 32 →
  ∃ s', WriteMessageWithContext q None s content = (s', Ok ()) ∧ inbox s' = inbox s ∧
    outbox s' = outbox s ++ frame content ∧ fin s' = false.
Proof using Type*.
  intros Hf Hl. unfold WriteMessageWithContext. rewrite uint32_small by (unfold len in *; lia).
  destruct (quic_write s (Z_to_little_endian 4 8 (len content)) Hf) as (s1 & -> & Hi1 & Ho1 & Hf1).
  destruct (quic_write s1 content Hf1) as (s2 & -> & Hi2 & Ho2 & Hf2). exists s2.
  split_and!; [done|congruence| |done]. rewrite Ho2, Ho1. unfold frame. by rewrite app_assoc.
Qed.

Lemma read_message s content rest :
  inbox s = frame content ++ rest → len content < 2 ^ 32 →
  ∃ s', ReadMessageWithContext q None s = (s', Ok (MkMessage (len content) content)) ∧ inbox s' = rest ∧
    outbox s' = outbox s ∧ fin s' = fin s.
Proof using Type*.
  intros Hi Hl. unfold ReadMessageWithContext, frame in *. rewrite <- app_assoc in Hi.
  destruct (quic_read s _ _ Hi) as (s1 & Hr & Hi1 & Ho1 & Hf1).
  assert (len (Z_to_little_endian 4 8 (len content)) = 4) as H4
    by (unfold len; by rewrite length_Z_to_little_endian).
  rewrite H4 in Hr. rewrite Hr. rewrite little_endian_to_Z_to_little_endian by lia.
  rewrite Z.mod_small by (unfold len in *; lia).
  destruct (quic_read s1 content rest Hi1) as (s2 & -> & Hi2 & Ho2 & Hf2). exists s2. split_and!; [done|done|congruence..].
Qed.
End exchange.

Definition request_bytes (start : Hash) (ascending : bool) (maxBlocks : Z) : list Z :=
  start ++ [if ascending then 0 else 1] ++ Z_to_little_endian 4 8 maxBlocks.

Lemma marshal_uint32 n : inU 32 n → Marshal (TPrim false Uint32) (VNum n) = Ok (Z_to_little_endian 4 8 n).
Proof.
  intros Hn. change (Marshal (TPrim false Uint32) (VNum n)) with (@Ok jam_error _ (serializeTrivialNatural n 4)).
  by rewrite serializeTrivialNatural_le by (unfold inU in *; lia).
Qed.

Lemma unmarshal_uint32 n :
  inU 32 n → Unmarshal (TPrim false Uint32) (Z_to_little_endian 4 8 n) (zero_value (TPrim false Uint32)) = Ok (VNum n).
Proof.
  intros Hn. destruct (marshal_prim_roundtrip false Uint32 (VNum n) I Hn) as (bs & Hbs & Hdec).
  pose proof (marshal_uint32 n Hn) as E. unfold Marshal in E. rewrite E in Hbs. injection Hbs as <-.
  specialize (Hdec []). rewrite app_nil_r in Hdec. rewrite Unmarshal_prim.
  destruct (Z_to_little_endian 4 8 n) eqn:El; [|by rewrite Hdec].
  pose proof (length_Z_to_little_endian 4 8 n ltac:(lia)) as Hl. by rewrite El in Hl.
Qed.

Lemma request_content_ok start ascending maxBlocks :
  length start = 32%nat → inU 32 maxBlocks →
  request_content start ascending maxBlocks = Ok (request_bytes start ascending maxBlocks).
Proof.
  intros Hs Hm. unfold request_content. rewrite marshal_uint32 by done. cbn [map_err rbind]. f_equal. unfold request_bytes, go_copy.
  pose proof (length_Z_to_little_endian 4 8 maxBlocks ltac:(lia)) as Hl.
  rewrite !length_replicate, !take_ge, !drop_ge, !app_nil_r by (rewrite ?length_replicate; lia). done.
Qed.

Lemma len_request start ascending maxBlocks :
  length start = 32%nat → len (request_bytes start ascending maxBlocks) = 37.
Proof.
  intros Hs. unfold len, request_bytes. rewrite !length_app, Hs.
  pose proof (length_Z_to_little_endian 4 8 maxBlocks ltac:(lia)) as Hl. cbn [length]. lia.
Qed.

(** The list of blocks survives its encoding. *)
Lemma blocks_encoding blocks :
  Forall (λ b, block_typed b ∧ canonical b = b) blocks → inU 64 (len blocks) →
  ∃ response, Marshal blocks_type (blocks_value blocks) = Ok response ∧
    ∃ v, Unmarshal blocks_type response (zero_value blocks_type) = Ok v ∧
      (λ b, MkStored (header_of (part b 0)) (part b 1)) <$> elems v = blocks.
Proof.
  intros Hb Hl. assert (well_typed blocks_type (blocks_value blocks)) as Ht.
  { split; [|unfold len; by rewrite length_fmap]. apply Forall_fmap. eapply Forall_impl; [exact Hb|].
    intros b [[Hh He] _]. split; [exact Hh|]. by split_and!. }
  destruct (marshal_roundtrip blocks_type block_encodable _ Ht) as (response & Hr & Hdec). exists response.
  split; [done|]. exists (canon blocks_type (blocks_value blocks)). split.
  - assert (response ≠ []) as Hne by (intros ->; specialize (Hdec []); by vm_compute in Hdec).
    apply Unmarshal_fresh; [done|intros []|done|done].
  - change (elems (canon blocks_type (blocks_value blocks))) with (canon block_type <$> (block_value <$> blocks)).
    clear -Hb. induction Hb as [|b blocks [_ Hc] Hb IH]; [done|]. cbn [fmap list_fmap]. f_equal; [|exact IH].
    etransitivity; [apply canonical_of|exact Hc].
Qed.

(** The request and the answer, without the kind of the stream. *)
Lemma exchange_ok q inbox outbox fin p content HashData d c start b0 ascending maxBlocks :
  ReliableQuic q inbox outbox fin → PebbleLaws p content → content d = ∅ →
  rtc (appended p HashData) (MkChain p (Db.MkKVStore p d false) false) c →
  GetBlock p c start = Ok b0 → length start = 32%nat → 0 ≤ maxBlocks < 2 ^ 32 →
  let request := frame (request_bytes start ascending maxBlocks) in
  ∃ blocks response,
    GetBlockSequence p HashData (Z.to_nat maxBlocks + 2) c start ascending maxBlocks = Some (Ok blocks) ∧
    Marshal blocks_type (blocks_value blocks) = Ok response ∧ len request = 41 ∧
    (len response < 2 ^ 32 →
     (∀ server, inbox server = request → fin server = false → ∃ server',
        HandleStream q p HashData None c server = Some (server', Ok ()) ∧
        outbox server' = outbox server ++ frame response) ∧
     (∀ client, inbox client = frame response → fin client = false → ∃ client',
        RequestBlocks q None client start ascending maxBlocks = (client', Ok blocks) ∧
        outbox client' = outbox client ++ request)).
Proof.
  intros Hq Hp Hd Hr Hb Hstart Hmax request. subst request.
  pose proof (block_store_reachable p content HashData _ c (block_store_empty p content HashData d Hd) Hr) as Hs.
  destruct (GetBlockSequence_ok p content HashData c start b0 ascending maxBlocks Hp Hs Hb Hmax)
    as (blocks & Hseq & Hlen & Hblocks). exists blocks.
  assert (Forall (λ b, block_typed b ∧ canonical b = b) blocks) as Hty.
  { eapply Forall_impl; [apply (sequence_stored p HashData c start ascending); destruct ascending; apply Hblocks|].
    intros b [k Hk]. destruct (GetBlock_store p content HashData c k Hs) as [(b' & Hb' & _ & Hok)|Hn]; [|congruence].
    rewrite Hk in Hb'. by injection Hb' as ->. }
  destruct (blocks_encoding blocks Hty) as (response & Hresp & v & Hv & Hvb); [unfold inU, len in *; lia|].
  exists response. split_and!; [exact Hseq|exact Hresp| |].
  { pose proof (len_request start ascending maxBlocks Hstart) as H37. unfold frame. rewrite H37. unfold len in *.
    rewrite length_app. pose proof (length_Z_to_little_endian 4 8 37 ltac:(lia)). lia. }
  intros Hrl. pose proof (len_request start ascending maxBlocks Hstart) as H37. split.
  - intros server Hi Hf. unfold HandleStream. rewrite <- (app_nil_r (frame _)) in Hi.
    destruct (read_message q inbox outbox fin server _ [] Hi) as (s1 & -> & _ & Ho1 & Hf1); [lia|].
    cbn [Content]. rewrite H37. change (37 <? 37) with false. cbv iota.
    assert (take 4 (drop 33 (request_bytes start ascending maxBlocks)) = Z_to_little_endian 4 8 maxBlocks) as ->.
    { unfold request_bytes. rewrite app_assoc, drop_app_length' by (rewrite length_app; cbn; lia).
      apply take_ge. pose proof (length_Z_to_little_endian 4 8 maxBlocks ltac:(lia)). lia. }
    rewrite unmarshal_uint32 by done. cbn [map_err num_of].
    assert (take 32 (request_bytes start ascending maxBlocks) = start) as -> by (by apply take_app_length').
    assert ((default 0 (request_bytes start ascending maxBlocks !! 32%nat) =? 0) = ascending) as ->.
    { unfold request_bytes. rewrite lookup_app_r, Hstart by lia. by destruct ascending. }
    rewrite Hseq. unfold Marshal in Hresp |- *. rewrite Hresp. cbn [map_err].
    destruct (write_message q inbox outbox fin s1 response) as (s2 & -> & _ & Ho2 & _); [congruence|done|].
    destruct (quic_close (q:=q) s2) as (s3 & -> & _ & Ho3). exists s3. split; [done|]. by rewrite Ho3, Ho2, Ho1.
  - intros client Hi Hf. unfold RequestBlocks. rewrite request_content_ok by done.
    destruct (write_message q inbox outbox fin client (request_bytes start ascending maxBlocks))
      as (s1 & -> & Hi1 & Ho1 & _); [done|lia|].
    destruct (quic_close (q:=q) s1) as (s2 & -> & Hi2 & Ho2).
    destruct (read_message q inbox outbox fin s2 response []) as (s3 & -> & _ & Ho3 & _);
      [by rewrite app_nil_r, Hi2, Hi1|done|]. exists s3. cbn [Content]. rewrite Hv. cbn [map_err rbind]. rewrite Hvb.
    split; [done|]. by rewrite Ho3, Ho2, Ho1.
Qed.

Section kinds.
Context (q : Quic) (inbox outbox : QStream q → list Z) (fin : QStream q → bool) `{!ReliableQuic q inbox outbox fin}.

Lemma open_kind kind s :
  fin s = false → ∃ s', OpenStream q None kind s = (s', Ok ()) ∧ inbox s' = inbox s ∧
    outbox s' = outbox s ++ [uint8 kind] ∧ fin s' = false.
Proof using Type*.
  intros Hf. unfold OpenStream. destruct (quic_write s [uint8 kind] Hf) as (s' & -> & ?). by exists s'.
Qed.

Lemma accept_kind {H} (handlers : gmap Z H) s kind rest h :
  inbox s = kind :: rest → handlers !! kind = Some h →
  ∃ s', AcceptStream q handlers s = (s', Ok h) ∧ inbox s' = rest ∧ outbox s' = outbox s ∧ fin s' = fin s.
Proof using Type*.
  intros Hi Hh. unfold AcceptStream. destruct (quic_read s [kind] rest Hi) as (s' & Hr & ?).
  change (len [kind]) with 1 in Hr. rewrite Hr. unfold GetHandler. cbn [head default from_option id].
  rewrite Hh. by exists s'.
Qed.
End kinds.

(** C8: A block request between two nodes.  For every stored block that the request
    starts from, a node that knows the other one as a peer sends 42 bytes, the kind
    of the stream and the request; a node that accepts such a stream starts the
    handler of block requests, which answers with one message, the encoding of the
    blocks that [GetBlockSequence] finds, and ends without an error; and a requester
    that reads this answer returns just these blocks, unless the answer does not fit
    into a message of less than [2^32] bytes. *)
Theorem block_exchange q inbox outbox fin p content HashData d c start b0 ascending maxBlocks handlers :
  ReliableQuic q inbox outbox fin → PebbleLaws p content → content d = ∅ →
  rtc (appended p HashData) (MkChain p (Db.MkKVStore p d false) false) c →
  GetBlock p c start = Ok b0 → length start = 32%nat → 0 ≤ maxBlocks < 2 ^ 32 →
  handlers !! StreamKindBlockRequest = Some BlockRequestHandler →
  let request := StreamKindBlockRequest :: frame (request_bytes start ascending maxBlocks) in
  ∃ blocks response,
    GetBlockSequence p HashData (Z.to_nat maxBlocks + 2) c start ascending maxBlocks = Some (Ok blocks) ∧
    Marshal blocks_type (blocks_value blocks) = Ok response ∧ len request = 42 ∧
    (len response < 2 ^ 32 →
     (∀ server, inbox server = request → fin server = false → ∃ server1 server',
        AcceptStream q handlers server = (server1, Ok BlockRequestHandler) ∧
        HandleStream q p HashData None c server1 = Some (server', Ok ()) ∧
        outbox server' = outbox server ++ frame response) ∧
     (∀ n key peer open client,
        Peers.GetByEd25519Key key (Peers.peersSet n) = Some peer → open (Peers.ProtoConn peer) = Ok client →
        inbox client = frame response → fin client = false → ∃ client',
        NodeRequestBlocks q None open start ascending maxBlocks key n = (Some client', Ok blocks) ∧
        outbox client' = outbox client ++ request)).
Proof.
  intros Hq Hp Hd Hr Hb Hstart Hmax Hh request. subst request.
  destruct (exchange_ok q inbox outbox fin p content HashData d c start b0 ascending maxBlocks Hq Hp Hd Hr Hb Hstart Hmax)
    as (blocks & response & Hseq & Hm & Hlen & Hex). exists blocks, response.
  split_and!; [exact Hseq|exact Hm|unfold len in *; cbn [length]; lia|]. intros Hrl.
  destruct (Hex Hrl) as [Hserver Hclient]. split.
  - intros server Hi Hf. destruct (accept_kind q inbox outbox fin handlers server _ _ _ Hi Hh) as (s1 & Ha & Hi1 & Ho1 & Hf1).
    destruct (Hserver s1 Hi1) as (s2 & Hs & Ho2); [congruence|]. exists s1, s2. split_and!; [done..|]. congruence.
  - intros n key peer open client Hpeer Hopen Hi Hf. unfold NodeRequestBlocks. rewrite Hpeer, Hopen.
    destruct (open_kind q inbox outbox fin StreamKindBlockRequest client Hf) as (s1 & -> & Hi1 & Ho1 & Hf1).
    destruct (Hclient s1) as (s2 & -> & Ho2); [congruence|done|]. exists s2. split; [done|]. rewrite Ho2, Ho1.
    by rewrite <- app_assoc.
Qed.

(** A stream in memory. *)
Record pipe : Type := MkPipe { pipe_in : list Z; pipe_out : list Z; pipe_fin : bool }.
Definition memQuic : Quic := {|
  QStream := pipe;
  QWrite s b := if pipe_fin s then (s, Err (NetStream "closed"))
                else (MkPipe (pipe_in s) (pipe_out s ++ b) false, Ok ());
  QReadFull s n := if len (pipe_in s) <? n then (MkPipe [] (pipe_out s) (pipe_fin s), Err (NetStream "EOF"))
                   else (MkPipe (drop (Z.to_nat n) (pipe_in s)) (pipe_out s) (pipe_fin s),
                         Ok (take (Z.to_nat n) (pipe_in s)));
  QClose s := (MkPipe (pipe_in s) (pipe_out s) true, Ok ());
|}.

#[export] Instance memQuic_reliable : ReliableQuic memQuic pipe_in pipe_out pipe_fin.
Proof.
  split; cbn.
  - intros s b ->. by eexists.
  - intros s b rest H. rewrite H. destruct (Z.ltb_spec (len (b ++ rest)) (len b)) as [Hlt|_];
      [unfold len in Hlt; rewrite length_app in Hlt; lia|].
    unfold len. rewrite Nat2Z.id, take_app_length, drop_app_length. by eexists.
  - intros s. by eexists.
Qed.

Lemma four_blocks_response :
  (λ c, match GetBlock memPebble c (number 2), GetBlockSequence memPebble number_hash 9 c (number 2) true 7 with
        | Ok _, Some (Ok blocks) =>
            match Marshal blocks_type (blocks_value blocks) with Ok response => len response | _ => 2 ^ 32 end
        | _, _ => 2 ^ 32
        end) <$> four_blocks = Some 609.
Proof. vm_compute. reflexivity. Qed.

(** A node with one peer, whose connections give the stream [client]. *)
Definition one_peer : Peers.Node :=
  Peers.OnConnection (Peers.MkConn 1 [7] (Some "a")) (Peers.MkNode Peers.NewPeerSet []).

Lemma block_exchange_witness :
  ∃ c server1 server' client' blocks, rtc (appended memPebble number_hash) empty_chain c ∧
    AcceptStream memQuic {[StreamKindBlockRequest := BlockRequestHandler]}
      (MkPipe (StreamKindBlockRequest :: frame (request_bytes (number 2) true 7)) [] false) =
      (server1, Ok BlockRequestHandler) ∧
    HandleStream memQuic memPebble number_hash None c server1 = Some (server', Ok ()) ∧
    NodeRequestBlocks memQuic None (λ _, Ok (MkPipe (pipe_out server') [] false)) (number 2) true 7 [7] one_peer =
      (Some client', Ok blocks) ∧
    GetBlockSequence memPebble number_hash 9 c (number 2) true 7 = Some (Ok blocks).
Proof.
  pose proof four_blocks_response as Hl. unfold four_blocks in Hl.
  destruct (append_all _ empty_chain) as [c|] eqn:E; [|discriminate Hl]. cbn [fmap option_fmap option_map] in Hl.
  pose proof (append_all_rtc _ _ _ E) as Hr. destruct (GetBlock memPebble c (number 2)) as [b0| |] eqn:Hb; [|discriminate Hl..].
  destruct (block_exchange memQuic pipe_in pipe_out pipe_fin memPebble (λ d, d) number_hash ∅ c (number 2) b0 true 7
    {[StreamKindBlockRequest := BlockRequestHandler]}
    memQuic_reliable memPebble_laws eq_refl Hr Hb eq_refl ltac:(lia) (lookup_singleton_eq _ _)) as (blocks & response & Hseq & Hm & _ & Hex).
  change (Z.to_nat 7 + 2)%nat with 9%nat in Hseq. rewrite Hseq, Hm in Hl. injection Hl as Hl.
  destruct (Hex ltac:(rewrite Hl; lia)) as [Hserver Hclient].
  destruct (Hserver (MkPipe (StreamKindBlockRequest :: frame (request_bytes (number 2) true 7)) [] false) eq_refl eq_refl)
    as (server1 & server' & Ha & Hs & Ho).
  destruct (Hclient one_peer [7] (Peers.MkPeer 1 "a" [7] None) (λ _, Ok (MkPipe (frame response) [] false))
    (MkPipe (frame response) [] false) eq_refl eq_refl eq_refl eq_refl) as (client' & Hc & _).
  exists c, server1, server', client', blocks. split_and!; [done|exact Ha|exact Hs| |exact Hseq]. rewrite Ho. exact Hc.
Defined.

(** ** Peers *)

Section peers.
Import Peers.

(** The node after accepting connections one after the other. *)
Definition connected (n n' : Node) : Prop := ∃ conn, n' = OnConnection conn n.

(** Peers are found under their own key and address, and whoever is found by an
    address is the current peer of its key. *)
Record peers_ok (n : Node) : Prop := MkPeersOk {
  peers_key k peer : byEd25519Key (peersSet n) !! k = Some peer → Ed25519Key peer = k;
  peers_address a peer : byAddress (peersSet n) !! a = Some peer →
    Address peer = a ∧ byEd25519Key (peersSet n) !! Ed25519Key peer = Some peer;
  peers_index : byValidatorIndex (peersSet n) = ∅ ∧
    ∀ k peer, byEd25519Key (peersSet n) !! k = Some peer → ValidatorIndex peer = None;
}.

Lemma RemovePeer_ok k peer n ids :
  peers_ok n → byEd25519Key (peersSet n) !! k = Some peer → peers_ok (MkNode (RemovePeer peer (peersSet n)) ids).
Proof.
  intros [Hk Ha [Hi Hv]] Hp. pose proof (Hk _ _ Hp) as <-. split; cbn.
  - intros k' peer' [_ H]%lookup_delete_Some. by apply Hk.
  - intros a peer' [Hne H]%lookup_delete_Some. destruct (Ha _ _ H) as [<- Hcur]. split; [done|].
    apply lookup_delete_Some. split; [|done]. intros Heq. rewrite <- Heq, Hp in Hcur. by injection Hcur as ->.
  - rewrite (Hv _ _ Hp). split; [done|]. intros k' peer' [_ H]%lookup_delete_Some. by eapply Hv.
Qed.

Lemma AddPeer_ok peer n ids :
  peers_ok n → byEd25519Key (peersSet n) !! Ed25519Key peer = None → ValidatorIndex peer = None →
  peers_ok (MkNode (AddPeer peer (peersSet n)) ids).
Proof.
  intros [Hk Ha [Hi Hv]] Hnew Hvi. split; cbn.
  - intros k peer' [[<- <-]|[_ H]]%lookup_insert_Some; [done|by apply Hk].
  - intros a peer' [[<- <-]|[_ H]]%lookup_insert_Some; [by rewrite lookup_insert_eq|].
    destruct (Ha _ _ H) as [<- Hcur]. split; [done|]. rewrite lookup_insert_ne; [done|]. congruence.
  - rewrite Hvi. split; [done|]. intros k peer' [[<- <-]|[_ H]]%lookup_insert_Some; [done|by eapply Hv].
Qed.

Lemma OnConnection_ok conn n : peers_ok n → peers_ok (OnConnection conn n).
Proof.
  intros Hn. unfold OnConnection, GetByEd25519Key.
  set (n1 := match byEd25519Key (peersSet n) !! PeerKey conn with Some _ => _ | None => n end).
  assert (peers_ok n1 ∧ byEd25519Key (peersSet n1) !! PeerKey conn = None) as [Hn1 Hnone].
  { subst n1. destruct (byEd25519Key (peersSet n) !! PeerKey conn) as [peer|] eqn:E; [|done].
    split; [by eapply RemovePeer_ok|]. cbn. rewrite (peers_key _ Hn _ _ E). by rewrite lookup_delete_eq. }
  unfold NewPeer. destruct (RemoteAddr conn) as [a|].
  - by apply AddPeer_ok.
  - by destruct Hn1.
Qed.
End peers.

(** The set of peers.  After any sequence of connections, every peer is found
    under its own key, a peer that is found by an address has this address and is
    the one its key leads to; a connection from a UDP address is the peer of its key
    from then on, and the connection it replaces has been closed. *)
Theorem peer_set n :
  rtc connected (Peers.MkNode Peers.NewPeerSet []) n →
  (∀ k peer, Peers.GetByEd25519Key k (Peers.peersSet n) = Some peer → Peers.Ed25519Key peer = k) ∧
  (∀ a peer, Peers.GetByAddress a (Peers.peersSet n) = Some peer → Peers.Address peer = a ∧
     Peers.GetByEd25519Key (Peers.Ed25519Key peer) (Peers.peersSet n) = Some peer) ∧
  ∀ conn a, Peers.RemoteAddr conn = Some a →
    let n' := Peers.OnConnection conn n in
    ∃ peer, Peers.NewPeer conn = Some peer ∧
      Peers.GetByEd25519Key (Peers.PeerKey conn) (Peers.peersSet n') = Some peer ∧
      Peers.GetByAddress a (Peers.peersSet n') = Some peer ∧
      (∀ k, k ≠ Peers.PeerKey conn →
         Peers.GetByEd25519Key k (Peers.peersSet n') = Peers.GetByEd25519Key k (Peers.peersSet n)) ∧
      ∀ old, Peers.GetByEd25519Key (Peers.PeerKey conn) (Peers.peersSet n) = Some old →
        Peers.ProtoConn old ∈ Peers.closedConns n'.
Proof.
  intros Hr. assert (peers_ok n) as Hn.
  { assert (peers_ok (Peers.MkNode Peers.NewPeerSet [])) as H0 by done.
    induction Hr as [|x y z [conn ->] _ IH]; [done|]. by apply IH, OnConnection_ok. }
  split_and!; [apply Hn|apply Hn|]. intros conn a Ha n'. subst n'. unfold Peers.OnConnection, Peers.NewPeer. rewrite Ha.
  eexists. split; [done|]. unfold Peers.GetByEd25519Key.
  destruct (Peers.byEd25519Key (Peers.peersSet n) !! Peers.PeerKey conn) as [old|] eqn:E; cbn.
  - pose proof (peers_key _ Hn _ _ E) as Hk. unfold Peers.GetByAddress. cbn. rewrite !lookup_insert_eq. split_and!; [done..| |].
    + intros k Hne. rewrite lookup_insert_ne, lookup_delete_ne by congruence. done.
    + intros ? [= <-]. by left.
  - unfold Peers.GetByAddress. cbn. rewrite !lookup_insert_eq. split_and!; [done..| |done].
    intros k Hne. by rewrite lookup_insert_ne.
Qed.

Lemma peer_set_witness :
  let n := Peers.OnConnection (Peers.MkConn 1 [7] (Some "a")) (Peers.MkNode Peers.NewPeerSet []) in
  rtc connected (Peers.MkNode Peers.NewPeerSet []) n ∧
  1 ∈ Peers.closedConns (Peers.OnConnection (Peers.MkConn 2 [7] (Some "b")) n).
Proof.
  intros n. assert (rtc connected (Peers.MkNode Peers.NewPeerSet []) n) as Hr by (apply rtc_once; by eexists).
  split; [exact Hr|]. destruct (peer_set n Hr) as (_ & _ & H).
  destruct (H (Peers.MkConn 2 [7] (Some "b")) "b" eq_refl) as (peer & _ & _ & _ & _ & Hold).
  apply (Hold (Peers.MkPeer 1 "a" [7] None)). reflexivity.
Defined.

(** But a peer may be missing by its address: another key connects from the address
    of the first peer, which then moves to another address and takes the entry of
    the second one along. *)
Theorem peer_address_lost :
  ∃ n peer, rtc connected (Peers.MkNode Peers.NewPeerSet []) n ∧
    Peers.GetByEd25519Key [2] (Peers.peersSet n) = Some peer ∧
    Peers.GetByAddress (Peers.Address peer) (Peers.peersSet n) = None ∧
    Peers.ProtoConn peer ∉ Peers.closedConns n.
Proof.
  exists (Peers.OnConnection (Peers.MkConn 3 [1] (Some "y")) (Peers.OnConnection (Peers.MkConn 2 [2] (Some "x"))
    (Peers.OnConnection (Peers.MkConn 1 [1] (Some "x")) (Peers.MkNode Peers.NewPeerSet [])))),
    (Peers.MkPeer 2 "x" [2] None).
  split_and!; [|done|done|].
  - do 3 (eapply rtc_l; [by eexists|]). constructor.
  - apply (bool_decide_unpack _). vm_compute. exact I.
Qed.

(** ** From the handshake to the set of peers *)


(** Certificates survive the encoding, with times in whole seconds. *)
Definition x509_keeps (x509 : Cert.Certificate → list Z → res net_error Cert.Certificate) : Prop :=
  ∀ t key, x509 t key = Ok (Cert.MkCertificate (Cert.IsPureEd25519 t) (Cert.PublicKey t) (Cert.DNSNames t)
    (Cert.NotBefore t / 10 ^ 9 * 10 ^ 9) (Cert.NotAfter t / 10 ^ 9 * 10 ^ 9)).

(** A generated certificate is accepted from then on, until less than a second
    before its period ends. *)
Theorem generated_certificate x509 now1 now2 key priv period :
  x509_keeps x509 → length key = 32%nat →
  ∃ cert, Cert.GenerateCertificate x509 now1 now2 key priv period = Ok cert ∧
    ∀ now, now1 ≤ now ≤ now2 + period - 10 ^ 9 → Cert.ValidateCertificate now cert = Ok ().
Proof.
  intros Hx Hk. unfold Cert.GenerateCertificate. rewrite Hx. eexists. split; [done|]. intros now Hnow.
  unfold Cert.ValidateCertificate. cbn [Cert.IsPureEd25519 Cert.PublicKey Cert.DNSNames Cert.NotBefore Cert.NotAfter negb].
  assert (String.length (Cert.EncodePubKeyToDNS key) = 53%nat) as ->.
  { change (S (String.length (Cert.EncodeToString key)) = 53%nat). destruct (encode_length key) as [_ [H| ->]]; [lia|done]. }
  change (String.prefix Cert.DNSNamePrefix (Cert.EncodePubKeyToDNS key)) with (String.prefix "" (Cert.EncodeToString key)).
  destruct (Cert.EncodeToString key) eqn:E; cbn [String.prefix Nat.eqb negb orb]; rewrite String.eqb_refl; cbn [negb].
  all: pose proof (Z.div_mod now1 (10 ^ 9) ltac:(done)); pose proof (Z.mod_pos_bound now1 (10 ^ 9) ltac:(done)).
  all: pose proof (Z.div_mod (now2 + period) (10 ^ 9) ltac:(done));
    pose proof (Z.mod_pos_bound (now2 + period) (10 ^ 9) ltac:(done)).
  all: destruct (Z.ltb_spec now (now1 / 10 ^ 9 * 10 ^ 9)); [lia|].
  all: by destruct (Z.ltb_spec ((now2 + period) / 10 ^ 9 * 10 ^ 9) now); [lia|].
Qed.

(** A key, the certificate for it and a handshake. *)
Definition demo_key : list Z := replicate 31 5 ++ [200].
Definition demo_cert : Cert.Certificate :=
  Cert.MkCertificate true (Some demo_key) [Cert.EncodePubKeyToDNS demo_key] 0 1000.
Definition demo_state : Peers.ConnectionState := Peers.MkConnState [demo_cert] "jamnp-s/0/12345678/Builder".

Lemma certificate_names_witness :
  Cert.ValidateCertificate 10 demo_cert = Ok () ∧ ∃ k, Cert.ExtractPublicKey demo_cert = Ok k ∧ length k = 32%nat.
Proof.
  assert (Cert.ValidateCertificate 10 demo_cert = Ok ()) as Hv by (vm_compute; reflexivity).
  split; [exact Hv|]. apply (certificate_names 10 10 demo_cert demo_cert Hv Hv).
  intros k [[= <-]|[= <-]]; (apply Forall_app; split; [by apply Forall_replicate|by repeat constructor]).
Defined.


(** ** Starting a node *)

(** A node starts, if its block service does and its clock does not run for a day in
    between; it handles streams of block requests and no others, and it accepts the
    protocols that it offers. *)
Theorem node_starts x509 now1 now2 now3 edPub edPrv :
  x509_keeps x509 → length edPub = 32%nat → now1 ≤ now3 ≤ now2 + certValidityPeriod - 10 ^ 9 →
  ∃ node, NewNode x509 (Ok ()) now1 now2 now3 edPub edPrv = Ok node ∧
    (∀ kind, GetHandler (node_Handlers node) kind =
       if kind =? StreamKindBlockRequest then Ok BlockRequestHandler else Err (NetErr "no handler for kind")) ∧
    (λ protocol, Alpn.ValidateConnection (node_Config node) protocol) <$> Alpn.GetProtocols (node_Config node) = [Ok (); Ok ()].
Proof.
  intros Hx Hk Hnow. destruct (generated_certificate x509 now1 now2 edPub edPrv certValidityPeriod Hx Hk) as (cert & Hc & Hv).
  destruct (manager_protocols protoConfig) as [Hm Hp]; [done|]. unfold NewNode. rewrite Hc. cbn [rbind]. rewrite Hm.
  cbn [rbind]. unfold NewTransport. cbn [negb]. rewrite (Hv now3 Hnow). cbn [map_err rbind]. eexists. split; [done|].
  cbn [node_Handlers node_Config]. split; [|exact Hp]. intros kind. unfold GetHandler, RegisterHandler.
  destruct (Z.eqb_spec kind StreamKindBlockRequest) as [->|Hne]; [by rewrite lookup_insert_eq|].
  by rewrite lookup_insert_ne by congruence.
Qed.

(** The loop over the streams of a connection ends once the context is done or an
    inactivity timeout is reported, and not before. *)
Theorem streams_end accept turns i j :
  handleStreams turns accept i = Some j →
  (i ≤ j)%nat ∧ (∃ msg done_, accept j = AcceptError msg done_ ∧ (done_ = true ∨ isTimeoutError msg = true)) ∧
  ∀ k, (i ≤ k < j)%nat → match accept k with
                          | Accepted => True
                          | AcceptError msg done_ => done_ = false ∧ isTimeoutError msg = false
                          end.
Proof.
  revert i. induction turns as [|turns IH]; intros i H; [done|]. cbn [handleStreams] in H.
  destruct (accept i) as [|msg done_] eqn:E; [|destruct done_; [|destruct (isTimeoutError msg) eqn:Et]].
  2-3: injection H as <-; split_and!; [lia|by eauto|lia].
  all: apply IH in H as (Hle & Hend & Hbefore); split_and!; [lia|done|].
  all: intros k Hk; destruct (decide (k = i)) as [->|]; [by rewrite E|apply Hbefore; lia].
Qed.

(** A connection that the other side has closed keeps reporting an error that is
    neither: the context is that of the node, not of the connection, and the loop
    does not end. *)
Theorem streams_spin turns i :
  handleStreams turns (λ _, AcceptError "failed to accept QUIC stream: Application error 0x0 (remote)" false) i = None.
Proof. revert i. induction turns as [|turns IH]; intros i; [done|]. cbn [handleStreams]. apply IH. Qed.

(** ** Connecting, accepting, stopping *)

(** What QUIC promises of a connection it dialled: the check saw the encoding of
    the certificates it reports. *)
Definition dial_checks (dial : string → (list (list Z) → res net_error unit) → res net_error QuicConn)
    (parse : list Z → res net_error Cert.Certificate) : Prop :=
  ∀ addr verify conn, dial addr verify = Ok conn →
    ∃ raw raws cert certs, verify (raw :: raws) = Ok () ∧ parse raw = Ok cert ∧
      Peers.PeerCertificates (quic_State conn) = cert :: certs.

(** A node that connects to an address has, from then on, the peer of the key its
    certificate names, and refuses to dial the address of that peer again. *)
Theorem connected_peer dial parse now addr n conn a :
  dial_checks dial parse → Peers.GetByAddress addr (Peers.peersSet n) = None →
  dial addr (VerifyPeerCertificate parse now) = Ok conn → quic_RemoteAddr conn = Some a →
  ∃ key n', NodeConnectToPeer dial parse now addr n = Ok n' ∧ length key = 32%nat ∧
    Peers.GetByEd25519Key key (Peers.peersSet n') = Some (Peers.MkPeer (quic_id conn) a key None) ∧
    NodeConnectToPeer dial parse now a n' = Err (NetErr "peer already exists").
Proof.
  intros Hd Hn Hc Ha. destruct (Hd _ _ _ Hc) as (raw & raws & cert & certs & Hv & Hp & Hs).
  unfold VerifyPeerCertificate in Hv. rewrite (go_index_lookup _ 0 raw) in Hv by done. cbn [rbind] in Hv.
  rewrite Hp in Hv. cbn [map_err rbind] in Hv. apply map_err_Ok_inv in Hv.
  apply validated in Hv as (key & Hkey & Hl & _).
  unfold NodeConnectToPeer at 1, Peers.ConnectToPeer. rewrite Hn. cbn [rbind]. unfold Connect. rewrite Hc.
  cbn [map_err rbind]. unfold Peers.handleConnection, Cert.ExtractPublicKey. rewrite Hs, Hkey, Ha.
  eexists key, _. split_and!; [done|done| |].
  - unfold Peers.OnConnection, Peers.GetByEd25519Key. cbn. apply lookup_insert_eq.
  - unfold NodeConnectToPeer, Peers.OnConnection, Peers.ConnectToPeer, Peers.GetByAddress.
    cbn. by rewrite lookup_insert_eq.
Qed.

(** The accept loop returns in the turn in which it finds the context cancelled,
    and every connection accepted before is handled, in order. *)
Theorem accept_loop_stops {C} ctxDone (accept : nat → option C) ctxErr k i :
  (∀ j, (i ≤ j < i + k)%nat → ctxDone j = false ∧ (accept j = None → ctxErr j = false)) →
  ctxDone (i + k)%nat = true →
  acceptLoop (S k) ctxDone accept ctxErr i = Some (omap accept (seq i k)).
Proof.
  revert i. induction k as [|k IH]; intros i Hbefore Hk.
  - cbn. rewrite Nat.add_0_r in Hk. by rewrite Hk.
  - destruct (Hbefore i ltac:(lia)) as [Hd He].
    assert (acceptLoop (S k) ctxDone accept ctxErr (S i) = Some (omap accept (seq (S i) k))) as Hrec.
    { apply IH; [intros j Hj; apply Hbefore; lia|]. by replace (S i + k)%nat with (i + S k)%nat by lia. }
    remember (S k) as k' eqn:Ek. cbn [acceptLoop]. rewrite Hd, Hrec. subst k'. cbn [seq omap list_omap].
    destruct (accept i) as [c|]; [done|]. by rewrite He.
Qed.

(** A transport that was started and whose loop ends can be stopped; one that was
    not never returns from [Stop]. *)
Theorem stop_needs_start close :
  (∀ t listen, Start (Ok listen) (Some ()) NewTransportState = (t, Ok ()) →
     Stop (Ok ()) t = Some (MkTransport true true (Some (Some ())), Ok ())) ∧
  Stop close NewTransportState = None.
Proof. split; [|done]. by intros t listen [= <-]. Qed.
